(** * Reconciliation engine of the Alibaba Cloud provider: a shallow embedding

    The development follows the two source units of the repository:

    - package [route] (the route controller helpers: serialized route
      mutation, route-table resolution, CIDR containment, conflict
      detection, batch route application);
    - packages [nlbv2] and [clbv1] (the two model appliers: attribute,
      server-group and listener reconciliation, and the cleanup pass).

    Go values are modelled as the code has them: strings as [string],
    integers as [Z], bytes as [Z] in [0, 255] combined with [Z.land],
    [Z.lor] and [Z.lxor], Go's [(value, error)] pairs as pairs of options,
    pointers to shared model objects as references into an object store,
    and calls to collaborators (cloud provider, caches, recorders) as
    state-passing oracles whose invocations are recorded in a trace. *)

From Stdlib Require Import String Ascii List ZArith Bool Lia Arith PeanoNat.
From Stdlib Require Import Permutation.
From stdpp Require Import base gmap strings functions list.
Import ListNotations.
Open Scope string_scope.
Open Scope list_scope.

Set Default Proof Using "Type".

(** ** Go's [strings] package, as far as the sources use it *)

Module strings.

(** [strings.Contains(s, substr)]. *)
Fixpoint Contains (s substr : string) : bool :=
  String.prefix substr s ||
  match s with
  | EmptyString => false
  | String _ s' => Contains s' substr
  end.

(** [strings.Split(s, sep)] for a one-byte separator: [n] separators cut
    [s] into [n + 1] pieces, empty pieces included. *)
Fixpoint Split (s : string) (sep : ascii) : list string :=
  match s with
  | EmptyString => [EmptyString]
  | String c s' =>
      if Ascii.eqb c sep then EmptyString :: Split s' sep
      else match Split s' sep with
           | piece :: rest => String c piece :: rest
           | [] => [String c EmptyString]
           end
  end.

End strings.

(** ** Calls to collaborators: a writer over a state-passing oracle

    A computation of type [M W C A] runs against a collaborator state [W]
    (the simulated cloud, caches, recorders), returns a value and the next
    state, and lists the calls of type [C] it issued, oldest first. *)

Definition M (W C A : Type) : Type := W -> (A * W) * list C.

Definition ret {W C A} (a : A) : M W C A := fun w => ((a, w), []).

Definition bind {W C A B} (m : M W C A) (f : A -> M W C B) : M W C B :=
  fun w =>
    let '((a, w1), t1) := m w in
    let '((b, w2), t2) := f a w1 in
    ((b, w2), t1 ++ t2).

(** [call c f]: issue the collaborator call [c], answered by the oracle
    [f] on the current state. *)
Definition call {W C A} (c : C) (f : W -> A * W) : M W C A :=
  fun w => (f w, [c]).

(** [emit c]: a call without answer (a lock operation, a recorded event). *)
Definition emit {W C} (c : C) : M W C unit := fun w => ((tt, w), [c]).

Definition result {W C A} (r : (A * W) * list C) : A := fst (fst r).
Definition final {W C A} (r : (A * W) * list C) : W := snd (fst r).
Definition calls {W C A} (r : (A * W) * list C) : list C := snd r.

Declare Scope go_scope.
Delimit Scope go_scope with go.
Notation "'let!' x ':=' c 'in' k" := (bind c (fun x => k))
  (at level 10, x name, c at level 200, k at level 200, only parsing)
  : go_scope.
Notation "'let!' ' p ':=' c 'in' k" := (bind c (fun x => let 'p := x in k))
  (at level 10, p pattern, c at level 200, k at level 200, only parsing)
  : go_scope.
Open Scope go_scope.

Lemma calls_bind {W C A B} (m : M W C A) (f : A -> M W C B) (w : W) :
  calls (bind m f w) = calls (m w) ++ calls (f (result (m w)) (final (m w))).
Proof.
  unfold bind, calls, result, final.
  destruct (m w) as [[a w1] t1]. simpl.
  destruct (f a w1) as [[b w2] t2]. reflexivity.
Qed.

Lemma result_bind {W C A B} (m : M W C A) (f : A -> M W C B) (w : W) :
  result (bind m f w) = result (f (result (m w)) (final (m w))).
Proof.
  unfold bind, calls, result, final.
  destruct (m w) as [[a w1] t1]. simpl.
  destruct (f a w1) as [[b w2] t2]. reflexivity.
Qed.

Lemma final_bind {W C A B} (m : M W C A) (f : A -> M W C B) (w : W) :
  final (bind m f w) = final (f (result (m w)) (final (m w))).
Proof.
  unfold bind, calls, result, final.
  destruct (m w) as [[a w1] t1]. simpl.
  destruct (f a w1) as [[b w2] t2]. reflexivity.
Qed.

(** ** Go's [net] package for IPv4 networks

    The route controller handles IPv4 pod CIDRs; the model covers the
    dotted-decimal text form ["a.b.c.d/n"] and four-byte addresses and
    masks. Bytes are integers in [0, 255]. *)

Module net.

Definition IP := list Z.
Definition IPMask := list Z.

Record IPNet := mkIPNet { IPNet_IP : IP; IPNet_Mask : IPMask }.

(** Decimal digits of a string, most significant first; [None] when a
    byte is not a digit. *)
Definition digit (c : ascii) : option Z :=
  let n := Z.of_nat (nat_of_ascii c) in
  if (48 <=? n)%Z && (n <=? 57)%Z then Some (n - 48)%Z else None.

Fixpoint digits (s : string) (acc : Z) : option Z :=
  match s with
  | EmptyString => Some acc
  | String c s' =>
      match digit c with
      | Some d => digits s' (acc * 10 + d)%Z
      | None => None
      end
  end.

(** One field of a dotted-decimal address: at least one digit, no leading
    zero before another digit, value at most 255. *)
Definition parseOctet (s : string) : option Z :=
  match s with
  | EmptyString => None
  | String "0"%char (String _ _) => None
  | _ =>
      match digits s 0 with
      | Some v => if (v <=? 255)%Z then Some v else None
      | None => None
      end
  end.

(** The address part of [ParseCIDR]: exactly four fields. *)
Definition parseIPv4 (s : string) : option IP :=
  match strings.Split s "."%char with
  | [a; b; c; d] =>
      match parseOctet a, parseOctet b, parseOctet c, parseOctet d with
      | Some x, Some y, Some z, Some w => Some [x; y; z; w]
      | _, _, _, _ => None
      end
  | _ => None
  end.

(** The prefix part of [ParseCIDR] ([dtoi] with the range check): only
    digits, at least one, value at most 32. *)
Definition parsePrefix (s : string) : option Z :=
  match s with
  | EmptyString => None
  | _ =>
      match digits s 0 with
      | Some n => if (n <=? 32)%Z then Some n else None
      | None => None
      end
  end.

(** [CIDRMask(ones, 32)]: byte [i] of the mask with [ones] leading one
    bits. *)
Definition maskByte (ones i : Z) : Z :=
  let k := Z.min 8 (Z.max 0 (ones - 8 * i)) in
  Z.land (Z.shiftl 255 (8 - k)) 255.

Definition CIDRMask (ones : Z) : IPMask :=
  [maskByte ones 0; maskByte ones 1; maskByte ones 2; maskByte ones 3].

(** [ip.Mask(mask)]: byte-wise and. *)
Definition IP_Mask (ip : IP) (mask : IPMask) : IP :=
  zip_with Z.land ip mask.

(** Position of the first ["/"] ([bytealg.IndexByteString]). *)
Fixpoint cutSlash (s : string) : option (string * string) :=
  match s with
  | EmptyString => None
  | String c s' =>
      if Ascii.eqb c "/"%char then Some (EmptyString, s')
      else match cutSlash s' with
           | Some (a, m) => Some (String c a, m)
           | None => None
           end
  end.

(** [net.ParseCIDR(s)]: the network of the result ([None] is the parse
    error). The address is masked to its network number. *)
Definition ParseCIDR (s : string) : option IPNet :=
  match cutSlash s with
  | None => None
  | Some (addr, mask) =>
      match parseIPv4 addr, parsePrefix mask with
      | Some ip, Some n =>
          let m := CIDRMask n in
          Some (mkIPNet (IP_Mask ip m) m)
      | _, _ => None
      end
  end.

(** [n.Contains(ip)]: same length, and equal under the mask. *)
Fixpoint sameUnderMask (nn : IP) (m : IPMask) (ip : IP) : bool :=
  match nn, m, ip with
  | [], _, [] => true
  | a :: nn', k :: m', b :: ip' =>
      (Z.land a k =? Z.land b k)%Z && sameUnderMask nn' m' ip'
  | _, _, _ => false
  end.

Definition Contains (n : IPNet) (ip : IP) : bool :=
  (List.length ip =? List.length (IPNet_IP n))%nat
  && sameUnderMask (IPNet_IP n) (IPNet_Mask n) ip.

(** Decimal rendering of a natural number ([uitoa]). *)
Definition digitChar (d : nat) : ascii := ascii_of_nat (48 + d).

Fixpoint uitoaFuel (fuel n : nat) (acc : string) : string :=
  match fuel with
  | O => acc
  | S f =>
      let acc' := String (digitChar (n mod 10)) acc in
      if (n <? 10)%nat then acc' else uitoaFuel f (n / 10) acc'
  end.

Definition uitoa (n : nat) : string := uitoaFuel (S n) n EmptyString.

(** [simpleMaskLength(mask)]: the number of leading one bits when the mask
    is a run of ones followed by zeros, [-1] otherwise. *)
Definition leadingOnes (v : Z) : Z :=
  if (v =? 255)%Z then 8 else if (v =? 254)%Z then 7
  else if (v =? 252)%Z then 6 else if (v =? 248)%Z then 5
  else if (v =? 240)%Z then 4 else if (v =? 224)%Z then 3
  else if (v =? 192)%Z then 2 else if (v =? 128)%Z then 1
  else if (v =? 0)%Z then 0 else (-1).

Fixpoint simpleMaskLength (mask : IPMask) : Z :=
  match mask with
  | [] => 0
  | v :: rest =>
      if (v =? 255)%Z then
        let n := simpleMaskLength rest in
        if (n <? 0)%Z then (-1) else (8 + n)%Z
      else if (leadingOnes v <? 0)%Z then (-1)
      else if forallb (fun b => (b =? 0)%Z) rest then leadingOnes v
      else (-1)
  end.

(** Lower-case hexadecimal rendering of a mask ([IPMask.String]). *)
Definition hexDigit (d : Z) : ascii :=
  if (d <? 10)%Z then ascii_of_nat (48 + Z.to_nat d)
  else ascii_of_nat (87 + Z.to_nat d).

Fixpoint hexString (m : IPMask) : string :=
  match m with
  | [] => EmptyString
  | b :: rest => String (hexDigit (b / 16)) (String (hexDigit (b mod 16)) (hexString rest))
  end.

(** [ip.String()] for a four-byte address. *)
Definition IP_String (ip : IP) : string :=
  match ip with
  | [a; b; c; d] =>
      String.append (uitoa (Z.to_nat a)) (String.append "."
        (String.append (uitoa (Z.to_nat b)) (String.append "."
          (String.append (uitoa (Z.to_nat c)) (String.append "."
            (uitoa (Z.to_nat d)))))))
  | _ => String.append "?" (hexString ip)
  end.

(** [n.String()]: address, ["/"], and the prefix length (the mask in
    hexadecimal when it is not a run of ones). *)
Definition IPNet_String (n : IPNet) : string :=
  match IPNet_IP n, IPNet_Mask n with
  | [_; _; _; _], [_; _; _; _] =>
      let l := simpleMaskLength (IPNet_Mask n) in
      if (l =? -1)%Z then
        String.append (IP_String (IPNet_IP n))
          (String.append "/" (hexString (IPNet_Mask n)))
      else
        String.append (IP_String (IPNet_IP n))
          (String.append "/" (uitoa (Z.to_nat l)))
  | _, _ => "<nil>"
  end.

End net.

Example ParseCIDR_10_8 :
  net.ParseCIDR "10.0.0.0/8" = Some (net.mkIPNet [10; 0; 0; 0] [255; 0; 0; 0])%Z.
Proof. reflexivity. Qed.

Example ParseCIDR_host_bits :
  net.ParseCIDR "10.1.5.7/20" = Some (net.mkIPNet [10; 1; 0; 0] [255; 255; 240; 0])%Z.
Proof. reflexivity. Qed.

Example ParseCIDR_bad :
  net.ParseCIDR "10.1.5/20" = None /\ net.ParseCIDR "10.1.5.256/20" = None
  /\ net.ParseCIDR "10.1.5.0/33" = None /\ net.ParseCIDR "10.1.5.0" = None
  /\ net.ParseCIDR "10.01.5.0/8" = None.
Proof. repeat split; reflexivity. Qed.

Example IPNet_String_round :
  option_map net.IPNet_String (net.ParseCIDR "192.168.37.9/27") = Some "192.168.37.0/27".
Proof. reflexivity. Qed.

(** ** Package route *)

Module route.

(** *** Data *)

(** [v1.Node], restricted to the fields the route helpers read. *)
Record Node := mkNode {
  NodeName : string;
  ProviderID : string;            (* node.Spec.ProviderID *)
  PodCIDR : string;               (* node.Spec.PodCIDR *)
  Deleting : bool                 (* node.DeletionTimestamp != nil *)
}.

(** [model.Route]. [NodeReference] is a non-nil pointer wherever the
    helpers dereference it. *)
Record Route := mkRoute {
  RouteName : string;
  DestinationCIDR : string;
  ProviderId : string;
  NodeReference : Node
}.

(** [prvd.RouteUpdateStatus]: one status per entry of a batch call. *)
Record RouteUpdateStatus := mkStatus {
  StatusRoute : Route;
  Failed : bool;
  FailedCode : string;
  FailedMessage : string
}.

(** Errors built by the helpers. A provider error is the text returned by
    its [Error()] method. *)
Inductive error :=
| ErrProvider (msg : string)
| ErrWaitTimeout
| ErrCreateRouteForNode (providerID : string) (innerErr : option string)
| ErrGetVpcId (cause : string)
| ErrRouteTableNotFound (cause : string)
| ErrMultipleRouteTables (n : nat)
| ErrNoRouteTables
| ErrListingRoutes (cause : string)
| ErrParseClusterCIDR (cidr : string)
| ErrUnparsableCIDR (cidr : string).

(** Calls the route helpers issue: the package lock, the VPC provider, and
    the reconciler's collaborators. *)
Inductive Call :=
| Lock
| Unlock
| CreateRoute (table providerID cidr : string)
| FindRoute (table providerID cidr : string)
| DeleteRoute (table providerID cidr : string)
| ListRoute (table : string)
| CreateRoutes (table : string) (routes : list Route)
| DeleteRoutes (table : string) (routes : list Route)
| AddRouteForNode (table cidr providerID : string) (node : Node)
| UpdateNetworkingCondition (node : Node) (routeCreated : bool)
| CacheSetIfAbsent (name : string) (route : Route)
| CacheRemove (name : string)
| RateLimiterForget (name : string)
| RecordEvent (node : Node) (message : string)
| RequeueNode (node : Node).

(** *** getRouteTables *)

(** [vpcID] is the answer of [providerIns.VpcID()], [RouteTableIDS] the
    configured [CloudCFG.Global.RouteTableIDS], and [ListRouteTables] the
    cloud listing for a VPC. *)
Definition getRouteTables
    (vpcID : string * option string)
    (RouteTableIDS : string)
    (ListRouteTables : string -> list string * option string)
  : option (list string) * option error :=
  match vpcID with
  | (_, Some err) => (None, Some (ErrGetVpcId err))
  | (vpcId, None) =>
      if negb (String.eqb RouteTableIDS "") then
        (Some (strings.Split RouteTableIDS ","%char), None)
      else
        match ListRouteTables vpcId with
        | (_, Some err) => (None, Some (ErrRouteTableNotFound err))
        | (tables, None) =>
            if (1 <? List.length tables)%nat then
              (None, Some (ErrMultipleRouteTables (List.length tables)))
            else if (List.length tables =? 0)%nat then
              (None, Some ErrNoRouteTables)
            else (Some tables, None)
        end
  end.

(** *** containsRoute *)

(** The last address of a network: [cidr.IP[i] | ^cidr.Mask[i]] on bytes. *)
Definition lastIP (cidr : net.IPNet) : net.IP :=
  zip_with (fun b m => Z.lor b (Z.lxor m 255))
           (net.IPNet_IP cidr) (net.IPNet_Mask cidr).

(** [containsRoute(outside, insideRoute)] returns
    [(containsEqual, realContains, err)]; [outside = None] is the nil
    network. *)
Definition containsRoute (outside : option net.IPNet) (insideRoute : string)
  : bool * bool * option error :=
  match outside with
  | None => (true, true, None)
  | Some out =>
      match net.ParseCIDR insideRoute with
      | None => (false, false, Some (ErrUnparsableCIDR insideRoute))
      | Some cidr =>
          if String.eqb (net.IPNet_String out) insideRoute then
            (true, false, None)
          else if negb (net.Contains out (net.IPNet_IP cidr))
                  || negb (net.Contains out (lastIP cidr)) then
            (false, false, None)
          else (true, true, None)
      end
  end.

(** *** The serialized mutation guard *)

(** [createBackoff.Steps]; the delays (5s, factor 2, jitter 1) are not
    part of the model. *)
Definition createBackoff_Steps : nat := 3.

Section Provider.

(** The state of the collaborators and the oracles answering their
    calls. *)
Variable W : Type.
Variable providerCreateRoute :
  string -> string -> string -> W -> (option Route * option string) * W.
Variable providerFindRoute :
  string -> string -> string -> W -> (option Route * option string) * W.
Variable providerDeleteRoute :
  string -> string -> string -> W -> option string * W.
Variable providerListRoute : string -> W -> (list Route * option string) * W.
Variable providerCreateRoutes :
  string -> list Route -> W ->
  (list string * list RouteUpdateStatus * option string) * W.
Variable providerDeleteRoutes :
  string -> list Route -> W -> (list RouteUpdateStatus * option string) * W.

(** Helpers of the package that are not part of the translated unit. *)
Variable getIPv4RouteForNode :
  Node -> option net.IPNet * string * option string.
Variable HasExcludeLabel : Node -> bool.
Variable ReadyConditionUnknown : Node -> bool.
Variable addRouteForNode :
  string -> string -> string -> Node -> list Route -> W -> option string * W.
Variable updateNetworkingCondition : Node -> bool -> W -> option string * W.

Local Abbreviation Cmd := (M W Call).

(** The variables the backoff closure of createRouteForInstance
    captures. *)
Record vars := mkVars {
  route : option Route;
  innerErr : option string;
  findErr : option string
}.

(** The condition function passed to the backoff: one creation attempt. *)
Definition condition (table providerID cidr : string) (v : vars)
  : Cmd ((bool * option error) * vars) :=
  let! '(r, e) := call (CreateRoute table providerID cidr)
                       (providerCreateRoute table providerID cidr) in
  let v1 := mkVars r e (findErr v) in
  match e with
  | Some msg =>
      if strings.Contains msg "InvalidCIDRBlock.Duplicate" then
        let! '(r2, fe) := call (FindRoute table providerID cidr)
                               (providerFindRoute table providerID cidr) in
        let v2 := mkVars r2 e fe in
        match fe, r2 with
        | None, Some _ => ret ((true, None), v2)
        | _, _ => ret ((false, Some (ErrProvider msg)), v2)
        end
      else ret ((false, None), v1)
  | None => ret ((true, None), v1)
  end.

(** [wait.ExponentialBackoff(backoff, condition)]: the condition is tried
    until it succeeds or fails, at most [Steps] times. *)
Fixpoint ExponentialBackoff (steps : nat)
    (cond : vars -> Cmd ((bool * option error) * vars)) (v : vars)
  : Cmd (option error * vars) :=
  match steps with
  | O => ret (Some ErrWaitTimeout, v)
  | S k =>
      let! '((ok, err), v') := cond v in
      match err with
      | Some e => ret (Some e, v')
      | None =>
          if ok then ret (None, v')
          else ExponentialBackoff k cond v'
      end
  end.

Definition createRouteForInstance (table providerID cidr : string)
  : Cmd (option Route * option error) :=
  let! _ := emit Lock in
  let! '(err, v) := ExponentialBackoff createBackoff_Steps
                      (condition table providerID cidr)
                      (mkVars None None None) in
  let! _ := emit Unlock in
  match err with
  | Some _ => ret (None, Some (ErrCreateRouteForNode providerID (innerErr v)))
  | None => ret (route v, None)
  end.

Definition deleteRouteForInstance (table providerID cidr : string)
  : Cmd (option string) :=
  let! _ := emit Lock in
  let! err := call (DeleteRoute table providerID cidr)
                   (providerDeleteRoute table providerID cidr) in
  let! _ := emit Unlock in
  ret err.

Definition LockedCreateRoutes (table : string) (routes : list Route)
  : Cmd (list string * list RouteUpdateStatus * option string) :=
  let! _ := emit Lock in
  let! r := call (CreateRoutes table routes) (providerCreateRoutes table routes) in
  let! _ := emit Unlock in
  ret r.

Definition LockedDeleteRoutes (table : string) (routes : list Route)
  : Cmd (list RouteUpdateStatus * option string) :=
  let! _ := emit Lock in
  let! r := call (DeleteRoutes table routes) (providerDeleteRoutes table routes) in
  let! _ := emit Unlock in
  ret r.

(** *** Conflict detection and table synchronisation *)

Fixpoint conflictWithNodes (rt : Route) (nodes : list Node) : bool :=
  match nodes with
  | [] => false
  | node :: rest =>
      match getIPv4RouteForNode node with
      | (_, _, Some _) => conflictWithNodes rt rest
      | (None, _, None) => conflictWithNodes rt rest
      | (Some ipv4Cidr, _, None) =>
          match containsRoute (Some ipv4Cidr) (DestinationCIDR rt) with
          | (_, _, Some _) => conflictWithNodes rt rest
          | (equal, contains, None) =>
              if contains
                 || (equal && negb (String.eqb (ProviderId rt) (ProviderID node)))
              then true
              else conflictWithNodes rt rest
          end
      end
  end.

Definition needSyncRoute (node : Node) : bool :=
  if HasExcludeLabel node then false
  else if ReadyConditionUnknown node then false
  else if Deleting node then false
  else true.

(** The first loop of syncTableRoutes: conflicting routes inside the
    cluster CIDR are deleted; a failed deletion is logged and skipped. *)
Fixpoint deleteConflicts (clusterCIDR : option net.IPNet) (table : string)
    (nodes : list Node) (routes : list Route) : Cmd unit :=
  match routes with
  | [] => ret tt
  | rt :: rest =>
      match containsRoute clusterCIDR (DestinationCIDR rt) with
      | (_, _, Some _) => deleteConflicts clusterCIDR table nodes rest
      | (contains, _, None) =>
          if negb contains then deleteConflicts clusterCIDR table nodes rest
          else if conflictWithNodes rt nodes then
            let! _ := deleteRouteForInstance table (ProviderId rt)
                                             (DestinationCIDR rt) in
            deleteConflicts clusterCIDR table nodes rest
          else deleteConflicts clusterCIDR table nodes rest
      end
  end.

(** The second loop of syncTableRoutes: routes are added for the nodes
    that need one. *)
Fixpoint addRoutes (table : string) (routes : list Route)
    (nodes : list Node) : Cmd unit :=
  match nodes with
  | [] => ret tt
  | node :: rest =>
      if negb (needSyncRoute node) then addRoutes table routes rest
      else
        let prvdId := ProviderID node in
        if String.eqb prvdId "" then addRoutes table routes rest
        else
          match getIPv4RouteForNode node with
          | (_, _, Some _) => addRoutes table routes rest
          | (_, ipv4RouteCidr, None) =>
              if String.eqb ipv4RouteCidr "" then addRoutes table routes rest
              else
                let! err := call (AddRouteForNode table ipv4RouteCidr prvdId node)
                                 (addRouteForNode table ipv4RouteCidr prvdId
                                                  node routes) in
                match err with
                | Some _ => addRoutes table routes rest
                | None =>
                    let! _ := call (UpdateNetworkingCondition node true)
                                   (updateNetworkingCondition node true) in
                    addRoutes table routes rest
                end
          end
  end.

(** The cluster network as syncTableRoutes resolves it: the configured
    [ControllerCFG.ClusterCIDR] parsed, the nil network when nothing is
    configured; [None] is the parse error. *)
Definition clusterNet (ClusterCIDR : string) : option (option net.IPNet) :=
  if negb (String.eqb ClusterCIDR "") then
    match net.ParseCIDR ClusterCIDR with
    | Some n => Some (Some n)
    | None => None
    end
  else Some None.

Definition syncTableRoutes (ClusterCIDR : string) (table : string)
    (nodes : list Node) : Cmd (option error) :=
  let! '(routes, err) := call (ListRoute table) (providerListRoute table) in
  match err with
  | Some e => ret (Some (ErrListingRoutes e))
  | None =>
      match clusterNet ClusterCIDR with
      | None => ret (Some (ErrParseClusterCIDR ClusterCIDR))
      | Some clusterCIDR =>
          let! _ := deleteConflicts clusterCIDR table nodes routes in
          let! _ := addRoutes table routes nodes in
          ret None
      end
  end.

(** *** Batch application *)

(** The collaborators of the batch helpers answer nothing the helpers
    read, except the node condition update. *)
Definition handleAddStatus (table : string) (s : RouteUpdateStatus)
  : Cmd unit :=
  let failed1 :=
    if String.eqb (FailedCode s) "VPC_ROUTE_ENTRY_CIDR_BLOCK_DUPLICATE"
    then false else Failed s in
  let failed2 :=
    if String.eqb (FailedCode s) "VPC_ROUTE_ENTRY_STATUS_ERROR"
    then false else failed1 in
  let node := NodeReference (StatusRoute s) in
  if negb failed2 then
    let! err := call (UpdateNetworkingCondition node true)
                     (updateNetworkingCondition node true) in
    match err with
    | Some _ => ret tt
    | None =>
        let! _ := emit (CacheSetIfAbsent (NodeName node) (StatusRoute s)) in
        emit (RateLimiterForget (NodeName node))
    end
  else
    let! _ := emit (RecordEvent node (FailedMessage s)) in
    emit (RequeueNode node).

Fixpoint forEach {A} (f : A -> Cmd unit) (l : list A) : Cmd unit :=
  match l with
  | [] => ret tt
  | a :: rest => let! _ := f a in forEach f rest
  end.

Definition batchAddRoutes (table : string) (routes : list Route)
  : Cmd (option string) :=
  match routes with
  | [] => ret None
  | _ =>
      let! '(_, statuses, err) := LockedCreateRoutes table routes in
      match err with
      | Some e => ret (Some e)
      | None =>
          let! _ := forEach (handleAddStatus table) statuses in
          ret None
      end
  end.

Definition handleDeleteStatus (s : RouteUpdateStatus) : Cmd unit :=
  let failed1 :=
    if String.eqb (FailedCode s) "VPC_ROUTER_ENTRY_NOT_EXIST"
    then false else Failed s in
  let node := NodeReference (StatusRoute s) in
  if negb failed1 then
    let! _ := emit (CacheRemove (NodeName node)) in
    emit (RateLimiterForget (NodeName node))
  else emit (RequeueNode node).

Definition batchDeleteRoutes (table : string) (routes : list Route)
  : Cmd (option string) :=
  match routes with
  | [] => ret None
  | _ =>
      let! '(statuses, err) := LockedDeleteRoutes table routes in
      match err with
      | Some e => ret (Some e)
      | None =>
          let! _ := forEach handleDeleteStatus statuses in
          ret None
      end
  end.

(** ** Theorems of package route *)

(** *** Backoff *)







(** *** Batch application *)

(** The success path of a created entry, in the spec's words: the node
    condition is updated, then the route is cached and the rate limiter
    forgets the node. *)
Definition addSuccessPath (s : RouteUpdateStatus) : Cmd unit :=
  let node := NodeReference (StatusRoute s) in
  let! err := call (UpdateNetworkingCondition node true)
                   (updateNetworkingCondition node true) in
  match err with
  | Some _ => ret tt
  | None =>
      let! _ := emit (CacheSetIfAbsent (NodeName node) (StatusRoute s)) in
      emit (RateLimiterForget (NodeName node))
  end.

(** The success path of a deleted entry: cache removal and forget. *)
Definition deleteSuccessPath (s : RouteUpdateStatus) : Cmd unit :=
  let node := NodeReference (StatusRoute s) in
  let! _ := emit (CacheRemove (NodeName node)) in
  emit (RateLimiterForget (NodeName node)).

Definition ignorableOnCreate (code : string) : Prop :=
  code = "VPC_ROUTE_ENTRY_CIDR_BLOCK_DUPLICATE"
  \/ code = "VPC_ROUTE_ENTRY_STATUS_ERROR".

Definition ignorableOnDelete (code : string) : Prop :=
  code = "VPC_ROUTER_ENTRY_NOT_EXIST".

Lemma handleAddStatus_ignorable table s w :
  ignorableOnCreate (FailedCode s) ->
  handleAddStatus table s w = addSuccessPath s w.
Proof.
  intros [Hc|Hc]; unfold handleAddStatus, addSuccessPath; rewrite Hc;
    reflexivity.
Qed.

Lemma handleAddStatus_failed table s w :
  Failed s = true -> ~ ignorableOnCreate (FailedCode s) ->
  calls (handleAddStatus table s w)
  = [RecordEvent (NodeReference (StatusRoute s)) (FailedMessage s);
     RequeueNode (NodeReference (StatusRoute s))].
Proof.
  intros Hf Hn. unfold handleAddStatus, ignorableOnCreate in *.
  destruct (String.eqb_spec (FailedCode s) "VPC_ROUTE_ENTRY_CIDR_BLOCK_DUPLICATE")
    as [Heq|_]; [exfalso; apply Hn; left; exact Heq|].
  destruct (String.eqb_spec (FailedCode s) "VPC_ROUTE_ENTRY_STATUS_ERROR")
    as [Heq|_]; [exfalso; apply Hn; right; exact Heq|].
  rewrite Hf. reflexivity.
Qed.

Lemma handleDeleteStatus_ignorable s w :
  ignorableOnDelete (FailedCode s) ->
  handleDeleteStatus s w = deleteSuccessPath s w.
Proof.
  intros Hc. unfold handleDeleteStatus, deleteSuccessPath. rewrite Hc.
  reflexivity.
Qed.

Lemma handleDeleteStatus_failed s w :
  Failed s = true -> ~ ignorableOnDelete (FailedCode s) ->
  calls (handleDeleteStatus s w) = [RequeueNode (NodeReference (StatusRoute s))].
Proof.
  intros Hf Hn. unfold handleDeleteStatus, ignorableOnDelete in *.
  destruct (String.eqb_spec (FailedCode s) "VPC_ROUTER_ENTRY_NOT_EXIST")
    as [Heq|_]; [exfalso; apply Hn; exact Heq|].
  rewrite Hf. reflexivity.
Qed.

(** Every entry of a batch is handled: the calls of each one are part of
    the calls of the loop, whatever the other entries did. *)
Lemma forEach_handles_all {A} (f : A -> Cmd unit) (l : list A) :
  forall w a, In a l ->
    exists wa, incl (calls (f a wa)) (calls (forEach f l w)).
Proof.
  induction l as [|b l IH]; intros w a Hin; [destruct Hin|].
  simpl. destruct Hin as [->|Hin].
  - exists w. rewrite calls_bind. apply incl_appl, incl_refl.
  - destruct (IH (final (f b w)) a Hin) as [wa Hwa].
    exists wa. rewrite calls_bind. apply incl_appr.
    destruct (result (f b w)). exact Hwa.
Qed.

(** C7: in the batch helpers a created entry whose code is
    VPC_ROUTE_ENTRY_CIDR_BLOCK_DUPLICATE or VPC_ROUTE_ENTRY_STATUS_ERROR,
    and a deleted entry whose code is VPC_ROUTER_ENTRY_NOT_EXIST, follow
    the success path whatever their failed flag says; every other failed
    entry is requeued, and the batch call itself goes through all its
    entries and returns no error. *)
Theorem batch_ignorable_codes :
  forall (table : string),
    (forall s w, ignorableOnCreate (FailedCode s) ->
        handleAddStatus table s w = addSuccessPath s w)
    /\ (forall s w, ignorableOnDelete (FailedCode s) ->
        handleDeleteStatus s w = deleteSuccessPath s w)
    /\ (forall routes w ids statuses w',
        routes <> [] ->
        providerCreateRoutes table routes w = ((ids, statuses, None), w') ->
        result (batchAddRoutes table routes w) = None
        /\ calls (batchAddRoutes table routes w)
           = [Lock; CreateRoutes table routes; Unlock]
               ++ calls (forEach (handleAddStatus table) statuses w')
        /\ forall s, In s statuses ->
             Failed s = true -> ~ ignorableOnCreate (FailedCode s) ->
             In (RequeueNode (NodeReference (StatusRoute s)))
                (calls (batchAddRoutes table routes w)))
    /\ (forall routes w statuses w',
        routes <> [] ->
        providerDeleteRoutes table routes w = ((statuses, None), w') ->
        result (batchDeleteRoutes table routes w) = None
        /\ calls (batchDeleteRoutes table routes w)
           = [Lock; DeleteRoutes table routes; Unlock]
               ++ calls (forEach handleDeleteStatus statuses w')
        /\ forall s, In s statuses ->
             Failed s = true -> ~ ignorableOnDelete (FailedCode s) ->
             In (RequeueNode (NodeReference (StatusRoute s)))
                (calls (batchDeleteRoutes table routes w))).
Proof.
  intros table.
  split; [intros s w; apply handleAddStatus_ignorable|].
  split; [intros s w; apply handleDeleteStatus_ignorable|].
  split.
  - intros routes w ids statuses w' Hne Hc.
    assert (Hrun : batchAddRoutes table routes w
                   = ((None, final (forEach (handleAddStatus table) statuses w')),
                      [Lock; CreateRoutes table routes; Unlock]
                        ++ calls (forEach (handleAddStatus table) statuses w'))).
    { destruct routes as [|r routes]; [congruence|].
      unfold batchAddRoutes, LockedCreateRoutes, bind, emit, call, ret.
      rewrite Hc. simpl.
      destruct (forEach (handleAddStatus table) statuses w') as [[u w2] t].
      simpl. rewrite app_nil_r. reflexivity. }
    rewrite Hrun. repeat split.
    intros s Hin Hf Hn. unfold calls at 1. simpl. do 3 right.
    destruct (forEach_handles_all (handleAddStatus table) statuses w' s Hin)
      as [wa Hwa].
    apply Hwa. rewrite handleAddStatus_failed by assumption.
    right. left. reflexivity.
  - intros routes w statuses w' Hne Hc.
    assert (Hrun : batchDeleteRoutes table routes w
                   = ((None, final (forEach handleDeleteStatus statuses w')),
                      [Lock; DeleteRoutes table routes; Unlock]
                        ++ calls (forEach handleDeleteStatus statuses w'))).
    { destruct routes as [|r routes]; [congruence|].
      unfold batchDeleteRoutes, LockedDeleteRoutes, bind, emit, call, ret.
      rewrite Hc. simpl.
      destruct (forEach handleDeleteStatus statuses w') as [[u w2] t].
      simpl. rewrite app_nil_r. reflexivity. }
    rewrite Hrun. repeat split.
    intros s Hin Hf Hn. unfold calls at 1. simpl. do 3 right.
    destruct (forEach_handles_all handleDeleteStatus statuses w' s Hin)
      as [wa Hwa].
    apply Hwa. rewrite handleDeleteStatus_failed by assumption.
    left. reflexivity.
Qed.

(** *** Conflict detection *)

(** Containment as containsRoute tests it: the first and the last
    address of the inside network both fall inside the outside network. *)
Definition cidrWithin (outside inside : net.IPNet) : bool :=
  net.Contains outside (net.IPNet_IP inside)
  && net.Contains outside (lastIP inside).

(** Identity as containsRoute tests it: the text of the outside network
    is the route's destination text. *)
Definition cidrIdentical (outside : net.IPNet) (insideRoute : string) : bool :=
  String.eqb (net.IPNet_String outside) insideRoute.


(** A route is in scope when the cluster CIDR contains or equals it. *)
Definition inScope (clusterCIDR : option net.IPNet) (rt : Route) : bool :=
  match containsRoute clusterCIDR (DestinationCIDR rt) with
  | (contains, _, None) => contains
  | (_, _, Some _) => false
  end.

Definition deletionOf (table : string) (rt : Route) : list Call :=
  [Lock; DeleteRoute table (ProviderId rt) (DestinationCIDR rt); Unlock].

Definition isCreation (c : Call) : bool :=
  match c with
  | AddRouteForNode _ _ _ _ | UpdateNetworkingCondition _ _ => true
  | _ => false
  end.

Lemma containsRoute_cases (out : net.IPNet) (text : string) :
  match net.ParseCIDR text with
  | None => containsRoute (Some out) text
            = (false, false, Some (ErrUnparsableCIDR text))
  | Some inside =>
      containsRoute (Some out) text
      = if cidrIdentical out text then (true, false, None)
        else (cidrWithin out inside, cidrWithin out inside, None)
  end.
Proof.
  unfold containsRoute, cidrIdentical, cidrWithin.
  destruct (net.ParseCIDR text) as [inside|]; [|reflexivity].
  destruct (String.eqb _ text); [reflexivity|].
  destruct (net.Contains out (net.IPNet_IP inside));
    destruct (net.Contains out (lastIP inside)); reflexivity.
Qed.



Lemma deleteConflicts_calls clusterCIDR table nodes routes :
  forall w,
    calls (deleteConflicts clusterCIDR table nodes routes w)
    = flat_map (deletionOf table)
        (List.filter (fun rt => inScope clusterCIDR rt
                                && conflictWithNodes rt nodes) routes).
Proof.
  induction routes as [|rt routes IH]; intros w; [reflexivity|].
  simpl. unfold inScope.
  destruct (containsRoute clusterCIDR (DestinationCIDR rt))
    as [[contains real] [err|]]; simpl; [apply IH|].
  destruct contains; simpl; [|apply IH].
  destruct (conflictWithNodes rt nodes); simpl; [|apply IH].
  rewrite calls_bind. rewrite IH.
  unfold deleteRouteForInstance, bind, emit, call, ret, calls. simpl.
  destruct (providerDeleteRoute table (ProviderId rt) (DestinationCIDR rt) w).
  reflexivity.
Qed.

Lemma addRoutes_calls table routes nodes :
  forall w, forallb isCreation (calls (addRoutes table routes nodes w)) = true.
Proof.
  induction nodes as [|node nodes IH]; intros w; [reflexivity|].
  simpl. destruct (needSyncRoute node); simpl; [|apply IH].
  destruct (String.eqb (ProviderID node) ""); [apply IH|].
  destruct (getIPv4RouteForNode node) as [[podNet podText] [err|]]; [apply IH|].
  destruct (String.eqb podText ""); [apply IH|].
  rewrite calls_bind, forallb_app. apply andb_true_intro. split; [reflexivity|].
  destruct (result _) as [e|]; [apply IH|].
  rewrite calls_bind, forallb_app. apply andb_true_intro. split; [reflexivity|].
  apply IH.
Qed.


(** *** Containment *)

(** C4 (amended): for outside 10.0.0.0/8 and inside 10.1.0.0/16
    containsRoute returns (containsEqual, realContains) = (true, true); for
    outside and inside both 10.0.0.0/8 it returns (true, false); for the
    nil outside it returns (true, true) on every inside; for CIDRs that are
    not textually identical both flags say whether the first and the last
    address of the inside CIDR fall within the outside network; an
    unparsable inside CIDR yields an error, and the deletion loop of
    syncTableRoutes skips such a route and goes on. *)
Theorem containsRoute_values :
  containsRoute (net.ParseCIDR "10.0.0.0/8") "10.1.0.0/16" = (true, true, None)
  /\ containsRoute (net.ParseCIDR "10.0.0.0/8") "10.0.0.0/8" = (true, false, None)
  /\ (forall inside, containsRoute None inside = (true, true, None))
  /\ (forall out text inside,
        net.ParseCIDR text = Some inside ->
        net.IPNet_String out <> text ->
        containsRoute (Some out) text
        = (cidrWithin out inside, cidrWithin out inside, None))
  /\ (forall out text,
        net.ParseCIDR text = None ->
        containsRoute (Some out) text
        = (false, false, Some (ErrUnparsableCIDR text)))
  /\ (forall out table nodes rt routes w,
        net.ParseCIDR (DestinationCIDR rt) = None ->
        deleteConflicts (Some out) table nodes (rt :: routes) w
        = deleteConflicts (Some out) table nodes routes w).
Proof.
  split; [reflexivity|]. split; [reflexivity|]. split; [reflexivity|].
  split; [|split].
  - intros out text inside Hp Hne.
    pose proof (containsRoute_cases out text) as Hc. rewrite Hp in Hc.
    rewrite Hc. unfold cidrIdentical.
    destruct (String.eqb_spec (net.IPNet_String out) text); [contradiction|].
    reflexivity.
  - intros out text Hp.
    pose proof (containsRoute_cases out text) as Hc. rewrite Hp in Hc.
    exact Hc.
  - intros out table nodes rt routes w Hp.
    cbn [deleteConflicts].
    pose proof (containsRoute_cases out (DestinationCIDR rt)) as Hc.
    rewrite Hp in Hc. rewrite Hc. reflexivity.
Qed.

End Provider.


(** *** Route-table resolution *)

(** C8 as stated fails: with a configured table list the cloud listing is
    never consulted, and two configured identifiers come back as two
    tables, without error. *)
Lemma getRouteTables_configured_pair :
  getRouteTables ("vpc-1", None) "vtb-a,vtb-b" (fun _ => ([], None))
  = (Some ["vtb-a"; "vtb-b"], None)
  /\ List.length ["vtb-a"; "vtb-b"] <> 1%nat.
Proof. split; [reflexivity|discriminate]. Qed.

(** C8 (amended): getRouteTables fails with the VPC error when the
    provider cannot tell its VPC, whatever is configured. With the VPC
    known and no table list configured, it either returns exactly one
    table identifier, the single table of the cloud listing, or fails,
    and it fails whenever the listing fails or yields zero tables or more
    than one. With the VPC known and a table list configured, it returns
    that list split at commas, without consulting the listing. *)
Theorem getRouteTables_single_or_error :
  forall vpc ids lst,
    (forall vpcId cause,
        vpc = (vpcId, Some cause) ->
        getRouteTables vpc ids lst = (None, Some (ErrGetVpcId cause)))
    /\ (ids = "" ->
        (exists t, getRouteTables vpc ids lst = (Some [t], None))
        \/ (exists e, getRouteTables vpc ids lst = (None, Some e)))
    /\ (ids = "" ->
        forall vpcId,
          vpc = (vpcId, None) ->
          (forall tables cause,
              lst vpcId = (tables, Some cause) ->
              getRouteTables vpc ids lst
              = (None, Some (ErrRouteTableNotFound cause)))
          /\ (forall tables,
                lst vpcId = (tables, None) ->
                List.length tables <> 1%nat ->
                exists e, getRouteTables vpc ids lst = (None, Some e))
          /\ (forall t,
                lst vpcId = ([t], None) ->
                getRouteTables vpc ids lst = (Some [t], None)))
    /\ (ids <> "" ->
        forall vpcId,
          vpc = (vpcId, None) ->
          forall lst',
            getRouteTables vpc ids lst'
            = (Some (strings.Split ids ","%char), None)).
Proof.
  intros vpc ids lst. split; [|split; [|split]].
  - intros vpcId cause ->. reflexivity.
  - intros ->. destruct vpc as [vpcId [cause|]].
    + right. eexists. reflexivity.
    + unfold getRouteTables. simpl.
      destruct (lst vpcId) as [tables [lerr|]].
      * right. eexists. reflexivity.
      * destruct tables as [|t [|t' rest]]; simpl.
        -- right. eexists. reflexivity.
        -- left. exists t. reflexivity.
        -- right. eexists. reflexivity.
  - intros -> vpcId ->. unfold getRouteTables. simpl. split; [|split].
    + intros tables cause ->. reflexivity.
    + intros tables -> Hlen.
      destruct tables as [|t [|t' rest]]; simpl.
      * eexists. reflexivity.
      * exfalso. apply Hlen. reflexivity.
      * eexists. reflexivity.
    + intros t ->. reflexivity.
  - intros Hne vpcId -> lst'. unfold getRouteTables.
    destruct (String.eqb_spec ids "") as [->|_]; [congruence|reflexivity].
Qed.

Lemma getRouteTables_single_or_error_witness :
  (exists e,
      getRouteTables ("vpc-1", None) "" (fun _ => (["vtb-a"; "vtb-b"], None))
      = (None, Some e))
  /\ getRouteTables ("", Some "metadata: timeout") "vtb-a,vtb-b"
       (fun _ => (["vtb-a"], None))
     = (None, Some (ErrGetVpcId "metadata: timeout")).
Proof.
  split.
  - apply (proj1 (proj2 (proj1 (proj2 (proj2
             (getRouteTables_single_or_error
                ("vpc-1", None) "" (fun _ => (["vtb-a"; "vtb-b"], None)))))
             eq_refl "vpc-1" eq_refl)) ["vtb-a"; "vtb-b"] eq_refl).
    discriminate.
  - apply (proj1 (getRouteTables_single_or_error
                    ("", Some "metadata: timeout") "vtb-a,vtb-b"
                    (fun _ => (["vtb-a"], None)))
             "" "metadata: timeout" eq_refl).
Defined.

(** *** A simulated cloud

    The state is the content of the route table. Creating a route whose
    CIDR is already present fails with the provider's duplicate error. *)



Definition simDeleteRoute (table providerID cidr : string) (w : list Route)
  : option string * list Route :=
  (None, List.filter (fun r => negb (String.eqb (DestinationCIDR r) cidr
                                     && String.eqb (ProviderId r) providerID)) w).

Definition simListRoute (table : string) (w : list Route)
  : (list Route * option string) * list Route := ((w, None), w).

(** A batch answer: one status per entry; an entry whose CIDR is present
    fails with the duplicate code, any other one is created. *)
Definition simCreateRoutes (table : string) (routes : list Route)
    (w : list Route)
  : (list string * list RouteUpdateStatus * option string) * list Route :=
  (([], map (fun r =>
               if existsb (fun r' => String.eqb (DestinationCIDR r')
                                                (DestinationCIDR r)) w
               then mkStatus r true "VPC_ROUTE_ENTRY_CIDR_BLOCK_DUPLICATE" "dup"
               else mkStatus r false "" "") routes, None), w ++ routes).

Definition simDeleteRoutes (table : string) (routes : list Route)
    (w : list Route)
  : (list RouteUpdateStatus * option string) * list Route :=
  ((map (fun r =>
           if existsb (fun r' => String.eqb (DestinationCIDR r')
                                            (DestinationCIDR r)) w
           then mkStatus r false "" ""
           else mkStatus r true "Forbidden.Operation" "denied") routes, None), w).

Definition simGetIPv4RouteForNode (node : Node)
  : option net.IPNet * string * option string :=
  match net.ParseCIDR (PodCIDR node) with
  | Some n => (Some n, net.IPNet_String n, None)
  | None => (None, "", if String.eqb (PodCIDR node) "" then None
                       else Some "invalid pod cidr")
  end.

Definition simAddRouteForNode (table cidr providerID : string) (node : Node)
    (cached : list Route) (w : list Route) : option string * list Route :=
  (None, w ++ [mkRoute "" cidr providerID node]).

Definition simUpdateNetworkingCondition (node : Node) (created : bool)
    (w : list Route) : option string * list Route := (None, w).

Definition nodeA : Node := mkNode "node-a" "cn-hangzhou.i-a" "10.1.0.0/16" false.
Definition nodeB : Node := mkNode "node-b" "cn-hangzhou.i-b" "10.2.0.0/16" false.
Definition routeOfB : Route := mkRoute "r-b" "10.1.5.0/24" "cn-hangzhou.i-b" nodeB.
Definition routeOfA : Route := mkRoute "r-a" "10.1.0.0/16" "cn-hangzhou.i-a" nodeA.

(** The example of the specification: node A owns 10.1.0.0/16 and the
    observed route 10.1.5.0/24 belongs to another instance. *)
Example conflict_of_contained_route :
  conflictWithNodes simGetIPv4RouteForNode routeOfB [nodeA] = true
  /\ conflictWithNodes simGetIPv4RouteForNode routeOfA [nodeA] = false.
Proof. split; reflexivity. Qed.

(** C4 as stated fails: for outside 10.0.0.0/8 and inside 10.1.0.0/16 the
    first result is true, not false. *)
Lemma containsRoute_strict_first_flag :
  containsRoute (net.ParseCIDR "10.0.0.0/8") "10.1.0.0/16" = (true, true, None)
  /\ containsRoute (net.ParseCIDR "10.0.0.0/8") "10.1.0.0/16"
     <> (false, true, None).
Proof. split; [reflexivity|discriminate]. Qed.

Lemma containsRoute_values_witness :
  containsRoute (net.ParseCIDR "10.0.0.0/8") "10.200.3.0/24"
  = (true, true, None)
  /\ containsRoute (net.ParseCIDR "10.0.0.0/8") "10.1.0.0/33"
     = (false, false, Some (ErrUnparsableCIDR "10.1.0.0/33")).
Proof.
  destruct (containsRoute_values (list Route) simDeleteRoute
              simGetIPv4RouteForNode)
    as (_ & _ & _ & Hin & Hbad & _).
  split.
  - apply (Hin (net.mkIPNet [10; 0; 0; 0] [255; 0; 0; 0])%Z "10.200.3.0/24"
               (net.mkIPNet [10; 200; 3; 0] [255; 255; 255; 0])%Z).
    + reflexivity.
    + discriminate.
  - apply (Hbad (net.mkIPNet [10; 0; 0; 0] [255; 0; 0; 0])%Z "10.1.0.0/33").
    reflexivity.
Defined.


Lemma batch_ignorable_codes_witness :
  result (batchAddRoutes (list Route) simCreateRoutes
            simUpdateNetworkingCondition "vtb-1" [routeOfA] [routeOfA]) = None
  /\ handleAddStatus (list Route) simUpdateNetworkingCondition "vtb-1"
       (mkStatus routeOfA true "VPC_ROUTE_ENTRY_CIDR_BLOCK_DUPLICATE" "dup")
       [routeOfA]
     = ((tt, [routeOfA]),
        [UpdateNetworkingCondition nodeA true;
         CacheSetIfAbsent "node-a" routeOfA; RateLimiterForget "node-a"]).
Proof.
  destruct (batch_ignorable_codes (list Route) simCreateRoutes simDeleteRoutes
              simUpdateNetworkingCondition "vtb-1")
    as (Hadd & _ & Hbatch & _).
  split.
  - apply (Hbatch [routeOfA] [routeOfA] []
             [mkStatus routeOfA true "VPC_ROUTE_ENTRY_CIDR_BLOCK_DUPLICATE" "dup"]
             [routeOfA; routeOfA]); [discriminate|reflexivity].
  - rewrite Hadd; [reflexivity|left; reflexivity].
Defined.

(** ** More of package route *)

(** *** findRoute *)

(** The errors of findRoute: its own, or the provider's passed through. *)
Inductive findRouteError :=
| ErrEmptyQueryCondition
| ErrFindRoute (msg : string).

(** The loop of findRoute over a non-empty cache: the first route that
    answers the query. *)
Fixpoint findCached (pvid cidr : string) (cachedRoutes : list Route)
  : option Route :=
  match cachedRoutes with
  | [] => None
  | route :: rest =>
      if negb (String.eqb pvid "") && negb (String.eqb cidr "") then
        if String.eqb (DestinationCIDR route) cidr
           && String.eqb (ProviderId route) pvid
        then Some route else findCached pvid cidr rest
      else if negb (String.eqb pvid "") then
        if String.eqb (ProviderId route) pvid
        then Some route else findCached pvid cidr rest
      else if negb (String.eqb cidr "") then
        if String.eqb (DestinationCIDR route) cidr
        then Some route else findCached pvid cidr rest
      else findCached pvid cidr rest
  end.

(** What a query asks of a route: every non-empty field is matched. *)
Definition answers (pvid cidr : string) (route : Route) : Prop :=
  (pvid <> "" -> ProviderId route = pvid)
  /\ (cidr <> "" -> DestinationCIDR route = cidr).

Section FindRoute.

Variable W : Type.
Variable providerFindRoute :
  string -> string -> string -> W -> (option Route * option string) * W.

Definition findRoute (table pvid cidr : string) (cachedRoutes : list Route)
  : M W Call (option Route * option findRouteError) :=
  if String.eqb pvid "" && String.eqb cidr "" then
    ret (None, Some ErrEmptyQueryCondition)
  else if negb (List.length cachedRoutes =? 0)%nat then
    ret (findCached pvid cidr cachedRoutes, None)
  else
    let! '(r, e) := call (FindRoute table pvid cidr)
                         (providerFindRoute table pvid cidr) in
    ret (r, option_map ErrFindRoute e).

Lemma findCached_Some pvid cidr cachedRoutes r :
  pvid <> "" \/ cidr <> "" ->
  findCached pvid cidr cachedRoutes = Some r ->
  exists before after,
    cachedRoutes = before ++ r :: after
    /\ answers pvid cidr r
    /\ forall q, In q before -> ~ answers pvid cidr q.
Proof.
  intros Hq. induction cachedRoutes as [|route rest IH]; intros Hf;
    [discriminate Hf|].
  cbn [findCached] in Hf.
  assert (Hstep : (answers pvid cidr route /\ Some route = Some r)
                  \/ (~ answers pvid cidr route
                      /\ findCached pvid cidr rest = Some r)).
  { unfold answers.
    destruct (String.eqb_spec pvid "") as [Hp|Hp];
      destruct (String.eqb_spec cidr "") as [Hc|Hc]; simpl in Hf.
    - destruct Hq; contradiction.
    - destruct (String.eqb_spec (DestinationCIDR route) cidr) as [He|He].
      + left. split; [split; [contradiction|auto]|exact Hf].
      + right. split; [intros [_ H]; auto|exact Hf].
    - destruct (String.eqb_spec (ProviderId route) pvid) as [He|He].
      + left. split; [split; [auto|contradiction]|exact Hf].
      + right. split; [intros [H _]; auto|exact Hf].
    - destruct (String.eqb_spec (DestinationCIDR route) cidr) as [He|He];
        destruct (String.eqb_spec (ProviderId route) pvid) as [He'|He'];
        simpl in Hf.
      + left. split; [split; auto|exact Hf].
      + right. split; [intros [H _]; auto|exact Hf].
      + right. split; [intros [_ H]; auto|exact Hf].
      + right. split; [intros [H _]; auto|exact Hf]. }
  destruct Hstep as [[Ha Heq]|[Hn Hrest]].
  - injection Heq as <-. exists [], rest. split; [reflexivity|].
    split; [exact Ha|]. intros q [].
  - destruct (IH Hrest) as (before & after & -> & Ha & Hb).
    exists (route :: before), after. split; [reflexivity|].
    split; [exact Ha|]. intros q [<-|Hin]; [exact Hn|apply Hb, Hin].
Qed.

Lemma findCached_None pvid cidr cachedRoutes :
  pvid <> "" \/ cidr <> "" ->
  findCached pvid cidr cachedRoutes = None ->
  forall q, In q cachedRoutes -> ~ answers pvid cidr q.
Proof.
  intros Hq. induction cachedRoutes as [|route rest IH]; intros Hf q Hin;
    [destruct Hin|].
  cbn [findCached] in Hf. unfold answers in *.
  destruct (String.eqb_spec pvid "") as [Hp|Hp];
    destruct (String.eqb_spec cidr "") as [Hc|Hc]; simpl in Hf.
  - destruct Hq; contradiction.
  - destruct (String.eqb_spec (DestinationCIDR route) cidr) as [He|He];
      [discriminate Hf|].
    destruct Hin as [<-|Hin]; [intros [_ H]; auto|apply IH; assumption].
  - destruct (String.eqb_spec (ProviderId route) pvid) as [He|He];
      [discriminate Hf|].
    destruct Hin as [<-|Hin]; [intros [H _]; auto|apply IH; assumption].
  - destruct (String.eqb_spec (DestinationCIDR route) cidr) as [He|He];
      destruct (String.eqb_spec (ProviderId route) pvid) as [He'|He'];
      simpl in Hf; try discriminate Hf;
      (destruct Hin as [<-|Hin]; [|apply IH; assumption]).
    + intros [H _]; auto.
    + intros [_ H]; auto.
    + intros [H _]; auto.
Qed.

(** X1: with a non-empty cache findRoute answers from the cache alone: it
    calls no provider and returns no error; the route it returns is the
    first cached route that matches every non-empty field of the query, and
    it returns nil exactly when no cached route does. *)
Theorem findRoute_from_cache :
  forall table pvid cidr cachedRoutes w,
    cachedRoutes <> [] ->
    pvid <> "" \/ cidr <> "" ->
    calls (findRoute table pvid cidr cachedRoutes w) = []
    /\ final (findRoute table pvid cidr cachedRoutes w) = w
    /\ snd (result (findRoute table pvid cidr cachedRoutes w)) = None
    /\ match fst (result (findRoute table pvid cidr cachedRoutes w)) with
       | Some r =>
           exists before after,
             cachedRoutes = before ++ r :: after
             /\ answers pvid cidr r
             /\ forall q, In q before -> ~ answers pvid cidr q
       | None => forall q, In q cachedRoutes -> ~ answers pvid cidr q
       end.
Proof.
  intros table pvid cidr cachedRoutes w Hne Hq.
  assert (Hrun : findRoute table pvid cidr cachedRoutes w
                 = ((findCached pvid cidr cachedRoutes, None, w), [])).
  { unfold findRoute.
    assert (String.eqb pvid "" && String.eqb cidr "" = false) as ->.
    { destruct (String.eqb_spec pvid ""); destruct (String.eqb_spec cidr "");
        try reflexivity. destruct Hq; contradiction. }
    destruct cachedRoutes as [|r0 rest]; [congruence|]. reflexivity. }
  rewrite Hrun. unfold calls, final, result. simpl.
  repeat split.
  destruct (findCached pvid cidr cachedRoutes) as [r|] eqn:Hf.
  - apply findCached_Some; assumption.
  - apply findCached_None; assumption.
Qed.

(** X2: a query with neither provider ID nor CIDR is refused before the
    cache or the provider is looked at; a query against an empty cache is
    one FindRoute call to the provider, whose route and error are returned
    as they come. *)
Theorem findRoute_empty_query_and_cache :
  (forall table cachedRoutes w,
      findRoute table "" "" cachedRoutes w
      = ((None, Some ErrEmptyQueryCondition, w), []))
  /\ (forall table pvid cidr w,
        pvid <> "" \/ cidr <> "" ->
        findRoute table pvid cidr [] w
        = ((fst (fst (providerFindRoute table pvid cidr w)),
            option_map ErrFindRoute
              (snd (fst (providerFindRoute table pvid cidr w))),
            snd (providerFindRoute table pvid cidr w)),
           [FindRoute table pvid cidr])).
Proof.
  split.
  - intros table cachedRoutes w. reflexivity.
  - intros table pvid cidr w Hq. unfold findRoute.
    assert (String.eqb pvid "" && String.eqb cidr "" = false) as ->.
    { destruct (String.eqb_spec pvid ""); destruct (String.eqb_spec cidr "");
        try reflexivity. destruct Hq; contradiction. }
    unfold bind, call, ret. simpl.
    destruct (providerFindRoute table pvid cidr w) as [[r e] w1]. reflexivity.
Qed.

End FindRoute.

Definition cacheExample : list Route :=
  [mkRoute "r-a" "10.1.4.0/24" "cn-hangzhou.i-a"
           (mkNode "node-a" "cn-hangzhou.i-a" "10.1.4.0/24" false);
   mkRoute "r-b" "10.1.5.0/24" "cn-hangzhou.i-b"
           (mkNode "node-b" "cn-hangzhou.i-b" "10.1.5.0/24" false)].

Lemma findRoute_from_cache_witness :
  calls (findRoute unit (fun _ _ _ w => ((None, Some "unreachable"), w))
           "vtb-1" "cn-hangzhou.i-b" "" cacheExample tt) = []
  /\ fst (result (findRoute unit (fun _ _ _ w => ((None, Some "unreachable"), w))
                    "vtb-1" "cn-hangzhou.i-b" "" cacheExample tt))
     = nth_error cacheExample 1.
Proof.
  pose proof (findRoute_from_cache unit
                (fun _ _ _ w => ((None, Some "unreachable"), w))
                "vtb-1" "cn-hangzhou.i-b" "" cacheExample tt) as H.
  destruct H as (Hc & _ & _ & _).
  - discriminate.
  - left. discriminate.
  - split; [exact Hc|reflexivity].
Defined.

Lemma findRoute_empty_query_and_cache_witness :
  findRoute unit (fun _ _ _ w => ((nth_error cacheExample 0, None), w))
    "vtb-1" "cn-hangzhou.i-a" "10.1.4.0/24" [] tt
  = ((nth_error cacheExample 0, None, tt),
     [FindRoute "vtb-1" "cn-hangzhou.i-a" "10.1.4.0/24"]).
Proof.
  apply (proj2 (findRoute_empty_query_and_cache unit
                  (fun _ _ _ w => ((nth_error cacheExample 0, None), w)))
           "vtb-1" "cn-hangzhou.i-a" "10.1.4.0/24" tt).
  left. discriminate.
Defined.

(** *** containsRoute: what strict containment means *)

Definition isByte (b : Z) : Prop := (0 <= b <= 255)%Z.

Lemma byte_high_bits b i : isByte b -> (8 <= i)%Z -> Z.testbit b i = false.
Proof.
  intros [Hlo Hhi] Hi.
  destruct (Z.eq_dec b 0%Z) as [->|Hnz]; [apply Z.bits_0|].
  apply Z.bits_above_log2; [exact Hlo|].
  assert (Z.log2 b < 8)%Z as Hlog; [|lia].
  apply Z.log2_lt_pow2; [lia|]. change (2 ^ 8)%Z with 256%Z. lia.
Qed.

Lemma testbit_255 i : (0 <= i)%Z -> Z.testbit 255%Z i = (i <? 8)%Z.
Proof.
  intros Hi. change 255%Z with (Z.ones 8).
  destruct (Z.ltb_spec i 8%Z).
  - apply Z.ones_spec_low. lia.
  - apply Z.ones_spec_high. lia.
Qed.

(** One byte: when the outside network sees the first and the last byte
    of the inside network alike, it sees every byte of the inside network
    as it sees the first. *)
Lemma byte_cover (o k f m b : Z) :
  isByte m -> isByte b ->
  Z.land f m = f ->
  Z.land o k = Z.land f k ->
  Z.land o k = Z.land (Z.lor f (Z.lxor m 255%Z)) k ->
  Z.land f m = Z.land b m ->
  Z.land o k = Z.land b k.
Proof.
  intros Hm Hb Hf Hfirst Hlast Hin.
  apply Z.bits_inj'. intros i Hi.
  apply (f_equal (fun z => Z.testbit z i)) in Hf, Hfirst, Hlast, Hin.
  rewrite !Z.land_spec in *. rewrite Z.lor_spec, Z.lxor_spec in Hlast.
  rewrite testbit_255 in Hlast by exact Hi.
  destruct (Z.ltb_spec i 8%Z) as [Hlow|Hhigh].
  - destruct (Z.testbit o i), (Z.testbit k i), (Z.testbit f i),
      (Z.testbit m i), (Z.testbit b i); simpl in *; congruence.
  - rewrite (byte_high_bits m i Hm Hhigh) in *.
    rewrite (byte_high_bits b i Hb Hhigh).
    destruct (Z.testbit o i), (Z.testbit k i), (Z.testbit f i);
      simpl in *; congruence.
Qed.

Lemma land_255_isByte a : isByte (Z.land a 255%Z).
Proof.
  unfold isByte.
  assert (Z.land a 255 = a mod 256)%Z as ->.
  { change 255%Z with (Z.ones 8). rewrite Z.land_ones by lia. reflexivity. }
  pose proof (Z.mod_pos_bound a 256%Z ltac:(reflexivity)). lia.
Qed.

Lemma maskByte_isByte ones i : isByte (net.maskByte ones i).
Proof. unfold net.maskByte. apply land_255_isByte. Qed.

Lemma digit_range c d : net.digit c = Some d -> (0 <= d <= 9)%Z.
Proof.
  unfold net.digit. intros H.
  destruct (_ && _) eqn:Hr; [|discriminate H]. injection H as <-.
  apply andb_prop in Hr as [H1 H2].
  apply Z.leb_le in H1, H2. lia.
Qed.

Lemma digits_ge s : forall acc v,
  net.digits s acc = Some v -> (0 <= acc)%Z -> (acc <= v)%Z.
Proof.
  induction s as [|c s IH]; intros acc v H Hacc; simpl in H.
  - injection H as <-. lia.
  - destruct (net.digit c) as [d|] eqn:Hd; [|discriminate H].
    apply digit_range in Hd. apply IH in H; lia.
Qed.

Lemma parseOctet_isByte s v : net.parseOctet s = Some v -> isByte v.
Proof.
  unfold net.parseOctet. intros H.
  assert (Hd : exists u, net.digits s 0 = Some u
                         /\ (if (u <=? 255)%Z then Some u else None) = Some v).
  { destruct s as [|c s]; [discriminate H|].
    destruct (net.digits (String c s) 0) as [u|] eqn:Hu.
    - exists u. split; [reflexivity|].
      destruct c as [[] [] [] [] [] [] [] []]; destruct s; try exact H;
        try discriminate H.
    - exfalso.
      destruct c as [[] [] [] [] [] [] [] []]; destruct s; discriminate H. }
  destruct Hd as (u & Hu & Hv).
  destruct (Z.leb_spec u 255); [|discriminate Hv]. injection Hv as <-.
  apply digits_ge in Hu; [|lia]. split; lia.
Qed.

Lemma parsePrefix_range s n : net.parsePrefix s = Some n -> (0 <= n <= 32)%Z.
Proof.
  unfold net.parsePrefix. intros H.
  destruct s as [|c s]; [discriminate H|].
  destruct (net.digits (String c s) 0) as [u|] eqn:Hu; [|discriminate H].
  destruct (Z.leb_spec u 32); [|discriminate H]. injection H as <-.
  apply digits_ge in Hu; [|lia]. lia.
Qed.

(** What ParseCIDR returns: four bytes, masked by the mask of a prefix
    length between 0 and 32. *)
Lemma ParseCIDR_shape text inside :
  net.ParseCIDR text = Some inside ->
  exists x y z w p,
    inside = net.mkIPNet (net.IP_Mask [x; y; z; w] (net.CIDRMask p))
                         (net.CIDRMask p)
    /\ isByte x /\ isByte y /\ isByte z /\ isByte w /\ (0 <= p <= 32)%Z.
Proof.
  unfold net.ParseCIDR. intros H.
  destruct (net.cutSlash text) as [[addr mask]|]; [|discriminate H].
  destruct (net.parseIPv4 addr) as [ip|] eqn:Hip; [|discriminate H].
  destruct (net.parsePrefix mask) as [p|] eqn:Hp; [|discriminate H].
  injection H as <-.
  unfold net.parseIPv4 in Hip.
  destruct (strings.Split addr ".") as [|a [|b [|c [|d [|e l]]]]];
    try discriminate Hip.
  destruct (net.parseOctet a) as [x|] eqn:Hx; [|discriminate Hip].
  destruct (net.parseOctet b) as [y|] eqn:Hy; [|discriminate Hip].
  destruct (net.parseOctet c) as [z|] eqn:Hz; [|discriminate Hip].
  destruct (net.parseOctet d) as [w|] eqn:Hw; [|discriminate Hip].
  injection Hip as <-.
  exists x, y, z, w, p. split; [reflexivity|].
  repeat split; eauto using parseOctet_isByte;
    try (eapply parseOctet_isByte; eassumption);
    apply parsePrefix_range in Hp; lia.
Qed.

Lemma land_idem a m : Z.land (Z.land a m) m = Z.land a m.
Proof. rewrite <- Z.land_assoc, Z.land_diag. reflexivity. Qed.

(** A network covers another one when it contains every address of the
    other one. *)
Definition covers (outer inner : net.IPNet) : Prop :=
  forall ip,
    Forall isByte ip -> net.Contains inner ip = true ->
    net.Contains outer ip = true.

(** The test on the first and the last address decides coverage. *)
Lemma cidrWithin_covers out text inside :
  net.ParseCIDR text = Some inside ->
  cidrWithin out inside = true -> covers out inside.
Proof.
  intros Hp Hw ip Hbytes Hin.
  destruct (ParseCIDR_shape _ _ Hp)
    as (x & y & z & w & p & -> & _ & _ & _ & _ & _).
  unfold cidrWithin, lastIP, net.Contains in *. simpl in *.
  destruct out as [oip omask]. simpl in *.
  apply andb_prop in Hw as [Hfirst Hlast].
  apply andb_prop in Hfirst as [Hlen Hfirst].
  apply andb_prop in Hlast as [_ Hlast].
  apply andb_prop in Hin as [Hlen' Hin].
  destruct ip as [|b0 [|b1 [|b2 [|b3 [|b4 ip]]]]]; try discriminate Hlen'.
  destruct oip as [|o0 [|o1 [|o2 [|o3 [|o4 oip]]]]]; try discriminate Hlen.
  destruct omask as [|k0 [|k1 [|k2 [|k3 omask]]]]; try discriminate Hfirst;
    simpl in Hfirst;
    try (rewrite ?andb_false_r in Hfirst; discriminate Hfirst).
  simpl in *.
  inversion Hbytes as [|? ? Hb0 Hr0]; subst.
  inversion Hr0 as [|? ? Hb1 Hr1]; subst.
  inversion Hr1 as [|? ? Hb2 Hr2]; subst.
  inversion Hr2 as [|? ? Hb3 _]; subst.
  repeat match goal with
         | H : (_ && _) = true |- _ => apply andb_prop in H as [? ?]
         | H : (_ =? _)%Z = true |- _ => apply Z.eqb_eq in H
         end.
  rewrite !land_idem in *.
  repeat (apply andb_true_intro; split); try reflexivity; apply Z.eqb_eq.
  all: eapply byte_cover;
    [apply maskByte_isByte|eassumption|apply land_idem|eassumption
    |eassumption|rewrite land_idem; assumption].
Qed.

(** X3: when containsRoute reports strict containment, the outside
    network contains every IPv4 address of the inside route, not only its
    first and its last one. *)
Theorem containsRoute_covers :
  forall out text inside ip,
    net.ParseCIDR text = Some inside ->
    containsRoute (Some out) text = (true, true, None) ->
    Forall isByte ip ->
    net.Contains inside ip = true ->
    net.Contains out ip = true.
Proof.
  intros out text inside ip Hp Hc Hbytes Hin.
  pose proof (containsRoute_cases out text) as Hcases. rewrite Hp in Hcases.
  rewrite Hcases in Hc.
  destruct (cidrIdentical out text); [discriminate Hc|].
  assert (Hw : cidrWithin out inside = true) by congruence.
  exact (cidrWithin_covers out text inside Hp Hw ip Hbytes Hin).
Qed.

Lemma containsRoute_covers_witness :
  net.Contains (net.mkIPNet [10; 0; 0; 0] [255; 0; 0; 0])%Z [10; 1; 2; 3]%Z
  = true.
Proof.
  apply (containsRoute_covers
           (net.mkIPNet [10; 0; 0; 0] [255; 0; 0; 0])%Z "10.1.0.0/16"
           (net.mkIPNet [10; 1; 0; 0] [255; 255; 0; 0])%Z [10; 1; 2; 3]%Z).
  - reflexivity.
  - reflexivity.
  - repeat constructor; unfold isByte; lia.
  - reflexivity.
Defined.

(** *** The canonical text of a network *)

Fixpoint hasChar (c : ascii) (s : string) : bool :=
  match s with
  | EmptyString => false
  | String d s' => Ascii.eqb d c || hasChar c s'
  end.

Lemma hasChar_app c a b :
  hasChar c (String.append a b) = hasChar c a || hasChar c b.
Proof.
  induction a as [|d a IH]; simpl; [reflexivity|].
  rewrite IH, orb_assoc. reflexivity.
Qed.

Lemma Split_whole sep a : hasChar sep a = false -> strings.Split a sep = [a].
Proof.
  induction a as [|d a IH]; simpl; intros H; [reflexivity|].
  apply orb_false_elim in H as [Hd Ha]. rewrite Hd, (IH Ha). reflexivity.
Qed.

Lemma Split_app sep a rest :
  hasChar sep a = false ->
  strings.Split (String.append a (String sep rest)) sep
  = a :: strings.Split rest sep.
Proof.
  induction a as [|d a IH]; simpl; intros H.
  - rewrite Ascii.eqb_refl. reflexivity.
  - apply orb_false_elim in H as [Hd Ha]. rewrite Hd, (IH Ha). reflexivity.
Qed.

Lemma cutSlash_app a b :
  hasChar "/" a = false ->
  net.cutSlash (String.append a (String "/" b)) = Some (a, b).
Proof.
  induction a as [|d a IH]; simpl; intros H; [reflexivity|].
  apply orb_false_elim in H as [Hd Ha]. rewrite Hd, (IH Ha). reflexivity.
Qed.

Lemma append_char c s : String.append (String c EmptyString) s = String c s.
Proof. reflexivity. Qed.

Lemma below (P : nat -> bool) (n : nat) :
  forallb P (seq 0 n) = true -> forall k, (k < n)%nat -> P k = true.
Proof.
  intros H k Hk. rewrite forallb_forall in H. apply H, in_seq. lia.
Qed.

(** The decimal text of a byte is read back as the byte and holds neither
    a dot nor a slash. *)
Definition octetRoundTrip (k : nat) : bool :=
  match net.parseOctet (net.uitoa k) with
  | Some v => (v =? Z.of_nat k)%Z
  | None => false
  end
  && negb (hasChar "." (net.uitoa k)) && negb (hasChar "/" (net.uitoa k)).

Lemma octet_round_trip b :
  isByte b ->
  net.parseOctet (net.uitoa (Z.to_nat b)) = Some b
  /\ hasChar "." (net.uitoa (Z.to_nat b)) = false
  /\ hasChar "/" (net.uitoa (Z.to_nat b)) = false.
Proof.
  intros [Hlo Hhi].
  assert (Hk : (Z.to_nat b < 256)%nat) by lia.
  pose proof (below octetRoundTrip 256 ltac:(vm_compute; reflexivity) _ Hk)
    as H.
  unfold octetRoundTrip in H.
  apply andb_prop in H as [H H3]. apply andb_prop in H as [H1 H2].
  apply negb_true_iff in H2, H3.
  destruct (net.parseOctet _) as [v|]; [|discriminate H1].
  apply Z.eqb_eq in H1. rewrite Z2Nat.id in H1 by lia. subst v.
  repeat split; assumption.
Qed.

(** The mask of a prefix length has that length, and the decimal text of
    the length is read back as the length. *)
Definition prefixRoundTrip (k : nat) : bool :=
  (net.simpleMaskLength (net.CIDRMask (Z.of_nat k)) =? Z.of_nat k)%Z
  && match net.parsePrefix (net.uitoa k) with
     | Some v => (v =? Z.of_nat k)%Z
     | None => false
     end.

Lemma prefix_round_trip p :
  (0 <= p <= 32)%Z ->
  net.simpleMaskLength (net.CIDRMask p) = p
  /\ net.parsePrefix (net.uitoa (Z.to_nat p)) = Some p.
Proof.
  intros Hp.
  assert (Hk : (Z.to_nat p < 33)%nat) by lia.
  pose proof (below prefixRoundTrip 33 ltac:(vm_compute; reflexivity) _ Hk)
    as H.
  unfold prefixRoundTrip in H. rewrite Z2Nat.id in H by lia.
  apply andb_prop in H as [H1 H2]. apply Z.eqb_eq in H1.
  destruct (net.parsePrefix _) as [v|]; [|discriminate H2].
  apply Z.eqb_eq in H2. subst v. split; [exact H1|reflexivity].
Qed.

Lemma land_isByte x m : isByte x -> isByte (Z.land x m).
Proof.
  intros [Hlo Hhi].
  assert (Hx : Z.land x 255 = x).
  { change 255%Z with (Z.ones 8). rewrite Z.land_ones by lia.
    apply Z.mod_small. change (2 ^ 8)%Z with 256%Z. lia. }
  rewrite <- Hx, <- Z.land_assoc, (Z.land_comm 255), Z.land_assoc.
  apply land_255_isByte.
Qed.

Lemma parseIPv4_IP_String a b c d :
  isByte a -> isByte b -> isByte c -> isByte d ->
  net.parseIPv4 (net.IP_String [a; b; c; d]) = Some [a; b; c; d]
  /\ hasChar "/" (net.IP_String [a; b; c; d]) = false.
Proof.
  intros Ha Hb Hc Hd.
  destruct (octet_round_trip a Ha) as (Pa & Da & Sa).
  destruct (octet_round_trip b Hb) as (Pb & Db & Sb).
  destruct (octet_round_trip c Hc) as (Pc & Dc & Sc).
  destruct (octet_round_trip d Hd) as (Pd & Dd & Sd).
  split.
  - unfold net.parseIPv4, net.IP_String.
    rewrite !append_char.
    rewrite !Split_app by assumption. rewrite Split_whole by assumption.
    rewrite Pa, Pb, Pc, Pd. reflexivity.
  - unfold net.IP_String. rewrite !hasChar_app. simpl.
    rewrite Sa, Sb, Sc, Sd. reflexivity.
Qed.

Lemma IPNet_String_prefix a b c d p :
  (0 <= p <= 32)%Z ->
  net.IPNet_String (net.mkIPNet [a; b; c; d] (net.CIDRMask p))
  = String.append (net.IP_String [a; b; c; d])
      (String.append "/" (net.uitoa (Z.to_nat p))).
Proof.
  intros Hp. destruct (prefix_round_trip p Hp) as [Hlen _].
  transitivity
    (if (net.simpleMaskLength (net.CIDRMask p) =? -1)%Z
     then String.append (net.IP_String [a; b; c; d])
            (String.append "/" (net.hexString (net.CIDRMask p)))
     else String.append (net.IP_String [a; b; c; d])
            (String.append "/"
               (net.uitoa (Z.to_nat (net.simpleMaskLength (net.CIDRMask p)))))).
  - reflexivity.
  - rewrite Hlen.
    assert ((p =? -1)%Z = false) as -> by (apply Z.eqb_neq; lia).
    reflexivity.
Qed.

(** The text of a parsed network parses back to the network. *)
Lemma ParseCIDR_IPNet_String text n :
  net.ParseCIDR text = Some n ->
  net.ParseCIDR (net.IPNet_String n) = Some n.
Proof.
  intros Hp.
  destruct (ParseCIDR_shape _ _ Hp)
    as (x & y & z & w & p & -> & Hx & Hy & Hz & Hw & Hrange).
  destruct (prefix_round_trip p Hrange) as [Hlen Hpre].
  change (net.IP_Mask [x; y; z; w] (net.CIDRMask p))
    with [Z.land x (net.maskByte p 0); Z.land y (net.maskByte p 1);
          Z.land z (net.maskByte p 2); Z.land w (net.maskByte p 3)].
  rewrite IPNet_String_prefix by exact Hrange.
  destruct (parseIPv4_IP_String
              (Z.land x (net.maskByte p 0)) (Z.land y (net.maskByte p 1))
              (Z.land z (net.maskByte p 2)) (Z.land w (net.maskByte p 3)))
    as [Hip Hslash]; try (apply land_isByte; assumption).
  unfold net.ParseCIDR. rewrite append_char.
  rewrite cutSlash_app by exact Hslash.
  rewrite Hip, Hpre. unfold net.IP_Mask, net.CIDRMask. cbn [zip_with].
  rewrite !land_idem. reflexivity.
Qed.

(** X4: the text of a parsed network is canonical: it parses back to the
    same network, and containsRoute finds a network and a route with that
    text identical, not strictly contained. *)
Theorem containsRoute_canonical_text :
  forall text n,
    net.ParseCIDR text = Some n ->
    net.ParseCIDR (net.IPNet_String n) = Some n
    /\ containsRoute (Some n) (net.IPNet_String n) = (true, false, None).
Proof.
  intros text n Hp.
  pose proof (ParseCIDR_IPNet_String text n Hp) as Hround.
  split; [exact Hround|].
  unfold containsRoute. rewrite Hround, String.eqb_refl. reflexivity.
Qed.

Lemma containsRoute_canonical_text_witness :
  net.ParseCIDR "192.168.37.0/27"
  = Some (net.mkIPNet [192; 168; 37; 0] [255; 255; 255; 224])%Z
  /\ containsRoute (Some (net.mkIPNet [192; 168; 37; 0] [255; 255; 255; 224])%Z)
                   "192.168.37.0/27" = (true, false, None).
Proof.
  apply (containsRoute_canonical_text "192.168.37.9/27"
           (net.mkIPNet [192; 168; 37; 0] [255; 255; 255; 224])%Z).
  reflexivity.
Defined.

(** *** The reconciler's loops *)

Definition isAddRouteForNode (c : Call) : bool :=
  match c with AddRouteForNode _ _ _ _ => true | _ => false end.

Section Reconciler.

Variable W : Type.
Variable providerDeleteRoute :
  string -> string -> string -> W -> option string * W.
Variable providerListRoute : string -> W -> (list Route * option string) * W.
Variable getIPv4RouteForNode :
  Node -> option net.IPNet * string * option string.
Variable HasExcludeLabel : Node -> bool.
Variable ReadyConditionUnknown : Node -> bool.
Variable addRouteForNode :
  string -> string -> string -> Node -> list Route -> W -> option string * W.
Variable updateNetworkingCondition : Node -> bool -> W -> option string * W.

Local Abbreviation sync :=
  (syncTableRoutes W providerDeleteRoute providerListRoute getIPv4RouteForNode
     HasExcludeLabel ReadyConditionUnknown addRouteForNode
     updateNetworkingCondition).
Local Abbreviation adds :=
  (addRoutes W getIPv4RouteForNode HasExcludeLabel ReadyConditionUnknown
     addRouteForNode updateNetworkingCondition).
Local Abbreviation deletes :=
  (deleteConflicts W providerDeleteRoute getIPv4RouteForNode).
Local Abbreviation needSync := (needSyncRoute HasExcludeLabel ReadyConditionUnknown).
Local Abbreviation conflict := (conflictWithNodes getIPv4RouteForNode).

(** The route request of a node: the AddRouteForNode call the creation
    loop issues for it, none for a node that is skipped. *)
Definition routeRequest (table : string) (node : Node) : option Call :=
  if negb (needSync node) then None
  else if String.eqb (ProviderID node) "" then None
  else match getIPv4RouteForNode node with
       | (_, _, Some _) => None
       | (_, ipv4RouteCidr, None) =>
           if String.eqb ipv4RouteCidr "" then None
           else Some (AddRouteForNode table ipv4RouteCidr (ProviderID node) node)
       end.

(** What the creation loop does for one node. *)
Definition nodeBlock (table : string) (node : Node) (block : list Call)
  : Prop :=
  match routeRequest table node with
  | None => block = []
  | Some c => block = [c] \/ block = [c; UpdateNetworkingCondition node true]
  end.

Lemma addRoutes_blocks table routes nodes :
  forall w, exists blocks,
    calls (adds table routes nodes w) = concat blocks
    /\ Forall2 (nodeBlock table) nodes blocks.
Proof.
  induction nodes as [|node nodes IH]; intros w.
  - exists []. split; [reflexivity|constructor].
  - assert (Hskip : routeRequest table node = None ->
                    calls (adds table routes (node :: nodes) w)
                    = calls (adds table routes nodes w) ->
                    exists blocks,
                      calls (adds table routes (node :: nodes) w) = concat blocks
                      /\ Forall2 (nodeBlock table) (node :: nodes) blocks).
    { intros Hr Hsame. destruct (IH w) as (bs & Hc & Hb). exists ([] :: bs).
      split; [rewrite Hsame; exact Hc|].
      constructor; [unfold nodeBlock; rewrite Hr; reflexivity|exact Hb]. }
    destruct (routeRequest table node) as [c|] eqn:Hreq.
    + clear Hskip. pose proof Hreq as Hblock.
      unfold routeRequest in Hreq. cbn [addRoutes].
      destruct (needSync node); cbn [negb] in *; [|discriminate Hreq].
      destruct (String.eqb (ProviderID node) ""); [discriminate Hreq|].
      destruct (getIPv4RouteForNode node) as [[podNet cidr] [err|]];
        [discriminate Hreq|].
      destruct (String.eqb cidr ""); [discriminate Hreq|].
      injection Hreq as <-. rewrite calls_bind.
      destruct (result _) as [e|].
      * destruct (IH (final (call (AddRouteForNode table cidr (ProviderID node) node)
                               (addRouteForNode table cidr (ProviderID node) node
                                  routes) w)))
          as (bs & Hc & Hb).
        exists ([AddRouteForNode table cidr (ProviderID node) node] :: bs).
        split; [rewrite Hc; reflexivity|].
        constructor; [|exact Hb].
        unfold nodeBlock. rewrite Hblock. left. reflexivity.
      * rewrite calls_bind.
        match goal with
        | |- context [adds table routes nodes ?w'] =>
            destruct (IH w') as (bs & Hc & Hb)
        end.
        exists ([AddRouteForNode table cidr (ProviderID node) node;
                 UpdateNetworkingCondition node true] :: bs).
        split; [rewrite Hc; reflexivity|].
        constructor; [|exact Hb].
        unfold nodeBlock. rewrite Hblock. right. reflexivity.
    + apply Hskip; [reflexivity|].
      unfold routeRequest in Hreq. cbn [addRoutes].
      destruct (needSync node); cbn [negb] in *; [|reflexivity].
      destruct (String.eqb (ProviderID node) ""); [reflexivity|].
      destruct (getIPv4RouteForNode node) as [[podNet cidr] [err|]];
        [reflexivity|].
      destruct (String.eqb cidr ""); [reflexivity|discriminate Hreq].
Qed.

Lemma routeRequest_isAdd table node c :
  routeRequest table node = Some c -> isAddRouteForNode c = true.
Proof.
  unfold routeRequest. intros H.
  destruct (needSync node); cbn [negb] in H; [|discriminate H].
  destruct (String.eqb (ProviderID node) ""); [discriminate H|].
  destruct (getIPv4RouteForNode node) as [[podNet cidr] [err|]];
    [discriminate H|].
  destruct (String.eqb cidr ""); [discriminate H|].
  injection H as <-. reflexivity.
Qed.

Lemma blocks_requests table nodes blocks :
  Forall2 (nodeBlock table) nodes blocks ->
  List.filter isAddRouteForNode (concat blocks)
  = omap (routeRequest table) nodes.
Proof.
  induction 1 as [|node block nodes blocks Hb _ IH]; [reflexivity|].
  cbn [concat omap]. rewrite List.filter_app, IH.
  unfold nodeBlock in Hb.
  destruct (routeRequest table node) as [c|] eqn:Hr.
  - pose proof (routeRequest_isAdd _ _ _ Hr) as Hc.
    destruct Hb as [->| ->]; simpl; rewrite Hc, Hr; reflexivity.
  - rewrite Hb. simpl. rewrite Hr. reflexivity.
Qed.

Lemma blocks_updates table nodes blocks node b :
  Forall2 (nodeBlock table) nodes blocks ->
  In (UpdateNetworkingCondition node b) (concat blocks) ->
  b = true
  /\ exists c, routeRequest table node = Some c /\ In c (concat blocks).
Proof.
  induction 1 as [|node' block nodes blocks Hb _ IH]; intros Hin;
    [destruct Hin|].
  cbn [concat] in *. apply in_app_or in Hin. destruct Hin as [Hin|Hin].
  - unfold nodeBlock in Hb.
    destruct (routeRequest table node') as [c|] eqn:Hr.
    + pose proof (routeRequest_isAdd _ _ _ Hr) as Hc.
      destruct Hb as [->| ->].
      * destruct Hin as [Heq|[]]. rewrite Heq in Hc. discriminate Hc.
      * destruct Hin as [Heq|[Heq|[]]];
          [rewrite Heq in Hc; discriminate Hc|].
        injection Heq as <- <-. split; [reflexivity|].
        exists c. split; [exact Hr|]. apply in_or_app. left. left. reflexivity.
    + rewrite Hb in Hin. destruct Hin.
  - destruct (IH Hin) as (Hb' & c & Hr & Hc).
    split; [exact Hb'|]. exists c. split; [exact Hr|].
    apply in_or_app. right. exact Hc.
Qed.

Lemma syncTableRoutes_run ClusterCIDR table nodes w routes w1 clusterCIDR :
  providerListRoute table w = ((routes, None), w1) ->
  clusterNet ClusterCIDR = Some clusterCIDR ->
  calls (sync ClusterCIDR table nodes w)
  = ListRoute table
      :: calls (deletes clusterCIDR table nodes routes w1)
      ++ calls (adds table routes nodes
                  (final (deletes clusterCIDR table nodes routes w1))).
Proof.
  intros Hl Hc. unfold syncTableRoutes, bind, call. rewrite Hl, Hc.
  unfold final, calls.
  destruct (deleteConflicts _ _ _ clusterCIDR table nodes routes w1)
    as [[u w2] t].
  simpl. destruct (addRoutes _ _ _ _ _ _ table routes nodes w2) as [[u' w3] t'].
  simpl. rewrite app_nil_r. reflexivity.
Qed.

Lemma deletions_no_request table rts :
  List.filter isAddRouteForNode (flat_map (deletionOf table) rts) = []
  /\ forall node b,
       ~ In (UpdateNetworkingCondition node b) (flat_map (deletionOf table) rts).
Proof.
  induction rts as [|rt rts [IH1 IH2]]; [split; [reflexivity|intros ? ? []]|].
  split; [exact IH1|].
  intros node b [H|[H|[H|H]]]; try discriminate H. exact (IH2 _ _ H).
Qed.

(** X5: when the listing succeeds and the cluster CIDR is usable, the
    AddRouteForNode calls of syncTableRoutes are, in node order, one for
    each node that needs a route and has a provider ID and a pod CIDR, and
    none for any other node; the node condition is only ever set to true,
    and only for a node whose route was requested in the same pass. *)
Theorem syncTableRoutes_requests :
  forall ClusterCIDR table nodes w routes w1 clusterCIDR,
    providerListRoute table w = ((routes, None), w1) ->
    clusterNet ClusterCIDR = Some clusterCIDR ->
    List.filter isAddRouteForNode (calls (sync ClusterCIDR table nodes w))
    = omap (routeRequest table) nodes
    /\ forall node b,
         In (UpdateNetworkingCondition node b)
            (calls (sync ClusterCIDR table nodes w)) ->
         b = true
         /\ exists c, routeRequest table node = Some c
                      /\ In c (calls (sync ClusterCIDR table nodes w)).
Proof.
  intros ClusterCIDR table nodes w routes w1 clusterCIDR Hl Hc.
  rewrite (syncTableRoutes_run _ _ _ _ _ _ _ Hl Hc).
  rewrite deleteConflicts_calls.
  match goal with
  | |- context [adds table routes nodes ?w'] =>
      destruct (addRoutes_blocks table routes nodes w') as (blocks & Hb & HF)
  end.
  rewrite Hb.
  match goal with
  | |- context [flat_map (deletionOf table) ?l] =>
      destruct (deletions_no_request table l) as [Hd1 Hd2]
  end.
  split.
  - cbn [List.filter isAddRouteForNode]. rewrite List.filter_app, Hd1.
    apply (blocks_requests _ _ _ HF).
  - intros node b [Hin|Hin]; [discriminate Hin|].
    apply in_app_or in Hin. destruct Hin as [Hin|Hin];
      [exfalso; exact (Hd2 _ _ Hin)|].
    destruct (blocks_updates _ _ _ _ _ HF Hin) as (Hb' & c & Hr & Hcin).
    split; [exact Hb'|]. exists c. split; [exact Hr|].
    right. apply in_or_app. right. exact Hcin.
Qed.

(** X6: syncTableRoutes fails only when the route listing fails or the
    configured cluster CIDR cannot be parsed; it has then called nothing
    but ListRoute, so no route was deleted or requested. In every other
    case it returns nil, whatever became of its deletions and requests. *)
Theorem syncTableRoutes_errors :
  forall ClusterCIDR table nodes w,
    (forall routes e w1,
        providerListRoute table w = ((routes, Some e), w1) ->
        sync ClusterCIDR table nodes w
        = ((Some (ErrListingRoutes e), w1), [ListRoute table]))
    /\ (forall routes w1,
          providerListRoute table w = ((routes, None), w1) ->
          ClusterCIDR <> "" -> net.ParseCIDR ClusterCIDR = None ->
          sync ClusterCIDR table nodes w
          = ((Some (ErrParseClusterCIDR ClusterCIDR), w1), [ListRoute table]))
    /\ (forall routes w1,
          providerListRoute table w = ((routes, None), w1) ->
          ClusterCIDR = "" \/ net.ParseCIDR ClusterCIDR <> None ->
          result (sync ClusterCIDR table nodes w) = None)
    /\ (result (sync ClusterCIDR table nodes w) <> None ->
        calls (sync ClusterCIDR table nodes w) = [ListRoute table]).
Proof.
  intros ClusterCIDR table nodes w.
  assert (Hnet : forall c, clusterNet ClusterCIDR = Some c ->
                 forall routes w1,
                   providerListRoute table w = ((routes, None), w1) ->
                   result (sync ClusterCIDR table nodes w) = None).
  { intros c Hc routes w1 Hl.
    unfold syncTableRoutes, bind, call, result. rewrite Hl, Hc.
    destruct (deleteConflicts _ _ _ c table nodes routes w1) as [[u w2] t].
    simpl. destruct (addRoutes _ _ _ _ _ _ table routes nodes w2)
      as [[u' w3] t'].
    reflexivity. }
  split; [|split; [|split]].
  - intros routes e w1 Hl. unfold syncTableRoutes, bind, call, ret.
    rewrite Hl. reflexivity.
  - intros routes w1 Hl Hne Hp. unfold syncTableRoutes, bind, call, ret.
    rewrite Hl. unfold clusterNet.
    destruct (String.eqb_spec ClusterCIDR ""); [contradiction|].
    simpl. rewrite Hp. reflexivity.
  - intros routes w1 Hl Hok.
    destruct (clusterNet ClusterCIDR) as [c|] eqn:Hc;
      [exact (Hnet c eq_refl routes w1 Hl)|].
    exfalso. unfold clusterNet in Hc.
    destruct (String.eqb_spec ClusterCIDR ""); [discriminate Hc|].
    simpl in Hc. destruct (net.ParseCIDR ClusterCIDR); [discriminate Hc|].
    destruct Hok; contradiction.
  - intros Herr.
    destruct (providerListRoute table w) as [[routes [e|]] w1] eqn:Hl.
    + unfold syncTableRoutes, bind, call, ret. rewrite Hl. reflexivity.
    + destruct (clusterNet ClusterCIDR) as [c|] eqn:Hc.
      * exfalso. apply Herr. exact (Hnet c eq_refl routes w1 eq_refl).
      * unfold syncTableRoutes, bind, call, ret. rewrite Hl, Hc. reflexivity.
Qed.

End Reconciler.

Definition leavingNode : Node :=
  mkNode "node-c" "cn-hangzhou.i-c" "10.3.0.0/16" true.

Lemma syncTableRoutes_requests_witness :
  List.filter isAddRouteForNode
    (calls (syncTableRoutes (list Route) simDeleteRoute simListRoute
              simGetIPv4RouteForNode (fun _ => false) (fun _ => false)
              simAddRouteForNode simUpdateNetworkingCondition
              "" "vtb-1" [nodeA; leavingNode; nodeB] []))
  = [AddRouteForNode "vtb-1" "10.1.0.0/16" "cn-hangzhou.i-a" nodeA;
     AddRouteForNode "vtb-1" "10.2.0.0/16" "cn-hangzhou.i-b" nodeB].
Proof.
  apply (proj1 (syncTableRoutes_requests (list Route) simDeleteRoute
                  simListRoute simGetIPv4RouteForNode (fun _ => false)
                  (fun _ => false) simAddRouteForNode
                  simUpdateNetworkingCondition
                  "" "vtb-1" [nodeA; leavingNode; nodeB] [] [] [] None
                  eq_refl eq_refl)).
Defined.

Lemma syncTableRoutes_errors_witness :
  syncTableRoutes (list Route) simDeleteRoute simListRoute
    simGetIPv4RouteForNode (fun _ => false) (fun _ => false)
    simAddRouteForNode simUpdateNetworkingCondition
    "10.0.0.0/40" "vtb-1" [nodeA] [routeOfB]
  = ((Some (ErrParseClusterCIDR "10.0.0.0/40"), [routeOfB]),
     [ListRoute "vtb-1"]).
Proof.
  destruct (syncTableRoutes_errors (list Route) simDeleteRoute simListRoute
              simGetIPv4RouteForNode (fun _ => false) (fun _ => false)
              simAddRouteForNode simUpdateNetworkingCondition
              "10.0.0.0/40" "vtb-1" [nodeA] [routeOfB])
    as (_ & Hbad & _).
  apply (Hbad [routeOfB] [routeOfB]); [reflexivity|discriminate|reflexivity].
Defined.

(** *** The batch helpers, entry by entry *)

Definition failsOnCreate (s : RouteUpdateStatus) : bool :=
  Failed s
  && negb (String.eqb (FailedCode s) "VPC_ROUTE_ENTRY_CIDR_BLOCK_DUPLICATE")
  && negb (String.eqb (FailedCode s) "VPC_ROUTE_ENTRY_STATUS_ERROR").

Definition failsOnDelete (s : RouteUpdateStatus) : bool :=
  Failed s && negb (String.eqb (FailedCode s) "VPC_ROUTER_ENTRY_NOT_EXIST").

(** What batchAddRoutes does for one status of the answer. *)
Definition addBlock (s : RouteUpdateStatus) (block : list Call) : Prop :=
  let node := NodeReference (StatusRoute s) in
  if failsOnCreate s then
    block = [RecordEvent node (FailedMessage s); RequeueNode node]
  else
    block = [UpdateNetworkingCondition node true]
    \/ block = [UpdateNetworkingCondition node true;
                CacheSetIfAbsent (NodeName node) (StatusRoute s);
                RateLimiterForget (NodeName node)].

(** What batchDeleteRoutes does for one status of the answer. *)
Definition deleteBlock (s : RouteUpdateStatus) (block : list Call) : Prop :=
  let node := NodeReference (StatusRoute s) in
  if failsOnDelete s then block = [RequeueNode node]
  else block = [CacheRemove (NodeName node); RateLimiterForget (NodeName node)].

Section Batches.

Variable W : Type.
Variable providerCreateRoutes :
  string -> list Route -> W ->
  (list string * list RouteUpdateStatus * option string) * W.
Variable providerDeleteRoutes :
  string -> list Route -> W -> (list RouteUpdateStatus * option string) * W.
Variable updateNetworkingCondition : Node -> bool -> W -> option string * W.

Local Abbreviation batchAdd :=
  (batchAddRoutes W providerCreateRoutes updateNetworkingCondition).
Local Abbreviation batchDelete := (batchDeleteRoutes W providerDeleteRoutes).
Local Abbreviation handleAdd := (handleAddStatus W updateNetworkingCondition).
Local Abbreviation handleDelete := (handleDeleteStatus W).

Lemma forEach_blocks {A} (f : A -> M W Call unit) (R : A -> list Call -> Prop) :
  (forall a w, R a (calls (f a w))) ->
  forall l w, exists blocks,
    calls (forEach W f l w) = concat blocks /\ Forall2 R l blocks.
Proof.
  intros Hf. induction l as [|a l IH]; intros w.
  - exists []. split; [reflexivity|constructor].
  - cbn [forEach]. rewrite calls_bind.
    destruct (IH (final (f a w))) as (bs & Hc & Hb).
    exists (calls (f a w) :: bs). split.
    + destruct (result (f a w)). rewrite Hc. reflexivity.
    + constructor; [apply Hf|exact Hb].
Qed.

Lemma handleAddStatus_block table s w :
  addBlock s (calls (handleAdd table s w)).
Proof.
  unfold addBlock, failsOnCreate, handleAddStatus.
  destruct (String.eqb (FailedCode s) "VPC_ROUTE_ENTRY_CIDR_BLOCK_DUPLICATE");
    destruct (String.eqb (FailedCode s) "VPC_ROUTE_ENTRY_STATUS_ERROR");
    destruct (Failed s); cbn [negb andb];
    try reflexivity;
    unfold bind, call, emit, ret, calls;
    destruct (updateNetworkingCondition _ true w) as [[e|] w1]; simpl;
    auto.
Qed.

Lemma handleDeleteStatus_block s w :
  deleteBlock s (calls (handleDelete s w)).
Proof.
  unfold deleteBlock, failsOnDelete, handleDeleteStatus.
  destruct (String.eqb (FailedCode s) "VPC_ROUTER_ENTRY_NOT_EXIST");
    destruct (Failed s); reflexivity.
Qed.

(** X7: when the provider answers a batch without error, batchAddRoutes
    and batchDeleteRoutes go through the statuses of the answer in order
    and handle each one exactly once: after the locked provider call the
    trace is one block per status, a requeue for an entry that failed
    with a code that is not ignorable, the success steps for any other
    entry. *)
Theorem batch_handles_each_status_once :
  forall table routes w,
    routes <> [] ->
    (forall ids statuses w',
        providerCreateRoutes table routes w = ((ids, statuses, None), w') ->
        exists blocks,
          calls (batchAdd table routes w)
          = [Lock; CreateRoutes table routes; Unlock] ++ concat blocks
          /\ Forall2 addBlock statuses blocks)
    /\ (forall statuses w',
          providerDeleteRoutes table routes w = ((statuses, None), w') ->
          exists blocks,
            calls (batchDelete table routes w)
            = [Lock; DeleteRoutes table routes; Unlock] ++ concat blocks
            /\ Forall2 deleteBlock statuses blocks).
Proof.
  intros table routes w Hne. split.
  - intros ids statuses w' Hc.
    destruct (forEach_blocks (handleAdd table) addBlock
                (handleAddStatus_block table) statuses w')
      as (blocks & Hb & HF).
    exists blocks. split; [|exact HF]. rewrite <- Hb.
    destruct routes as [|r routes]; [congruence|].
    unfold batchAddRoutes, LockedCreateRoutes, bind, emit, call, ret, calls.
    rewrite Hc. simpl.
    destruct (forEach W (handleAdd table) statuses w') as [[u w2] t].
    simpl. rewrite app_nil_r. reflexivity.
  - intros statuses w' Hc.
    destruct (forEach_blocks handleDelete deleteBlock
                handleDeleteStatus_block statuses w')
      as (blocks & Hb & HF).
    exists blocks. split; [|exact HF]. rewrite <- Hb.
    destruct routes as [|r routes]; [congruence|].
    unfold batchDeleteRoutes, LockedDeleteRoutes, bind, emit, call, ret, calls.
    rewrite Hc. simpl.
    destruct (forEach W handleDelete statuses w') as [[u w2] t].
    simpl. rewrite app_nil_r. reflexivity.
Qed.

(** X8: a batch helper given no route returns nil without taking the
    lock or calling anything; when the provider call itself fails, its
    error is returned as it is and no status is handled: the trace is the
    locked provider call alone. *)
Theorem batch_empty_and_failed :
  forall table w,
    batchAddRoutes W providerCreateRoutes updateNetworkingCondition table [] w
    = ((None, w), [])
    /\ batchDeleteRoutes W providerDeleteRoutes table [] w = ((None, w), [])
    /\ (forall routes ids statuses e w',
          routes <> [] ->
          providerCreateRoutes table routes w = ((ids, statuses, Some e), w') ->
          batchAddRoutes W providerCreateRoutes updateNetworkingCondition
            table routes w
          = ((Some e, w'), [Lock; CreateRoutes table routes; Unlock]))
    /\ (forall routes statuses e w',
          routes <> [] ->
          providerDeleteRoutes table routes w = ((statuses, Some e), w') ->
          batchDeleteRoutes W providerDeleteRoutes table routes w
          = ((Some e, w'), [Lock; DeleteRoutes table routes; Unlock])).
Proof.
  intros table w. split; [reflexivity|]. split; [reflexivity|]. split.
  - intros routes ids statuses e w' Hne Hc.
    destruct routes as [|r routes]; [congruence|].
    unfold batchAddRoutes, LockedCreateRoutes, bind, emit, call, ret.
    rewrite Hc. reflexivity.
  - intros routes statuses e w' Hne Hc.
    destruct routes as [|r routes]; [congruence|].
    unfold batchDeleteRoutes, LockedDeleteRoutes, bind, emit, call, ret.
    rewrite Hc. reflexivity.
Qed.

End Batches.

Lemma batch_handles_each_status_once_witness :
  exists blocks,
    calls (batchDeleteRoutes (list Route) simDeleteRoutes "vtb-1"
             [routeOfA; routeOfB] [routeOfA])
    = [Lock; DeleteRoutes "vtb-1" [routeOfA; routeOfB]; Unlock] ++ concat blocks
    /\ Forall2 deleteBlock
         [mkStatus routeOfA false "" "";
          mkStatus routeOfB true "Forbidden.Operation" "denied"] blocks.
Proof.
  apply (proj2 (batch_handles_each_status_once (list Route) simCreateRoutes
                  simDeleteRoutes simUpdateNetworkingCondition
                  "vtb-1" [routeOfA; routeOfB] [routeOfA]
                  ltac:(discriminate))
           _ [routeOfA]).
  reflexivity.
Defined.

Lemma batch_empty_and_failed_witness :
  batchAddRoutes (list Route)
    (fun _ _ w => (([], [], Some "Throttling"), w))
    simUpdateNetworkingCondition "vtb-1" [routeOfA] []
  = ((Some "Throttling", []), [Lock; CreateRoutes "vtb-1" [routeOfA]; Unlock]).
Proof.
  destruct (batch_empty_and_failed (list Route)
              (fun _ _ w => (([], [], Some "Throttling"), w))
              simDeleteRoutes simUpdateNetworkingCondition "vtb-1" [])
    as (_ & _ & Hadd & _).
  apply (Hadd [routeOfA] [] [] "Throttling" []); [discriminate|reflexivity].
Defined.

(** *** The attempts of createRouteForInstance *)

Section Attempts.

Variable W : Type.
Variable providerCreateRoute :
  string -> string -> string -> W -> (option Route * option string) * W.
Variable providerFindRoute :
  string -> string -> string -> W -> (option Route * option string) * W.

Local Abbreviation create :=
  (createRouteForInstance W providerCreateRoute providerFindRoute).
Local Abbreviation attempt :=
  (condition W providerCreateRoute providerFindRoute).

(** One attempt: a CreateRoute, followed by a FindRoute exactly when the
    attempt ends the backoff on a duplicate. *)
Lemma condition_shape table pid cidr v w :
  (calls (attempt table pid cidr v w) = [CreateRoute table pid cidr]
   /\ (fst (result (attempt table pid cidr v w)) = (true, None)
       \/ fst (result (attempt table pid cidr v w)) = (false, None)))
  \/ (calls (attempt table pid cidr v w)
      = [CreateRoute table pid cidr; FindRoute table pid cidr]
      /\ (fst (result (attempt table pid cidr v w)) = (true, None)
          \/ exists e, fst (result (attempt table pid cidr v w))
                       = (false, Some e))).
Proof.
  unfold condition, bind, call, ret, calls, result.
  destruct (providerCreateRoute table pid cidr w) as [[r [msg|]] w1]; simpl.
  - destruct (strings.Contains msg _); simpl.
    + destruct (providerFindRoute table pid cidr w1) as [[[r2|] [fe|]] w2];
        simpl; right; split; try reflexivity; eauto.
    + left. split; [reflexivity|]. right. reflexivity.
  - left. split; [reflexivity|]. left. reflexivity.
Qed.

Lemma ExponentialBackoff_shape table pid cidr n :
  forall v w, exists k finds,
    calls (ExponentialBackoff W n (attempt table pid cidr) v w)
    = repeat (CreateRoute table pid cidr) k ++ finds
    /\ (k <= n)%nat /\ (n <> 0%nat -> k <> 0%nat)
    /\ (finds = [] \/ finds = [FindRoute table pid cidr]).
Proof.
  induction n as [|n IH]; intros v w.
  - exists 0%nat, []. repeat split; auto.
  - cbn [ExponentialBackoff]. rewrite calls_bind.
    destruct (condition_shape table pid cidr v w) as [[Hc Hr]|[Hc Hr]];
      rewrite Hc.
    + destruct (result (attempt table pid cidr v w)) as [[ok err] v'].
      simpl in Hr. destruct Hr as [Hr|Hr]; injection Hr as -> ->.
      * exists 1%nat, []. repeat split; auto; lia.
      * destruct (IH v' (final (attempt table pid cidr v w)))
          as (k & finds & Hk & Hle & _ & Hf).
        exists (S k), finds. rewrite Hk. repeat split; auto; lia.
    + destruct (result (attempt table pid cidr v w)) as [[ok err] v'].
      simpl in Hr. destruct Hr as [Hr|[e Hr]]; injection Hr as -> ->.
      * exists 1%nat, [FindRoute table pid cidr]. repeat split; auto; lia.
      * exists 1%nat, [FindRoute table pid cidr]. repeat split; auto; lia.
Qed.

(** X9: every run of createRouteForInstance is the lock, between one and
    three CreateRoute calls for the same table, owner and CIDR, at most
    one FindRoute, which then is the last provider call, and the unlock;
    it returns either a result without error or no route together with
    the creation error. *)
Theorem createRouteForInstance_trace :
  forall table pid cidr w,
    (exists k finds,
        calls (create table pid cidr w)
        = Lock :: repeat (CreateRoute table pid cidr) k ++ finds ++ [Unlock]
        /\ (1 <= k <= 3)%nat
        /\ (finds = [] \/ finds = [FindRoute table pid cidr]))
    /\ (snd (result (create table pid cidr w)) = None
        \/ exists inner,
            result (create table pid cidr w)
            = (None, Some (ErrCreateRouteForNode pid inner))).
Proof.
  intros table pid cidr w. split.
  - destruct (ExponentialBackoff_shape table pid cidr createBackoff_Steps
                (mkVars None None None) w)
      as (k & finds & Hk & Hle & Hpos & Hf).
    exists k, finds. split; [|split; [|exact Hf]].
    + unfold createRouteForInstance, bind, emit, calls in *.
      destruct (ExponentialBackoff W createBackoff_Steps _ _ w)
        as [[[e v] w1] t].
      simpl in Hk. subst t.
      destruct e as [e|]; simpl; rewrite <- app_assoc; reflexivity.
    + unfold createBackoff_Steps in *. split; [|exact Hle].
      assert (k <> 0%nat) by (apply Hpos; discriminate). lia.
  - unfold createRouteForInstance, bind, emit, ret, result.
    destruct (ExponentialBackoff W createBackoff_Steps _ _ _)
      as [[[e v] w1] t].
    destruct e as [e|]; simpl; [right; eexists; reflexivity|left; reflexivity].
Qed.

End Attempts.

(** *** The configured route-table list *)

(** [strings.Join(elems, sep)]. *)
Fixpoint Join (elems : list string) (sep : string) : string :=
  match elems with
  | [] => EmptyString
  | [a] => a
  | a :: rest => String.append a (String.append sep (Join rest sep))
  end.

Lemma Split_nonempty s sep : strings.Split s sep <> [].
Proof.
  induction s as [|c s IH]; simpl; [discriminate|].
  destruct (Ascii.eqb c sep); [discriminate|].
  destruct (strings.Split s sep); discriminate.
Qed.

Lemma Split_Join s sep :
  Join (strings.Split s sep) (String sep EmptyString) = s.
Proof.
  induction s as [|c s IH]; [reflexivity|].
  cbn [strings.Split].
  destruct (Ascii.eqb_spec c sep) as [->|Hne].
  - pose proof (Split_nonempty s sep).
    destruct (strings.Split s sep) as [|p ps]; [contradiction|].
    cbn [Join] in *. simpl. rewrite IH. reflexivity.
  - pose proof (Split_nonempty s sep).
    destruct (strings.Split s sep) as [|p ps]; [contradiction|].
    destruct ps as [|q ps]; cbn [Join] in *; simpl; rewrite <- IH; reflexivity.
Qed.

Lemma Split_pieces s sep :
  Forall (fun piece => hasChar sep piece = false) (strings.Split s sep).
Proof.
  induction s as [|c s IH]; [repeat constructor|].
  cbn [strings.Split].
  destruct (Ascii.eqb c sep) eqn:Hc.
  - constructor; [reflexivity|exact IH].
  - pose proof (Split_nonempty s sep).
    destruct (strings.Split s sep) as [|p ps]; [contradiction|].
    inversion IH as [|? ? Hp Hps]; subst.
    constructor; [|exact Hps]. simpl. rewrite Hc, Hp. reflexivity.
Qed.

(** X10: with a configured route-table list and a known VPC,
    getRouteTables never fails and never asks the cloud; the identifiers
    it returns are at least one, none of them holds a comma, and joined by
    commas they give back the configured text. *)
Theorem getRouteTables_configured :
  forall vpcId ids lst,
    ids <> "" ->
    exists tables,
      getRouteTables (vpcId, None) ids lst = (Some tables, None)
      /\ tables <> []
      /\ Forall (fun t => hasChar "," t = false) tables
      /\ Join tables "," = ids.
Proof.
  intros vpcId ids lst Hne.
  exists (strings.Split ids ","). split; [|split; [|split]].
  - unfold getRouteTables.
    destruct (String.eqb_spec ids ""); [contradiction|]. reflexivity.
  - apply Split_nonempty.
  - apply Split_pieces.
  - apply Split_Join.
Qed.

Lemma getRouteTables_configured_witness :
  exists tables,
    getRouteTables ("vpc-1", None) "vtb-a,,vtb-b"
                   (fun _ => ([], Some "unreachable"))
    = (Some tables, None)
    /\ tables <> []
    /\ Forall (fun t => hasChar "," t = false) tables
    /\ Join tables "," = "vtb-a,,vtb-b".
Proof.
  apply (getRouteTables_configured "vpc-1" "vtb-a,,vtb-b"
           (fun _ => ([], Some "unreachable"))).
  discriminate.
Defined.

(** *** Conflicts, node by node *)

Section Conflicts.

Variable getIPv4RouteForNode :
  Node -> option net.IPNet * string * option string.

Local Abbreviation conflict := (conflictWithNodes getIPv4RouteForNode).

Lemma conflictWithNodes_app rt before after :
  conflict rt (before ++ after) = conflict rt before || conflict rt after.
Proof.
  induction before as [|node before IH]; [reflexivity|].
  cbn [app conflictWithNodes].
  destruct (getIPv4RouteForNode node) as [[[podNet|] podText] [err|]];
    try exact IH.
  destruct (containsRoute (Some podNet) (DestinationCIDR rt))
    as [[equal contains] [err|]]; [exact IH|].
  destruct (contains || equal && negb (String.eqb (ProviderId rt) (ProviderID node)));
    [reflexivity|exact IH].
Qed.

(** X11: a node never puts its own route in conflict: for a route whose
    destination is the text of the node's pod network and whose owner is
    the node's provider ID, the node can be left out of the node list
    without changing the verdict of conflictWithNodes; and a node whose
    pod network cannot be resolved can always be left out. *)
Theorem conflictWithNodes_own_route :
  forall rt node before after,
    (forall text podNet podText,
        net.ParseCIDR text = Some podNet ->
        getIPv4RouteForNode node = (Some podNet, podText, None) ->
        DestinationCIDR rt = net.IPNet_String podNet ->
        ProviderId rt = ProviderID node ->
        conflict rt (before ++ node :: after) = conflict rt (before ++ after))
    /\ (fst (fst (getIPv4RouteForNode node)) = None
        \/ snd (getIPv4RouteForNode node) <> None ->
        conflict rt (before ++ node :: after) = conflict rt (before ++ after)).
Proof.
  intros rt node before after. split.
  - intros text podNet podText Hp Hg Hd Ho.
    rewrite !conflictWithNodes_app. f_equal.
    cbn [conflictWithNodes]. rewrite Hg, Hd.
    unfold containsRoute.
    rewrite (ParseCIDR_IPNet_String _ _ Hp), !String.eqb_refl, Ho,
      String.eqb_refl.
    reflexivity.
  - intros Hn. rewrite !conflictWithNodes_app. f_equal.
    cbn [conflictWithNodes].
    destruct (getIPv4RouteForNode node) as [[[podNet|] podText] [err|]];
      try reflexivity.
    simpl in Hn. destruct Hn as [Hn|Hn]; [discriminate Hn|contradiction].
Qed.

End Conflicts.

Lemma conflictWithNodes_own_route_witness :
  conflictWithNodes simGetIPv4RouteForNode routeOfA [nodeB; nodeA]
  = conflictWithNodes simGetIPv4RouteForNode routeOfA [nodeB].
Proof.
  apply (proj1 (conflictWithNodes_own_route simGetIPv4RouteForNode
                  routeOfA nodeA [nodeB] [])
           "10.1.0.0/16" (net.mkIPNet [10; 1; 0; 0] [255; 255; 0; 0])%Z
           "10.1.0.0/16"); reflexivity.
Defined.

(** *** Conflict detection against the networks themselves *)







Section ConflictDetection.

Variable W : Type.
Variable providerDeleteRoute :
  string -> string -> string -> W -> option string * W.
Variable providerListRoute : string -> W -> (list Route * option string) * W.
Variable getIPv4RouteForNode :
  Node -> option net.IPNet * string * option string.
Variable HasExcludeLabel : Node -> bool.
Variable ReadyConditionUnknown : Node -> bool.
Variable addRouteForNode :
  string -> string -> string -> Node -> list Route -> W -> option string * W.
Variable updateNetworkingCondition : Node -> bool -> W -> option string * W.

Local Abbreviation sync :=
  (syncTableRoutes W providerDeleteRoute providerListRoute getIPv4RouteForNode
     HasExcludeLabel ReadyConditionUnknown addRouteForNode
     updateNetworkingCondition).
Local Abbreviation conflict := (conflictWithNodes getIPv4RouteForNode).









End ConflictDetection.




End route.

(** ** Go's [sort.SliceStable]

    The stable sort of the standard library: insertion sort on blocks of
    20 elements, then rounds of in-place merges ([symMerge]) of adjacent
    blocks of doubling size. The routines work on a segment [data[a:b]];
    here a segment is a list and indices are relative to its start, which
    leaves every midpoint computation unchanged. [less] is the
    caller's predicate on the elements at two indices. *)

Module sort.

Section Stable.

Context {A : Type}.
Variable less : A -> A -> bool.

(** The inner loop of [insertionSort]: the element [x] at index [i] moves
    down while it is less than its left neighbour. [rprefix] is the
    segment before [x], nearest element first. *)
Fixpoint insertBack (rprefix : list A) (x : A) : list A :=
  match rprefix with
  | [] => [x]
  | y :: rest => if less x y then y :: insertBack rest x else x :: rprefix
  end.

Definition insertionSort (data : list A) : list A :=
  rev (fold_left insertBack data []).

(** [data.Less(i, j)]. *)
Definition lessAt (data : list A) (i j : nat) : bool :=
  match data !! i, data !! j with
  | Some x, Some y => less x y
  | _, _ => false
  end.

(** The binary searches of [symMerge]:
    [for i < j { h := (i+j)>>1; if cond(h) { i = h+1 } else { j = h } }]. *)
Fixpoint search (fuel : nat) (cond : nat -> bool) (i j : nat) : nat :=
  match fuel with
  | O => i
  | S fuel' =>
      if (i <? j)%nat then
        let h := ((i + j) / 2)%nat in
        if cond h then search fuel' cond (h + 1)%nat j
        else search fuel' cond i h
      else i
  end.

(** [rotate(data, a, m, b)]: data of the form [x u v y], with
    [u = data[a:m]] and [v = data[m:b]], becomes [x v u y]. *)
Definition rotate (data : list A) (a m b : nat) : list A :=
  take a data ++ drop m (take b data) ++ drop a (take m data) ++ drop b data.

(** [symMerge(data, a, m, b)] on the segment [data], with [a = 0] and
    [b = length data]: merges the sorted blocks [data[0:m]] and
    [data[m:b]]. The recursion is on segments at most half as long. *)
Fixpoint symMerge (fuel : nat) (data : list A) (m : nat) : list A :=
  match fuel with
  | O => data
  | S fuel' =>
      let b := List.length data in
      if (m =? 1)%nat then
        (* data[0] is inserted into data[m:b]: it moves up to the position
           before the lowest i with data[i] >= data[0] *)
        let i := search b (fun h => lessAt data h 0) m b in
        match data with
        | x :: rest => take (i - 1) rest ++ x :: drop (i - 1) rest
        | [] => data
        end
      else if (b - m =? 1)%nat then
        (* data[m] is inserted into data[0:m]: it moves down to the lowest
           i with data[i] > data[m] *)
        let i := search b (fun h => negb (lessAt data m h)) 0 m in
        match drop m data with
        | y :: _ => take i data ++ y :: drop i (take m data)
        | [] => data
        end
      else
        let mid := (b / 2)%nat in
        let n := (mid + m)%nat in
        let '(start0, r0) :=
          if (mid <? m)%nat then ((n - b)%nat, mid) else (0%nat, m) in
        let p := (n - 1)%nat in
        let start :=
          search b (fun c => negb (lessAt data (p - c) c)) start0 r0 in
        let end_ := (n - start)%nat in
        let data1 :=
          if (start <? m)%nat && (m <? end_)%nat
          then rotate data start m end_ else data in
        let left := take mid data1 in
        let right := drop mid data1 in
        (if (0 <? start)%nat && (start <? mid)%nat
         then symMerge fuel' left start else left)
        ++ (if (mid <? end_)%nat && (end_ <? b)%nat
            then symMerge fuel' right (end_ - mid) else right)
  end.

(** The first loop of [stable]: insertion sort block by block. *)
Fixpoint sortBlocks (fuel blockSize : nat) (data : list A) : list A :=
  match fuel with
  | O => insertionSort data
  | S fuel' =>
      if (blockSize <=? List.length data)%nat then
        insertionSort (take blockSize data)
        ++ sortBlocks fuel' blockSize (drop blockSize data)
      else insertionSort data
  end.

(** One round of merges of adjacent blocks of size [blockSize]. *)
Fixpoint mergeBlocks (fuel blockSize : nat) (data : list A) : list A :=
  match fuel with
  | O => data
  | S fuel' =>
      if (2 * blockSize <=? List.length data)%nat then
        symMerge (2 * blockSize) (take (2 * blockSize) data) blockSize
        ++ mergeBlocks fuel' blockSize (drop (2 * blockSize) data)
      else if (blockSize <? List.length data)%nat then
        symMerge (List.length data) data blockSize
      else data
  end.

(** The second loop of [stable]: rounds with doubling block size. *)
Fixpoint mergeRounds (fuel blockSize : nat) (data : list A) : list A :=
  match fuel with
  | O => data
  | S fuel' =>
      if (blockSize <? List.length data)%nat then
        mergeRounds fuel' (2 * blockSize)
                    (mergeBlocks (List.length data) blockSize data)
      else data
  end.

Definition SliceStable (data : list A) : list A :=
  mergeRounds (List.length data) 20
              (sortBlocks (List.length data) 20 data).

End Stable.

(** *** The sort permutes its input, whatever [less] is *)

Section StableFacts.

Context {A : Type}.
Variable less : A -> A -> bool.

Lemma half_bounds (x : nat) : (2 * (x / 2) <= x <= 2 * (x / 2) + 1)%nat.
Proof.
  pose proof (Nat.div_mod_eq x 2) as H1.
  pose proof (Nat.mod_upper_bound x 2) as H2. lia.
Qed.

Lemma search_bounds fuel cond :
  forall i j, (i <= j)%nat ->
    (i <= search fuel cond i j <= j)%nat.
Proof.
  induction fuel as [|fuel IH]; intros i j Hij; cbn [search]; [lia|].
  destruct (Nat.ltb_spec i j) as [Hlt|Hge]; [|lia].
  pose proof (half_bounds (i + j)) as Hh.
  destruct (cond ((i + j) / 2)%nat).
  - assert (Hle : ((i + j) / 2 + 1 <= j)%nat) by lia.
    specialize (IH ((i + j) / 2 + 1)%nat j Hle). lia.
  - assert (Hle : (i <= (i + j) / 2)%nat) by lia.
    specialize (IH i ((i + j) / 2)%nat Hle). lia.
Qed.

(** On a predicate that holds exactly below [k] the search returns [k]. *)
Lemma search_spec fuel cond k :
  forall i j, (i <= k <= j)%nat ->
    (forall h, (i <= h < j)%nat -> cond h = (h <? k)%nat) ->
    (j - i <= fuel)%nat ->
    search fuel cond i j = k.
Proof.
  induction fuel as [|fuel IH]; intros i j Hk Hcond Hfuel; cbn [search]; [lia|].
  destruct (Nat.ltb_spec i j) as [Hlt|Hge]; [|lia].
  pose proof (half_bounds (i + j)) as Hhalf.
  rewrite Hcond by lia.
  destruct (Nat.ltb_spec ((i + j) / 2) k) as [Hh|Hh].
  - apply IH; [lia| |lia]. intros h Hh'. apply Hcond. lia.
  - apply IH; [lia| |lia]. intros h Hh'. apply Hcond. lia.
Qed.

Lemma insertBack_perm rprefix x :
  Permutation (insertBack less rprefix x) (x :: rprefix).
Proof.
  induction rprefix as [|y rest IH]; simpl; [reflexivity|].
  destruct (less x y); [|reflexivity].
  rewrite IH. apply perm_swap.
Qed.

Lemma fold_insertBack_perm data :
  forall acc, Permutation (fold_left (insertBack less) data acc) (acc ++ data).
Proof.
  induction data as [|x data IH]; intros acc; simpl.
  - rewrite app_nil_r. reflexivity.
  - rewrite IH, insertBack_perm. apply Permutation_middle.
Qed.

Lemma insertionSort_perm data : Permutation (insertionSort less data) data.
Proof.
  unfold insertionSort. rewrite <- Permutation_rev.
  apply (fold_insertBack_perm data []).
Qed.

(** The four pieces [rotate] rearranges. *)
Lemma rotate_pieces (data : list A) a m b :
  (a <= m <= b)%nat ->
  data = take a data ++ drop a (take m data) ++ drop m (take b data)
           ++ drop b data.
Proof.
  intros H.
  rewrite <- (take_drop b data) at 1.
  rewrite <- (take_drop m (take b data)) at 1.
  rewrite take_take, Nat.min_l by lia.
  rewrite <- (take_drop a (take m data)) at 1.
  rewrite take_take, Nat.min_l by lia.
  rewrite <- !app_assoc. reflexivity.
Qed.

Lemma rotate_perm (data : list A) a m b :
  (a <= m <= b)%nat -> Permutation (rotate data a m b) data.
Proof.
  intros H. unfold rotate.
  transitivity (take a data ++ drop a (take m data) ++ drop m (take b data)
                  ++ drop b data).
  - apply Permutation_app_head. rewrite !app_assoc.
    apply Permutation_app_tail, Permutation_app_comm.
  - rewrite <- (rotate_pieces data a m b H). reflexivity.
Qed.

Lemma symMerge_perm fuel :
  forall data m, Permutation (symMerge less fuel data m) data.
Proof.
  induction fuel as [|fuel IH]; intros data m; [reflexivity|].
  cbn [symMerge].
  destruct (m =? 1)%nat.
  { destruct data as [|x rest]; [reflexivity|].
    rewrite <- Permutation_middle, take_drop. reflexivity. }
  destruct (List.length data - m =? 1)%nat eqn:Hone.
  { destruct (drop m data) as [|y tl] eqn:Hdrop; [reflexivity|].
    apply Nat.eqb_eq in Hone.
    assert (Hlen : List.length (drop m data) = 1%nat)
      by (rewrite length_drop; exact Hone).
    rewrite Hdrop in Hlen. destruct tl; [|discriminate Hlen].
    set (i := search _ _ 0%nat m).
    assert (Hi : (0 <= i <= m)%nat) by (apply search_bounds; lia).
    assert (Hti : take i data = take i (take m data))
      by (rewrite take_take, Nat.min_l by lia; reflexivity).
    assert (Hdata : data = take m data ++ [y])
      by (rewrite <- Hdrop; symmetry; apply take_drop).
    rewrite Hti. remember (take m data) as xs eqn:Hxs.
    rewrite Hdata, <- Permutation_middle, take_drop.
    symmetry. rewrite <- Permutation_middle, app_nil_r. reflexivity. }
  set (b := List.length data). set (mid := (b / 2)%nat).
  destruct (if (mid <? m)%nat then ((mid + m - b)%nat, mid) else (0%nat, m))
    as [start0 r0].
  set (start := search b _ start0 r0).
  set (end_ := (mid + m - start)%nat).
  set (data1 := if (start <? m)%nat && (m <? end_)%nat
                then rotate data start m end_ else data).
  assert (H1 : Permutation data1 data).
  { unfold data1.
    destruct (Nat.ltb_spec start m); [|reflexivity].
    destruct (Nat.ltb_spec m end_); [|reflexivity].
    apply rotate_perm. lia. }
  transitivity (take mid data1 ++ drop mid data1);
    [|rewrite take_drop; exact H1].
  apply Permutation_app.
  - destruct ((0 <? start)%nat && (start <? mid)%nat); [apply IH|reflexivity].
  - destruct ((mid <? end_)%nat && (end_ <? b)%nat); [apply IH|reflexivity].
Qed.

Lemma symMerge_length fuel data m :
  List.length (symMerge less fuel data m) = List.length data.
Proof. apply Permutation_length, symMerge_perm. Qed.

Lemma sortBlocks_perm fuel blockSize :
  forall data, Permutation (sortBlocks less fuel blockSize data) data.
Proof.
  induction fuel as [|fuel IH]; intros data; simpl;
    [apply insertionSort_perm|].
  destruct (blockSize <=? List.length data)%nat; [|apply insertionSort_perm].
  rewrite IH, insertionSort_perm, take_drop. reflexivity.
Qed.

Lemma mergeBlocks_perm fuel blockSize :
  forall data, Permutation (mergeBlocks less fuel blockSize data) data.
Proof.
  induction fuel as [|fuel IH]; intros data; [reflexivity|].
  cbn [mergeBlocks].
  destruct (2 * blockSize <=? List.length data)%nat.
  - rewrite IH, symMerge_perm, take_drop. reflexivity.
  - destruct (blockSize <? List.length data)%nat;
      [apply symMerge_perm|reflexivity].
Qed.

Lemma mergeRounds_perm fuel :
  forall blockSize data,
    Permutation (mergeRounds less fuel blockSize data) data.
Proof.
  induction fuel as [|fuel IH]; intros blockSize data; [reflexivity|].
  cbn [mergeRounds].
  destruct (blockSize <? List.length data)%nat; [|reflexivity].
  rewrite IH. apply mergeBlocks_perm.
Qed.

Lemma SliceStable_perm data : Permutation (SliceStable less data) data.
Proof.
  unfold SliceStable. rewrite mergeRounds_perm. apply sortBlocks_perm.
Qed.

End StableFacts.

(** *** Sorting by a predicate on the first index

    The appliers hand [SliceStable] a comparison that looks at the
    element at its first index only. Such a comparison is not an ordering,
    and the sort does not keep equal elements in place; the elements that
    satisfy the predicate still end up in front of all others. *)

Section Partition.

Context {A : Type}.
Variable f : A -> bool.

Definition byFirst (x _ : A) : bool := f x.

(** All elements satisfy [f]; none does. *)
Definition front (l : list A) : bool := forallb f l.
Definition back (l : list A) : bool := forallb (fun x => negb (f x)) l.

(** The elements satisfying [f] come first. *)
Fixpoint partitioned (l : list A) : bool :=
  match l with
  | [] => true
  | x :: rest => if f x then partitioned rest else back rest
  end.

(** The number of elements satisfying [f]. *)
Definition tcount (l : list A) : nat := List.length (List.filter f l).

Lemma front_partitioned l : front l = true -> partitioned l = true.
Proof.
  induction l as [|x l IH]; [reflexivity|]. simpl.
  intros H. apply andb_prop in H. destruct H as [-> H]. apply IH, H.
Qed.

Lemma back_partitioned l : back l = true -> partitioned l = true.
Proof.
  destruct l as [|x l]; [reflexivity|]. simpl.
  intros H. apply andb_prop in H. destruct H as [Hx H].
  apply negb_true_iff in Hx. rewrite Hx. exact H.
Qed.

Lemma partitioned_app l1 l2 :
  partitioned (l1 ++ l2)
  = front l1 && partitioned l2 || partitioned l1 && back l2.
Proof.
  induction l1 as [|x l1 IH]; simpl.
  - destruct (partitioned l2) eqn:H2; [reflexivity|].
    destruct (back l2) eqn:Hb; [|reflexivity].
    rewrite (back_partitioned l2 Hb) in H2. discriminate H2.
  - destruct (f x); simpl; [exact IH|].
    unfold back. apply forallb_app.
Qed.

Lemma front_perm l l' : Permutation l l' -> front l = front l'.
Proof.
  intros H. unfold front.
  induction H as [|x l l' _ IH|x y l|l l' l'' _ IH1 _ IH2]; simpl.
  - reflexivity.
  - rewrite IH. reflexivity.
  - destruct (f x), (f y); reflexivity.
  - congruence.
Qed.

Lemma back_perm l l' : Permutation l l' -> back l = back l'.
Proof.
  intros H. unfold back.
  induction H as [|x l l' _ IH|x y l|l l' l'' _ IH1 _ IH2]; simpl.
  - reflexivity.
  - rewrite IH. reflexivity.
  - destruct (f x), (f y); reflexivity.
  - congruence.
Qed.

Lemma back_tcount l : back l = true -> tcount l = 0%nat.
Proof.
  unfold tcount. induction l as [|x l IH]; [reflexivity|]. simpl.
  intros H. apply andb_prop in H. destruct H as [Hx H].
  apply negb_true_iff in Hx. rewrite Hx. apply IH, H.
Qed.

Lemma tcount_le l : (tcount l <= List.length l)%nat.
Proof. apply List.filter_length_le. Qed.

(** In a partitioned list the elements below [tcount] satisfy [f], the
    others do not. *)
Lemma partitioned_take_front l :
  partitioned l = true ->
  forall k, (k <= tcount l)%nat -> front (take k l) = true.
Proof.
  unfold tcount.
  induction l as [|x l IH]; intros H k Hk; [rewrite take_nil; reflexivity|].
  destruct k as [|k]; [reflexivity|]. simpl in *.
  destruct (f x) eqn:Hx; simpl in *.
  - apply IH; [exact H|lia].
  - pose proof (back_tcount l H) as Hz. unfold tcount in Hz. lia.
Qed.

Lemma partitioned_drop_back l :
  partitioned l = true ->
  forall k, (tcount l <= k)%nat -> back (drop k l) = true.
Proof.
  unfold tcount.
  induction l as [|x l IH]; intros H k Hk; [rewrite drop_nil; reflexivity|].
  simpl in *. destruct (f x) eqn:Hx; simpl in *.
  - destruct k as [|k]; [lia|]. simpl. apply IH; [exact H|lia].
  - destruct k as [|k]; simpl.
    + rewrite Hx. exact H.
    + assert (Hb : back (take k l ++ drop k l) = true)
        by (rewrite take_drop; exact H).
      unfold back in Hb. rewrite forallb_app in Hb.
      apply andb_prop in Hb. apply Hb.
Qed.

Lemma partitioned_take_drop l k :
  partitioned l = true ->
  partitioned (take k l) = true /\ partitioned (drop k l) = true.
Proof.
  intros H. rewrite <- (take_drop k l), partitioned_app in H.
  apply orb_prop in H. destruct H as [H|H]; apply andb_prop in H;
    destruct H as [H1 H2].
  - split; [apply front_partitioned, H1|exact H2].
  - split; [exact H1|apply back_partitioned, H2].
Qed.

Lemma partitioned_lookup l :
  partitioned l = true ->
  forall i x, l !! i = Some x -> f x = (i <? tcount l)%nat.
Proof.
  unfold tcount.
  induction l as [|y l IH]; intros H i x Hi; [discriminate Hi|].
  simpl in H. destruct i as [|i]; simpl in Hi.
  - injection Hi as ->. simpl. destruct (f x); [reflexivity|].
    pose proof (back_tcount l H) as Hz. unfold tcount in Hz. rewrite Hz.
    reflexivity.
  - simpl. destruct (f y) eqn:Hy; simpl.
    + apply (IH H i x Hi).
    + pose proof (back_tcount l H) as Hz. unfold tcount in Hz. rewrite Hz.
      unfold back in H. rewrite forallb_forall in H.
      apply negb_true_iff, H. apply (list_elem_of_In l x).
      apply (list_elem_of_lookup_2 l i x Hi).
Qed.

(** [insertionSort]: an element satisfying [f] moves to the very front,
    any other one stays. *)
Lemma insertBack_byFirst rprefix x :
  insertBack byFirst rprefix x
  = if f x then rprefix ++ [x] else x :: rprefix.
Proof.
  unfold byFirst. induction rprefix as [|y rest IH]; simpl.
  - destruct (f x); reflexivity.
  - destruct (f x); [rewrite IH|]; reflexivity.
Qed.

Lemma insertionSort_partitioned data :
  partitioned (insertionSort byFirst data) = true.
Proof.
  unfold insertionSort.
  assert (H : forall acc, partitioned (rev acc) = true ->
                partitioned (rev (fold_left (insertBack byFirst) data acc))
                = true).
  { induction data as [|x data IH]; intros acc Hacc; [exact Hacc|].
    simpl. apply IH. rewrite insertBack_byFirst.
    destruct (f x) eqn:Hx.
    - rewrite rev_unit. simpl. rewrite Hx. exact Hacc.
    - simpl. rewrite partitioned_app, Hacc. simpl. rewrite Hx. simpl.
      apply orb_true_r. }
  apply H. reflexivity.
Qed.

Lemma lessAt_byFirst (data : list A) i j x y :
  data !! i = Some x -> data !! j = Some y -> lessAt byFirst data i j = f x.
Proof. unfold lessAt, byFirst. intros -> ->. reflexivity. Qed.

(** The general step of [symMerge] once the split point [start] is known:
    the first [start] elements of the left block and the first
    [mid - start] of the right block go left, the others go right, and
    the two halves are merged recursively. *)
Lemma merge_step fuel xs ys mid start :
  (forall xs' ys',
      (List.length (xs' ++ ys') <= fuel)%nat -> xs' <> [] -> ys' <> [] ->
      partitioned xs' = true -> partitioned ys' = true ->
      partitioned (symMerge byFirst fuel (xs' ++ ys') (List.length xs')) = true) ->
  (mid <= fuel)%nat -> (List.length (xs ++ ys) - mid <= fuel)%nat ->
  (start <= List.length xs)%nat -> (start <= mid)%nat ->
  (mid - start <= List.length ys)%nat ->
  partitioned xs = true -> partitioned ys = true ->
  (start <= tcount xs /\ mid - start <= tcount ys
   \/ tcount xs <= start /\ tcount ys <= mid - start)%nat ->
  let data := xs ++ ys in
  let m := List.length xs in
  let b := List.length data in
  let end_ := (mid + m - start)%nat in
  let data1 := if (start <? m)%nat && (m <? end_)%nat
               then rotate data start m end_ else data in
  partitioned
    ((if (0 <? start)%nat && (start <? mid)%nat
      then symMerge byFirst fuel (take mid data1) start else take mid data1)
     ++ (if (mid <? end_)%nat && (end_ <? b)%nat
         then symMerge byFirst fuel (drop mid data1) (end_ - mid)
         else drop mid data1)) = true.
Proof.
  intros IH Hf1 Hf2 Hs1 Hs2 He Px Py Hcount data m b end_ data1.
  subst data m b. rewrite length_app in *.
  set (m := List.length xs) in *.
  assert (Hm : m = List.length xs) by reflexivity. clearbody m.
  set (e := (mid - start)%nat) in *.
  assert (Hend : end_ = (m + e)%nat) by (unfold end_, e; lia).
  assert (Hmid : mid = (start + e)%nat) by (unfold e; lia).
  clearbody end_ e.
  set (L1 := take start xs). set (L2 := take e ys).
  set (R1 := drop start xs). set (R2 := drop e ys).
  assert (HL1 : List.length L1 = start) by (apply length_take_le; lia).
  assert (HL2 : List.length L2 = e) by (apply length_take_le; lia).
  assert (HR1 : List.length R1 = (m - start)%nat)
    by (rewrite Hm; apply length_drop).
  assert (HR2 : List.length R2 = (List.length ys - e)%nat) by apply length_drop.
  assert (Hdata1 : data1 = (L1 ++ L2) ++ (R1 ++ R2)).
  { unfold data1, L1, L2, R1, R2.
    destruct (Nat.ltb_spec start m) as [Hsm|Hsm];
      [destruct (Nat.ltb_spec m end_) as [Hme|Hme]|]; cbn [andb].
    - unfold rotate. rewrite Hm.
      rewrite (take_app_le xs ys start) by lia.
      rewrite (take_app_ge xs ys end_) by lia.
      rewrite drop_app_length, take_app_length.
      rewrite (drop_app_ge xs ys end_) by lia.
      replace (end_ - List.length xs)%nat with e by lia.
      rewrite <- !app_assoc. reflexivity.
    - replace e with 0%nat by lia.
      rewrite take_0, drop_0, app_nil_r, app_assoc, take_drop. reflexivity.
    - rewrite (take_ge xs start), (drop_ge xs start) by lia.
      rewrite app_nil_l, <- app_assoc, take_drop. reflexivity. }
  assert (Htake : take mid data1 = L1 ++ L2).
  { rewrite Hdata1. apply take_app_length'. rewrite length_app. lia. }
  assert (Hdrop : drop mid data1 = R1 ++ R2).
  { rewrite Hdata1. apply drop_app_length'. rewrite length_app. lia. }
  rewrite Htake, Hdrop.
  destruct (partitioned_take_drop xs start Px) as [PL1 PR1].
  destruct (partitioned_take_drop ys e Py) as [PL2 PR2].
  fold L1 in PL1. fold R1 in PR1. fold L2 in PL2. fold R2 in PR2.
  set (left := if (0 <? start)%nat && (start <? mid)%nat
               then symMerge byFirst fuel (L1 ++ L2) start else L1 ++ L2).
  set (right := if (mid <? end_)%nat && (end_ <? m + List.length ys)%nat
                then symMerge byFirst fuel (R1 ++ R2) (end_ - mid)
                else R1 ++ R2).
  assert (Hlp : Permutation left (L1 ++ L2)).
  { unfold left. destruct ((0 <? start)%nat && (start <? mid)%nat);
      [apply symMerge_perm|reflexivity]. }
  assert (Hrp : Permutation right (R1 ++ R2)).
  { unfold right.
    destruct ((mid <? end_)%nat && (end_ <? m + List.length ys)%nat);
      [apply symMerge_perm|reflexivity]. }
  assert (Pleft : partitioned left = true).
  { unfold left.
    destruct (Nat.ltb_spec 0 start) as [H0|H0];
      [destruct (Nat.ltb_spec start mid) as [H1|H1]|]; cbn [andb].
    - assert (Hgoal : partitioned (symMerge byFirst fuel (L1 ++ L2)
                                      (List.length L1)) = true).
      { apply IH; try assumption.
        + rewrite length_app. lia.
        + intros HL. rewrite HL in HL1. simpl in HL1. lia.
        + intros HL. rewrite HL in HL2. simpl in HL2. lia. }
      rewrite HL1 in Hgoal. exact Hgoal.
    - assert (L2 = []) as -> by (apply length_zero_iff_nil; lia).
      rewrite app_nil_r. exact PL1.
    - assert (L1 = []) as -> by (apply length_zero_iff_nil; lia).
      exact PL2. }
  assert (Pright : partitioned right = true).
  { unfold right.
    destruct (Nat.ltb_spec mid end_) as [H0|H0];
      [destruct (Nat.ltb_spec end_ (m + List.length ys)) as [H1|H1]|];
      cbn [andb].
    - assert (Hgoal : partitioned (symMerge byFirst fuel (R1 ++ R2)
                                      (List.length R1)) = true).
      { apply IH; try assumption.
        + rewrite length_app. lia.
        + intros HR. rewrite HR in HR1. simpl in HR1. lia.
        + intros HR. rewrite HR in HR2. simpl in HR2. lia. }
      replace (end_ - mid)%nat with (List.length R1) by lia. exact Hgoal.
    - assert (R2 = []) as -> by (apply length_zero_iff_nil; lia).
      rewrite app_nil_r. exact PR1.
    - assert (R1 = []) as -> by (apply length_zero_iff_nil; lia).
      exact PR2. }
  rewrite partitioned_app, Pleft, Pright.
  rewrite (front_perm _ _ Hlp), (back_perm _ _ Hrp).
  unfold front, back. rewrite !forallb_app.
  destruct Hcount as [[H1 H2]|[H1 H2]].
  - pose proof (partitioned_take_front xs Px start H1) as F1.
    pose proof (partitioned_take_front ys Py e H2) as F2.
    unfold front in F1, F2. fold L1 in F1. fold L2 in F2.
    rewrite F1, F2. reflexivity.
  - pose proof (partitioned_drop_back xs Px start H1) as B1.
    pose proof (partitioned_drop_back ys Py e H2) as B2.
    unfold back in B1, B2. fold R1 in B1. fold R2 in B2.
    rewrite B1, B2. simpl. apply orb_true_r.
Qed.


Lemma symMerge_partitioned fuel :
  forall xs ys,
    (List.length (xs ++ ys) <= fuel)%nat ->
    xs <> [] -> ys <> [] ->
    partitioned xs = true -> partitioned ys = true ->
    partitioned (symMerge byFirst fuel (xs ++ ys) (List.length xs)) = true.
Proof.
  induction fuel as [|fuel IH]; intros xs ys Hfuel Hxs Hys Px Py.
  { destruct xs; [congruence|simpl in Hfuel; lia]. }
  cbn [symMerge].
  assert (Hb : List.length (xs ++ ys) = (List.length xs + List.length ys)%nat)
    by apply length_app.
  assert (Hm : (0 < List.length xs)%nat)
    by (destruct xs; [congruence|simpl; lia]).
  assert (Hn : (0 < List.length ys)%nat)
    by (destruct ys; [congruence|simpl; lia]).
  destruct (Nat.eqb_spec (List.length xs) 1) as [Hm1|Hm1].
  { destruct xs as [|x [|x' xs]]; try discriminate Hm1. cbn [app].
    assert (Hi : search (List.length (x :: ys))
                   (fun h => lessAt byFirst (x :: ys) h 0) 1
                   (List.length (x :: ys)) = S (tcount ys)).
    { apply search_spec.
      - pose proof (tcount_le ys). simpl. lia.
      - intros h Hh. simpl in Hh. destruct h as [|h]; [lia|].
        destruct (lookup_lt_is_Some_2 ys h) as [a Ha]; [lia|].
        rewrite (lessAt_byFirst (x :: ys) (S h) 0 a x Ha eq_refl).
        rewrite (partitioned_lookup ys Py h a Ha). reflexivity.
      - simpl. lia. }
    cbn [List.length] in Hi |- *. rewrite Hi.
    replace (S (tcount ys) - 1)%nat with (tcount ys) by lia.
    rewrite partitioned_app.
    rewrite (partitioned_take_front ys Py (tcount ys)) by lia.
    simpl.
    pose proof (partitioned_drop_back ys Py (tcount ys) (Nat.le_refl _)) as Hd.
    destruct (f x); [rewrite (back_partitioned _ Hd)|rewrite Hd]; reflexivity. }
  destruct (Nat.eqb_spec (List.length (xs ++ ys) - List.length xs) 1)
    as [Hn1|Hn1].
  { destruct ys as [|y [|y' ys]]; try (simpl in Hb, Hn1; lia).
    rewrite drop_app_length.
    set (k := if f y then 0%nat else List.length xs).
    assert (Hi : search (List.length (xs ++ [y]))
                   (fun h => negb (lessAt byFirst (xs ++ [y])
                                          (List.length xs) h)) 0
                   (List.length xs) = k).
    { apply search_spec.
      - unfold k. destruct (f y); lia.
      - intros h Hh.
        destruct (lookup_lt_is_Some_2 xs h) as [a Ha]; [lia|].
        rewrite (lessAt_byFirst (xs ++ [y]) (List.length xs) h y a).
        + unfold k. destruct (f y); simpl.
          * reflexivity.
          * symmetry. apply Nat.ltb_lt. lia.
        + rewrite lookup_app_r by lia. rewrite Nat.sub_diag. reflexivity.
        + rewrite lookup_app_l by lia. exact Ha.
      - lia. }
    rewrite Hi. rewrite take_app_length. unfold k.
    destruct (f y) eqn:Hy.
    - rewrite take_0, drop_0. simpl. rewrite Hy. exact Px.
    - rewrite take_app_length, drop_all, partitioned_app, Px. simpl.
      rewrite Hy. simpl. apply orb_true_r. }
  set (data := xs ++ ys) in *. set (m := List.length xs) in *.
  set (b := List.length data) in *. set (mid := (b / 2)%nat).
  set (p := tcount xs). set (r := tcount ys).
  pose proof (tcount_le xs) as Hp. pose proof (tcount_le ys) as Hr.
  fold p in Hp. fold r in Hr. fold m in Hp.
  pose proof (half_bounds b) as Hmid. fold mid in Hmid.
  assert (Hb' : b = (m + List.length ys)%nat) by exact Hb.
  assert (Hcond : forall c, (mid + m - b <= c)%nat -> (c < mid)%nat ->
            (c < b)%nat ->
            negb (lessAt byFirst data (mid + m - 1 - c) c)
            = (c <? mid - r)%nat).
  { intros c Hc0 Hc Hcb.
    destruct (lookup_lt_is_Some_2 ys (mid - 1 - c)) as [a Ha]; [lia|].
    destruct (lookup_lt_is_Some_2 data c) as [a' Ha']; [exact Hcb|].
    rewrite (lessAt_byFirst data (mid + m - 1 - c) c a a').
    - rewrite (partitioned_lookup ys Py _ a Ha). fold r.
      destruct (Nat.ltb_spec (mid - 1 - c) r), (Nat.ltb_spec c (mid - r));
        simpl; try reflexivity; lia.
    - unfold data. rewrite lookup_app_r by (fold m; lia).
      fold m. replace (mid + m - 1 - c - m)%nat with (mid - 1 - c)%nat by lia.
      exact Ha.
    - exact Ha'. }
  destruct (Nat.ltb_spec mid m) as [Hmm|Hmm]; cbv beta iota zeta.
  - set (k := Nat.max (mid + m - b) (Nat.min mid (mid - r))).
    match goal with
    | |- context [search ?fu ?c ?i ?j] => assert (Hs : search fu c i j = k)
    end.
    { apply search_spec; [unfold k; lia| |lia].
      intros c Hc. rewrite Hcond by lia. unfold k.
      destruct (Nat.ltb_spec c (mid - r)),
               (Nat.ltb_spec c (Nat.max (mid + m - b) (Nat.min mid (mid - r))));
        try reflexivity; lia. }
    rewrite Hs.
    apply (merge_step fuel xs ys mid k IH); try assumption;
      fold m; fold data; fold b; fold p; fold r; unfold k; try lia.
  - set (k := Nat.max 0 (Nat.min m (mid - r))).
    match goal with
    | |- context [search ?fu ?c ?i ?j] => assert (Hs : search fu c i j = k)
    end.
    { apply search_spec; [unfold k; lia| |lia].
      intros c Hc. rewrite Hcond by lia. unfold k.
      destruct (Nat.ltb_spec c (mid - r)),
               (Nat.ltb_spec c (Nat.max 0 (Nat.min m (mid - r))));
        try reflexivity; lia. }
    rewrite Hs.
    apply (merge_step fuel xs ys mid k IH); try assumption;
      fold m; fold data; fold b; fold p; fold r; unfold k; try lia.
Qed.

(** The blocks of [stable]: runs of [blockSize] elements, the last one
    possibly shorter, each partitioned. *)
Inductive blocks (blockSize : nat) : list A -> Prop :=
| blocks_last l :
    (List.length l < blockSize)%nat -> partitioned l = true ->
    blocks blockSize l
| blocks_cons l rest :
    List.length l = blockSize -> partitioned l = true ->
    blocks blockSize rest -> blocks blockSize (l ++ rest).

Lemma blocks_small blockSize l :
  blocks blockSize l -> (List.length l <= blockSize)%nat ->
  partitioned l = true.
Proof.
  intros [l0 _ H|l0 rest Hl H Hrest] Hlen; [exact H|].
  rewrite length_app in Hlen.
  assert (rest = []) as -> by (apply length_zero_iff_nil; lia).
  rewrite app_nil_r. exact H.
Qed.

Lemma blocks_split blockSize l :
  blocks blockSize l -> (blockSize <= List.length l)%nat ->
  exists l1 rest,
    l = l1 ++ rest /\ List.length l1 = blockSize
    /\ partitioned l1 = true /\ blocks blockSize rest.
Proof.
  intros [l0 Hl H|l0 rest Hl H Hrest] Hlen; [lia|].
  exists l0, rest. repeat split; assumption.
Qed.

Lemma sortBlocks_blocks fuel blockSize :
  (0 < blockSize)%nat ->
  forall data, (List.length data <= fuel)%nat ->
    blocks blockSize (sortBlocks byFirst fuel blockSize data).
Proof.
  intros Hbs. induction fuel as [|fuel IH]; intros data Hlen.
  - cbn [sortBlocks]. apply blocks_last; [|apply insertionSort_partitioned].
    rewrite (Permutation_length (insertionSort_perm byFirst data)). lia.
  - cbn [sortBlocks].
    destruct (Nat.leb_spec blockSize (List.length data)) as [Hle|Hgt].
    + apply blocks_cons.
      * rewrite (Permutation_length (insertionSort_perm byFirst _)).
        apply length_take_le. exact Hle.
      * apply insertionSort_partitioned.
      * apply IH. rewrite length_drop. lia.
    + apply blocks_last; [|apply insertionSort_partitioned].
      rewrite (Permutation_length (insertionSort_perm byFirst data)).
      exact Hgt.
Qed.

Lemma mergeBlocks_blocks fuel blockSize :
  (0 < blockSize)%nat ->
  forall data, (List.length data <= fuel)%nat -> blocks blockSize data ->
    blocks (2 * blockSize) (mergeBlocks byFirst fuel blockSize data).
Proof.
  intros Hbs. induction fuel as [|fuel IH]; intros data Hlen Hblocks.
  - apply blocks_last; [simpl; lia|].
    apply (blocks_small blockSize data Hblocks). lia.
  - cbn [mergeBlocks].
    destruct (Nat.leb_spec (2 * blockSize) (List.length data)) as [H2|H2].
    + destruct (blocks_split _ _ Hblocks) as (l1 & rest & -> & Hl1 & P1 & Hrest);
        [lia|].
      rewrite length_app in H2, Hlen.
      destruct (blocks_split _ _ Hrest) as (l2 & rest' & -> & Hl2 & P2 & Hrest');
        [lia|].
      rewrite length_app in H2, Hlen.
      rewrite app_assoc.
      rewrite take_app_length', drop_app_length' by (rewrite length_app; lia).
      apply blocks_cons.
      * rewrite symMerge_length, length_app. lia.
      * assert (Hg : partitioned (symMerge byFirst (2 * blockSize) (l1 ++ l2)
                                   (List.length l1)) = true).
        { apply symMerge_partitioned; try assumption.
          - rewrite length_app. lia.
          - intros ->. simpl in Hl1. lia.
          - intros ->. simpl in Hl2. lia. }
        rewrite Hl1 in Hg. exact Hg.
      * apply IH; [lia|exact Hrest'].
    + destruct (Nat.ltb_spec blockSize (List.length data)) as [H1|H1].
      * destruct (blocks_split _ _ Hblocks) as (l1 & rest & -> & Hl1 & P1 & Hrest);
          [lia|].
        rewrite length_app in H1, H2.
        apply blocks_last; [rewrite symMerge_length, length_app; lia|].
        assert (Hg : partitioned (symMerge byFirst (List.length (l1 ++ rest))
                                   (l1 ++ rest) (List.length l1)) = true).
        { apply symMerge_partitioned; try assumption.
          - lia.
          - intros ->. simpl in Hl1. lia.
          - intros ->. simpl in H1. lia.
          - apply (blocks_small blockSize rest Hrest). lia. }
        rewrite Hl1 in Hg. exact Hg.
      * apply blocks_last; [lia|].
        apply (blocks_small blockSize data Hblocks H1).
Qed.

Lemma mergeRounds_partitioned fuel :
  forall blockSize data,
    (0 < blockSize)%nat -> blocks blockSize data ->
    (List.length data <= blockSize * 2 ^ fuel)%nat ->
    partitioned (mergeRounds byFirst fuel blockSize data) = true.
Proof.
  induction fuel as [|fuel IH]; intros blockSize data Hbs Hblocks Hlen.
  - simpl in *. apply (blocks_small blockSize data Hblocks). lia.
  - cbn [mergeRounds].
    destruct (Nat.ltb_spec blockSize (List.length data)) as [Hlt|Hge].
    + apply IH; [lia| |].
      * apply mergeBlocks_blocks; [exact Hbs|lia|exact Hblocks].
      * rewrite (Permutation_length (mergeBlocks_perm byFirst _ _ data)).
        rewrite Nat.pow_succ_r' in Hlen. lia.
    + apply (blocks_small blockSize data Hblocks Hge).
Qed.

Lemma SliceStable_partitioned data :
  partitioned (SliceStable byFirst data) = true.
Proof.
  unfold SliceStable. apply mergeRounds_partitioned; [lia| |].
  - apply sortBlocks_blocks; lia.
  - rewrite (Permutation_length (sortBlocks_perm byFirst _ _ data)).
    pose proof (Nat.pow_gt_lin_r 2 (List.length data)). lia.
Qed.

(** Sorting by a predicate on the first index: the result is a
    rearrangement of the input in which every element satisfying the
    predicate stands before every element that does not. *)
Lemma SliceStable_byFirst data :
  exists ts fs,
    SliceStable byFirst data = ts ++ fs
    /\ forallb f ts = true
    /\ forallb (fun x => negb (f x)) fs = true
    /\ Permutation (ts ++ fs) data.
Proof.
  pose proof (SliceStable_partitioned data) as Hp.
  set (out := SliceStable byFirst data) in *.
  exists (take (tcount out) out), (drop (tcount out) out).
  split; [symmetry; apply take_drop|].
  split; [apply (partitioned_take_front out Hp); lia|].
  split; [apply (partitioned_drop_back out Hp); lia|].
  rewrite take_drop. apply SliceStable_perm.
Qed.

End Partition.

End sort.

(** ** The phases of a model applier

    Both appliers run the same phases; a call to a phase is recorded under
    its name. *)

Inductive Phase :=
| BuildRemoteLoadBalancer        (* the load-balancer manager's BuildRemoteModel *)
| ApplyLoadBalancerAttribute
| BuildRemoteServerGroups        (* the server-group manager's BuildRemoteModel *)
| ApplyVGroups
| BuildRemoteListeners           (* the listener manager's BuildRemoteModel *)
| ApplyListeners
| Cleanup.

(** The result of applyLoadBalancerAttribute as Apply tests it: nil, an
    aggregate error, or any other error. *)
Inductive attrOutcome :=
| AttrOk
| AttrAggregate (msg : string)
| AttrOther (msg : string).

(** The errors Apply returns or collects in [errs]. *)
Inductive applyError :=
| ErrGetAttribute (cause : string)
| ErrUpdateAttribute (cause : string)
| ErrAttribute (cause : string)
| ErrGetServerGroups (cause : string)
| ErrReconcileBackends (cause : string)
| ErrGetListeners (cause : string)
| ErrReconcileListeners (cause : string)
| ErrCanNotFindLoadBalancer
| ErrCleanup (cause : string).

(** Reading the collaborator state is not a call. *)
Definition get {W C A} (f : W -> A) : M W C A := fun w => ((f w, w), []).

(** ** Package nlbv2 *)

Module nlbv2.

(** *** Data *)

(** The ownership key carried by resources the controller names. *)
Record NamedKey := mkNamedKey {
  Prefix : string;
  CID : string;
  Namespace : string;
  ServiceName : string
}.

(** [nlbmodel.ServerGroupServer]. *)
Record ServerGroupServer := mkServer {
  ServerId : string;
  ServerIp : string;
  ServerPort : Z;
  ServerIsUserManaged : bool       (* IsUserManaged of the server *)
}.

(** [nlbmodel.ServerGroup]. *)
Record ServerGroup := mkServerGroup {
  ServerGroupId : string;
  ServerGroupName : string;
  ServerGroupType : string;
  VPCId : string;
  IsUserManaged : bool;
  NamedKey_ : option NamedKey;     (* NamedKey, nil when absent *)
  Servers : list ServerGroupServer
}.

(** The zero value of [var old nlbmodel.ServerGroup]. *)
Definition zeroServerGroup : ServerGroup :=
  mkServerGroup "" "" "" "" false None [].

Definition setServerGroupId (g : ServerGroup) (id : string) : ServerGroup :=
  mkServerGroup id (ServerGroupName g) (ServerGroupType g) (VPCId g)
                (IsUserManaged g) (NamedKey_ g) (Servers g).

Definition setVPCId (g : ServerGroup) (vpc : string) : ServerGroup :=
  mkServerGroup (ServerGroupId g) (ServerGroupName g) (ServerGroupType g) vpc
                (IsUserManaged g) (NamedKey_ g) (Servers g).

(** Server groups are shared objects: the desired and the observed
    collection hold pointers, and applyVGroups appends desired groups to
    the observed collection. A pointer is a reference into a store. *)
Definition ref := nat.
Definition store := ref -> ServerGroup.

(** [nlbmodel.ListenerAttribute]. *)
Record ListenerAttribute := mkListener {
  ListenerId : string;
  ListenerProtocol : string;
  ListenerPort : Z;
  StartPort : Z;
  EndPort : Z;
  LisServerGroupId : string;       (* ServerGroupId of the listener *)
  LisServerGroupName : string;     (* ServerGroupName of the listener *)
  LisNamedKey : option NamedKey
}.

Definition setListenerId (l : ListenerAttribute) (id : string)
  : ListenerAttribute :=
  mkListener id (ListenerProtocol l) (ListenerPort l) (StartPort l) (EndPort l)
             (LisServerGroupId l) (LisServerGroupName l) (LisNamedKey l).

Definition setLisServerGroupId (l : ListenerAttribute) (id : string)
  : ListenerAttribute :=
  mkListener (ListenerId l) (ListenerProtocol l) (ListenerPort l) (StartPort l)
             (EndPort l) id (LisServerGroupName l) (LisNamedKey l).

Inductive serverGroupActionType :=
| serverGroupActionUpdate
| serverGroupActionCreateAndAddBackendServers.

(** The [Remote] pointer of a server-group action: the address of the
    per-iteration copy [old], or the desired group itself. *)
Inductive remoteTarget :=
| Snapshot (old : ServerGroup)
| Shared (p : ref).

Record serverGroupAction := mkSGAction {
  sgAction : serverGroupActionType;
  sgLocal : ref;
  sgRemote : remoteTarget
}.

Inductive listenerActionType :=
| listenerActionCreate
| listenerActionUpdate
| listenerActionDelete.

Record listenerAction := mkLisAction {
  lisAction : listenerActionType;
  lisLocal : option ListenerAttribute;
  lisRemote : option ListenerAttribute;
  LBId : string
}.

Inductive error :=
| ErrUserManagedType (id type oldType : string)
| ErrFindServerGroup (name : string)
| ErrCollaborator (msg : string).

(** Calls to the server-group and listener managers. *)
Inductive Call :=
| ParallelUpdateServerGroups (actions : list serverGroupAction)
| ParallelUpdateListeners (actions : list listenerAction)
| CleanupServerGroupTags (group : ref)
| BatchRemoveServers (group : ref) (del : list ServerGroupServer)
| DeleteServerGroup (id : string).

(** *** applyVGroups *)

(** The inner loop over the observed groups: the first observed group with
    the desired identity when that is known, else the first one with the
    desired name. *)
Fixpoint matchRemote (h : store) (l : ServerGroup) (rs : list ref)
  : option ref :=
  match rs with
  | [] => None
  | rv :: rest =>
      if negb (String.eqb (ServerGroupId l) "")
         && String.eqb (ServerGroupId l) (ServerGroupId (h rv)) then Some rv
      else if String.eqb (ServerGroupId l) ""
              && String.eqb (ServerGroupName l) (ServerGroupName (h rv))
           then Some rv
      else matchRemote h l rest
  end.

(** The variables of the loop: the store, [remote.ServerGroups],
    [updateActions] and [updatedServerGroups]. *)
Record vgState := mkVG {
  heap : store;
  remoteGroups : list ref;
  updateActions : list serverGroupAction;
  updatedServerGroups : gmap string bool
}.

Definition isUpdated (m : gmap string bool) (k : string) : bool :=
  default false (m !! k).

(** One iteration of the loop over [local.ServerGroups]; [vpcId] is
    [remote.LoadBalancerAttribute.VpcId]. *)
Definition vgroupStep (vpcId : string) (l : ref) (st : vgState)
  : vgState + error :=
  let h := heap st in
  let sgKey :=
    if negb (String.eqb (ServerGroupId (h l)) "")
    then String.append "id-" (ServerGroupId (h l))
    else String.append "name-" (ServerGroupName (h l)) in
  let '(found, old, h1) :=
    match matchRemote h (h l) (remoteGroups st) with
    | None => (false, zeroServerGroup, h)
    | Some rv =>
        if negb (String.eqb (ServerGroupId (h l)) "") then (true, h rv, h)
        else
          let h' := <[l := setServerGroupId (h l) (ServerGroupId (h rv))]> h in
          (true, h' rv, h')
    end in
  if isUpdated (updatedServerGroups st) sgKey then
    inl (mkVG h1 (remoteGroups st) (updateActions st) (updatedServerGroups st))
  else
    let typeChanged :=
      found && negb (String.eqb (ServerGroupType (h1 l)) "")
      && negb (String.eqb (ServerGroupType (h1 l)) (ServerGroupType old)) in
    if typeChanged && IsUserManaged (h1 l) then
      inr (ErrUserManagedType (ServerGroupId (h1 l)) (ServerGroupType (h1 l))
                              (ServerGroupType old))
    else if found && negb typeChanged then
      inl (mkVG h1 (remoteGroups st)
                (updateActions st
                   ++ [mkSGAction serverGroupActionUpdate l (Snapshot old)])
                (<[sgKey := true]> (updatedServerGroups st)))
    else
      let h2 :=
        if negb (String.eqb vpcId "") then <[l := setVPCId (h1 l) vpcId]> h1
        else h1 in
      inl (mkVG h2 (remoteGroups st ++ [l])
                (updateActions st
                   ++ [mkSGAction serverGroupActionCreateAndAddBackendServers
                                  l (Shared l)])
                (<[sgKey := true]> (updatedServerGroups st))).

Fixpoint vgroupLoop (vpcId : string) (locals : list ref) (st : vgState)
  : vgState + error :=
  match locals with
  | [] => inl st
  | l :: rest =>
      match vgroupStep vpcId l st with
      | inl st' => vgroupLoop vpcId rest st'
      | inr e => inr e
      end
  end.

(** The plan of applyVGroups: the state of the loop variables when
    ParallelUpdateServerGroups is called. *)
Definition planVGroups (h : store) (localGroups remote : list ref)
    (vpcId : string) : vgState + error :=
  vgroupLoop vpcId localGroups (mkVG h remote [] ∅).

(** Modelled from the spec: ParallelUpdateServerGroups is not part of the
    translated unit. On success of a create the executor writes the newly
    assigned identity back into the desired group; [assign p] is the
    identity the cloud assigns to the group created for the object [p]. *)
Fixpoint backfill (assign : ref -> string) (h : store)
    (actions : list serverGroupAction) : store :=
  match actions with
  | [] => h
  | a :: rest =>
      match sgAction a with
      | serverGroupActionCreateAndAddBackendServers =>
          backfill assign
            (<[sgLocal a := setServerGroupId (h (sgLocal a)) (assign (sgLocal a))]> h)
            rest
      | serverGroupActionUpdate => backfill assign h rest
      end
  end.

(** *** applyListeners *)

Fixpoint findServerGroup (h : store) (sgs : list ref) (lis : ListenerAttribute)
  : ListenerAttribute + error :=
  match sgs with
  | [] => inr (ErrFindServerGroup (LisServerGroupName lis))
  | sg :: rest =>
      if String.eqb (ServerGroupName (h sg)) (LisServerGroupName lis)
      then inl (setLisServerGroupId lis (ServerGroupId (h sg)))
      else findServerGroup h rest lis
  end.

(** The first loop: every listener without a server-group identity is
    associated by name. *)
Fixpoint associate (h : store) (sgs : list ref) (ls : list ListenerAttribute)
  : list ListenerAttribute + error :=
  match ls with
  | [] => inl []
  | l :: rest =>
      let first :=
        if negb (String.eqb (LisServerGroupId l) "") then inl l
        else findServerGroup h sgs l in
      match first with
      | inr e => inr e
      | inl l' =>
          match associate h sgs rest with
          | inr e => inr e
          | inl rest' => inl (l' :: rest')
          end
      end
  end.

Definition isListenerPortMatch (l r : ListenerAttribute) : bool :=
  if negb (ListenerPort l =? 0)%Z then (ListenerPort l =? ListenerPort r)%Z
  else (StartPort l =? StartPort r)%Z && (EndPort l =? EndPort r)%Z.

Definition listenerMatch (l r : ListenerAttribute) : bool :=
  isListenerPortMatch l r
  && String.eqb (ListenerProtocol r) (ListenerProtocol l).

Section Listeners.

(** [IsManagedByService(reqCtx.Service, base.CLUSTER_ID)] on a named key. *)
Variable IsManagedByService : NamedKey -> bool.

Definition managedByService (k : option NamedKey) : bool :=
  match k with
  | None => false
  | Some key => IsManagedByService key
  end.

(** The deletion loop. The desired listeners matched by an observed one
    take its identity. *)
Fixpoint deleteLoop (lbIsUserManaged : bool)
    (remote : list ListenerAttribute) (localLs : list ListenerAttribute)
  : list ListenerAttribute * list listenerAction :=
  match remote with
  | [] => (localLs, [])
  | r :: rest =>
      let found := existsb (fun l => listenerMatch l r) localLs in
      let local' :=
        map (fun l => if listenerMatch l r
                      then setListenerId l (ListenerId r) else l) localLs in
      let '(local'', actions) := deleteLoop lbIsUserManaged rest local' in
      if found then (local'', actions)
      else if lbIsUserManaged && negb (managedByService (LisNamedKey r))
      then (local'', actions)
      else (local'', mkLisAction listenerActionDelete None (Some r) "" :: actions)
  end.

(** The last loop: one update per observed listener with the identity of
    the desired one, a create when there is none. *)
Definition updatesOf (remote : list ListenerAttribute) (l : ListenerAttribute)
  : list listenerAction :=
  map (fun r => mkLisAction listenerActionUpdate (Some l) (Some r) "")
      (List.filter (fun r => String.eqb (ListenerId l) (ListenerId r)) remote).

Definition updateOrCreate (lbId : string) (remote : list ListenerAttribute)
    (l : ListenerAttribute) : list listenerAction :=
  match updatesOf remote l with
  | [] => [mkLisAction listenerActionCreate (Some l) None lbId]
  | ups => ups
  end.

(** The plan of applyListeners: [None] when the listeners of a reused load
    balancer are left alone, else the desired listeners after the plan and
    the value of [actions] handed to ParallelUpdateListeners. *)
Definition planListeners (lbIsUserManaged IsForceOverride : bool)
    (h : store) (localGroups : list ref) (lbId : string)
    (localLs remote : list ListenerAttribute)
  : option (list ListenerAttribute * list listenerAction) + error :=
  if lbIsUserManaged && negb IsForceOverride then inl None
  else
    match associate h localGroups localLs with
    | inr e => inr e
    | inl associated =>
        let '(matched, deletes) :=
          deleteLoop lbIsUserManaged remote associated in
        inl (Some (matched,
                   deletes ++ flat_map (updateOrCreate lbId remote) matched))
    end.

(** *** cleanup *)

Variable W : Type.
Variable sgCleanupServerGroupTags : ref -> W -> option string * W.
Variable sgBatchRemoveServers :
  ref -> list ServerGroupServer -> W -> option string * W.
Variable sgDeleteServerGroup : string -> W -> option string * W.

Variable sgParallelUpdateServerGroups :
  list serverGroupAction -> store -> W -> (list string * store) * W.
Variable lisParallelUpdateListeners :
  list listenerAction -> W -> list string * W.

Local Abbreviation Cmd := (M W Call).

(** applyVGroups: the plan, then the executor, which works on the shared
    objects; the result is the store, [remote.ServerGroups] and the
    aggregated errors. *)
Definition applyVGroups (h : store) (localGroups remote : list ref)
    (vpcId : string) : Cmd ((store * list ref * list string) + error) :=
  match planVGroups h localGroups remote vpcId with
  | inr e => ret (inr e)
  | inl st =>
      let! '(errs, h') :=
        call (ParallelUpdateServerGroups (updateActions st))
             (sgParallelUpdateServerGroups (updateActions st) (heap st)) in
      ret (inl (h', remoteGroups st, errs))
  end.

(** applyListeners: the plan, then the executor. *)
Definition applyListeners (lbIsUserManaged IsForceOverride : bool)
    (h : store) (localGroups : list ref) (lbId : string)
    (localLs remote : list ListenerAttribute)
  : Cmd ((list ListenerAttribute * list string) + error) :=
  match planListeners lbIsUserManaged IsForceOverride h localGroups lbId
                      localLs remote with
  | inr e => ret (inr e)
  | inl None => ret (inl (localLs, []))
  | inl (Some (matched, actions)) =>
      let! errs := call (ParallelUpdateListeners actions)
                        (lisParallelUpdateListeners actions) in
      ret (inl (matched, errs))
  end.

(** The body of the cleanup loop for one observed group [r]. *)
Definition cleanupGroup (PreserveOnDelete : bool) (h : store)
    (localGroups : list ref) (r : ref) : Cmd (option string) :=
  let found :=
    existsb (fun l => String.eqb (ServerGroupId (h l)) (ServerGroupId (h r)))
            localGroups in
  if found then ret None
  else if PreserveOnDelete then
    call (CleanupServerGroupTags r) (sgCleanupServerGroupTags r)
  else if match NamedKey_ (h r) with
          | None => true
          | Some key => IsUserManaged (h r) || negb (IsManagedByService key)
          end then
    let del :=
      List.filter (fun s => negb (ServerIsUserManaged s)) (Servers (h r)) in
    match del with
    | [] => ret None
    | _ => call (BatchRemoveServers r del) (sgBatchRemoveServers r del)
    end
  else
    let! err := call (DeleteServerGroup (ServerGroupId (h r)))
                     (sgDeleteServerGroup (ServerGroupId (h r))) in
    match err with
    | Some e =>
        ret (Some (String.append "delete server group "
                     (String.append (ServerGroupId (h r))
                        (String.append " failed, error: " e))))
    | None => ret None
    end.

Fixpoint cleanup (PreserveOnDelete : bool) (h : store)
    (localGroups remote : list ref) : Cmd (option string) :=
  match remote with
  | [] => ret None
  | r :: rest =>
      let! err := cleanupGroup PreserveOnDelete h localGroups r in
      match err with
      | Some e => ret (Some e)
      | None => cleanup PreserveOnDelete h localGroups rest
      end
  end.

(** ** Theorems of package nlbv2 *)

(** *** Server groups: the second pass *)

(** The test of the inner loop of applyVGroups on one observed group. *)
Definition matches (l g : ServerGroup) : bool :=
  negb (String.eqb (ServerGroupId l) "")
  && String.eqb (ServerGroupId l) (ServerGroupId g)
  || String.eqb (ServerGroupId l) ""
     && String.eqb (ServerGroupName l) (ServerGroupName g).

Lemma matchRemote_Some h l rs rv :
  matchRemote h l rs = Some rv -> In rv rs /\ matches l (h rv) = true.
Proof.
  induction rs as [|q rs IH]; simpl; [discriminate|].
  unfold matches.
  destruct (negb (ServerGroupId l =? "")%string
            && (ServerGroupId l =? ServerGroupId (h q))%string) eqn:H1.
  - intros [= <-]. split; [left; reflexivity|]. rewrite H1. reflexivity.
  - destruct ((ServerGroupId l =? "")%string
              && (ServerGroupName l =? ServerGroupName (h q))%string) eqn:H2.
    + intros [= <-]. split; [left; reflexivity|]. rewrite H1, H2. reflexivity.
    + intros H. destruct (IH H) as [Hin Hm]. split; [right; exact Hin|exact Hm].
Qed.

(** A match among the first observed groups is found there. *)
Lemma matchRemote_first h l rs1 rs2 q :
  In q rs1 -> matches l (h q) = true ->
  exists rv, In rv rs1 /\ matchRemote h l (rs1 ++ rs2) = Some rv.
Proof.
  induction rs1 as [|q' rs1 IH]; intros Hin Hm; [destruct Hin|].
  simpl.
  destruct (negb (ServerGroupId l =? "")%string
            && (ServerGroupId l =? ServerGroupId (h q'))%string) eqn:H1;
    [exists q'; split; [left|]; reflexivity|].
  destruct ((ServerGroupId l =? "")%string
            && (ServerGroupName l =? ServerGroupName (h q'))%string) eqn:H2;
    [exists q'; split; [left|]; reflexivity|].
  destruct Hin as [->|Hin].
  - unfold matches in Hm. rewrite H1, H2 in Hm. discriminate Hm.
  - destruct (IH Hin Hm) as (rv & Hrv & Heq).
    exists rv. split; [right; exact Hrv|exact Heq].
Qed.

Definition isCreate (a : serverGroupAction) : bool :=
  match sgAction a with
  | serverGroupActionCreateAndAddBackendServers => true
  | serverGroupActionUpdate => false
  end.

(** What one iteration does to the loop variables: the observed
    collection only grows, a group planned for creation is appended to it,
    types never change, and an identity is only written into the desired
    group of the iteration, when it had none. *)
Lemma vgroupStep_facts vpcId l st st' :
  vgroupStep vpcId l st = inl st' ->
  (exists extra, remoteGroups st' = remoteGroups st ++ extra)
  /\ (forall q, ServerGroupType (heap st' q) = ServerGroupType (heap st q))
  /\ (forall q, q <> l \/ ServerGroupId (heap st l) <> "" ->
                ServerGroupId (heap st' q) = ServerGroupId (heap st q))
  /\ (forall a, In a (updateActions st') ->
                In a (updateActions st)
                \/ (sgLocal a = l
                    /\ (isCreate a = true -> In l (remoteGroups st')))).
Proof.
  unfold vgroupStep. intros H.
  assert (Hfn : forall (h : store) q g,
             (<[l := g]> h) q = if decide (l = q) then g else h q).
  { intros h q g. destruct (decide (l = q)) as [<-|Hne].
    - apply fn_lookup_insert.
    - apply fn_lookup_insert_ne. exact Hne. }
  destruct (matchRemote (heap st) (heap st l) (remoteGroups st)) as [rv|];
    destruct (negb (ServerGroupId (heap st l) =? "")%string) eqn:Hk;
    cbv zeta in H;
    repeat match type of H with
           | context [if ?c then _ else _] => destruct c eqn:?
           end;
    try discriminate H; injection H as <-; cbn [heap remoteGroups updateActions];
    (split; [first [exists []; rewrite app_nil_r; reflexivity
                   |eexists; reflexivity]|]);
    (split; [intros q; rewrite ?Hfn; repeat case_decide; subst; reflexivity|]);
    (split; [intros q [Hq|Hq]; rewrite ?Hfn; repeat case_decide; subst;
             first [reflexivity|congruence
                   |apply negb_false_iff, String.eqb_eq in Hk; congruence]|]);
    intros a Ha; rewrite ?in_app_iff in Ha; cbn [In] in Ha;
    first [left; exact Ha
          |destruct Ha as [Ha|[<-|[]]]; [left; exact Ha|right];
           split; [reflexivity
                  |intros Hc; first [cbn in Hc; discriminate Hc
                                    |apply in_or_app; right; left; reflexivity]]].
Qed.

(** Every group planned for creation has been appended to the observed
    collection. *)
Lemma vgroupLoop_created vpcId locals :
  forall st st',
    vgroupLoop vpcId locals st = inl st' ->
    (forall a, In a (updateActions st) -> isCreate a = true ->
               In (sgLocal a) (remoteGroups st)) ->
    forall a, In a (updateActions st') -> isCreate a = true ->
              In (sgLocal a) (remoteGroups st').
Proof.
  induction locals as [|l locals IH]; intros st st' Hrun Hst.
  - injection Hrun as <-. exact Hst.
  - simpl in Hrun. destruct (vgroupStep vpcId l st) as [st1|e] eqn:Hstep;
      [|discriminate Hrun].
    apply (IH st1 st' Hrun).
    destruct (vgroupStep_facts _ _ _ _ Hstep) as ((extra & Hrem) & _ & _ & Hact).
    intros a Ha Hc. destruct (Hact a Ha) as [Hold|[<- Hnew]].
    + rewrite Hrem. apply in_or_app. left. apply (Hst a Hold Hc).
    + apply Hnew, Hc.
Qed.

(** An iteration for a desired group that carries an identity and finds an
    observed group of its own type plans no creation. *)
Lemma vgroupStep_found_same_type vpcId l st st' rv :
  vgroupStep vpcId l st = inl st' ->
  ServerGroupId (heap st l) <> "" ->
  matchRemote (heap st) (heap st l) (remoteGroups st) = Some rv ->
  ServerGroupType (heap st rv) = ServerGroupType (heap st l) ->
  forall a, In a (updateActions st') ->
            In a (updateActions st) \/ isCreate a = false.
Proof.
  unfold vgroupStep. intros H Hid Hm Hty. rewrite Hm in H.
  destruct (String.eqb_spec (ServerGroupId (heap st l)) "") as [He|_];
    [contradiction|].
  cbn [negb] in H. cbv zeta in H. rewrite Hty, String.eqb_refl in H.
  rewrite andb_false_r in H. cbn [andb negb] in H.
  destruct (isUpdated _ _); injection H as <-; cbn [updateActions];
    intros a Ha; [left; exact Ha|].
  apply in_app_or in Ha. destruct Ha as [Ha|[<-|[]]]; [left; exact Ha|].
  right. reflexivity.
Qed.

Section SecondPass.

(** The state the first pass and the executor leave behind: the store
    [h2] and the observed collection [R1], which holds the group [p] the
    first pass created. Observed groups carry an identity, and that of
    [p] is its own. *)
Variable h2 : store.
Variable R1 : list ref.
Variable p : ref.
Hypothesis p_observed : In p R1.
Hypothesis observed_identified :
  forall q, In q R1 -> ServerGroupId (h2 q) <> "".
Hypothesis p_identity_unique :
  forall q, In q R1 -> ServerGroupId (h2 q) = ServerGroupId (h2 p) -> q = p.

Record secondPassInv (st : vgState) : Prop := mkInv {
  inv_remote : exists extra, remoteGroups st = R1 ++ extra;
  inv_heap : forall q, In q R1 ->
      ServerGroupId (heap st q) = ServerGroupId (h2 q)
      /\ ServerGroupType (heap st q) = ServerGroupType (h2 q);
  inv_actions : forall a, In a (updateActions st) -> sgLocal a = p ->
      isCreate a = false
}.

Lemma secondPass_step vpcId l st st' :
  secondPassInv st -> vgroupStep vpcId l st = inl st' -> secondPassInv st'.
Proof using p_observed observed_identified p_identity_unique.
  intros [(extra & Hrem) Hheap Hact] Hstep.
  destruct (vgroupStep_facts _ _ _ _ Hstep)
    as ((extra' & Hrem') & Hty & Hid & Hnew).
  constructor.
  - exists (extra ++ extra'). rewrite Hrem', Hrem, app_assoc. reflexivity.
  - intros q Hq. destruct (Hheap q Hq) as [Hq1 Hq2]. split.
    + rewrite <- Hq1. apply Hid.
      destruct (Nat.eq_dec q l) as [->|Hne]; [right|left; exact Hne].
      rewrite Hq1. apply observed_identified, Hq.
    + rewrite Hty. exact Hq2.
  - intros a Ha Hp.
    destruct (Hnew a Ha) as [Hold|[Hl _]]; [apply (Hact a Hold Hp)|].
    assert (l = p) as -> by congruence.
    destruct (Hheap p p_observed) as [Hp1 Hp2].
    assert (Hne : ServerGroupId (heap st p) <> "").
    { rewrite Hp1. apply observed_identified, p_observed. }
    assert (Hself : matches (heap st p) (heap st p) = true).
    { unfold matches.
      destruct (String.eqb_spec (ServerGroupId (heap st p)) "");
        [contradiction|].
      rewrite String.eqb_refl. reflexivity. }
    destruct (matchRemote_first (heap st) (heap st p) R1 extra p
                p_observed Hself) as (rv & Hrv & Hm).
    rewrite <- Hrem in Hm.
    assert (rv = p) as ->.
    { apply p_identity_unique; [exact Hrv|].
      destruct (matchRemote_Some _ _ _ _ Hm) as [_ Hmatch].
      unfold matches in Hmatch.
      destruct (String.eqb_spec (ServerGroupId (heap st p)) "");
        [contradiction|].
      cbn [negb andb orb] in Hmatch. rewrite orb_false_r in Hmatch.
      apply String.eqb_eq in Hmatch.
      destruct (Hheap rv Hrv) as [Hr1 _]. congruence. }
    destruct (vgroupStep_found_same_type _ _ _ _ _ Hstep Hne Hm eq_refl a Ha)
      as [Hold|Hc]; [apply (Hact a Hold Hp)|exact Hc].
Qed.

Lemma secondPass_loop vpcId locals :
  forall st st',
    secondPassInv st -> vgroupLoop vpcId locals st = inl st' ->
    secondPassInv st'.
Proof using p_observed observed_identified p_identity_unique.
  induction locals as [|l locals IH]; intros st st' Hinv Hrun.
  - injection Hrun as <-. exact Hinv.
  - simpl in Hrun. destruct (vgroupStep vpcId l st) as [st1|e] eqn:Hstep;
      [|discriminate Hrun].
    apply (IH st1 st'); [|exact Hrun].
    apply (secondPass_step vpcId l st st1 Hinv Hstep).
Qed.

End SecondPass.

(** *** Listeners *)

(** The identity a desired listener ends the deletion loop with: that of
    the last observed listener matching it. *)
Fixpoint settle (remote : list ListenerAttribute) (l : ListenerAttribute)
  : ListenerAttribute :=
  match remote with
  | [] => l
  | r :: rest =>
      settle rest (if listenerMatch l r then setListenerId l (ListenerId r)
                   else l)
  end.

Lemma listenerMatch_setListenerId l id r :
  listenerMatch (setListenerId l id) r = listenerMatch l r.
Proof. reflexivity. Qed.

Lemma listenerMatch_settle remote l r :
  listenerMatch (settle remote l) r = listenerMatch l r.
Proof.
  revert l. induction remote as [|r' remote IH]; intros l; [reflexivity|].
  simpl. rewrite IH. destruct (listenerMatch l r'); reflexivity.
Qed.

Lemma settle_unmatched remote l :
  (forall r, In r remote -> listenerMatch l r = false) ->
  settle remote l = l.
Proof.
  induction remote as [|r remote IH]; intros H; [reflexivity|].
  simpl. rewrite (H r (or_introl eq_refl)). apply IH.
  intros r' Hr'. apply H. right. exact Hr'.
Qed.

(** A matched desired listener carries the identity of an observed one. *)
Lemma settle_matched remote :
  forall l r, In r remote -> listenerMatch l r = true ->
    exists r', In r' remote /\ ListenerId (settle remote l) = ListenerId r'.
Proof.
  induction remote as [|r0 remote IH]; intros l r Hin Hm; [destruct Hin|].
  simpl.
  destruct (existsb (fun r' => listenerMatch l r') remote) eqn:Hex.
  - apply existsb_exists in Hex. destruct Hex as (r1 & Hr1 & Hm1).
    destruct (IH (if listenerMatch l r0 then setListenerId l (ListenerId r0)
                  else l) r1 Hr1) as (r' & Hr' & Hid).
    { destruct (listenerMatch l r0); [|exact Hm1].
      rewrite listenerMatch_setListenerId. exact Hm1. }
    exists r'. split; [right; exact Hr'|exact Hid].
  - assert (Hnone : forall r', In r' remote -> listenerMatch l r' = false).
    { intros r' Hr'. destruct (listenerMatch l r') eqn:Hm'; [|reflexivity].
      assert (existsb (fun r' => listenerMatch l r') remote = true) as Hyes
        by (apply existsb_exists; exists r'; split; assumption).
      congruence. }
    destruct Hin as [->|Hin]; [|rewrite (Hnone r Hin) in Hm; discriminate Hm].
    rewrite Hm. exists r. split; [left; reflexivity|].
    rewrite settle_unmatched; [reflexivity|].
    intros r' Hr'. rewrite listenerMatch_setListenerId. apply Hnone, Hr'.
Qed.

Lemma deleteLoop_settles lbIsUserManaged remote :
  forall localLs,
    fst (deleteLoop lbIsUserManaged remote localLs)
    = map (settle remote) localLs.
Proof using Type.
  induction remote as [|r remote IH]; intros localLs; simpl.
  - rewrite map_id. reflexivity.
  - specialize (IH (map (fun l => if listenerMatch l r
                                  then setListenerId l (ListenerId r) else l)
                        localLs)).
    destruct (deleteLoop lbIsUserManaged remote _) as [local'' actions].
    simpl in IH.
    assert (Hfst : local'' = map (settle (r :: remote)) localLs).
    { rewrite IH, map_map. reflexivity. }
    destruct (existsb _ localLs); [exact Hfst|].
    destruct (lbIsUserManaged && _); exact Hfst.
Qed.

(** The deletion loop plans deletions only, each for an observed listener
    that no desired listener matches. *)
Lemma deleteLoop_deletes lbIsUserManaged remote :
  forall localLs a,
    In a (snd (deleteLoop lbIsUserManaged remote localLs)) ->
    lisAction a = listenerActionDelete.
Proof using Type.
  induction remote as [|r remote IH]; intros localLs a; simpl; [intros []|].
  specialize (IH (map (fun l => if listenerMatch l r
                                then setListenerId l (ListenerId r) else l)
                      localLs) a).
  destruct (deleteLoop lbIsUserManaged remote _) as [local'' actions].
  simpl in IH.
  destruct (existsb _ localLs); [exact IH|].
  destruct (lbIsUserManaged && _); [exact IH|].
  simpl. intros [<-|Ha]; [reflexivity|apply IH, Ha].
Qed.

Lemma updateOrCreate_kinds lbId remote l a :
  In a (updateOrCreate lbId remote l) ->
  lisLocal a = Some l
  /\ (lisAction a = listenerActionUpdate
      \/ (lisAction a = listenerActionCreate
          /\ forall r, In r remote ->
               String.eqb (ListenerId l) (ListenerId r) = false)).
Proof.
  unfold updateOrCreate, updatesOf.
  destruct (List.filter _ remote) as [|r0 rs] eqn:Hf.
  - simpl. intros [<-|[]]. split; [reflexivity|]. right. split; [reflexivity|].
    intros r Hr.
    destruct (String.eqb (ListenerId l) (ListenerId r)) eqn:He; [|reflexivity].
    assert (In r (List.filter (fun r => String.eqb (ListenerId l) (ListenerId r))
                              remote)) as Hin
      by (apply List.filter_In; split; assumption).
    rewrite Hf in Hin. destruct Hin.
  - cbn [map]. intros Ha.
    change (In a (map (fun r => mkLisAction listenerActionUpdate (Some l)
                                            (Some r) "") (r0 :: rs))) in Ha.
    apply in_map_iff in Ha. destruct Ha as (r & <- & _).
    split; [reflexivity|left; reflexivity].
Qed.

(** No creation is planned for a listener that an observed listener
    matches by protocol and port. *)
Lemma planListeners_no_create_for_matched
    lbIsUserManaged IsForceOverride h localGroups lbId localLs remote
    matched actions a l :
  planListeners lbIsUserManaged IsForceOverride h localGroups lbId
                localLs remote = inl (Some (matched, actions)) ->
  In a actions -> lisAction a = listenerActionCreate ->
  lisLocal a = Some l ->
  forall r, In r remote -> listenerMatch l r = false.
Proof using Type.
  unfold planListeners. intros Hplan Ha Hc Hl r Hr.
  destruct (lbIsUserManaged && negb IsForceOverride); [discriminate Hplan|].
  destruct (associate h localGroups localLs) as [associated|e];
    [|discriminate Hplan].
  pose proof (deleteLoop_settles lbIsUserManaged remote associated) as Hfst.
  pose proof (deleteLoop_deletes lbIsUserManaged remote associated a) as Hdel.
  destruct (deleteLoop lbIsUserManaged remote associated) as [m deletes].
  simpl in Hfst, Hdel. injection Hplan as <- <-.
  apply in_app_or in Ha. destruct Ha as [Ha|Ha];
    [rewrite (Hdel Ha) in Hc; discriminate Hc|].
  apply in_flat_map in Ha. destruct Ha as (l' & Hl' & Ha).
  destruct (updateOrCreate_kinds _ _ _ _ Ha) as [Hloc [Hu|[_ Hnone]]];
    [rewrite Hu in Hc; discriminate Hc|].
  assert (l' = l) as -> by congruence.
  rewrite Hfst in Hl'. apply in_map_iff in Hl'.
  destruct Hl' as (l0 & <- & _).
  destruct (listenerMatch (settle remote l0) r) eqn:Hm; [|reflexivity].
  rewrite listenerMatch_settle in Hm.
  destruct (settle_matched remote l0 r Hr Hm) as (r' & Hr' & Hid).
  specialize (Hnone r' Hr'). rewrite Hid, String.eqb_refl in Hnone.
  discriminate Hnone.
Qed.

(** An update is planned for every desired listener that an observed
    listener matches by protocol and port, and every desired listener
    gets at least one action. *)
Lemma planListeners_updates_matched
    lbIsUserManaged IsForceOverride h localGroups lbId localLs remote
    matched actions l :
  planListeners lbIsUserManaged IsForceOverride h localGroups lbId
                localLs remote = inl (Some (matched, actions)) ->
  In l matched ->
  (exists a, In a actions /\ lisLocal a = Some l)
  /\ ((exists r, In r remote /\ listenerMatch l r = true) ->
      exists a, In a actions /\ lisAction a = listenerActionUpdate
                /\ lisLocal a = Some l).
Proof using Type.
  unfold planListeners. intros Hplan Hl.
  destruct (lbIsUserManaged && negb IsForceOverride); [discriminate Hplan|].
  destruct (associate h localGroups localLs) as [associated|e];
    [|discriminate Hplan].
  pose proof (deleteLoop_settles lbIsUserManaged remote associated) as Hfst.
  destruct (deleteLoop lbIsUserManaged remote associated) as [m deletes].
  simpl in Hfst. injection Hplan as <- <-.
  split.
  - assert (Hne : exists a, In a (updateOrCreate lbId remote l)
                            /\ lisLocal a = Some l).
    { unfold updateOrCreate, updatesOf.
      destruct (List.filter _ remote) as [|r0 rs].
      - eexists. split; [left; reflexivity|reflexivity].
      - eexists. split; [left; reflexivity|reflexivity]. }
    destruct Hne as (a & Ha & Hloc). exists a. split; [|exact Hloc].
    apply in_or_app. right. apply in_flat_map. exists l. split; assumption.
  - intros (r & Hr & Hm). rewrite Hfst in Hl. apply in_map_iff in Hl.
    destruct Hl as (l0 & <- & Hl0).
    rewrite listenerMatch_settle in Hm.
    destruct (settle_matched remote l0 r Hr Hm) as (r' & Hr' & Hid).
    exists (mkLisAction listenerActionUpdate (Some (settle remote l0))
                        (Some r') "").
    split; [|split; reflexivity].
    apply in_or_app. right. apply in_flat_map.
    exists (settle remote l0). split.
    { rewrite Hfst. apply in_map. exact Hl0. }
    assert (Hin : In r' (List.filter
                           (fun r => String.eqb (ListenerId (settle remote l0))
                                                (ListenerId r)) remote)).
    { apply List.filter_In. split; [exact Hr'|].
      rewrite Hid. apply String.eqb_refl. }
    unfold updateOrCreate, updatesOf.
    destruct (List.filter _ remote) as [|r0 rs] eqn:Hf; [destruct Hin|].
    change (In (mkLisAction listenerActionUpdate (Some (settle remote l0))
                            (Some r') "")
               (map (fun r => mkLisAction listenerActionUpdate
                                (Some (settle remote l0)) (Some r) "")
                    (r0 :: rs))).
    apply (List.in_map
             (fun r => mkLisAction listenerActionUpdate
                         (Some (settle remote l0)) (Some r) "")
             (r0 :: rs) r' Hin).
Qed.

(** The association with a server group changes neither protocol nor
    ports of a listener. *)
Lemma findServerGroup_same_match h sgs l l' :
  findServerGroup h sgs l = inl l' ->
  forall r, listenerMatch l' r = listenerMatch l r.
Proof.
  induction sgs as [|sg sgs IH]; cbn [findServerGroup]; [discriminate|].
  destruct (String.eqb _ _); [|exact IH].
  intros [= <-] r. reflexivity.
Qed.

Lemma associate_each h sgs ls :
  forall ls',
    associate h sgs ls = inl ls' ->
    forall l0, In l0 ls ->
      exists l1, In l1 ls' /\ forall r, listenerMatch l1 r = listenerMatch l0 r.
Proof.
  induction ls as [|l ls IH]; intros ls'; cbn [associate].
  - intros _ l0 [].
  - destruct (negb (String.eqb (LisServerGroupId l) "")).
    + destruct (associate h sgs ls) as [rest|e]; [|discriminate].
      intros [= <-] l0 [Heq|Hin].
      * exists l. split; [left; reflexivity|]. rewrite Heq. reflexivity.
      * destruct (IH rest eq_refl l0 Hin) as (l1 & H1 & Hm).
        exists l1. split; [right; exact H1|exact Hm].
    + destruct (findServerGroup h sgs l) as [l'|e] eqn:Hf; [|discriminate].
      destruct (associate h sgs ls) as [rest|e]; [|discriminate].
      intros [= <-] l0 [Heq|Hin].
      * exists l'. split; [left; reflexivity|]. rewrite <- Heq.
        exact (findServerGroup_same_match _ _ _ _ Hf).
      * destruct (IH rest eq_refl l0 Hin) as (l1 & H1 & Hm).
        exists l1. split; [right; exact H1|exact Hm].
Qed.

(** Every desired listener is served by the plan: the plan leaves it with
    the same protocol and ports, holds an action for it, and holds an
    update for it when an observed listener matches it. *)
Lemma planListeners_serves_each
    lbIsUserManaged IsForceOverride h localGroups lbId localLs remote
    matched actions l0 :
  planListeners lbIsUserManaged IsForceOverride h localGroups lbId
                localLs remote = inl (Some (matched, actions)) ->
  In l0 localLs ->
  exists l,
    In l matched
    /\ (forall r, listenerMatch l r = listenerMatch l0 r)
    /\ (exists a, In a actions /\ lisLocal a = Some l)
    /\ ((exists r, In r remote /\ listenerMatch l0 r = true) ->
        exists a, In a actions /\ lisAction a = listenerActionUpdate
                  /\ lisLocal a = Some l).
Proof using Type.
  intros Hplan Hl0.
  assert (Hm : exists l, In l matched
                         /\ forall r, listenerMatch l r = listenerMatch l0 r).
  { unfold planListeners in Hplan.
    destruct (lbIsUserManaged && negb IsForceOverride); [discriminate Hplan|].
    destruct (associate h localGroups localLs) as [associated|e] eqn:Ha;
      [|discriminate Hplan].
    pose proof (deleteLoop_settles lbIsUserManaged remote associated) as Hfst.
    destruct (deleteLoop lbIsUserManaged remote associated) as [m deletes].
    simpl in Hfst. injection Hplan as <- _.
    destruct (associate_each _ _ _ _ Ha l0 Hl0) as (l1 & H1 & Hsame).
    exists (settle remote l1). split.
    - rewrite Hfst. apply List.in_map. exact H1.
    - intros r. rewrite listenerMatch_settle. apply Hsame. }
  destruct Hm as (l & Hl & Hsame).
  destruct (planListeners_updates_matched _ _ _ _ _ _ _ _ _ l Hplan Hl)
    as [Hact Hupd].
  exists l. split; [exact Hl|]. split; [exact Hsame|]. split; [exact Hact|].
  intros (r & Hr & Hmatch). apply Hupd. exists r. split; [exact Hr|].
  rewrite Hsame. exact Hmatch.
Qed.

(** The loop of applyVGroups never drops an action, and its first
    iteration always plans one: nothing has been handled yet. *)
Lemma vgroupStep_actions_kept vpcId l st st' :
  vgroupStep vpcId l st = inl st' ->
  forall a, In a (updateActions st) -> In a (updateActions st').
Proof.
  unfold vgroupStep. intros H a Ha.
  destruct (matchRemote (heap st) (heap st l) (remoteGroups st)) as [rv|];
    [destruct (negb (String.eqb (ServerGroupId (heap st l)) ""))|];
    cbv zeta in H;
    repeat match type of H with
           | (if ?b then _ else _) = _ => destruct b
           end;
    try discriminate H; injection H as <-; cbn [updateActions];
    first [exact Ha|apply in_or_app; left; exact Ha].
Qed.

Lemma vgroupLoop_actions_kept vpcId locals :
  forall st st',
    vgroupLoop vpcId locals st = inl st' ->
    forall a, In a (updateActions st) -> In a (updateActions st').
Proof.
  induction locals as [|l locals IH]; intros st st' H a Ha.
  - injection H as <-. exact Ha.
  - simpl in H. destruct (vgroupStep vpcId l st) as [st1|e] eqn:Hs;
      [|discriminate H].
    apply (IH st1 st' H). apply (vgroupStep_actions_kept _ _ _ _ Hs a Ha).
Qed.

Lemma planVGroups_first_action h l locals remote vpcId st :
  planVGroups h (l :: locals) remote vpcId = inl st ->
  exists a, In a (updateActions st) /\ sgLocal a = l.
Proof.
  unfold planVGroups. cbn [vgroupLoop].
  destruct (vgroupStep vpcId l (mkVG h remote [] ∅)) as [st1|e] eqn:Hs;
    [|discriminate].
  intros H.
  assert (Hfirst : exists a, In a (updateActions st1) /\ sgLocal a = l).
  { unfold vgroupStep in Hs. cbn [heap remoteGroups updateActions
                                   updatedServerGroups] in Hs.
    unfold isUpdated in Hs. rewrite lookup_empty in Hs. cbn [default] in Hs.
    destruct (matchRemote h (h l) remote) as [rv|];
      [destruct (negb (String.eqb (ServerGroupId (h l)) ""))|];
      cbv zeta in Hs;
      repeat match type of Hs with
             | (if ?b then _ else _) = _ => destruct b
             end;
      try discriminate Hs; injection Hs as <-; cbn [updateActions];
      eexists; (split; [left; reflexivity|reflexivity]). }
  destruct Hfirst as (a & Ha & Hloc). exists a. split; [|exact Hloc].
  apply (vgroupLoop_actions_kept vpcId locals st1 st H a Ha).
Qed.

(** *** Idempotence *)

(** The actions of a second pass: applyVGroups is planned, the executor
    back-fills the identities of the groups it created, and applyVGroups
    is planned again on the store and the observed collection left
    behind. *)
Definition secondPassActions (assign : ref -> string) (h : store)
    (localGroups remote : list ref) (vpcId : string)
  : option (list serverGroupAction) :=
  match planVGroups h localGroups remote vpcId with
  | inr _ => None
  | inl st1 =>
      match planVGroups (backfill assign (heap st1) (updateActions st1))
                        localGroups (remoteGroups st1) vpcId with
      | inr _ => None
      | inl st2 => Some (updateActions st2)
      end
  end.

(** C1 (amended): on a second pass against the state a successful first
    pass leaves behind, applyVGroups plans no create action for a desired
    server group that the first pass created: every action it plans for
    such a group is an update (the group was appended to the observed
    collection and is found there by its back-filled identity, the
    observed identities being non-empty and that of the group its own).
    applyListeners plans no create action for a listener matched by
    (protocol, port), and plans an update action for every desired
    listener that an observed listener matches. The second pass is not
    empty, though: whenever there is a desired server group, the second
    plan of applyVGroups holds an action for the first of them, and a
    listener plan holds an action for every desired listener. *)
Theorem second_pass_plans_no_create :
  (forall assign h0 localGroups remote0 vpcId st1 st2 a,
      planVGroups h0 localGroups remote0 vpcId = inl st1 ->
      let h2 := backfill assign (heap st1) (updateActions st1) in
      (forall q, In q (remoteGroups st1) -> ServerGroupId (h2 q) <> "") ->
      In a (updateActions st1) ->
      sgAction a = serverGroupActionCreateAndAddBackendServers ->
      (forall q, In q (remoteGroups st1) ->
                 ServerGroupId (h2 q) = ServerGroupId (h2 (sgLocal a)) ->
                 q = sgLocal a) ->
      planVGroups h2 localGroups (remoteGroups st1) vpcId = inl st2 ->
      forall b, In b (updateActions st2) -> sgLocal b = sgLocal a ->
                sgAction b = serverGroupActionUpdate)
  /\ (forall lbIsUserManaged IsForceOverride h localGroups lbId localLs remote
             matched actions a l,
        planListeners lbIsUserManaged IsForceOverride h localGroups lbId
                      localLs remote = inl (Some (matched, actions)) ->
        In a actions -> lisAction a = listenerActionCreate ->
        lisLocal a = Some l ->
        forall r, In r remote -> listenerMatch l r = false)
  /\ (forall lbIsUserManaged IsForceOverride h localGroups lbId localLs remote
             matched actions l0,
        planListeners lbIsUserManaged IsForceOverride h localGroups lbId
                      localLs remote = inl (Some (matched, actions)) ->
        In l0 localLs ->
        exists l,
          In l matched
          /\ (forall r, listenerMatch l r = listenerMatch l0 r)
          /\ (exists a, In a actions /\ lisLocal a = Some l)
          /\ ((exists r, In r remote /\ listenerMatch l0 r = true) ->
              exists a, In a actions /\ lisAction a = listenerActionUpdate
                        /\ lisLocal a = Some l))
  /\ (forall assign h0 l locals remote0 vpcId st1 st2,
        planVGroups h0 (l :: locals) remote0 vpcId = inl st1 ->
        planVGroups (backfill assign (heap st1) (updateActions st1))
                    (l :: locals) (remoteGroups st1) vpcId = inl st2 ->
        exists b, In b (updateActions st2) /\ sgLocal b = l).
Proof using Type.
  split; [|split; [apply planListeners_no_create_for_matched|split]];
    [|apply planListeners_serves_each
     |intros assign h0 l locals remote0 vpcId st1 st2 _ Hsecond;
      apply (planVGroups_first_action _ _ _ _ _ _ Hsecond)].
  intros assign h0 localGroups remote0 vpcId st1 st2 a Hfirst h2 Hids Ha Hc
         Huniq Hsecond b Hb Hloc.
  assert (Hp : In (sgLocal a) (remoteGroups st1)).
  { apply (vgroupLoop_created vpcId localGroups (mkVG h0 remote0 [] ∅) st1
             Hfirst);
      [intros a' []|exact Ha|].
    unfold isCreate. rewrite Hc. reflexivity. }
  assert (Hinv : secondPassInv h2 (remoteGroups st1) (sgLocal a) st2).
  { apply (secondPass_loop h2 (remoteGroups st1) (sgLocal a) Hp Hids Huniq
             vpcId localGroups (mkVG h2 (remoteGroups st1) [] ∅) st2);
      [|exact Hsecond].
    constructor; cbn [remoteGroups heap updateActions].
    - exists []. rewrite app_nil_r. reflexivity.
    - intros q _. split; reflexivity.
    - intros a' []. }
  pose proof (inv_actions _ _ _ _ Hinv b Hb Hloc) as Hnc.
  unfold isCreate in Hnc. destruct (sgAction b); [reflexivity|discriminate Hnc].
Qed.

(** *** The order of the listener plan *)

Definition isDelete (a : listenerAction) : bool :=
  match lisAction a with listenerActionDelete => true | _ => false end.

Lemma updateOrCreate_not_delete lbId remote l :
  forallb (fun a => negb (isDelete a)) (updateOrCreate lbId remote l) = true.
Proof.
  apply forallb_forall. intros a Ha.
  destruct (updateOrCreate_kinds _ _ _ _ Ha) as [_ [Hk|[Hk _]]];
    unfold isDelete; rewrite Hk; reflexivity.
Qed.

(** The plan lists the deletions first; then, for each desired listener in
    turn, its updates or its creation. *)
Lemma planListeners_order
    lbIsUserManaged IsForceOverride h localGroups lbId localLs remote
    matched actions :
  planListeners lbIsUserManaged IsForceOverride h localGroups lbId
                localLs remote = inl (Some (matched, actions)) ->
  exists deletes,
    actions = deletes ++ flat_map (updateOrCreate lbId remote) matched
    /\ forallb isDelete deletes = true
    /\ forallb (fun a => negb (isDelete a))
               (flat_map (updateOrCreate lbId remote) matched) = true.
Proof using Type.
  unfold planListeners. intros Hplan.
  destruct (lbIsUserManaged && negb IsForceOverride); [discriminate Hplan|].
  destruct (associate h localGroups localLs) as [associated|e];
    [|discriminate Hplan].
  pose proof (deleteLoop_deletes lbIsUserManaged remote associated) as Hdel.
  destruct (deleteLoop lbIsUserManaged remote associated) as [m deletes].
  simpl in Hdel. injection Hplan as <- <-.
  exists deletes. split; [reflexivity|]. split.
  - apply forallb_forall. intros a Ha. unfold isDelete.
    rewrite (Hdel a Ha). reflexivity.
  - apply forallb_forall. intros a Ha. apply in_flat_map in Ha.
    destruct Ha as (l & _ & Ha).
    pose proof (updateOrCreate_not_delete lbId remote l) as Hall.
    rewrite forallb_forall in Hall. apply Hall, Ha.
Qed.

(** *** The cleanup pass *)

(** An observed group is owned by this cluster's service when it has a
    named key managed by the service and is not tagged user-managed. *)
Definition ownedByService (g : ServerGroup) : bool :=
  match NamedKey_ g with
  | None => false
  | Some key => negb (IsUserManaged g) && IsManagedByService key
  end.

Definition detachable (g : ServerGroup) : list ServerGroupServer :=
  List.filter (fun s => negb (ServerIsUserManaged s)) (Servers g).

Definition isDeleteServerGroup (c : Call) : bool :=
  match c with DeleteServerGroup _ => true | _ => false end.

(** The calls of one iteration of the cleanup loop. *)
Lemma cleanupGroup_calls PreserveOnDelete h localGroups r w :
  calls (cleanupGroup PreserveOnDelete h localGroups r w)
  = if existsb (fun l => String.eqb (ServerGroupId (h l)) (ServerGroupId (h r)))
               localGroups then []
    else if PreserveOnDelete then [CleanupServerGroupTags r]
    else if ownedByService (h r) then [DeleteServerGroup (ServerGroupId (h r))]
    else match detachable (h r) with
         | [] => []
         | del => [BatchRemoveServers r del]
         end.
Proof using Type.
  unfold cleanupGroup, ownedByService, detachable.
  destruct (existsb _ localGroups); [reflexivity|].
  destruct PreserveOnDelete; [reflexivity|].
  destruct (NamedKey_ (h r)) as [key|].
  - destruct (IsUserManaged (h r)); simpl.
    + destruct (List.filter _ _); reflexivity.
    + destruct (IsManagedByService key); simpl.
      * unfold bind, call, ret, calls.
        destruct (sgDeleteServerGroup (ServerGroupId (h r)) w) as [[e|] w1];
          reflexivity.
      * destruct (List.filter _ _); reflexivity.
  - destruct (List.filter _ _); reflexivity.
Qed.

(** Every call of the cleanup pass is a call of the iteration of some
    observed group. *)
Lemma cleanup_calls PreserveOnDelete h localGroups remote :
  forall w c,
    In c (calls (cleanup PreserveOnDelete h localGroups remote w)) ->
    exists r w', In r remote
                 /\ In c (calls (cleanupGroup PreserveOnDelete h localGroups r w')).
Proof using Type.
  induction remote as [|r remote IH]; intros w c Hc; [destruct Hc|].
  cbn [cleanup] in Hc. unfold bind in Hc.
  destruct (cleanupGroup PreserveOnDelete h localGroups r w)
    as [[err w1] t1] eqn:Hg.
  assert (Ht1 : t1 = calls (cleanupGroup PreserveOnDelete h localGroups r w))
    by (rewrite Hg; reflexivity).
  destruct err as [e|].
  - simpl in Hc. rewrite app_nil_r in Hc.
    exists r, w. split; [left; reflexivity|]. rewrite <- Ht1. exact Hc.
  - destruct (cleanup PreserveOnDelete h localGroups remote w1)
      as [[err' w2] t2] eqn:Hrest.
    simpl in Hc. apply in_app_or in Hc. destruct Hc as [Hc|Hc].
    + exists r, w. split; [left; reflexivity|]. rewrite <- Ht1. exact Hc.
    + destruct (IH w1 c) as (r' & w' & Hr' & Hc').
      { rewrite Hrest. exact Hc. }
      exists r', w'. split; [right; exact Hr'|exact Hc'].
Qed.

(** Ownership safety of the nlbv2 cleanup pass. *)
Lemma cleanup_ownership_safe PreserveOnDelete h localGroups remote w :
  (forall r w', ownedByService (h r) = false ->
      forallb (fun c => negb (isDeleteServerGroup c))
              (calls (cleanupGroup PreserveOnDelete h localGroups r w')) = true)
  /\ (forall id,
        In (DeleteServerGroup id)
           (calls (cleanup PreserveOnDelete h localGroups remote w)) ->
        exists r, In r remote /\ id = ServerGroupId (h r)
                  /\ ownedByService (h r) = true)
  /\ (forall g del,
        In (BatchRemoveServers g del)
           (calls (cleanup PreserveOnDelete h localGroups remote w)) ->
        In g remote /\ ownedByService (h g) = false
        /\ del = detachable (h g)
        /\ forallb (fun s => negb (ServerIsUserManaged s)) del = true).
Proof using Type.
  split; [|split].
  - intros r w' Hown. rewrite cleanupGroup_calls, Hown.
    destruct (existsb _ localGroups); [reflexivity|].
    destruct PreserveOnDelete; [reflexivity|].
    destruct (detachable (h r)); reflexivity.
  - intros id Hin.
    destruct (cleanup_calls _ _ _ _ _ _ Hin) as (r & w' & Hr & Hc).
    rewrite cleanupGroup_calls in Hc.
    destruct (existsb _ localGroups); [destruct Hc|].
    destruct PreserveOnDelete; [destruct Hc as [Hc|[]]; discriminate Hc|].
    destruct (ownedByService (h r)) eqn:Hown.
    + destruct Hc as [[= <-]|[]]. exists r. repeat split; assumption.
    + destruct (detachable (h r)); [destruct Hc|].
      destruct Hc as [Hc|[]]; discriminate Hc.
  - intros g del Hin.
    destruct (cleanup_calls _ _ _ _ _ _ Hin) as (r & w' & Hr & Hc).
    rewrite cleanupGroup_calls in Hc.
    destruct (existsb _ localGroups); [destruct Hc|].
    destruct PreserveOnDelete; [destruct Hc as [Hc|[]]; discriminate Hc|].
    destruct (ownedByService (h r)) eqn:Hown;
      [destruct Hc as [Hc|[]]; discriminate Hc|].
    destruct (detachable (h r)) as [|s0 ss] eqn:Hdet; [destruct Hc|].
    destruct Hc as [[= <- <-]|[]].
    split; [exact Hr|]. split; [exact Hown|]. split; [symmetry; exact Hdet|].
    rewrite <- Hdet. unfold detachable. apply forallb_forall.
    intros s Hs. apply List.filter_In in Hs. apply Hs.
Qed.

End Listeners.

(** *** Apply *)

Section Apply.

(** The reconciliation state (the two models and the cloud) and the phases
    working on it. [remoteLoadBalancerId] reads
    [remote.LoadBalancerAttribute.LoadBalancerId]. *)
Variable S : Type.
Variable nlbBuildRemoteModel : S -> option string * S.
Variable phaseApplyLoadBalancerAttribute : S -> attrOutcome * S.
Variable sgBuildRemoteModel : S -> option string * S.
Variable phaseApplyVGroups : S -> option string * S.
Variable lisBuildRemoteModel : S -> option string * S.
Variable phaseApplyListeners : S -> option string * S.
Variable phaseCleanup : S -> option string * S.
Variable remoteLoadBalancerId : S -> string.

Local Abbreviation Cmd := (M S Phase).

(** The listener part of Apply, entered when the service hash changed or
    in dry-run mode; the result is the error that ends Apply, if any. *)
Definition applyListenerPhase (NeedDeleteLoadBalancer : bool)
  : Cmd (option applyError) :=
  let! lbId := get remoteLoadBalancerId in
  if negb (String.eqb lbId "") then
    let! err := call BuildRemoteListeners lisBuildRemoteModel in
    match err with
    | Some e => ret (Some (ErrGetListeners e))
    | None =>
        let! err := call ApplyListeners phaseApplyListeners in
        match err with
        | Some e => ret (Some (ErrReconcileListeners e))
        | None => ret None
        end
    end
  else if negb NeedDeleteLoadBalancer then ret (Some ErrCanNotFindLoadBalancer)
  else ret None.

(** Apply returns the observed model ([true]) or nil ([false]) and the
    errors; [serviceHashChanged] is [helper.IsServiceHashChanged] and
    [DryRun] the controller's dry-run switch. *)
Definition Apply (serviceHashChanged DryRun NeedDeleteLoadBalancer : bool)
  : Cmd (bool * list applyError) :=
  let! err := call BuildRemoteLoadBalancer nlbBuildRemoteModel in
  match err with
  | Some e => ret (true, [ErrGetAttribute e])
  | None =>
      let! attr :=
        if serviceHashChanged || DryRun
        then call ApplyLoadBalancerAttribute phaseApplyLoadBalancerAttribute
        else ret AttrOk in
      match attr with
      | AttrOther e => ret (false, [ErrAttribute e])
      | _ =>
          let errs :=
            match attr with
            | AttrAggregate e => [ErrUpdateAttribute e]
            | _ => []
            end in
          let! err := call BuildRemoteServerGroups sgBuildRemoteModel in
          match err with
          | Some e => ret (true, errs ++ [ErrGetServerGroups e])
          | None =>
              let! err := call ApplyVGroups phaseApplyVGroups in
              match err with
              | Some e => ret (true, errs ++ [ErrReconcileBackends e])
              | None =>
                  let! lis :=
                    if serviceHashChanged || DryRun
                    then applyListenerPhase NeedDeleteLoadBalancer
                    else ret None in
                  match lis with
                  | Some e => ret (true, errs ++ [e])
                  | None =>
                      let! err := call Cleanup phaseCleanup in
                      match err with
                      | Some e => ret (true, errs ++ [ErrCleanup e])
                      | None => ret (true, errs)
                      end
                  end
              end
          end
      end
  end.

(** The phases behind the service-hash gate. *)
Definition gated (ph : Phase) : bool :=
  match ph with
  | ApplyLoadBalancerAttribute | BuildRemoteListeners | ApplyListeners => true
  | _ => false
  end.

(** With the gate closed Apply runs the attribute build, the server-group
    build, the server-group reconciliation and the cleanup pass, each one
    only when the one before it succeeded. *)
Lemma nlb_Apply_gate_closed NeedDeleteLoadBalancer (s : S) :
  calls (Apply false false NeedDeleteLoadBalancer s)
  = BuildRemoteLoadBalancer ::
    match nlbBuildRemoteModel s with
    | (Some _, _) => []
    | (None, s1) =>
        BuildRemoteServerGroups ::
        match sgBuildRemoteModel s1 with
        | (Some _, _) => []
        | (None, s2) =>
            ApplyVGroups ::
            match phaseApplyVGroups s2 with
            | (Some _, _) => []
            | (None, _) => [Cleanup]
            end
        end
    end.
Proof using Type.
  unfold Apply, bind, call, ret, calls. simpl.
  destruct (nlbBuildRemoteModel s) as [[e|] s1]; [reflexivity|]. simpl.
  destruct (sgBuildRemoteModel s1) as [[e|] s2]; [reflexivity|]. simpl.
  destruct (phaseApplyVGroups s2) as [[e|] s3]; [reflexivity|]. simpl.
  destruct (phaseCleanup s3) as [[e|] s4]; reflexivity.
Qed.

Lemma nlb_Apply_gate_closed_skips NeedDeleteLoadBalancer (s : S) :
  forallb (fun ph => negb (gated ph))
          (calls (Apply false false NeedDeleteLoadBalancer s)) = true.
Proof using Type.
  rewrite nlb_Apply_gate_closed.
  destruct (nlbBuildRemoteModel s) as [[e|] s1]; [reflexivity|].
  destruct (sgBuildRemoteModel s1) as [[e|] s2]; [reflexivity|].
  destruct (phaseApplyVGroups s2) as [[e|] s3]; reflexivity.
Qed.

End Apply.

(** ** More of package nlbv2 *)

(** *** isNLBReusable *)

(** [tag.Tag] and [v1.LoadBalancerIngress]. *)
Record Tag := mkTag { TagKey : string; TagValue : string }.

Record LoadBalancerIngress := mkIngress {
  IngressIP : string;
  IngressHostname : string
}.

Section Reuse.

(** [helper.TAGKEY] and [util.ClusterTagKey]. *)
Variable TAGKEY : string.
Variable ClusterTagKey : string.

(** The loop over the tags: a tag key of the controller ends it. *)
Fixpoint hasKubernetesTag (tags : list Tag) : bool :=
  match tags with
  | [] => false
  | t :: rest =>
      if String.eqb (TagKey t) TAGKEY || String.eqb (TagKey t) ClusterTagKey
      then true
      else hasKubernetesTag rest
  end.

(** The loop over the ingress entries, with its [found] flag. *)
Fixpoint hostnameFound (dnsName : string) (ingress : list LoadBalancerIngress)
    (found : bool) : bool :=
  match ingress with
  | [] => found
  | i :: rest =>
      hostnameFound dnsName rest
        (if String.eqb (IngressHostname i) dnsName then true else found)
  end.

(** [ingress] is [service.Status.LoadBalancer.Ingress]. *)
Definition isNLBReusable (ingress : list LoadBalancerIngress)
    (tags : list Tag) (dnsName : string) : bool * string :=
  if hasKubernetesTag tags then
    (false, "can not reuse loadbalancer created by kubernetes.")
  else
    match ingress with
    | [] => (true, "")
    | first :: _ =>
        if negb (hostnameFound dnsName ingress false) then
          (false,
           String.append "service has been associated with dnsname ["
             (String.append (IngressHostname first)
                (String.append "], cannot be bound to dnsname ["
                   (String.append dnsName "]"))))
        else (true, "")
    end.

Lemma hasKubernetesTag_false tags :
  hasKubernetesTag tags = false
  <-> forall t, In t tags -> TagKey t <> TAGKEY /\ TagKey t <> ClusterTagKey.
Proof.
  induction tags as [|t tags IH]; simpl.
  - split; [intros _ t []|reflexivity].
  - destruct (String.eqb_spec (TagKey t) TAGKEY) as [He|Hne]; simpl.
    + split; [discriminate|]. intros H. destruct (H t (or_introl eq_refl)).
      contradiction.
    + destruct (String.eqb_spec (TagKey t) ClusterTagKey) as [He|Hne'].
      * split; [discriminate|]. intros H. destruct (H t (or_introl eq_refl)).
        contradiction.
      * rewrite IH. split.
        -- intros H u [<-|Hu]; [split; assumption|apply H, Hu].
        -- intros H u Hu. apply H. right. exact Hu.
Qed.

Lemma hostnameFound_true dnsName ingress :
  forall found,
    hostnameFound dnsName ingress found = true
    <-> found = true
        \/ exists i, In i ingress /\ IngressHostname i = dnsName.
Proof.
  induction ingress as [|i ingress IH]; intros found; simpl.
  - split; [intros H; left; exact H|].
    intros [H|(i & [] & _)]. exact H.
  - rewrite IH. destruct (String.eqb_spec (IngressHostname i) dnsName)
      as [He|Hne].
    + split; [|intros _; left; reflexivity].
      intros _. right. exists i. split; [left; reflexivity|exact He].
    + split.
      * intros [H|(j & Hj & He)]; [left; exact H|].
        right. exists j. split; [right; exact Hj|exact He].
      * intros [H|(j & [<-|Hj] & He)]; [left; exact H|contradiction|].
        right. exists j. split; assumption.
Qed.

(** X12: a load balancer can be reused by a service exactly when none of
    its tags has a key of the controller and the service either has no
    ingress yet or has an ingress whose hostname is the load balancer's DNS
    name; the reason returned is empty exactly when it can be reused. *)
Theorem isNLBReusable_iff :
  forall ingress tags dnsName,
    (fst (isNLBReusable ingress tags dnsName) = true
     <-> (forall t, In t tags -> TagKey t <> TAGKEY /\ TagKey t <> ClusterTagKey)
         /\ (ingress = []
             \/ exists i, In i ingress /\ IngressHostname i = dnsName))
    /\ (fst (isNLBReusable ingress tags dnsName) = true
        <-> snd (isNLBReusable ingress tags dnsName) = "").
Proof.
  intros ingress tags dnsName. unfold isNLBReusable.
  pose proof (hasKubernetesTag_false tags) as Ht.
  destruct (hasKubernetesTag tags).
  - split; simpl.
    + split; [discriminate|]. intros [H _]. apply Ht in H. discriminate H.
    + split; discriminate.
  - assert (Hok : forall t, In t tags ->
                    TagKey t <> TAGKEY /\ TagKey t <> ClusterTagKey)
      by (apply Ht; reflexivity).
    destruct ingress as [|first rest].
    + split; simpl; [|split; reflexivity].
      split; [intros _; split; [exact Hok|left; reflexivity]|reflexivity].
    + pose proof (hostnameFound_true dnsName (first :: rest) false) as Hf.
      destruct (hostnameFound dnsName (first :: rest) false); simpl.
      * split; [|split; reflexivity].
        split; [|reflexivity]. intros _. split; [exact Hok|].
        right. destruct (proj1 Hf eq_refl) as [H|H]; [discriminate H|exact H].
      * split; [|split; discriminate].
        split; [discriminate|]. intros [_ [H|H]]; [discriminate H|].
        apply Hf. right. exact H.
Qed.

End Reuse.

(** *** applyLoadBalancerAttribute *)

(** [nlbmodel.LoadBalancerAttribute] and [nlbmodel.NetworkLoadBalancer],
    restricted to the fields the applier reads or writes. *)
Record LoadBalancerAttribute := mkAttribute {
  LoadBalancerId : string;
  DNSName : string;
  LbIsUserManaged : bool;          (* IsUserManaged *)
  LbPreserveOnDelete : bool;       (* PreserveOnDelete *)
  SecurityGroupIds : list string;
  IPv6AddressType : string;
  Tags : list Tag
}.

Record NetworkLoadBalancer := mkNLB {
  NamespacedName : string;         (* NamespacedName.String() *)
  Attribute : LoadBalancerAttribute
}.

Definition setLoadBalancerId (m : NetworkLoadBalancer) (id : string)
  : NetworkLoadBalancer :=
  let a := Attribute m in
  mkNLB (NamespacedName m)
        (mkAttribute id (DNSName a) (LbIsUserManaged a) (LbPreserveOnDelete a)
                     (SecurityGroupIds a) (IPv6AddressType a) (Tags a)).

Definition setTags (m : NetworkLoadBalancer) (tags : list Tag)
  : NetworkLoadBalancer :=
  let a := Attribute m in
  mkNLB (NamespacedName m)
        (mkAttribute (LoadBalancerId a) (DNSName a) (LbIsUserManaged a)
                     (LbPreserveOnDelete a) (SecurityGroupIds a)
                     (IPv6AddressType a) tags).

(** [remote.LoadBalancerAttribute.LoadBalancerId = ""] and
    [remote.LoadBalancerAttribute.DNSName = ""]. *)
Definition forget (m : NetworkLoadBalancer) : NetworkLoadBalancer :=
  let a := Attribute m in
  mkNLB (NamespacedName m)
        (mkAttribute "" "" (LbIsUserManaged a) (LbPreserveOnDelete a)
                     (SecurityGroupIds a) (IPv6AddressType a) (Tags a)).

(** What the applier reads of the service: [helper.NeedDeleteLoadBalancer],
    [helper.IsServiceOwnIngress], [Status.LoadBalancer.Ingress], and the
    text of [Ingress[0].IP], which is read only for a service that owns an
    ingress. *)
Record Service := mkService {
  NeedDeleteLoadBalancer : bool;
  IsServiceOwnIngress : bool;
  Ingress : list LoadBalancerIngress;
  FirstIngressIP : string
}.

(** Calls to the load-balancer manager and to the cloud. *)
Inductive AttributeCall :=
| SetProtectionsOff (remote : NetworkLoadBalancer)
| CleanupLoadBalancerTags (remote : NetworkLoadBalancer)
| Delete (remote : NetworkLoadBalancer)
| Create (local : NetworkLoadBalancer)
| Find (remote : NetworkLoadBalancer)
| Update (local remote : NetworkLoadBalancer)
| ListNLBTagResources (lbId : string).

Section Attribute.

Variable TAGKEY : string.
Variable ClusterTagKey : string.

(** The manager works on the models it is handed by pointer: an oracle
    answers with the error and the model as the call leaves it. The error
    of Update comes back as Apply will test it. *)
Variable W : Type.
Variable nlbSetProtectionsOff :
  NetworkLoadBalancer -> W -> (option string * NetworkLoadBalancer) * W.
Variable nlbCleanupLoadBalancerTags :
  NetworkLoadBalancer -> W -> (option string * NetworkLoadBalancer) * W.
Variable nlbDelete :
  NetworkLoadBalancer -> W -> (option string * NetworkLoadBalancer) * W.
Variable nlbCreate :
  NetworkLoadBalancer -> W -> (option string * NetworkLoadBalancer) * W.
Variable nlbFind :
  NetworkLoadBalancer -> W -> (option string * NetworkLoadBalancer) * W.
Variable nlbUpdate :
  NetworkLoadBalancer -> NetworkLoadBalancer -> W ->
  (attrOutcome * NetworkLoadBalancer * NetworkLoadBalancer) * W.
Variable cloudListNLBTagResources :
  string -> W -> (list Tag * option string) * W.

Local Abbreviation Cmd := (M W AttributeCall).

Definition lbId (m : NetworkLoadBalancer) : string :=
  LoadBalancerId (Attribute m).

(** The last step of the create and of the update path:
    [m.nlbMgr.Update(reqCtx, local, remote)]. *)
Definition update (l r : NetworkLoadBalancer)
  : Cmd (attrOutcome * option NetworkLoadBalancer * option NetworkLoadBalancer) :=
  let! '(out, l', r') := call (Update l r) (nlbUpdate l r) in
  ret (out, Some l', Some r').

Definition deleteLoadBalancer (l r : NetworkLoadBalancer)
  : Cmd (attrOutcome * option NetworkLoadBalancer * option NetworkLoadBalancer) :=
  if negb (LbIsUserManaged (Attribute l)) then
    if LbPreserveOnDelete (Attribute l) then
      let! '(err, r1) := call (SetProtectionsOff r) (nlbSetProtectionsOff r) in
      match err with
      | Some e =>
          ret (AttrOther
                 (String.append "set loadbalancer ["
                    (String.append (lbId r1)
                       (String.append "] protections off error: " e))),
               Some l, Some r1)
      | None =>
          let! '(err, r2) := call (CleanupLoadBalancerTags r1)
                                  (nlbCleanupLoadBalancerTags r1) in
          match err with
          | Some e =>
              ret (AttrOther
                     (String.append "cleanup loadbalancer ["
                        (String.append (lbId r2)
                           (String.append "] tags error: " e))),
                   Some l, Some r2)
          | None => ret (AttrOk, Some l, Some (forget r2))
          end
      end
    else
      let! '(err, r1) := call (Delete r) (nlbDelete r) in
      match err with
      | Some e =>
          ret (AttrOther
                 (String.append "delete nlb ["
                    (String.append (lbId r1) (String.append "] error: " e))),
               Some l, Some r1)
      | None => ret (AttrOk, Some l, Some (forget r1))
      end
  else ret (AttrOk, Some l, Some r).

Definition createLoadBalancer (svc : Service) (l r : NetworkLoadBalancer)
  : Cmd (attrOutcome * option NetworkLoadBalancer * option NetworkLoadBalancer) :=
  if IsServiceOwnIngress svc then
    ret (AttrOther
           (String.append
              "alicloud: can not find loadbalancer, but it's defined in service ["
              (String.append (FirstIngressIP svc)
                 "] this may happen when you delete the loadbalancer")),
         Some l, Some r)
  else
    let! '(err, l1) := call (Create l) (nlbCreate l) in
    match err with
    | Some e =>
        ret (AttrOther (String.append "create nlb error: " e), Some l1, Some r)
    | None =>
        let r1 := setLoadBalancerId r (lbId l1) in
        let! '(err, r2) := call (Find r1) (nlbFind r1) in
        match err with
        | Some e =>
            ret (AttrOther
                   (String.append "update remote model for lbId "
                      (String.append (lbId r2) (String.append ", error: " e))),
                 Some l1, Some r2)
        | None =>
            if negb (List.length (SecurityGroupIds (Attribute l1)) =? 0)%nat
               || negb (String.eqb (IPv6AddressType (Attribute l1)) "")
            then update l1 r2
            else ret (AttrOk, Some l1, Some r2)
        end
    end.

Definition updateLoadBalancer (svc : Service) (l r : NetworkLoadBalancer)
  : Cmd (attrOutcome * option NetworkLoadBalancer * option NetworkLoadBalancer) :=
  let! '(tags, err) := call (ListNLBTagResources (lbId r))
                            (cloudListNLBTagResources (lbId r)) in
  match err with
  | Some e =>
      ret (AttrOther (String.append "ListNLBTagResources: " e), Some l, Some r)
  | None =>
      let r1 := setTags r tags in
      if negb (NeedDeleteLoadBalancer svc) && LbIsUserManaged (Attribute l) then
        let '(ok, reason) :=
          isNLBReusable TAGKEY ClusterTagKey (Ingress svc) tags
                        (DNSName (Attribute r1)) in
        if negb ok then
          ret (AttrOther
                 (String.append "the loadbalancer "
                    (String.append (lbId r1)
                       (String.append " can not be reused, " reason))),
               Some l, Some r1)
        else update l r1
      else update l r1
  end.

(** The result is the outcome and the two models as the applier leaves
    them; [None] is a nil model. *)
Definition applyLoadBalancerAttribute (svc : Service)
    (local remote : option NetworkLoadBalancer)
  : Cmd (attrOutcome * option NetworkLoadBalancer * option NetworkLoadBalancer) :=
  match local, remote with
  | Some l, Some r =>
      if negb (String.eqb (NamespacedName l) (NamespacedName r)) then
        ret (AttrOther
               (String.append "models for different svc, local ["
                  (String.append (NamespacedName l)
                     (String.append "], remote ["
                        (String.append (NamespacedName r) "]")))),
             local, remote)
      else if NeedDeleteLoadBalancer svc then deleteLoadBalancer l r
      else if String.eqb (lbId r) "" then createLoadBalancer svc l r
      else updateLoadBalancer svc l r
  | _, _ => ret (AttrOther "local or remote mdl is nil", local, remote)
  end.

Local Abbreviation applyAttr := applyLoadBalancerAttribute.

Definition isRemoval (c : AttributeCall) : bool :=
  match c with
  | SetProtectionsOff _ | CleanupLoadBalancerTags _ | Delete _ => true
  | _ => false
  end.

Definition isDeleteCall (c : AttributeCall) : bool :=
  match c with Delete _ => true | _ => false end.

(** Case analysis over the answers of the collaborators. *)
Ltac answer :=
  match goal with
  | |- context [nlbSetProtectionsOff ?a ?w] =>
      destruct (nlbSetProtectionsOff a w) as [[[?|] ?] ?] eqn:?
  | |- context [nlbCleanupLoadBalancerTags ?a ?w] =>
      destruct (nlbCleanupLoadBalancerTags a w) as [[[?|] ?] ?] eqn:?
  | |- context [nlbDelete ?a ?w] =>
      destruct (nlbDelete a w) as [[[?|] ?] ?] eqn:?
  | |- context [nlbCreate ?a ?w] =>
      destruct (nlbCreate a w) as [[[?|] ?] ?] eqn:?
  | |- context [nlbFind ?a ?w] =>
      destruct (nlbFind a w) as [[[?|] ?] ?] eqn:?
  | |- context [nlbUpdate ?a ?b ?w] =>
      destruct (nlbUpdate a b w) as [[[? ?] ?] ?] eqn:?
  | |- context [cloudListNLBTagResources ?a ?w] =>
      destruct (cloudListNLBTagResources a w) as [[? [?|]] ?] eqn:?
  | |- context [isNLBReusable ?a ?b ?c ?d ?e] =>
      destruct (isNLBReusable a b c d e) as [[] ?] eqn:?
  | |- context [if ?x then _ else _] => destruct x eqn:?
  end.

Ltac run_applier :=
  unfold applyLoadBalancerAttribute, deleteLoadBalancer, createLoadBalancer,
    updateLoadBalancer, update, bind, call, ret, calls, result, final, lbId;
  repeat (answer; cbn beta iota zeta delta [fst snd app negb andb orb]).

Ltac lists :=
  cbn [In fst snd app]; intros;
  repeat match goal with
         | H : _ \/ _ |- _ => destruct H
         | H : False |- _ => destruct H
         | H : @eq AttributeCall _ _ |- _ => try discriminate H; injection H as
         | H : (_ =? _)%string = true |- _ => apply String.eqb_eq in H
         | H : negb _ = false |- _ => apply negb_false_iff in H
         | H : negb _ = true |- _ => apply negb_true_iff in H
         end; subst.

(** X13: for a service that is being deleted the applier neither creates,
    looks up, lists nor updates a load balancer. A reused load balancer is
    left as it is, without any call. One of the controller's own is
    deleted, or, when it is to be preserved, has its protections and tags
    removed and is not deleted; after a removal that succeeded the
    observed model has lost its identity and its DNS name. *)
Theorem applyLoadBalancerAttribute_delete :
  forall svc l r w,
    NeedDeleteLoadBalancer svc = true ->
    NamespacedName l = NamespacedName r ->
    forallb isRemoval (calls (applyAttr svc (Some l) (Some r) w)) = true
    /\ (LbIsUserManaged (Attribute l) = true ->
        applyAttr svc (Some l) (Some r) w = ((AttrOk, Some l, Some r, w), []))
    /\ (LbIsUserManaged (Attribute l) = false ->
        (LbPreserveOnDelete (Attribute l) = true ->
         forallb (fun c => negb (isDeleteCall c))
                 (calls (applyAttr svc (Some l) (Some r) w)) = true)
        /\ (LbPreserveOnDelete (Attribute l) = false ->
            calls (applyAttr svc (Some l) (Some r) w) = [Delete r])
        /\ (fst (fst (result (applyAttr svc (Some l) (Some r) w))) = AttrOk ->
            exists r',
              snd (result (applyAttr svc (Some l) (Some r) w)) = Some r'
              /\ lbId r' = "" /\ DNSName (Attribute r') = "")).
Proof.
  intros svc l r w Hdel Hname.
  unfold applyLoadBalancerAttribute, deleteLoadBalancer.
  rewrite Hname, String.eqb_refl, Hdel. cbn [negb].
  destruct (LbIsUserManaged (Attribute l)); cbn [negb].
  - split; [reflexivity|]. split; [reflexivity|discriminate].
  - split; [|split; [discriminate|]].
    + destruct (LbPreserveOnDelete (Attribute l)); unfold bind, call, ret.
      * destruct (nlbSetProtectionsOff r w) as [[[e|] r1] w1]; [reflexivity|].
        destruct (nlbCleanupLoadBalancerTags r1 w1) as [[[e|] r2] w2];
          reflexivity.
      * destruct (nlbDelete r w) as [[[e|] r1] w1]; reflexivity.
    + intros _. split; [|split].
      * intros ->. unfold bind, call, ret.
        destruct (nlbSetProtectionsOff r w) as [[[e|] r1] w1]; [reflexivity|].
        destruct (nlbCleanupLoadBalancerTags r1 w1) as [[[e|] r2] w2];
          reflexivity.
      * intros ->. unfold bind, call, ret.
        destruct (nlbDelete r w) as [[[e|] r1] w1]; reflexivity.
      * destruct (LbPreserveOnDelete (Attribute l)); unfold bind, call, ret.
        -- destruct (nlbSetProtectionsOff r w) as [[[e|] r1] w1];
             [discriminate|].
           destruct (nlbCleanupLoadBalancerTags r1 w1) as [[[e|] r2] w2];
             [discriminate|].
           intros _. exists (forget r2). repeat split.
        -- destruct (nlbDelete r w) as [[[e|] r1] w1]; [discriminate|].
           intros _. exists (forget r1). repeat split.
Qed.

Lemma update_calls l r w :
  calls (update l r w) = [Update l r]
  /\ fst (fst (result (update l r w))) = fst (fst (fst (nlbUpdate l r w))).
Proof.
  unfold update, bind, call, ret, calls, result.
  destruct (nlbUpdate l r w) as [[[out l'] r'] w']. split; reflexivity.
Qed.

(** X14: the applier creates a load balancer only for a service that is
    not being deleted and owns no ingress, and only when the observed load
    balancer has no identity; what it creates is the desired model, and
    the lookup that follows is for the identity the creation assigned. A
    service that owns an ingress whose load balancer is gone gets an error,
    not a second load balancer. *)
Theorem applyLoadBalancerAttribute_create :
  forall svc l r w,
    (forall x, In (Create x) (calls (applyAttr svc (Some l) (Some r) w)) ->
        x = l /\ NeedDeleteLoadBalancer svc = false /\ lbId r = ""
        /\ IsServiceOwnIngress svc = false)
    /\ (forall y, In (Find y) (calls (applyAttr svc (Some l) (Some r) w)) ->
          In (Create l) (calls (applyAttr svc (Some l) (Some r) w))
          /\ y = setLoadBalancerId r (lbId (snd (fst (nlbCreate l w)))))
    /\ (NamespacedName l = NamespacedName r ->
        NeedDeleteLoadBalancer svc = false -> lbId r = "" ->
        IsServiceOwnIngress svc = true ->
        calls (applyAttr svc (Some l) (Some r) w) = []
        /\ exists msg,
            fst (fst (result (applyAttr svc (Some l) (Some r) w)))
            = AttrOther msg).
Proof.
  intros svc l r w. split; [|split].
  - intros x. run_applier; lists; intuition (try congruence).
  - intros y. run_applier; lists; intuition (try congruence).
  - intros Hname Hd Hid Ho. unfold applyLoadBalancerAttribute, createLoadBalancer.
    rewrite Hname, String.eqb_refl, Hd, Hid, Ho. cbn [negb String.eqb].
    split; [reflexivity|]. eexists. reflexivity.
Qed.

(** X15: Update is the last thing the applier does: no call follows it,
    and its answer is the applier's answer. Hence an aggregate error, the
    only failure after which Apply goes on to the server groups, can come
    from nothing but that final Update. *)
Theorem applyLoadBalancerAttribute_update_last :
  forall svc local remote w,
    (forall l' r',
        In (Update l' r') (calls (applyAttr svc local remote w)) ->
        last (calls (applyAttr svc local remote w)) = Some (Update l' r'))
    /\ (forall e,
          fst (fst (result (applyAttr svc local remote w))) = AttrAggregate e ->
          exists l' r' w',
            last (calls (applyAttr svc local remote w)) = Some (Update l' r')
            /\ fst (fst (fst (nlbUpdate l' r' w'))) = AttrAggregate e).
Proof.
  intros svc [l|] [r|] w; split;
    try (intros ? ? []); try (intros ? H; discriminate H).
  - intros l' r'. run_applier; lists; reflexivity.
  - intros e. run_applier; intros H; try discriminate H;
      cbn [fst] in H; subst;
      do 3 eexists; (split; [reflexivity|]);
      match goal with
      | Hu : nlbUpdate _ _ _ = _ |- _ => rewrite Hu; reflexivity
      end.
Qed.

(** X16: a load balancer named by the user that the service may not reuse
    is never updated: when the cloud lists its tags and isNLBReusable
    refuses it, the applier stops with an error after that one listing. *)
Theorem applyLoadBalancerAttribute_reuse_refused :
  forall svc l r w tags w1,
    NamespacedName l = NamespacedName r ->
    NeedDeleteLoadBalancer svc = false ->
    lbId r <> "" ->
    LbIsUserManaged (Attribute l) = true ->
    cloudListNLBTagResources (lbId r) w = ((tags, None), w1) ->
    fst (isNLBReusable TAGKEY ClusterTagKey (Ingress svc) tags
           (DNSName (Attribute r))) = false ->
    calls (applyAttr svc (Some l) (Some r) w) = [ListNLBTagResources (lbId r)]
    /\ final (applyAttr svc (Some l) (Some r) w) = w1
    /\ snd (result (applyAttr svc (Some l) (Some r) w)) = Some (setTags r tags)
    /\ exists msg,
        fst (fst (result (applyAttr svc (Some l) (Some r) w))) = AttrOther msg.
Proof.
  intros svc l r w tags w1 Hname Hdel Hid Hum Hlist Hno.
  unfold applyLoadBalancerAttribute, updateLoadBalancer.
  rewrite Hname, String.eqb_refl, Hdel. cbn [negb].
  destruct (String.eqb_spec (lbId r) ""); [contradiction|].
  unfold bind, call, ret, calls, result, final. rewrite Hlist.
  cbn [fst snd]. rewrite Hum. cbn [negb andb].
  change (DNSName (Attribute (setTags r tags))) with (DNSName (Attribute r)).
  destruct (isNLBReusable _ _ _ _ _) as [ok reason]. cbn [fst] in Hno.
  subst ok. cbn [negb fst snd app].
  repeat split. eexists. reflexivity.
Qed.

End Attribute.

(** A manager whose calls succeed; the cloud assigns the identity
    ["nlb-new"] and lists the tags of the observed model. *)
Definition quiet (m : NetworkLoadBalancer) (w : unit)
  : (option string * NetworkLoadBalancer) * unit := ((None, m), w).

Definition quietCreate (m : NetworkLoadBalancer) (w : unit)
  : (option string * NetworkLoadBalancer) * unit :=
  ((None, setLoadBalancerId m "nlb-new"), w).

Definition quietUpdate (l r : NetworkLoadBalancer) (w : unit)
  : (attrOutcome * NetworkLoadBalancer * NetworkLoadBalancer) * unit :=
  ((AttrAggregate "modify attribute: Throttling", l, r), w).

Definition listedTags (tags : list Tag) (id : string) (w : unit)
  : (list Tag * option string) * unit := ((tags, None), w).

Definition desiredNLB : NetworkLoadBalancer :=
  mkNLB "default/web" (mkAttribute "" "" false false [] "" []).
Definition preservedNLB : NetworkLoadBalancer :=
  mkNLB "default/web" (mkAttribute "" "" false true [] "" []).
Definition reusedNLB : NetworkLoadBalancer :=
  mkNLB "default/web" (mkAttribute "nlb-1" "" true false [] "" []).
Definition observedNLB : NetworkLoadBalancer :=
  mkNLB "default/web" (mkAttribute "nlb-1" "nlb-1.example.com" false false [] "" []).
Definition missingNLB : NetworkLoadBalancer :=
  mkNLB "default/web" (mkAttribute "" "" false false [] "" []).

Definition leaving : Service := mkService true true [] "".
Definition fresh : Service := mkService false false [] "".

Lemma applyLoadBalancerAttribute_delete_witness :
  calls (applyLoadBalancerAttribute "kubernetes.do.not.delete" "ack.aliyun.com"
           unit quiet quiet quiet quietCreate quiet quietUpdate (listedTags [])
           leaving (Some preservedNLB) (Some observedNLB) tt)
  = [SetProtectionsOff observedNLB; CleanupLoadBalancerTags observedNLB]
  /\ forallb (fun c => negb (isDeleteCall c))
       (calls (applyLoadBalancerAttribute "kubernetes.do.not.delete"
                 "ack.aliyun.com" unit quiet quiet quiet quietCreate quiet
                 quietUpdate (listedTags [])
                 leaving (Some preservedNLB) (Some observedNLB) tt)) = true.
Proof.
  split; [reflexivity|].
  apply (proj1 (proj2 (proj2
           (applyLoadBalancerAttribute_delete "kubernetes.do.not.delete"
              "ack.aliyun.com" unit quiet quiet quiet quietCreate quiet
              quietUpdate (listedTags [])
              leaving preservedNLB observedNLB tt eq_refl eq_refl))
           eq_refl)).
  reflexivity.
Defined.

Lemma applyLoadBalancerAttribute_create_witness :
  NeedDeleteLoadBalancer fresh = false /\ lbId missingNLB = ""
  /\ IsServiceOwnIngress fresh = false.
Proof.
  destruct (proj1 (applyLoadBalancerAttribute_create "kubernetes.do.not.delete"
                     "ack.aliyun.com" unit quiet quiet quiet quietCreate quiet
                     quietUpdate (listedTags [])
                     fresh desiredNLB missingNLB tt)
              desiredNLB) as (_ & H).
  - left. reflexivity.
  - exact H.
Defined.

Lemma applyLoadBalancerAttribute_update_last_witness :
  last (calls (applyLoadBalancerAttribute "kubernetes.do.not.delete"
                 "ack.aliyun.com" unit quiet quiet quiet quietCreate quiet
                 quietUpdate (listedTags [])
                 fresh (Some desiredNLB) (Some observedNLB) tt))
  = Some (Update desiredNLB observedNLB).
Proof.
  apply (proj1 (applyLoadBalancerAttribute_update_last
                  "kubernetes.do.not.delete" "ack.aliyun.com" unit quiet quiet
                  quiet quietCreate quiet quietUpdate (listedTags [])
                  fresh (Some desiredNLB) (Some observedNLB) tt)).
  right. left. reflexivity.
Defined.

Lemma applyLoadBalancerAttribute_reuse_refused_witness :
  calls (applyLoadBalancerAttribute "kubernetes.do.not.delete" "ack.aliyun.com"
           unit quiet quiet quiet quietCreate quiet quietUpdate
           (listedTags [mkTag "ack.aliyun.com" "c1"])
           fresh (Some reusedNLB) (Some observedNLB) tt)
  = [ListNLBTagResources "nlb-1"].
Proof.
  apply (applyLoadBalancerAttribute_reuse_refused "kubernetes.do.not.delete"
           "ack.aliyun.com" unit quiet quiet quiet quietCreate quiet quietUpdate
           (listedTags [mkTag "ack.aliyun.com" "c1"])
           fresh reusedNLB observedNLB tt [mkTag "ack.aliyun.com" "c1"] tt);
    try reflexivity.
  discriminate.
Defined.

(** *** applyVGroups: what the plan holds *)

(** The three ways an iteration of the loop can end without error. *)
Lemma vgroupStep_cases vpcId l st st' :
  vgroupStep vpcId l st = inl st' ->
  (remoteGroups st' = remoteGroups st /\ updateActions st' = updateActions st)
  \/ (remoteGroups st' = remoteGroups st
      /\ exists old,
          updateActions st'
          = updateActions st ++ [mkSGAction serverGroupActionUpdate l (Snapshot old)])
  \/ (remoteGroups st' = remoteGroups st ++ [l]
      /\ updateActions st'
         = updateActions st
             ++ [mkSGAction serverGroupActionCreateAndAddBackendServers l
                            (Shared l)]).
Proof.
  unfold vgroupStep. intros H.
  destruct (matchRemote (heap st) (heap st l) (remoteGroups st)) as [rv|];
    [destruct (negb (String.eqb (ServerGroupId (heap st l)) ""))|];
    cbv zeta in H;
    repeat match type of H with
           | (if ?b then _ else _) = _ => destruct b
           | (let '(_, _) := ?x in _) = _ => destruct x
           end;
    try discriminate H; injection H as <-; cbn [remoteGroups updateActions];
    eauto 6.
Qed.

Lemma vgroupLoop_accounts vpcId locals :
  forall st st',
    vgroupLoop vpcId locals st = inl st' ->
    exists added,
      updateActions st' = updateActions st ++ added
      /\ remoteGroups st'
         = remoteGroups st ++ map sgLocal (List.filter isCreate added)
      /\ (List.length added <= List.length locals)%nat
      /\ Forall (fun a => In (sgLocal a) locals
                          /\ match sgAction a with
                             | serverGroupActionUpdate =>
                                 exists old, sgRemote a = Snapshot old
                             | serverGroupActionCreateAndAddBackendServers =>
                                 sgRemote a = Shared (sgLocal a)
                             end) added.
Proof.
  induction locals as [|l locals IH]; intros st st' H; cbn [vgroupLoop] in H.
  - injection H as <-. exists []. rewrite !app_nil_r.
    repeat split; [reflexivity|constructor].
  - destruct (vgroupStep vpcId l st) as [st1|e] eqn:Hs; [|discriminate H].
    destruct (IH _ _ H) as (added & Ha & Hr & Hlen & HF).
    assert (Hweak : Forall (fun a => In (sgLocal a) (l :: locals)
                          /\ match sgAction a with
                             | serverGroupActionUpdate =>
                                 exists old, sgRemote a = Snapshot old
                             | serverGroupActionCreateAndAddBackendServers =>
                                 sgRemote a = Shared (sgLocal a)
                             end) added).
    { eapply List.Forall_impl; [|exact HF]. intros a [Hin Hk].
      split; [right; exact Hin|exact Hk]. }
    destruct (vgroupStep_cases _ _ _ _ Hs)
      as [[Hr1 Ha1]|[[Hr1 [old Ha1]]|[Hr1 Ha1]]].
    + exists added. rewrite Ha, Hr, Ha1, Hr1.
      repeat split; [cbn [List.length]; lia|exact Hweak].
    + exists (mkSGAction serverGroupActionUpdate l (Snapshot old) :: added).
      rewrite Ha, Hr, Ha1, Hr1, <- app_assoc.
      repeat split; [cbn [List.length]; lia|].
      constructor; [|exact Hweak].
      split; [left; reflexivity|exists old; reflexivity].
    + exists (mkSGAction serverGroupActionCreateAndAddBackendServers l
                         (Shared l) :: added).
      rewrite Ha, Hr, Ha1, Hr1, <- !app_assoc.
      repeat split; [cbn [List.length]; lia|].
      constructor; [|exact Hweak].
      split; [left; reflexivity|reflexivity].
Qed.

Section Plans.

Variable IsManagedByService : NamedKey -> bool.
Variable W : Type.
Variable sgParallelUpdateServerGroups :
  list serverGroupAction -> store -> W -> (list string * store) * W.
Variable lisParallelUpdateListeners :
  list listenerAction -> W -> list string * W.

(** X17: the plan of applyVGroups holds at most one action for each
    desired server group, each for a desired group; the observed
    collection it leaves is the one it found followed by the groups of its
    create actions, in plan order, and by nothing else. An update action
    points to a snapshot of the observed group, a create action to the
    desired group itself. *)
Theorem planVGroups_accounts :
  forall h localGroups remote vpcId st,
    planVGroups h localGroups remote vpcId = inl st ->
    remoteGroups st
    = remote ++ map sgLocal (List.filter isCreate (updateActions st))
    /\ (List.length (updateActions st) <= List.length localGroups)%nat
    /\ Forall (fun a => In (sgLocal a) localGroups
                        /\ match sgAction a with
                           | serverGroupActionUpdate =>
                               exists old, sgRemote a = Snapshot old
                           | serverGroupActionCreateAndAddBackendServers =>
                               sgRemote a = Shared (sgLocal a)
                           end) (updateActions st).
Proof.
  intros h localGroups remote vpcId st H. unfold planVGroups in H.
  destruct (vgroupLoop_accounts _ _ _ _ H) as (added & Ha & Hr & Hlen & HF).
  cbn [updateActions remoteGroups app] in Ha, Hr. rewrite Ha.
  repeat split; assumption.
Qed.

(** An iteration changes neither the user-managed flag nor the type of a
    group, and fails only on a user-managed desired group whose type
    differs from the observed one. *)
Lemma fn_insert_at (l : ref) (h : store) (q : ref) (g : ServerGroup) :
  (<[l := g]> h) q = if decide (l = q) then g else h q.
Proof.
  destruct (decide (l = q)) as [<-|Hne].
  - apply fn_lookup_insert.
  - apply fn_lookup_insert_ne. exact Hne.
Qed.

Lemma vgroupStep_keeps vpcId l st st' :
  vgroupStep vpcId l st = inl st' ->
  forall q, IsUserManaged (heap st' q) = IsUserManaged (heap st q)
            /\ ServerGroupType (heap st' q) = ServerGroupType (heap st q).
Proof.
  unfold vgroupStep. intros H q.
  destruct (matchRemote (heap st) (heap st l) (remoteGroups st)) as [rv|];
    [destruct (negb (String.eqb (ServerGroupId (heap st l)) ""))|];
    cbv zeta in H;
    repeat match type of H with
           | context [if ?b then _ else _] => destruct b
           end;
    try discriminate H; injection H as <-; cbn [heap];
    rewrite ?fn_insert_at; repeat case_decide; subst;
    rewrite ?fn_insert_at; repeat case_decide; subst;
    try contradiction; split; reflexivity.
Qed.

Lemma vgroupStep_error vpcId l st id type oldType :
  vgroupStep vpcId l st = inr (ErrUserManagedType id type oldType) ->
  IsUserManaged (heap st l) = true
  /\ ServerGroupType (heap st l) = type /\ type <> "" /\ type <> oldType.
Proof.
  unfold vgroupStep. intros H.
  destruct (matchRemote (heap st) (heap st l) (remoteGroups st)) as [rv|];
    [destruct (negb (String.eqb (ServerGroupId (heap st l)) ""))|];
    cbv zeta in H;
    (destruct (isUpdated _ _); [discriminate H|]);
    match type of H with
    | (if ?b then _ else _) = _ => destruct b eqn:Hc; [|
        repeat match type of H with
               | context [if ?b then _ else _] => destruct b
               end; discriminate H]
    end;
    injection H as <- <- <-;
    apply andb_prop in Hc as [Hc Hum];
    apply andb_prop in Hc as [Hc Hdiff];
    apply andb_prop in Hc as [Hfound Hne];
    try discriminate Hfound;
    apply negb_true_iff in Hne, Hdiff;
    apply String.eqb_neq in Hne, Hdiff;
    rewrite ?fn_insert_at in *; repeat case_decide; try contradiction;
    cbn [IsUserManaged ServerGroupType setServerGroupId] in *; auto.
Qed.

Lemma vgroupLoop_error vpcId locals :
  forall st e,
    vgroupLoop vpcId locals st = inr e ->
    exists l id type oldType,
      e = ErrUserManagedType id type oldType
      /\ In l locals /\ IsUserManaged (heap st l) = true
      /\ ServerGroupType (heap st l) = type /\ type <> "" /\ type <> oldType.
Proof.
  induction locals as [|l locals IH]; intros st e H; cbn [vgroupLoop] in H;
    [discriminate H|].
  destruct (vgroupStep vpcId l st) as [st1|e1] eqn:Hs.
  - destruct (IH _ _ H)
      as (l' & id & type & oldType & He & Hin & Hum & Ht & Hn1 & Hn2).
    destruct (vgroupStep_keeps _ _ _ _ Hs l') as [Hk1 Hk2].
    exists l', id, type, oldType. rewrite <- Hk1, <- Hk2.
    repeat split; auto. right. exact Hin.
  - injection H as <-.
    assert (He : exists id type oldType, e1 = ErrUserManagedType id type oldType).
    { unfold vgroupStep in Hs.
      destruct (matchRemote (heap st) (heap st l) (remoteGroups st)) as [rv|];
        [destruct (negb (String.eqb (ServerGroupId (heap st l)) ""))|];
        cbv zeta in Hs;
        repeat match type of Hs with
               | (if ?b then _ else _) = _ => destruct b
               end;
        try discriminate Hs; injection Hs as <-; eauto. }
    destruct He as (id & type & oldType & ->).
    destruct (vgroupStep_error _ _ _ _ _ _ Hs) as (Hum & Ht & Hn1 & Hn2).
    exists l, id, type, oldType. repeat split; auto. left. reflexivity.
Qed.

Lemma associate_error h sgs ls e :
  associate h sgs ls = inr e ->
  exists l,
    In l ls /\ LisServerGroupId l = ""
    /\ e = ErrFindServerGroup (LisServerGroupName l)
    /\ forall sg, In sg sgs ->
                  ServerGroupName (h sg) <> LisServerGroupName l.
Proof.
  induction ls as [|l ls IH]; cbn [associate]; [discriminate|].
  intros H.
  destruct (String.eqb_spec (LisServerGroupId l) "") as [Hid|Hid];
    cbn [negb] in H.
  - destruct (findServerGroup h sgs l) as [l'|e'] eqn:Hf.
    + destruct (associate h sgs ls) as [rest|e'']; [discriminate H|].
      injection H as <-. destruct (IH eq_refl) as (l0 & Hin & Hrest).
      exists l0. split; [right; exact Hin|exact Hrest].
    + injection H as <-. exists l. split; [left; reflexivity|].
      split; [exact Hid|]. clear IH Hid.
      induction sgs as [|sg sgs IHs]; cbn [findServerGroup] in Hf.
      * injection Hf as <-. split; [reflexivity|intros ? []].
      * destruct (String.eqb_spec (ServerGroupName (h sg)) (LisServerGroupName l));
          [discriminate Hf|].
        destruct (IHs Hf) as [He Hall]. split; [exact He|].
        intros sg' [<-|Hin]; [assumption|apply Hall, Hin].
  - destruct (associate h sgs ls) as [rest|e'']; [discriminate H|].
    injection H as <-. destruct (IH eq_refl) as (l0 & Hin & Hrest).
    exists l0. split; [right; exact Hin|exact Hrest].
Qed.

(** X18: a plan that fails executes nothing. applyVGroups fails only for
    a user-managed desired group whose server-group type is set and is not
    the type of the observed group; applyListeners fails only for a
    desired listener without server-group identity that names no desired
    server group. In both cases no manager is called. *)
Theorem failed_plan_executes_nothing :
  forall h localGroups w e,
    (forall remote vpcId,
        result (applyVGroups W sgParallelUpdateServerGroups
                  h localGroups remote vpcId w) = inr e ->
        applyVGroups W sgParallelUpdateServerGroups h localGroups remote vpcId w
        = ((inr e, w), [])
        /\ exists l id type oldType,
            e = ErrUserManagedType id type oldType
            /\ In l localGroups /\ IsUserManaged (h l) = true
            /\ ServerGroupType (h l) = type /\ type <> ""
            /\ type <> oldType)
    /\ (forall lbIsUserManaged IsForceOverride lbId localLs remote,
          result (applyListeners IsManagedByService W lisParallelUpdateListeners
                    lbIsUserManaged IsForceOverride h localGroups lbId
                    localLs remote w) = inr e ->
          applyListeners IsManagedByService W lisParallelUpdateListeners
            lbIsUserManaged IsForceOverride h localGroups lbId localLs remote w
          = ((inr e, w), [])
          /\ exists l,
              In l localLs /\ LisServerGroupId l = ""
              /\ e = ErrFindServerGroup (LisServerGroupName l)
              /\ forall sg, In sg localGroups ->
                            ServerGroupName (h sg) <> LisServerGroupName l).
Proof.
  intros h localGroups w e. split.
  - intros remote vpcId. unfold applyVGroups.
    destruct (planVGroups h localGroups remote vpcId) as [st|e'] eqn:Hp.
    + unfold bind, call, ret, result.
      destruct (sgParallelUpdateServerGroups _ _ w) as [[errs h'] w'].
      discriminate.
    + intros [= ->]. split; [reflexivity|].
      unfold planVGroups in Hp.
      exact (vgroupLoop_error _ _ _ _ Hp).
  - intros lbIsUserManaged IsForceOverride lbId localLs remote.
    unfold applyListeners.
    destruct (planListeners IsManagedByService lbIsUserManaged IsForceOverride
                h localGroups lbId localLs remote) as [[[matched actions]|]|e']
      eqn:Hp.
    + unfold bind, call, ret, result.
      destruct (lisParallelUpdateListeners actions w). discriminate.
    + discriminate.
    + intros [= ->]. split; [reflexivity|].
      unfold planListeners in Hp.
      destruct (lbIsUserManaged && negb IsForceOverride); [discriminate Hp|].
      destruct (associate h localGroups localLs) as [associated|e'] eqn:Ha.
      * destruct (deleteLoop _ _ _ _). discriminate Hp.
      * injection Hp as ->. exact (associate_error _ _ _ _ Ha).
Qed.

(** *** applyListeners: which observed listeners are deleted *)

(** An observed listener is deleted when no desired listener has its
    protocol and port and, on a reused load balancer, its named key is
    managed by the service. *)
Definition deletable (lbIsUserManaged : bool)
    (localLs : list ListenerAttribute) (r : ListenerAttribute) : bool :=
  negb (existsb (fun l => listenerMatch l r) localLs)
  && negb (lbIsUserManaged
           && negb (managedByService IsManagedByService (LisNamedKey r))).

Definition deletionOf (r : ListenerAttribute) : listenerAction :=
  mkLisAction listenerActionDelete None (Some r) "".

Lemma existsb_match_ext (f : ListenerAttribute -> ListenerAttribute)
    (ls : list ListenerAttribute) (r : ListenerAttribute) :
  (forall l, listenerMatch (f l) r = listenerMatch l r) ->
  existsb (fun l => listenerMatch l r) (map f ls)
  = existsb (fun l => listenerMatch l r) ls.
Proof.
  intros Hf. induction ls as [|l ls IH]; [reflexivity|].
  cbn [map existsb]. rewrite Hf, IH. reflexivity.
Qed.

Lemma deleteLoop_exact lbIsUserManaged remote :
  forall localLs,
    snd (deleteLoop IsManagedByService lbIsUserManaged remote localLs)
    = map deletionOf (List.filter (deletable lbIsUserManaged localLs) remote).
Proof.
  induction remote as [|r remote IH]; intros localLs; [reflexivity|].
  cbn [deleteLoop List.filter].
  specialize (IH (map (fun l => if listenerMatch l r
                                then setListenerId l (ListenerId r) else l)
                      localLs)).
  destruct (deleteLoop IsManagedByService lbIsUserManaged remote _)
    as [local'' actions].
  cbn [snd] in IH.
  assert (Hsame : List.filter
                    (deletable lbIsUserManaged
                       (map (fun l => if listenerMatch l r
                                      then setListenerId l (ListenerId r)
                                      else l) localLs)) remote
                  = List.filter (deletable lbIsUserManaged localLs) remote).
  { apply List.filter_ext. intros r'. unfold deletable.
    rewrite existsb_match_ext; [reflexivity|].
    intros l. destruct (listenerMatch l r);
      [apply listenerMatch_setListenerId|reflexivity]. }
  rewrite Hsame in IH. unfold deletable at 1.
  destruct (existsb (fun l => listenerMatch l r) localLs); cbn [negb andb];
    [exact IH|].
  destruct (lbIsUserManaged
            && negb (managedByService IsManagedByService (LisNamedKey r)));
    cbn [negb snd map]; [exact IH|].
  rewrite IH. reflexivity.
Qed.

Lemma findServerGroup_match h sgs l l' r :
  findServerGroup h sgs l = inl l' -> listenerMatch l' r = listenerMatch l r.
Proof.
  induction sgs as [|sg sgs IH]; cbn [findServerGroup]; [discriminate|].
  destruct (String.eqb _ _); [|exact IH].
  intros [= <-]. reflexivity.
Qed.

Lemma associate_match h sgs ls ls' r :
  associate h sgs ls = inl ls' ->
  existsb (fun l => listenerMatch l r) ls'
  = existsb (fun l => listenerMatch l r) ls.
Proof.
  revert ls'. induction ls as [|l ls IH]; intros ls'; cbn [associate].
  - intros [= <-]. reflexivity.
  - destruct (negb (String.eqb (LisServerGroupId l) "")).
    + destruct (associate h sgs ls) as [rest|e]; [|discriminate].
      intros [= <-]. cbn [existsb]. rewrite (IH rest eq_refl). reflexivity.
    + destruct (findServerGroup h sgs l) as [l'|e] eqn:Hf; [|discriminate].
      destruct (associate h sgs ls) as [rest|e]; [|discriminate].
      intros [= <-]. cbn [existsb].
      rewrite (IH rest eq_refl), (findServerGroup_match _ _ _ _ r Hf).
      reflexivity.
Qed.

Lemma filter_isDelete_updates lbId remote matched :
  List.filter isDelete (flat_map (updateOrCreate lbId remote) matched) = [].
Proof.
  induction matched as [|l matched IH]; [reflexivity|].
  cbn [flat_map]. rewrite List.filter_app, IH, app_nil_r.
  pose proof (updateOrCreate_not_delete lbId remote l) as Hn.
  induction (updateOrCreate lbId remote l) as [|a acts IHa]; [reflexivity|].
  cbn [forallb] in Hn. apply andb_prop in Hn as [Ha Hn].
  cbn [List.filter]. apply negb_true_iff in Ha. rewrite Ha. exact (IHa Hn).
Qed.

Lemma filter_isDelete_deletions rs :
  List.filter isDelete (map deletionOf rs) = map deletionOf rs.
Proof.
  induction rs as [|r rs IH]; [reflexivity|].
  cbn [map List.filter deletionOf isDelete lisAction]. rewrite IH. reflexivity.
Qed.

(** X19: the delete actions of a listener plan are, in the order of the
    observed listeners, one for each observed listener that no desired
    listener matches by protocol and port, and on a reused load balancer
    only for those whose named key is managed by the service. An observed
    listener that a desired one matches is never deleted. *)
Theorem planListeners_deletes :
  forall lbIsUserManaged IsForceOverride h localGroups lbId localLs remote
         matched actions,
    planListeners IsManagedByService lbIsUserManaged IsForceOverride
                  h localGroups lbId localLs remote
    = inl (Some (matched, actions)) ->
    List.filter isDelete actions
    = map deletionOf (List.filter (deletable lbIsUserManaged localLs) remote).
Proof.
  intros lbIsUserManaged IsForceOverride h localGroups lbId localLs remote
         matched actions H.
  unfold planListeners in H.
  destruct (lbIsUserManaged && negb IsForceOverride); [discriminate H|].
  destruct (associate h localGroups localLs) as [associated|e] eqn:Ha;
    [|discriminate H].
  pose proof (deleteLoop_exact lbIsUserManaged remote associated) as Hd.
  destruct (deleteLoop IsManagedByService lbIsUserManaged remote associated)
    as [matched' deletes].
  injection H as <- <-. cbn [snd] in Hd.
  rewrite List.filter_app, filter_isDelete_updates, app_nil_r, Hd.
  assert (Hsame : List.filter (deletable lbIsUserManaged associated) remote
                  = List.filter (deletable lbIsUserManaged localLs) remote).
  { apply List.filter_ext. intros r. unfold deletable.
    rewrite (associate_match _ _ _ _ r Ha). reflexivity. }
  rewrite Hsame. apply filter_isDelete_deletions.
Qed.

End Plans.

(** Two desired groups, of which the cloud has the second, and a
    user-managed desired group of another type than the observed one. *)
Definition groupsExample : store :=
  fun p =>
    match p with
    | 0%nat => mkServerGroup "" "k8s/80/web/default/c1" "" "" false None []
    | 1%nat => mkServerGroup "" "k8s/443/web/default/c1" "" "" false None []
    | 2%nat => mkServerGroup "sgp-443" "k8s/443/web/default/c1" "Instance"
                             "vpc-1" false None []
    | 3%nat => mkServerGroup "sgp-user" "shared" "Ip" "" true None []
    | 4%nat => mkServerGroup "sgp-user" "shared" "Instance" "vpc-1" true None []
    | _ => zeroServerGroup
    end.

Definition groupsPlan : vgState :=
  match planVGroups groupsExample [0; 1]%nat [2%nat] "vpc-1" with
  | inl st => st
  | inr _ => mkVG groupsExample [] [] ∅
  end.

Lemma planVGroups_accounts_witness :
  remoteGroups groupsPlan = [2; 0]%nat
  /\ map sgAction (updateActions groupsPlan)
     = [serverGroupActionCreateAndAddBackendServers; serverGroupActionUpdate].
Proof.
  pose proof (planVGroups_accounts groupsExample [0; 1]%nat [2%nat] "vpc-1"
                groupsPlan eq_refl) as (Hr & _).
  split; [rewrite Hr; reflexivity|reflexivity].
Defined.

Lemma failed_plan_executes_nothing_witness :
  applyVGroups unit (fun _ h w => (([], h), w)) groupsExample [3%nat] [4%nat]
               "vpc-1" tt
  = ((inr (ErrUserManagedType "sgp-user" "Ip" "Instance"), tt), []).
Proof.
  apply (proj1 (failed_plan_executes_nothing (fun _ => true) unit
                  (fun _ h w => (([], h), w)) (fun _ w => ([], w))
                  groupsExample [3%nat] tt
                  (ErrUserManagedType "sgp-user" "Ip" "Instance"))
           [4%nat] "vpc-1").
  reflexivity.
Defined.

(** One desired listener; the cloud has it, one of the service's own on
    another port, and one of somebody else. *)
Definition wanted80 : ListenerAttribute :=
  mkListener "" "TCP" 80 0 0 "sgp-1" "k8s/80/web/default/c1" None.
Definition found80 : ListenerAttribute :=
  mkListener "lsn-80" "TCP" 80 0 0 "sgp-1" "k8s/80/web/default/c1" None.
Definition stale8080 : ListenerAttribute :=
  mkListener "lsn-8080" "TCP" 8080 0 0 "sgp-2" "k8s/8080/web/default/c1"
             (Some (mkNamedKey "k8s" "c1" "default" "web")).
Definition foreign53 : ListenerAttribute :=
  mkListener "lsn-53" "UDP" 53 0 0 "sgp-3" "dns" None.

Definition listenersPlan : list ListenerAttribute * list listenerAction :=
  match planListeners (fun _ => true) true true groupsExample [] "nlb-1"
          [wanted80] [found80; stale8080; foreign53] with
  | inl (Some p) => p
  | _ => ([], [])
  end.

Lemma planListeners_deletes_witness :
  List.filter isDelete (snd listenersPlan)
  = [mkLisAction listenerActionDelete None (Some stale8080) ""].
Proof.
  apply (planListeners_deletes (fun _ => true) true true groupsExample []
           "nlb-1" [wanted80] [found80; stale8080; foreign53]
           (fst listenersPlan) (snd listenersPlan)).
  reflexivity.
Defined.

End nlbv2.

(** ** Package clbv1 *)

Module clbv1.

(** *** Data *)

(** [model.BackendAttribute]. *)
Record BackendAttribute := mkBackend {
  ServerId : string;
  ServerIp : string;
  Port : Z;
  IsUserManaged : bool
}.

(** [model.VServerGroup]; the named key is read by
    isVGroupManagedByMyService only. *)
Record VServerGroup := mkVGroup {
  VGroupId : string;
  VGroupName : string;
  Backends : list BackendAttribute
}.

(** [model.ListenerAttribute], restricted to the fields applyListeners
    reads. *)
Record ListenerAttribute := mkListener {
  Protocol : string;
  ListenerPort : Z
}.

Record CreateAction := mkCreate {
  createLbId : string;
  createListener : ListenerAttribute      (* the field [listener] *)
}.

Record DeleteAction := mkDelete {
  deleteLbId : string;
  deleteListener : ListenerAttribute      (* the field [listener] *)
}.

Record UpdateAction := mkUpdate {
  updateLbId : string;
  updateLocal : ListenerAttribute;        (* the field [local] *)
  updateRemote : ListenerAttribute        (* the field [remote] *)
}.

Inductive error :=
| ErrMergeListener (cause : string)
| ErrDeleteListener (port : Z) (cause : string)
| ErrCreateListener (port : Z) (cause : string)
| ErrUpdateListener (port : Z) (cause : string).

(** Calls to the listener and server-group managers. *)
Inductive Call :=
| ListenerDelete (action : DeleteAction)
| ListenerCreate (action : CreateAction)
| ListenerUpdate (action : UpdateAction)
| BatchRemoveVServerGroupBackendServers (vg : VServerGroup)
                                        (del : list BackendAttribute)
| DeleteVServerGroup (id : string).

Section Applier.

(** The constant [model.HTTPS]. *)
Variable HTTPS : string.

(** The collaborators. [buildActionsForListeners] and
    [isVGroupManagedByMyService] are functions of the package outside the
    translated unit. *)
Variable W : Type.
Variable buildActionsForListeners :
  W -> list CreateAction * list UpdateAction * list DeleteAction
       * option string.
Variable lisDelete : DeleteAction -> W -> option string * W.
Variable lisCreate : CreateAction -> W -> option string * W.
Variable lisUpdate : UpdateAction -> W -> option string * W.
Variable isVGroupManagedByMyService : VServerGroup -> bool.
Variable vgBatchRemoveVServerGroupBackendServers :
  VServerGroup -> list BackendAttribute -> W -> option string * W.
Variable vgDeleteVServerGroup : string -> W -> option string * W.

Local Abbreviation Cmd := (M W Call).

(** *** applyListeners *)

(** The comparison functions handed to [sort.SliceStable]. *)
Definition createLess (a _ : CreateAction) : bool :=
  String.eqb (Protocol (createListener a)) HTTPS.

Definition deleteLess (a _ : DeleteAction) : bool :=
  negb (String.eqb (Protocol (deleteListener a)) HTTPS).

(** A loop that returns at the first error. *)
Fixpoint forEachUntilError {X} (f : X -> Cmd (option error)) (l : list X)
  : Cmd (option error) :=
  match l with
  | [] => ret None
  | x :: rest =>
      let! err := f x in
      match err with
      | Some e => ret (Some e)
      | None => forEachUntilError f rest
      end
  end.

Definition deleteOne (action : DeleteAction) : Cmd (option error) :=
  let! err := call (ListenerDelete action) (lisDelete action) in
  match err with
  | Some e => ret (Some (ErrDeleteListener (ListenerPort (deleteListener action)) e))
  | None => ret None
  end.

Definition createOne (action : CreateAction) : Cmd (option error) :=
  let! err := call (ListenerCreate action) (lisCreate action) in
  match err with
  | Some e => ret (Some (ErrCreateListener (ListenerPort (createListener action)) e))
  | None => ret None
  end.

Definition updateOne (action : UpdateAction) : Cmd (option error) :=
  let! err := call (ListenerUpdate action) (lisUpdate action) in
  match err with
  | Some e => ret (Some (ErrUpdateListener (ListenerPort (updateLocal action)) e))
  | None => ret None
  end.

Definition applyListeners (lbIsUserManaged IsForceOverride : bool)
  : Cmd (option error) :=
  if lbIsUserManaged && negb IsForceOverride then ret None
  else
    let! '(createActions, updateActions, deleteActions, err) :=
      get buildActionsForListeners in
    match err with
    | Some e => ret (Some (ErrMergeListener e))
    | None =>
        let createActions := sort.SliceStable createLess createActions in
        let deleteActions := sort.SliceStable deleteLess deleteActions in
        let! err := forEachUntilError deleteOne deleteActions in
        match err with
        | Some e => ret (Some e)
        | None =>
            let! err := forEachUntilError createOne createActions in
            match err with
            | Some e => ret (Some e)
            | None => forEachUntilError updateOne updateActions
            end
        end
    end.

(** *** cleanup *)

(** The body of the cleanup loop for one observed group [vg]; [lbId] is
    [remote.LoadBalancerAttribute.LoadBalancerId]. *)
Definition cleanupGroup (lbId : string) (localGroups : list VServerGroup)
    (vg : VServerGroup) : Cmd (option string) :=
  let found :=
    existsb (fun l => String.eqb (VGroupId vg) (VGroupId l)) localGroups in
  if found then ret None
  else if negb (isVGroupManagedByMyService vg) then
    let del := List.filter (fun b => negb (IsUserManaged b)) (Backends vg) in
    match del with
    | [] => ret None
    | _ => call (BatchRemoveVServerGroupBackendServers vg del)
                (vgBatchRemoveVServerGroupBackendServers vg del)
    end
  else
    let! err := call (DeleteVServerGroup (VGroupId vg))
                     (vgDeleteVServerGroup (VGroupId vg)) in
    match err with
    | Some e =>
        ret (Some (String.append "lb ["
                     (String.append lbId
                        (String.append "] delete vgroup "
                           (String.append (VGroupId vg)
                              (String.append " failed, error: " e))))))
    | None => ret None
    end.

Fixpoint cleanup (lbId : string) (localGroups remote : list VServerGroup)
  : Cmd (option string) :=
  match remote with
  | [] => ret None
  | vg :: rest =>
      let! err := cleanupGroup lbId localGroups vg in
      match err with
      | Some e => ret (Some e)
      | None => cleanup lbId localGroups rest
      end
  end.

(** ** Theorems of package clbv1 *)

(** *** The order of the listener actions *)

Definition isHTTPS (l : ListenerAttribute) : bool :=
  String.eqb (Protocol l) HTTPS.

(** A loop over calls that returns at the first error issues the calls of
    a prefix of its list, and of the whole list when no call fails. *)
Lemma forEachUntilError_calls {X} (f : X -> Cmd (option error))
    (g : X -> Call) :
  (forall x w, calls (f x w) = [g x]) ->
  forall l w,
    exists done rest,
      l = done ++ rest
      /\ calls (forEachUntilError f l w) = map g done
      /\ (result (forEachUntilError f l w) = None -> rest = []).
Proof using Type.
  intros Hone. induction l as [|x l IH]; intros w.
  - exists [], []. repeat split; reflexivity.
  - cbn [forEachUntilError]. rewrite calls_bind, result_bind, Hone.
    destruct (result (f x w)) as [e|].
    + exists [x], l. split; [reflexivity|]. split; [reflexivity|].
      unfold ret, result. simpl. discriminate.
    + destruct (IH (final (f x w))) as (done & rest & Hl & Hc & Hr).
      exists (x :: done), rest. split; [rewrite Hl; reflexivity|].
      split; [simpl; rewrite Hc; reflexivity|exact Hr].
Qed.

Lemma deleteOne_calls action w :
  calls (deleteOne action w) = [ListenerDelete action].
Proof using Type.
  unfold deleteOne, bind, call, ret, calls.
  destruct (lisDelete action w) as [[e|] w']; reflexivity.
Qed.

Lemma createOne_calls action w :
  calls (createOne action w) = [ListenerCreate action].
Proof using Type.
  unfold createOne, bind, call, ret, calls.
  destruct (lisCreate action w) as [[e|] w']; reflexivity.
Qed.

Lemma updateOne_calls action w :
  calls (updateOne action w) = [ListenerUpdate action].
Proof using Type.
  unfold updateOne, bind, call, ret, calls.
  destruct (lisUpdate action w) as [[e|] w']; reflexivity.
Qed.

(** The run of applyListeners in terms of its three loops. *)
Lemma applyListeners_run lbIsUserManaged IsForceOverride w
      createActions updateActions deleteActions :
  lbIsUserManaged && negb IsForceOverride = false ->
  buildActionsForListeners w
  = (createActions, updateActions, deleteActions, None) ->
  let runD := forEachUntilError deleteOne
                (sort.SliceStable deleteLess deleteActions) w in
  let runC := forEachUntilError createOne
                (sort.SliceStable createLess createActions) (final runD) in
  let runU := forEachUntilError updateOne updateActions (final runC) in
  calls (applyListeners lbIsUserManaged IsForceOverride w)
  = calls runD
      ++ match result runD with
         | Some _ => []
         | None => calls runC
                     ++ match result runC with
                        | Some _ => []
                        | None => calls runU
                        end
         end
  /\ result (applyListeners lbIsUserManaged IsForceOverride w)
     = match result runD with
       | Some e => Some e
       | None => match result runC with
                 | Some e => Some e
                 | None => result runU
                 end
       end.
Proof using Type.
  intros Hrun Hbuild. cbv zeta.
  unfold applyListeners. rewrite Hrun.
  rewrite calls_bind, result_bind.
  change (calls (get buildActionsForListeners w)) with (@nil Call).
  change (result (get buildActionsForListeners w))
    with (buildActionsForListeners w).
  change (final (get buildActionsForListeners w)) with w.
  rewrite Hbuild. cbv beta iota zeta. rewrite app_nil_l.
  rewrite calls_bind, result_bind.
  destruct (result (forEachUntilError deleteOne _ w)) as [e|];
    [split; reflexivity|].
  rewrite calls_bind, result_bind.
  destruct (result (forEachUntilError createOne _ _)) as [e|];
    split; reflexivity.
Qed.

(** In a list the elements satisfying [f] stand before all others. *)
Definition firstThen {X} (f : X -> bool) (l : list X) : Prop :=
  forall i j x y,
    l !! i = Some x -> l !! j = Some y ->
    f x = false -> f y = true -> (j < i)%nat.

Lemma partitioned_firstThen {X} (f : X -> bool) (l : list X) :
  sort.partitioned f l = true -> firstThen f l.
Proof.
  intros Hp i j x y Hi Hj Hx Hy.
  rewrite (sort.partitioned_lookup f l Hp i x Hi) in Hx.
  rewrite (sort.partitioned_lookup f l Hp j y Hj) in Hy.
  apply Nat.ltb_ge in Hx. apply Nat.ltb_lt in Hy. lia.
Qed.

Lemma sorted_prefix_firstThen {X} (f : X -> bool) (data done rest : list X) :
  sort.SliceStable (sort.byFirst f) data = done ++ rest -> firstThen f done.
Proof.
  intros Heq. apply partitioned_firstThen.
  pose proof (sort.SliceStable_partitioned f data) as Hp. rewrite Heq in Hp.
  destruct (sort.partitioned_take_drop f (done ++ rest) (List.length done) Hp)
    as [Ht _].
  rewrite take_app_length in Ht. exact Ht.
Qed.

(** applyListeners executes deletions, then creations, then updates, and
    stops at the first failure. The deletions are a prefix of the sorted
    planned deletions, plain listeners before HTTPS listeners; the
    creations are a prefix of the sorted planned creations, HTTPS
    listeners before plain ones; when nothing fails all planned actions
    are executed. *)
Lemma applyListeners_order lbIsUserManaged IsForceOverride w
      createActions updateActions deleteActions :
  lbIsUserManaged && negb IsForceOverride = false ->
  buildActionsForListeners w
  = (createActions, updateActions, deleteActions, None) ->
  exists ds cs us,
    calls (applyListeners lbIsUserManaged IsForceOverride w)
    = map ListenerDelete ds ++ map ListenerCreate cs ++ map ListenerUpdate us
    /\ firstThen (fun a => negb (isHTTPS (deleteListener a))) ds
    /\ firstThen (fun a => isHTTPS (createListener a)) cs
    /\ (exists rd, Permutation (ds ++ rd) deleteActions)
    /\ (exists rc, Permutation (cs ++ rc) createActions)
    /\ (exists ru, updateActions = us ++ ru)
    /\ (result (applyListeners lbIsUserManaged IsForceOverride w) = None ->
        Permutation ds deleteActions /\ Permutation cs createActions
        /\ us = updateActions).
Proof using Type.
  intros Hrun Hbuild.
  destruct (applyListeners_run _ _ _ _ _ _ Hrun Hbuild) as [Hcalls Hres].
  cbv zeta in Hcalls, Hres.
  set (sortedD := sort.SliceStable deleteLess deleteActions) in *.
  set (sortedC := sort.SliceStable createLess createActions) in *.
  destruct (forEachUntilError_calls deleteOne ListenerDelete deleteOne_calls
              sortedD w) as (ds & rd & Hds & Hdc & Hdr).
  set (runD := forEachUntilError deleteOne sortedD w) in *.
  destruct (forEachUntilError_calls createOne ListenerCreate createOne_calls
              sortedC (final runD)) as (cs & rc & Hcs & Hcc & Hcr).
  set (runC := forEachUntilError createOne sortedC (final runD)) in *.
  destruct (forEachUntilError_calls updateOne ListenerUpdate updateOne_calls
              updateActions (final runC)) as (us & ru & Hus & Huc & Hur).
  set (runU := forEachUntilError updateOne updateActions (final runC)) in *.
  assert (HPD : Permutation (ds ++ rd) deleteActions)
    by (rewrite <- Hds; apply sort.SliceStable_perm).
  assert (HPC : Permutation (cs ++ rc) createActions)
    by (rewrite <- Hcs; apply sort.SliceStable_perm).
  assert (HFD : firstThen (fun a => negb (isHTTPS (deleteListener a))) ds)
    by (apply (sorted_prefix_firstThen _ deleteActions ds rd); exact Hds).
  assert (HFC : firstThen (fun a => isHTTPS (createListener a)) cs)
    by (apply (sorted_prefix_firstThen _ createActions cs rc); exact Hcs).
  rewrite Hcalls, Hres, Hdc.
  destruct (result runD) as [e|].
  - exists ds, [], []. rewrite !app_nil_r.
    split; [reflexivity|]. split; [exact HFD|].
    split; [intros i j x y Hi; discriminate Hi|].
    split; [exists rd; exact HPD|].
    split; [exists createActions; reflexivity|].
    split; [exists updateActions; reflexivity|]. discriminate.
  - specialize (Hdr eq_refl). subst rd. rewrite app_nil_r in HPD.
    rewrite Hcc. destruct (result runC) as [e|].
    + exists ds, cs, []. rewrite !app_nil_r.
      split; [reflexivity|]. split; [exact HFD|]. split; [exact HFC|].
      split; [exists []; rewrite app_nil_r; exact HPD|].
      split; [exists rc; exact HPC|].
      split; [exists updateActions; reflexivity|]. discriminate.
    + specialize (Hcr eq_refl). subst rc. rewrite app_nil_r in HPC.
      rewrite Huc. exists ds, cs, us.
      split; [reflexivity|]. split; [exact HFD|]. split; [exact HFC|].
      split; [exists []; rewrite app_nil_r; exact HPD|].
      split; [exists []; rewrite app_nil_r; exact HPC|].
      split; [exists ru; exact Hus|].
      intros Hnone. specialize (Hur Hnone). subst ru.
      rewrite app_nil_r in Hus.
      split; [exact HPD|]. split; [exact HPC|]. symmetry. exact Hus.
Qed.

(** The listener plan executed in order up to the first failure, in the
    words of the specification: the actions are performed one after the
    other, and the first action that fails ends the execution with its
    error. *)
Inductive ListenerStep :=
| StepDelete (action : DeleteAction)
| StepCreate (action : CreateAction)
| StepUpdate (action : UpdateAction).

Definition perform (s : ListenerStep) : W -> option string * W :=
  match s with
  | StepDelete a => lisDelete a
  | StepCreate a => lisCreate a
  | StepUpdate a => lisUpdate a
  end.

Definition stepCall (s : ListenerStep) : Call :=
  match s with
  | StepDelete a => ListenerDelete a
  | StepCreate a => ListenerCreate a
  | StepUpdate a => ListenerUpdate a
  end.

Definition stepError (s : ListenerStep) (cause : string) : error :=
  match s with
  | StepDelete a => ErrDeleteListener (ListenerPort (deleteListener a)) cause
  | StepCreate a => ErrCreateListener (ListenerPort (createListener a)) cause
  | StepUpdate a => ErrUpdateListener (ListenerPort (updateLocal a)) cause
  end.

(** The steps performed, the error of the last one if it failed, and the
    state of the cloud afterwards. *)
Fixpoint untilFirstFailure (plan : list ListenerStep) (w : W)
  : list ListenerStep * option error * W :=
  match plan with
  | [] => ([], None, w)
  | s :: rest =>
      match perform s w with
      | (Some cause, w') => ([s], Some (stepError s cause), w')
      | (None, w') =>
          let '(done, err, w'') := untilFirstFailure rest w' in
          (s :: done, err, w'')
      end
  end.

Definition executed (r : list ListenerStep * option error * W)
  : (option error * W) * list Call :=
  let '(done, err, w) := r in ((err, w), map stepCall done).

(** The sorted plan: deletions, then creations, then updates. *)
Definition sortedPlan (createActions : list CreateAction)
    (updateActions : list UpdateAction) (deleteActions : list DeleteAction)
  : list ListenerStep :=
  map StepDelete (sort.SliceStable deleteLess deleteActions)
  ++ map StepCreate (sort.SliceStable createLess createActions)
  ++ map StepUpdate updateActions.

Lemma untilFirstFailure_app p1 p2 w :
  untilFirstFailure (p1 ++ p2) w
  = let '(done1, err1, w1) := untilFirstFailure p1 w in
    match err1 with
    | Some e => (done1, Some e, w1)
    | None =>
        let '(done2, err2, w2) := untilFirstFailure p2 w1 in
        (done1 ++ done2, err2, w2)
    end.
Proof using Type.
  revert w. induction p1 as [|s p1 IH]; intros w.
  - cbn [app untilFirstFailure].
    destruct (untilFirstFailure p2 w) as [[done2 err2] w2]. reflexivity.
  - cbn [app untilFirstFailure].
    destruct (perform s w) as [[cause|] w']; [reflexivity|].
    rewrite IH. destruct (untilFirstFailure p1 w') as [[done1 [e|]] w1];
      [reflexivity|].
    destruct (untilFirstFailure p2 w1) as [[done2 err2] w2]. reflexivity.
Qed.

(** Each loop of applyListeners is the execution of its part of the plan
    up to the first failure. *)
Lemma forEachUntilError_executed {X} (f : X -> Cmd (option error))
    (step : X -> ListenerStep) :
  (forall x w,
      f x w = let '(err, w') := perform (step x) w in
              ((option_map (stepError (step x)) err, w'), [stepCall (step x)])) ->
  forall l w,
    forEachUntilError f l w = executed (untilFirstFailure (map step l) w).
Proof using Type.
  intros Hone. induction l as [|x l IH]; intros w; [reflexivity|].
  cbn [forEachUntilError map untilFirstFailure]. unfold bind.
  rewrite Hone. destruct (perform (step x) w) as [[cause|] w'].
  - reflexivity.
  - cbn [option_map]. rewrite IH.
    destruct (untilFirstFailure (map step l) w') as [[done err] w''].
    reflexivity.
Qed.

Lemma deleteOne_step action w :
  deleteOne action w
  = let '(err, w') := perform (StepDelete action) w in
    ((option_map (stepError (StepDelete action)) err, w'),
     [stepCall (StepDelete action)]).
Proof using Type.
  unfold deleteOne, bind, call, ret. cbn [perform].
  destruct (lisDelete action w) as [[e|] w']; reflexivity.
Qed.

Lemma createOne_step action w :
  createOne action w
  = let '(err, w') := perform (StepCreate action) w in
    ((option_map (stepError (StepCreate action)) err, w'),
     [stepCall (StepCreate action)]).
Proof using Type.
  unfold createOne, bind, call, ret. cbn [perform].
  destruct (lisCreate action w) as [[e|] w']; reflexivity.
Qed.

Lemma updateOne_step action w :
  updateOne action w
  = let '(err, w') := perform (StepUpdate action) w in
    ((option_map (stepError (StepUpdate action)) err, w'),
     [stepCall (StepUpdate action)]).
Proof using Type.
  unfold updateOne, bind, call, ret. cbn [perform].
  destruct (lisUpdate action w) as [[e|] w']; reflexivity.
Qed.

(** applyListeners is the sorted plan executed up to the first failure. *)
Lemma applyListeners_stops lbIsUserManaged IsForceOverride w
      createActions updateActions deleteActions :
  lbIsUserManaged && negb IsForceOverride = false ->
  buildActionsForListeners w
  = (createActions, updateActions, deleteActions, None) ->
  applyListeners lbIsUserManaged IsForceOverride w
  = executed (untilFirstFailure
                (sortedPlan createActions updateActions deleteActions) w).
Proof using Type.
  intros Hrun Hbuild. unfold applyListeners, sortedPlan. rewrite Hrun.
  unfold bind at 1. unfold get. rewrite Hbuild. cbv beta iota zeta.
  rewrite untilFirstFailure_app. unfold bind.
  rewrite (forEachUntilError_executed deleteOne StepDelete deleteOne_step).
  destruct (untilFirstFailure (map StepDelete _) w) as [[done1 [e|]] w1].
  { unfold executed, ret. simpl. rewrite app_nil_r. reflexivity. }
  cbn [executed]. rewrite untilFirstFailure_app.
  rewrite (forEachUntilError_executed createOne StepCreate createOne_step).
  destruct (untilFirstFailure (map StepCreate _) w1) as [[done2 [e|]] w2].
  { unfold executed, ret. simpl. rewrite app_nil_r, map_app. reflexivity. }
  cbn [executed].
  rewrite (forEachUntilError_executed updateOne StepUpdate updateOne_step).
  destruct (untilFirstFailure (map StepUpdate _) w2) as [[done3 err] w3].
  unfold executed. simpl. rewrite !map_app. reflexivity.
Qed.

(** A step performed before the last one did not fail, and only the last
    step performed can have failed. *)
Lemma untilFirstFailure_prefix plan w :
  let '(done, err, _) := untilFirstFailure plan w in
  exists rest,
    plan = done ++ rest
    /\ (err = None -> rest = [])
    /\ (forall e, err = Some e ->
          exists before s cause,
            done = before ++ [s] /\ e = stepError s cause).
Proof using Type.
  revert w. induction plan as [|s plan IH]; intros w.
  - exists []. split; [reflexivity|]. split; [reflexivity|]. discriminate.
  - cbn [untilFirstFailure].
    destruct (perform s w) as [[cause|] w'].
    + exists plan. split; [reflexivity|]. split; [discriminate|].
      intros e [= <-]. exists [], s, cause. split; reflexivity.
    + specialize (IH w').
      destruct (untilFirstFailure plan w') as [[done err] w''].
      destruct IH as (rest & Hp & Hn & He).
      exists rest. split; [rewrite Hp; reflexivity|]. split; [exact Hn|].
      intros e Herr. destruct (He e Herr) as (before & s' & cause & Hd & Hs).
      exists (s :: before), s', cause. rewrite Hd. split; [reflexivity|exact Hs].
Qed.

(** *** The cleanup pass *)

Definition detachable (vg : VServerGroup) : list BackendAttribute :=
  List.filter (fun b => negb (IsUserManaged b)) (Backends vg).

Definition isDeleteVServerGroup (c : Call) : bool :=
  match c with DeleteVServerGroup _ => true | _ => false end.

Lemma clb_cleanupGroup_calls lbId localGroups vg w :
  calls (cleanupGroup lbId localGroups vg w)
  = if existsb (fun l => String.eqb (VGroupId vg) (VGroupId l)) localGroups
    then []
    else if isVGroupManagedByMyService vg
         then [DeleteVServerGroup (VGroupId vg)]
         else match detachable vg with
              | [] => []
              | del => [BatchRemoveVServerGroupBackendServers vg del]
              end.
Proof using Type.
  unfold cleanupGroup, detachable.
  destruct (existsb _ localGroups); [reflexivity|].
  destruct (isVGroupManagedByMyService vg); simpl.
  - unfold bind, call, ret, calls.
    destruct (vgDeleteVServerGroup (VGroupId vg) w) as [[e|] w1]; reflexivity.
  - destruct (List.filter _ _); reflexivity.
Qed.

Lemma clb_cleanup_calls lbId localGroups remote :
  forall w c,
    In c (calls (cleanup lbId localGroups remote w)) ->
    exists vg w', In vg remote /\ In c (calls (cleanupGroup lbId localGroups vg w')).
Proof using Type.
  induction remote as [|vg remote IH]; intros w c Hc; [destruct Hc|].
  cbn [cleanup] in Hc. rewrite calls_bind in Hc.
  apply in_app_or in Hc. destruct Hc as [Hc|Hc].
  - exists vg, w. split; [left; reflexivity|exact Hc].
  - destruct (result (cleanupGroup lbId localGroups vg w)) as [e|]; [destruct Hc|].
    destruct (IH _ c Hc) as (vg' & w' & Hin & Hc').
    exists vg', w'. split; [right; exact Hin|exact Hc'].
Qed.

(** Ownership safety of the clbv1 cleanup pass. *)
Lemma clb_cleanup_ownership_safe lbId localGroups remote w :
  (forall vg w', isVGroupManagedByMyService vg = false ->
      forallb (fun c => negb (isDeleteVServerGroup c))
              (calls (cleanupGroup lbId localGroups vg w')) = true)
  /\ (forall id,
        In (DeleteVServerGroup id) (calls (cleanup lbId localGroups remote w)) ->
        exists vg, In vg remote /\ id = VGroupId vg
                   /\ isVGroupManagedByMyService vg = true)
  /\ (forall vg del,
        In (BatchRemoveVServerGroupBackendServers vg del)
           (calls (cleanup lbId localGroups remote w)) ->
        In vg remote /\ isVGroupManagedByMyService vg = false
        /\ del = detachable vg
        /\ forallb (fun b => negb (IsUserManaged b)) del = true).
Proof using Type.
  split; [|split].
  - intros vg w' Hown. rewrite clb_cleanupGroup_calls, Hown.
    destruct (existsb _ localGroups); [reflexivity|].
    destruct (detachable vg); reflexivity.
  - intros id Hin.
    destruct (clb_cleanup_calls _ _ _ _ _ Hin) as (vg & w' & Hr & Hc).
    rewrite clb_cleanupGroup_calls in Hc.
    destruct (existsb _ localGroups); [destruct Hc|].
    destruct (isVGroupManagedByMyService vg) eqn:Hown.
    + destruct Hc as [[= <-]|[]]. exists vg. repeat split; assumption.
    + destruct (detachable vg); [destruct Hc|].
      destruct Hc as [Hc|[]]; discriminate Hc.
  - intros g del Hin.
    destruct (clb_cleanup_calls _ _ _ _ _ Hin) as (vg & w' & Hr & Hc).
    rewrite clb_cleanupGroup_calls in Hc.
    destruct (existsb _ localGroups); [destruct Hc|].
    destruct (isVGroupManagedByMyService vg) eqn:Hown;
      [destruct Hc as [Hc|[]]; discriminate Hc|].
    destruct (detachable vg) as [|b0 bs] eqn:Hdet; [destruct Hc|].
    destruct Hc as [[= <- <-]|[]].
    split; [exact Hr|]. split; [exact Hown|]. split; [symmetry; exact Hdet|].
    rewrite <- Hdet. unfold detachable. apply forallb_forall.
    intros b Hb. apply List.filter_In in Hb. apply Hb.
Qed.

End Applier.

(** *** Apply *)

Section Apply.

Variable S : Type.
Variable slbBuildRemoteModel : S -> option string * S.
Variable phaseApplyLoadBalancerAttribute : S -> attrOutcome * S.
Variable vGroupBuildRemoteModel : S -> option string * S.
Variable phaseApplyVGroups : S -> option string * S.
Variable lisBuildRemoteModel : S -> option string * S.
Variable phaseApplyListeners : S -> option string * S.
Variable phaseCleanup : S -> option string * S.
Variable remoteLoadBalancerId : S -> string.

Local Abbreviation Cmd := (M S Phase).

(** The listener part of Apply. *)
Definition applyListenerPhase : Cmd (option applyError) :=
  let! err := call BuildRemoteListeners lisBuildRemoteModel in
  match err with
  | Some e => ret (Some (ErrGetListeners e))
  | None =>
      let! err := call ApplyListeners phaseApplyListeners in
      match err with
      | Some e => ret (Some (ErrReconcileListeners e))
      | None => ret None
      end
  end.

Definition Apply (serviceHashChanged DryRun NeedDeleteLoadBalancer : bool)
  : Cmd (bool * list applyError) :=
  let! err := call BuildRemoteLoadBalancer slbBuildRemoteModel in
  match err with
  | Some e => ret (true, [ErrGetAttribute e])
  | None =>
      let! attr :=
        if serviceHashChanged || DryRun
        then call ApplyLoadBalancerAttribute phaseApplyLoadBalancerAttribute
        else ret AttrOk in
      match attr with
      | AttrOther e => ret (false, [ErrAttribute e])
      | _ =>
          let errs :=
            match attr with
            | AttrAggregate e => [ErrUpdateAttribute e]
            | _ => []
            end in
          let! lbId := get remoteLoadBalancerId in
          if String.eqb lbId "" then
            if NeedDeleteLoadBalancer then ret (true, [])
            else ret (true, errs ++ [ErrCanNotFindLoadBalancer])
          else
            let! err := call BuildRemoteServerGroups vGroupBuildRemoteModel in
            match err with
            | Some e => ret (true, errs ++ [ErrGetServerGroups e])
            | None =>
                let! err := call ApplyVGroups phaseApplyVGroups in
                match err with
                | Some e => ret (true, errs ++ [ErrReconcileBackends e])
                | None =>
                    let! lis :=
                      if serviceHashChanged || DryRun
                      then applyListenerPhase
                      else ret None in
                    match lis with
                    | Some e => ret (true, errs ++ [e])
                    | None =>
                        let! err := call Cleanup phaseCleanup in
                        match err with
                        | Some e => ret (true, errs ++ [ErrCleanup e])
                        | None => ret (true, errs)
                        end
                    end
                end
            end
      end
  end.

(** With the gate closed Apply runs the attribute build and then, when
    the observed load balancer has an identity, the server-group build,
    the server-group reconciliation and the cleanup pass, each one only
    when the one before it succeeded. *)
Lemma clb_Apply_gate_closed NeedDeleteLoadBalancer (s : S) :
  calls (Apply false false NeedDeleteLoadBalancer s)
  = BuildRemoteLoadBalancer ::
    match slbBuildRemoteModel s with
    | (Some _, _) => []
    | (None, s1) =>
        if String.eqb (remoteLoadBalancerId s1) "" then []
        else
          BuildRemoteServerGroups ::
          match vGroupBuildRemoteModel s1 with
          | (Some _, _) => []
          | (None, s2) =>
              ApplyVGroups ::
              match phaseApplyVGroups s2 with
              | (Some _, _) => []
              | (None, _) => [Cleanup]
              end
          end
    end.
Proof using Type.
  unfold Apply, bind, call, ret, get, calls. simpl.
  destruct (slbBuildRemoteModel s) as [[e|] s1]; [reflexivity|]. simpl.
  destruct (String.eqb (remoteLoadBalancerId s1) "").
  { destruct NeedDeleteLoadBalancer; reflexivity. }
  simpl.
  destruct (vGroupBuildRemoteModel s1) as [[e|] s2]; [reflexivity|]. simpl.
  destruct (phaseApplyVGroups s2) as [[e|] s3]; [reflexivity|]. simpl.
  destruct (phaseCleanup s3) as [[e|] s4]; reflexivity.
Qed.

End Apply.

(** ** More of package clbv1 *)

(** *** isLoadBalancerReusable *)

(** [tag.Tag] and [v1.LoadBalancerIngress]. *)
Record Tag := mkTag { TagKey : string; TagValue : string }.

Record LoadBalancerIngress := mkIngress {
  IngressIP : string;
  IngressHostname : string
}.

Section Reuse.

(** [helper.TAGKEY] and [util.ClusterTagKey]. *)
Variable TAGKEY : string.
Variable ClusterTagKey : string.

Fixpoint hasKubernetesTag (tags : list Tag) : bool :=
  match tags with
  | [] => false
  | t :: rest =>
      if String.eqb (TagKey t) TAGKEY || String.eqb (TagKey t) ClusterTagKey
      then true
      else hasKubernetesTag rest
  end.

(** The loop over the ingress entries, with its [found] flag. *)
Fixpoint addressFound (lbIp : string) (ingress : list LoadBalancerIngress)
    (found : bool) : bool :=
  match ingress with
  | [] => found
  | i :: rest =>
      addressFound lbIp rest
        (if String.eqb (IngressIP i) lbIp
            || (negb (String.eqb (IngressHostname i) "")
                && String.eqb (IngressIP i) "")
         then true else found)
  end.

(** [externalIPType] is [reqCtx.Anno.Get(annotation.ExternalIPType)] and
    [ingress] is [service.Status.LoadBalancer.Ingress]. *)
Definition isLoadBalancerReusable (externalIPType : string)
    (ingress : list LoadBalancerIngress) (tags : list Tag) (lbIp : string)
  : bool * string :=
  if hasKubernetesTag tags then
    (false, "can not reuse loadbalancer created by kubernetes.")
  else if String.eqb externalIPType "eip" then (true, "")
  else
    match ingress with
    | [] => (true, "")
    | first :: _ =>
        if negb (addressFound lbIp ingress false) then
          (false,
           String.append "service has been associated with ip ["
             (String.append (IngressIP first)
                (String.append "], cannot be bound to ip ["
                   (String.append lbIp "]"))))
        else (true, "")
    end.

Lemma clb_hasKubernetesTag_false tags :
  hasKubernetesTag tags = false
  <-> forall t, In t tags -> TagKey t <> TAGKEY /\ TagKey t <> ClusterTagKey.
Proof.
  induction tags as [|t tags IH]; simpl.
  - split; [intros _ t []|reflexivity].
  - destruct (String.eqb_spec (TagKey t) TAGKEY) as [He|Hne]; simpl.
    + split; [discriminate|]. intros H. destruct (H t (or_introl eq_refl)).
      contradiction.
    + destruct (String.eqb_spec (TagKey t) ClusterTagKey) as [He|Hne'].
      * split; [discriminate|]. intros H. destruct (H t (or_introl eq_refl)).
        contradiction.
      * rewrite IH. split.
        -- intros H u [<-|Hu]; [split; assumption|apply H, Hu].
        -- intros H u Hu. apply H. right. exact Hu.
Qed.

(** An ingress entry that lets the load balancer at [lbIp] be bound: it
    has that address, or it has a hostname and no address. *)
Definition binds (lbIp : string) (i : LoadBalancerIngress) : Prop :=
  IngressIP i = lbIp \/ (IngressHostname i <> "" /\ IngressIP i = "").

Lemma addressFound_true lbIp ingress :
  forall found,
    addressFound lbIp ingress found = true
    <-> found = true \/ exists i, In i ingress /\ binds lbIp i.
Proof.
  induction ingress as [|i ingress IH]; intros found; simpl.
  - split; [intros H; left; exact H|].
    intros [H|(i & [] & _)]. exact H.
  - rewrite IH. unfold binds.
    destruct (String.eqb_spec (IngressIP i) lbIp) as [He|Hne]; simpl.
    + split; [|intros _; left; reflexivity].
      intros _. right. exists i. split; [left; reflexivity|left; exact He].
    + destruct (String.eqb_spec (IngressHostname i) "") as [Hh|Hh]; simpl.
      * split.
        -- intros [H|(j & Hj & Hb)]; [left; exact H|].
           right. exists j. split; [right; exact Hj|exact Hb].
        -- intros [H|(j & [<-|Hj] & Hb)]; [left; exact H| |].
           ++ destruct Hb as [Hb|[Hb _]]; contradiction.
           ++ right. exists j. split; assumption.
      * destruct (String.eqb_spec (IngressIP i) "") as [Hi|Hi].
        -- split; [|intros _; left; reflexivity].
           intros _. right. exists i. split; [left; reflexivity|].
           right. split; assumption.
        -- split.
           ++ intros [H|(j & Hj & Hb)]; [left; exact H|].
              right. exists j. split; [right; exact Hj|exact Hb].
           ++ intros [H|(j & [<-|Hj] & Hb)]; [left; exact H| |].
              ** destruct Hb as [Hb|[_ Hb]]; contradiction.
              ** right. exists j. split; assumption.
Qed.

(** X20: a load balancer can be reused by a service exactly when none of
    its tags has a key of the controller and either the external IP type
    is eip, or the service has no ingress yet, or one of its ingress
    entries has the load balancer's address or a hostname without address;
    the reason returned is empty exactly when it can be reused. *)
Theorem isLoadBalancerReusable_iff :
  forall externalIPType ingress tags lbIp,
    (fst (isLoadBalancerReusable externalIPType ingress tags lbIp) = true
     <-> (forall t, In t tags -> TagKey t <> TAGKEY /\ TagKey t <> ClusterTagKey)
         /\ (externalIPType = "eip" \/ ingress = []
             \/ exists i, In i ingress /\ binds lbIp i))
    /\ (fst (isLoadBalancerReusable externalIPType ingress tags lbIp) = true
        <-> snd (isLoadBalancerReusable externalIPType ingress tags lbIp) = "").
Proof.
  intros externalIPType ingress tags lbIp. unfold isLoadBalancerReusable.
  pose proof (clb_hasKubernetesTag_false tags) as Ht.
  destruct (hasKubernetesTag tags).
  - split; simpl.
    + split; [discriminate|]. intros [H _]. apply Ht in H. discriminate H.
    + split; discriminate.
  - assert (Hok : forall t, In t tags ->
                    TagKey t <> TAGKEY /\ TagKey t <> ClusterTagKey)
      by (apply Ht; reflexivity).
    destruct (String.eqb_spec externalIPType "eip") as [He|He].
    + split; simpl; [|split; reflexivity].
      split; [intros _; split; [exact Hok|left; exact He]|reflexivity].
    + destruct ingress as [|first rest].
      * split; simpl; [|split; reflexivity].
        split; [|reflexivity]. intros _. split; [exact Hok|].
        right. left. reflexivity.
      * pose proof (addressFound_true lbIp (first :: rest) false) as Hf.
        destruct (addressFound lbIp (first :: rest) false); simpl.
        -- split; [|split; reflexivity].
           split; [|reflexivity]. intros _. split; [exact Hok|].
           right. right.
           destruct (proj1 Hf eq_refl) as [H|H]; [discriminate H|exact H].
        -- split; [|split; discriminate].
           split; [discriminate|].
           intros [_ [H|[H|H]]]; [contradiction|discriminate H|].
           apply Hf. right. exact H.
Qed.

End Reuse.

(** *** applyLoadBalancerAttribute *)

(** [model.LoadBalancerAttribute] and [model.LoadBalancer], restricted to
    the fields the applier reads or writes. *)
Record LoadBalancerAttribute := mkAttribute {
  LoadBalancerId : string;
  Address : string;
  LbIsUserManaged : bool;          (* IsUserManaged *)
  LbPreserveOnDelete : bool;       (* PreserveOnDelete *)
  Tags : list Tag
}.

Record LoadBalancer := mkLB {
  NamespacedName : string;         (* NamespacedName.String() *)
  Attribute : LoadBalancerAttribute
}.

Definition lbId (m : LoadBalancer) : string := LoadBalancerId (Attribute m).

Definition setLoadBalancerId (m : LoadBalancer) (id : string) : LoadBalancer :=
  let a := Attribute m in
  mkLB (NamespacedName m)
       (mkAttribute id (Address a) (LbIsUserManaged a) (LbPreserveOnDelete a)
                    (Tags a)).

Definition setTags (m : LoadBalancer) (tags : list Tag) : LoadBalancer :=
  let a := Attribute m in
  mkLB (NamespacedName m)
       (mkAttribute (LoadBalancerId a) (Address a) (LbIsUserManaged a)
                    (LbPreserveOnDelete a) tags).

(** [remote.LoadBalancerAttribute.LoadBalancerId = ""] and
    [remote.LoadBalancerAttribute.Address = ""]. *)
Definition forget (m : LoadBalancer) : LoadBalancer :=
  let a := Attribute m in
  mkLB (NamespacedName m)
       (mkAttribute "" "" (LbIsUserManaged a) (LbPreserveOnDelete a) (Tags a)).

(** What the applier reads of the request: [helper.NeedDeleteLoadBalancer],
    [helper.IsServiceOwnIngress], [Status.LoadBalancer.Ingress], the text
    of [Ingress[0].IP], which is read only for a service that owns an
    ingress, and the annotation [annotation.ExternalIPType]. *)
Record Service := mkService {
  NeedDeleteLoadBalancer : bool;
  IsServiceOwnIngress : bool;
  Ingress : list LoadBalancerIngress;
  FirstIngressIP : string;
  ExternalIPType : string
}.

(** Calls to the load-balancer manager and to the cloud. *)
Inductive AttributeCall :=
| SetProtectionsOff (remote : LoadBalancer)
| CleanupLoadBalancerTags (remote : LoadBalancer)
| Delete (remote : LoadBalancer)
| Create (local : LoadBalancer)
| Find (remote : LoadBalancer)
| Update (local remote : LoadBalancer)
| ListCLBTagResources (lbId : string).

Section Attribute.

Variable TAGKEY : string.
Variable ClusterTagKey : string.

(** The manager works on the models it is handed by pointer: an oracle
    answers with the error and the model as the call leaves it. The error
    of Update comes back as Apply will test it. *)
Variable W : Type.
Variable slbSetProtectionsOff :
  LoadBalancer -> W -> (option string * LoadBalancer) * W.
Variable slbCleanupLoadBalancerTags :
  LoadBalancer -> W -> (option string * LoadBalancer) * W.
Variable slbDelete : LoadBalancer -> W -> (option string * LoadBalancer) * W.
Variable slbCreate : LoadBalancer -> W -> (option string * LoadBalancer) * W.
Variable slbFind : LoadBalancer -> W -> (option string * LoadBalancer) * W.
Variable slbUpdate :
  LoadBalancer -> LoadBalancer -> W ->
  (attrOutcome * LoadBalancer * LoadBalancer) * W.
Variable cloudListCLBTagResources :
  string -> W -> (list Tag * option string) * W.

Local Abbreviation Cmd := (M W AttributeCall).

(** [m.slbMgr.Update(reqCtx, local, remote)], the last step. *)
Definition update (l r : LoadBalancer)
  : Cmd (attrOutcome * LoadBalancer * LoadBalancer) :=
  call (Update l r) (slbUpdate l r).

(** The applier on two models that are not nil. *)
Definition applyAttribute (svc : Service) (l r : LoadBalancer)
  : Cmd (attrOutcome * LoadBalancer * LoadBalancer) :=
  if negb (String.eqb (NamespacedName l) (NamespacedName r)) then
    ret (AttrOther
           (String.append "models for different svc, local ["
              (String.append (NamespacedName l)
                 (String.append "], remote ["
                    (String.append (NamespacedName r) "]")))),
         l, r)
  else if NeedDeleteLoadBalancer svc then
    if negb (LbIsUserManaged (Attribute l)) then
      if LbPreserveOnDelete (Attribute l) then
        let! '(err, r1) := call (SetProtectionsOff r) (slbSetProtectionsOff r) in
        match err with
        | Some e =>
            ret (AttrOther
                   (String.append "set loadbalancer ["
                      (String.append (lbId r1)
                         (String.append "] protections off error: " e))),
                 l, r1)
        | None =>
            let! '(err, r2) := call (CleanupLoadBalancerTags r1)
                                    (slbCleanupLoadBalancerTags r1) in
            match err with
            | Some e =>
                ret (AttrOther
                       (String.append "cleanup loadbalancer ["
                          (String.append (lbId r2)
                             (String.append "] tags error: " e))),
                     l, r2)
            | None => ret (AttrOk, l, forget r2)
            end
        end
      else
        let! '(err, r1) := call (Delete r) (slbDelete r) in
        match err with
        | Some e =>
            ret (AttrOther
                   (String.append "delete loadbalancer ["
                      (String.append (lbId r1) (String.append "] error: " e))),
                 l, r1)
        | None => ret (AttrOk, l, forget r1)
        end
    else ret (AttrOk, l, r)
  else if String.eqb (lbId r) "" then
    if IsServiceOwnIngress svc then
      ret (AttrOther
             (String.append
                "alicloud: can not find loadbalancer, but it's defined in service ["
                (String.append (FirstIngressIP svc)
                   "] this may happen when you delete the loadbalancer")),
           l, r)
    else
      let! '(err, l1) := call (Create l) (slbCreate l) in
      match err with
      | Some e => ret (AttrOther (String.append "create lb error: " e), l1, r)
      | None =>
          let r1 := setLoadBalancerId r (lbId l1) in
          let! '(err, r2) := call (Find r1) (slbFind r1) in
          match err with
          | Some e =>
              ret (AttrOther
                     (String.append "update remote model for lbId "
                        (String.append (lbId r2) (String.append ", error: " e))),
                   l1, r2)
          | None => ret (AttrOk, l1, r2)
          end
      end
  else
    let! '(tags, err) := call (ListCLBTagResources (lbId r))
                              (cloudListCLBTagResources (lbId r)) in
    match err with
    | Some e => ret (AttrOther (String.append "DescribeTags: " e), l, r)
    | None =>
        let r1 := setTags r tags in
        if negb (NeedDeleteLoadBalancer svc) && LbIsUserManaged (Attribute l)
        then
          let '(ok, reason) :=
            isLoadBalancerReusable TAGKEY ClusterTagKey (ExternalIPType svc)
              (Ingress svc) tags (Address (Attribute r1)) in
          if negb ok then
            ret (AttrOther
                   (String.append "alicloud: the loadbalancer "
                      (String.append (lbId r1)
                         (String.append " can not be reused, " reason))),
                 l, r1)
          else update l r1
        else update l r1
    end.

(** [None] is a nil model. *)
Definition applyLoadBalancerAttribute (svc : Service)
    (local remote : option LoadBalancer)
  : Cmd (attrOutcome * option LoadBalancer * option LoadBalancer) :=
  match local with
  | None => ret (AttrOther "local model is nil", local, remote)
  | Some l =>
      match remote with
      | None => ret (AttrOther "remote model is nil", local, remote)
      | Some r =>
          let! '(out, l', r') := applyAttribute svc l r in
          ret (out, Some l', Some r')
      end
  end.

Definition isDeleteCall (c : AttributeCall) : bool :=
  match c with Delete _ => true | _ => false end.

Definition isCreateCall (c : AttributeCall) : bool :=
  match c with Create _ => true | _ => false end.

Definition touches (c : AttributeCall) : bool :=
  match c with
  | SetProtectionsOff _ | CleanupLoadBalancerTags _ | Delete _ => true
  | _ => false
  end.

(** Case analysis over the answers of the collaborators. *)
Ltac answer :=
  match goal with
  | |- context [slbSetProtectionsOff ?a ?w] =>
      destruct (slbSetProtectionsOff a w) as [[[?|] ?] ?] eqn:?
  | |- context [slbCleanupLoadBalancerTags ?a ?w] =>
      destruct (slbCleanupLoadBalancerTags a w) as [[[?|] ?] ?] eqn:?
  | |- context [slbDelete ?a ?w] =>
      destruct (slbDelete a w) as [[[?|] ?] ?] eqn:?
  | |- context [slbCreate ?a ?w] =>
      destruct (slbCreate a w) as [[[?|] ?] ?] eqn:?
  | |- context [slbFind ?a ?w] =>
      destruct (slbFind a w) as [[[?|] ?] ?] eqn:?
  | |- context [slbUpdate ?a ?b ?w] =>
      destruct (slbUpdate a b w) as [[[? ?] ?] ?] eqn:?
  | |- context [cloudListCLBTagResources ?a ?w] =>
      destruct (cloudListCLBTagResources a w) as [[? [?|]] ?] eqn:?
  | |- context [isLoadBalancerReusable ?a ?b ?c ?d ?e ?f] =>
      destruct (isLoadBalancerReusable a b c d e f) as [[] ?] eqn:?
  | |- context [if ?x then _ else _] => destruct x eqn:?
  end.

Ltac run_applier :=
  unfold applyLoadBalancerAttribute, applyAttribute, update, bind, call, ret,
    calls, result, final, lbId;
  repeat (answer; cbn beta iota zeta delta [fst snd app negb andb orb]).

Ltac lists :=
  cbn [In fst snd app forallb isDeleteCall isCreateCall touches negb andb];
  intros;
  repeat match goal with
         | H : _ \/ _ |- _ => destruct H
         | H : False |- _ => destruct H
         | H : @eq AttributeCall _ _ |- _ => try discriminate H; injection H as
         | H : (_ =? _)%string = true |- _ => apply String.eqb_eq in H
         | H : negb _ = false |- _ => apply negb_false_iff in H
         | H : negb _ = true |- _ => apply negb_true_iff in H
         end; subst.

(** X21: the applier removes a load balancer only for a service that is
    being deleted, and never one the user brought: Delete is called only
    when the load balancer is the controller's own and not to be
    preserved. It creates one only for a service that stays, owns no
    ingress and has no observed load balancer. No run both removes and
    creates, and none calls Delete or Create twice. *)
Theorem applyLoadBalancerAttribute_guards :
  forall svc l r w,
    (forall c, In c (calls (applyAttribute svc l r w)) -> touches c = true ->
        NeedDeleteLoadBalancer svc = true
        /\ LbIsUserManaged (Attribute l) = false
        /\ (isDeleteCall c = true -> LbPreserveOnDelete (Attribute l) = false))
    /\ (forall x, In (Create x) (calls (applyAttribute svc l r w)) ->
          x = l /\ NeedDeleteLoadBalancer svc = false /\ lbId r = ""
          /\ IsServiceOwnIngress svc = false)
    /\ (List.length (List.filter (fun c => isDeleteCall c || isCreateCall c)
                       (calls (applyAttribute svc l r w))) <= 1)%nat.
Proof.
  intros svc l r w. split; [|split].
  - intros c. run_applier; lists; cbn in *; intuition (try congruence).
  - intros x. run_applier; lists; intuition (try congruence).
  - run_applier; cbn; lia.
Qed.

End Attribute.

(** *** Apply with the attribute applier in place *)

Section ApplyOnDeletion.

Variable TAGKEY : string.
Variable ClusterTagKey : string.
Variable W : Type.
Variable slbSetProtectionsOff :
  LoadBalancer -> W -> (option string * LoadBalancer) * W.
Variable slbCleanupLoadBalancerTags :
  LoadBalancer -> W -> (option string * LoadBalancer) * W.
Variable slbDelete : LoadBalancer -> W -> (option string * LoadBalancer) * W.
Variable slbCreate : LoadBalancer -> W -> (option string * LoadBalancer) * W.
Variable slbFind : LoadBalancer -> W -> (option string * LoadBalancer) * W.
Variable slbUpdate :
  LoadBalancer -> LoadBalancer -> W ->
  (attrOutcome * LoadBalancer * LoadBalancer) * W.
Variable cloudListCLBTagResources :
  string -> W -> (list Tag * option string) * W.

(** The state of a reconciliation: the desired model, the observed model
    and the cloud. *)
Definition Reconciliation : Type := LoadBalancer * LoadBalancer * W.

Variable slbBuildRemoteModel : Reconciliation -> option string * Reconciliation.
Variable vGroupBuildRemoteModel :
  Reconciliation -> option string * Reconciliation.
Variable phaseApplyVGroups : Reconciliation -> option string * Reconciliation.
Variable lisBuildRemoteModel : Reconciliation -> option string * Reconciliation.
Variable phaseApplyListeners : Reconciliation -> option string * Reconciliation.
Variable phaseCleanup : Reconciliation -> option string * Reconciliation.

Local Abbreviation attribute :=
  (applyAttribute TAGKEY ClusterTagKey W slbSetProtectionsOff
     slbCleanupLoadBalancerTags slbDelete slbCreate slbFind slbUpdate
     cloudListCLBTagResources).

(** The attribute phase of Apply: applyLoadBalancerAttribute on the two
    models of the reconciliation. *)
Definition attributePhase (svc : Service) (s : Reconciliation)
  : attrOutcome * Reconciliation :=
  let '(l, r, w) := s in
  let '((out, l', r'), w') := fst (attribute svc l r w) in
  (out, (l', r', w')).

Definition observedId (s : Reconciliation) : string := lbId (snd (fst s)).

Local Abbreviation ApplyFor svc :=
  (Apply Reconciliation slbBuildRemoteModel (attributePhase svc)
     vGroupBuildRemoteModel phaseApplyVGroups lisBuildRemoteModel
     phaseApplyListeners phaseCleanup observedId).

(** X22: Apply for a service that is being deleted, with the attribute
    phase open. Once the controller's own load balancer has been removed,
    Apply returns without error after the attribute phase: the observed
    model has no identity any more, and neither server groups nor
    listeners nor the cleanup pass are touched. For a reused load
    balancer the attribute phase calls nothing and Apply goes on to the
    server groups with both models as they were. *)
Theorem Apply_on_deletion :
  forall svc DryRun s l r w,
    NeedDeleteLoadBalancer svc = true ->
    slbBuildRemoteModel s = (None, (l, r, w)) ->
    NamespacedName l = NamespacedName r ->
    (LbIsUserManaged (Attribute l) = false ->
     fst (fst (result (attribute svc l r w))) = AttrOk ->
     result (ApplyFor svc true DryRun (NeedDeleteLoadBalancer svc) s)
     = (true, [])
     /\ calls (ApplyFor svc true DryRun (NeedDeleteLoadBalancer svc) s)
        = [BuildRemoteLoadBalancer; ApplyLoadBalancerAttribute]
     /\ observedId (final (ApplyFor svc true DryRun
                             (NeedDeleteLoadBalancer svc) s)) = "")
    /\ (LbIsUserManaged (Attribute l) = true -> lbId r <> "" ->
        calls (attribute svc l r w) = []
        /\ exists rest,
            calls (ApplyFor svc true DryRun (NeedDeleteLoadBalancer svc) s)
            = [BuildRemoteLoadBalancer; ApplyLoadBalancerAttribute;
               BuildRemoteServerGroups] ++ rest
            /\ (vGroupBuildRemoteModel (l, r, w)
                = (None, (l, r, w)) -> rest <> [])).
Proof.
  intros svc DryRun s l r w Hdel Hbuild Hname. split.
  - intros Hown Hok.
    assert (Hattr : exists r' w', attributePhase svc (l, r, w)
                                  = (AttrOk, (l, forget r', w'))).
    { unfold attributePhase. revert Hok.
      unfold applyAttribute, result, bind, call, ret.
      rewrite Hname, String.eqb_refl, Hdel, Hown. cbn [negb].
      destruct (LbPreserveOnDelete (Attribute l)).
      - destruct (slbSetProtectionsOff r w) as [[[e|] r1] w1];
          [discriminate|].
        destruct (slbCleanupLoadBalancerTags r1 w1) as [[[e|] r2] w2];
          [discriminate|].
        intros _. exists r2, w2. reflexivity.
      - destruct (slbDelete r w) as [[[e|] r1] w1]; [discriminate|].
        intros _. exists r1, w1. reflexivity. }
    destruct Hattr as (r' & w' & Hattr).
    unfold Apply, bind, call, ret, get, result, calls, final.
    rewrite Hbuild. cbn [orb fst snd]. rewrite Hattr. cbn [fst snd].
    unfold observedId at 1. cbn [fst snd]. rewrite Hdel.
    repeat split.
  - intros Hum Hid.
    assert (Hrun : attribute svc l r w = ((AttrOk, l, r, w), [])).
    { unfold applyAttribute. rewrite Hname, String.eqb_refl, Hdel, Hum.
      reflexivity. }
    split; [rewrite Hrun; reflexivity|].
    unfold Apply, bind, call, ret, get, calls.
    rewrite Hbuild. cbn [orb fst snd]. unfold attributePhase. rewrite Hrun.
    cbn [fst snd]. unfold observedId. cbn [fst snd].
    destruct (String.eqb_spec (lbId r) ""); [contradiction|].
    destruct (vGroupBuildRemoteModel (l, r, w)) as [[e|] s2] eqn:Hvg.
    + eexists. split; [reflexivity|]. discriminate.
    + cbn [fst snd].
      destruct (phaseApplyVGroups s2) as [[e|] s3]; cbn [fst snd].
      * eexists. split; [reflexivity|]. intros _. discriminate.
      * destruct (applyListenerPhase Reconciliation lisBuildRemoteModel
                    phaseApplyListeners s3) as [[[e|] s4] t4]; cbn [fst snd].
        -- eexists. split; [reflexivity|]. intros _. discriminate.
        -- destruct (phaseCleanup s4) as [[e|] s5]; cbn [fst snd];
             (eexists; split; [reflexivity|]; intros _; discriminate).
Qed.

End ApplyOnDeletion.

(** *** applyVGroups *)

(** Calls to the server-group manager. *)
Inductive VGroupCall :=
| UpdateVServerGroup (local old : VServerGroup)
| CreateVServerGroup (local : VServerGroup) (lbId : string)
| BatchAddVServerGroupBackendServers (local : VServerGroup)
                                     (backends : list BackendAttribute).

Inductive vgroupError :=
| ErrEnsureVGroupUpdated (cause : string)
| ErrCreateVServerGroup (cause : string)
| ErrBatchAddVServerGroupBackendServers (cause : string).

Definition setVGroupId (g : VServerGroup) (id : string) : VServerGroup :=
  mkVGroup id (VGroupName g) (Backends g).

(** The zero value of [var old model.VServerGroup]. *)
Definition zeroVServerGroup : VServerGroup := mkVGroup "" "" [].

(** The inner loop over the observed groups: the first one with the
    desired identity when that is known, else the first one with the
    desired name. *)
Fixpoint matchRemote (l : VServerGroup) (rs : list VServerGroup)
  : option VServerGroup :=
  match rs with
  | [] => None
  | rv :: rest =>
      if negb (String.eqb (VGroupId l) "")
         && String.eqb (VGroupId l) (VGroupId rv) then Some rv
      else if String.eqb (VGroupId l) ""
              && String.eqb (VGroupName l) (VGroupName rv) then Some rv
      else matchRemote l rest
  end.

(** The variables of the loop: [remote.VServerGroups], [updatedVGroups]
    and [errs]. *)
Record vgState := mkVG {
  remoteGroups : list VServerGroup;
  updatedVGroups : gmap string bool;
  errs : list vgroupError
}.

Definition isUpdated (m : gmap string bool) (k : string) : bool :=
  default false (m !! k).

Section VGroups.

(** CreateVServerGroup is handed a pointer to the desired group and
    answers with the group as it leaves it. *)
Variable W : Type.
Variable vgUpdateVServerGroup :
  VServerGroup -> VServerGroup -> W -> option string * W.
Variable vgCreateVServerGroup :
  VServerGroup -> string -> W -> (option string * VServerGroup) * W.
Variable vgBatchAddVServerGroupBackendServers :
  VServerGroup -> list BackendAttribute -> W -> option string * W.

Local Abbreviation Cmd := (M W VGroupCall).

(** One iteration of the loop over [local.VServerGroups]: the desired
    group as the iteration leaves it, and the loop variables. [lbId] is
    [remote.LoadBalancerAttribute.LoadBalancerId]. *)
Definition vgroupStep (lbId : string) (l : VServerGroup) (st : vgState)
  : Cmd (VServerGroup * vgState) :=
  let '(found, old, l1) :=
    match matchRemote l (remoteGroups st) with
    | None => (false, zeroVServerGroup, l)
    | Some rv =>
        if negb (String.eqb (VGroupId l) "") then (true, rv, l)
        else (true, rv, setVGroupId l (VGroupId rv))
    end in
  if isUpdated (updatedVGroups st) (VGroupId l1) then ret (l1, st)
  else if found then
    let! err := call (UpdateVServerGroup l1 old) (vgUpdateVServerGroup l1 old) in
    match err with
    | Some e =>
        ret (l1, mkVG (remoteGroups st) (updatedVGroups st)
                      (errs st ++ [ErrEnsureVGroupUpdated e]))
    | None =>
        ret (l1, mkVG (remoteGroups st)
                      (<[VGroupId l1 := true]> (updatedVGroups st)) (errs st))
    end
  else
    let! '(err, l2) := call (CreateVServerGroup l1 lbId)
                            (vgCreateVServerGroup l1 lbId) in
    match err with
    | Some e =>
        ret (l2, mkVG (remoteGroups st) (updatedVGroups st)
                      (errs st ++ [ErrCreateVServerGroup e]))
    | None =>
        let! err := call (BatchAddVServerGroupBackendServers l2 (Backends l2))
                         (vgBatchAddVServerGroupBackendServers l2 (Backends l2)) in
        match err with
        | Some e =>
            ret (l2, mkVG (remoteGroups st) (updatedVGroups st)
                          (errs st ++ [ErrBatchAddVServerGroupBackendServers e]))
        | None =>
            ret (l2, mkVG (remoteGroups st ++ [l2])
                          (<[VGroupId l2 := true]> (updatedVGroups st))
                          (errs st))
        end
    end.

Fixpoint vgroupLoop (lbId : string) (locals : list VServerGroup)
    (st : vgState) : Cmd (list VServerGroup * vgState) :=
  match locals with
  | [] => ret ([], st)
  | l :: rest =>
      let! '(l', st1) := vgroupStep lbId l st in
      let! '(rest', st2) := vgroupLoop lbId rest st1 in
      ret (l' :: rest', st2)
  end.

(** applyVGroups: the desired and the observed groups as the loop leaves
    them, and the errors it aggregates (none: nil). *)
Definition applyVGroups (lbId : string) (localGroups remote : list VServerGroup)
  : Cmd (list VServerGroup * list VServerGroup * list vgroupError) :=
  let! '(locals', st) := vgroupLoop lbId localGroups (mkVG remote ∅ []) in
  ret (locals', remoteGroups st, errs st).

Definition isUpdateCall (c : VGroupCall) : bool :=
  match c with UpdateVServerGroup _ _ => true | _ => false end.

Lemma matchRemote_app_None l rs extra :
  matchRemote l (rs ++ extra) = None -> matchRemote l rs = None.
Proof.
  induction rs as [|rv rs IH]; [reflexivity|]. cbn [app matchRemote].
  destruct (_ && _); [discriminate|]. destruct (_ && _); [discriminate|].
  exact IH.
Qed.

(** What one iteration calls, and what it does to the loop variables. *)
Lemma clb_vgroupStep_cases lbId l st w :
  let run := vgroupStep lbId l st w in
  let st' := snd (result run) in
  (calls run = [] /\ st' = st)
  \/ (exists old,
        matchRemote l (remoteGroups st) = Some old
        /\ calls run = [UpdateVServerGroup (fst (result run)) old]
        /\ remoteGroups st' = remoteGroups st
        /\ (errs st' = errs st \/ exists e, errs st' = errs st ++ [e]))
  \/ (matchRemote l (remoteGroups st) = None
      /\ calls run = [CreateVServerGroup l lbId]
      /\ remoteGroups st' = remoteGroups st
      /\ exists e, errs st' = errs st ++ [e])
  \/ (matchRemote l (remoteGroups st) = None
      /\ calls run
         = [CreateVServerGroup l lbId;
            BatchAddVServerGroupBackendServers (fst (result run))
              (Backends (fst (result run)))]
      /\ ((remoteGroups st' = remoteGroups st
           /\ exists e, errs st' = errs st ++ [e])
          \/ (remoteGroups st' = remoteGroups st ++ [fst (result run)]
              /\ errs st' = errs st))).
Proof.
  cbv zeta. unfold vgroupStep.
  destruct (matchRemote l (remoteGroups st)) as [rv|];
    [destruct (negb (String.eqb (VGroupId l) ""))|];
    cbv zeta beta iota;
    (destruct (isUpdated _ _); [left; split; reflexivity|]);
    unfold bind, call, ret, calls, result.
  - destruct (vgUpdateVServerGroup l rv w) as [[e|] w1]; cbn [fst snd app];
      right; left; exists rv; repeat split; eauto.
  - destruct (vgUpdateVServerGroup (setVGroupId l (VGroupId rv)) rv w)
      as [[e|] w1]; cbn [fst snd app];
      right; left; exists rv; repeat split; eauto.
  - destruct (vgCreateVServerGroup l lbId w) as [[[e|] l2] w1];
      cbn [fst snd app].
    + right; right; left. repeat split. eauto.
    + destruct (vgBatchAddVServerGroupBackendServers l2 (Backends l2) w1)
        as [[e|] w2]; cbn [fst snd app];
        right; right; right; repeat split; eauto.
Qed.

(** The loop, from any state of its variables. *)
Lemma clb_vgroupLoop_accounts lbId locals :
  forall st w,
    let run := vgroupLoop lbId locals st w in
    let st' := snd (result run) in
    List.length (fst (result run)) = List.length locals
    /\ (forall g id, In (CreateVServerGroup g id) (calls run) ->
          id = lbId /\ In g locals /\ matchRemote g (remoteGroups st) = None)
    /\ (exists created,
          remoteGroups st' = remoteGroups st ++ created
          /\ Forall (fun g => In (BatchAddVServerGroupBackendServers
                                    g (Backends g)) (calls run)) created)
    /\ (exists new, errs st' = errs st ++ new
                    /\ (List.length new <= List.length locals)%nat).
Proof.
  induction locals as [|l locals IH]; intros st w; cbv zeta.
  - cbn. split; [reflexivity|]. split; [intros ? ? []|]. split.
    + exists []. rewrite app_nil_r. split; [reflexivity|constructor].
    + exists []. rewrite app_nil_r. split; [reflexivity|cbn; lia].
  - cbn [vgroupLoop]. rewrite calls_bind, result_bind.
    pose proof (clb_vgroupStep_cases lbId l st w) as Hstep. cbv zeta in Hstep.
    destruct (result (vgroupStep lbId l st w)) as [l' st1] eqn:Hres.
    cbn [fst snd] in Hstep. rewrite calls_bind, result_bind.
    specialize (IH st1 (final (vgroupStep lbId l st w))). cbv zeta in IH.
    destruct (result (vgroupLoop lbId locals st1 _)) as [rest' st2] eqn:Hres2.
    cbn [fst snd] in IH.
    destruct IH as (Hlen & Hcreate & (created & Hrem & Hadded)
                    & (new & Herrs & Hnew)).
    change (calls (ret (l' :: rest', st2) _)) with (@nil VGroupCall).
    change (result (ret (l' :: rest', st2) _)) with (l' :: rest', st2).
    rewrite app_nil_r. cbn [fst snd List.length].
    assert (Hrs : exists extra, remoteGroups st1 = remoteGroups st ++ extra).
    { destruct Hstep as [[_ ->]|[(old & _ & _ & -> & _)|[(_ & _ & -> & _)
                         |(_ & _ & [[-> _]|[-> _]])]]];
        first [exists []; rewrite app_nil_r; reflexivity
              |eexists; reflexivity]. }
    destruct Hrs as [extra Hextra].
    split; [rewrite Hlen; reflexivity|]. split; [|split].
    + intros g id Hin. apply in_app_or in Hin. destruct Hin as [Hin|Hin].
      * destruct Hstep as [[Hc _]|[(old & _ & Hc & _)|[(Hm & Hc & _)
                           |(Hm & Hc & _)]]]; rewrite Hc in Hin.
        -- destruct Hin.
        -- destruct Hin as [Hin|[]]. discriminate Hin.
        -- destruct Hin as [[= <- <-]|[]]. repeat split; auto. left; reflexivity.
        -- destruct Hin as [[= <- <-]|[Hin|[]]]; [|discriminate Hin].
           repeat split; auto. left; reflexivity.
      * destruct (Hcreate g id Hin) as (Hid & Hg & Hm).
        split; [exact Hid|]. split; [right; exact Hg|].
        rewrite Hextra in Hm. exact (matchRemote_app_None _ _ _ Hm).
    + assert (Hlater : Forall (fun g => In (BatchAddVServerGroupBackendServers
                                             g (Backends g))
                                          (calls (vgroupStep lbId l st w)
                                             ++ calls (vgroupLoop lbId locals st1
                                                         (final (vgroupStep lbId l st w)))))
                              created).
      { eapply List.Forall_impl; [|exact Hadded].
        intros g Hg. apply in_or_app. right. exact Hg. }
      destruct Hstep as [[_ Hst]|[(old & _ & _ & Hr1 & _)|[(_ & _ & Hr1 & _)
                         |(_ & Hc & [[Hr1 _]|[Hr1 _]])]]].
      * exists created. subst st1. split; [exact Hrem|exact Hlater].
      * exists created. rewrite Hrem, Hr1. split; [reflexivity|exact Hlater].
      * exists created. rewrite Hrem, Hr1. split; [reflexivity|exact Hlater].
      * exists created. rewrite Hrem, Hr1. split; [reflexivity|exact Hlater].
      * exists (l' :: created). rewrite Hrem, Hr1, <- app_assoc.
        split; [reflexivity|]. constructor; [|exact Hlater].
        apply in_or_app. left. rewrite Hc. right. left. reflexivity.
    + destruct Hstep as [[_ Hst]|[(old & _ & _ & _ & [He|[e He]])
                         |[(_ & _ & _ & [e He])
                          |(_ & _ & [[_ [e He]]|[_ He]])]]].
      * exists new. subst st1. split; [exact Herrs|lia].
      * exists new. rewrite Herrs, He. split; [reflexivity|lia].
      * exists (e :: new). rewrite Herrs, He, <- app_assoc.
        split; [reflexivity|cbn; lia].
      * exists (e :: new). rewrite Herrs, He, <- app_assoc.
        split; [reflexivity|cbn; lia].
      * exists (e :: new). rewrite Herrs, He, <- app_assoc.
        split; [reflexivity|cbn; lia].
      * exists new. rewrite Herrs, He. split; [reflexivity|lia].
Qed.

(** The groups whose backends were added, in call order. *)
Definition addedGroups (t : list VGroupCall) : list VServerGroup :=
  omap (fun c => match c with
                 | BatchAddVServerGroupBackendServers g _ => Some g
                 | _ => None
                 end) t.

Definition isCreateGroupCall (c : VGroupCall) : bool :=
  match c with CreateVServerGroup _ _ => true | _ => false end.

Definition isAddBackendsCall (c : VGroupCall) : bool :=
  match c with BatchAddVServerGroupBackendServers _ _ => true | _ => false end.

Definition isUpdateFailure (e : vgroupError) : bool :=
  match e with ErrEnsureVGroupUpdated _ => true | _ => false end.

Definition isCreateFailure (e : vgroupError) : bool :=
  match e with ErrCreateVServerGroup _ => true | _ => false end.

Definition isAddFailure (e : vgroupError) : bool :=
  match e with ErrBatchAddVServerGroupBackendServers _ => true | _ => false end.

Definition count {X} (f : X -> bool) (l : list X) : nat :=
  List.length (List.filter f l).

(** An identity has been handled in a trace when the trace holds an
    update or a backend addition for a group with that identity. *)
Definition handledId (t : list VGroupCall) (id : string) : Prop :=
  exists g,
    VGroupId g = id
    /\ ((exists old, In (UpdateVServerGroup g old) t)
        \/ In (BatchAddVServerGroupBackendServers g (Backends g)) t).

(** A desired group [l], left as [l'] by the pass, has been handled: its
    creation was called, or its identity has been handled. *)
Definition handled (t : list VGroupCall) (lbId : string)
    (l l' : VServerGroup) : Prop :=
  In (CreateVServerGroup l lbId) t \/ handledId t (VGroupId l').

Lemma handledId_app t t' id :
  handledId t id \/ handledId t' id -> handledId (t ++ t') id.
Proof.
  intros [(g & Hg & H)|(g & Hg & H)]; exists g; (split; [exact Hg|]);
    destruct H as [[old H]|H];
    first [solve [left; exists old; apply in_or_app; auto]
          |solve [right; apply in_or_app; auto]].
Qed.

Lemma handled_app t t' lbId l l' :
  handled t lbId l l' \/ handled t' lbId l l' -> handled (t ++ t') lbId l l'.
Proof.
  unfold handled. intros [[H|H]|[H|H]];
    first [solve [left; apply in_or_app; auto]
          |solve [right; apply handledId_app; auto]].
Qed.

Lemma isUpdated_marked m k k' :
  isUpdated (<[k := true]> m) k' = true -> k' = k \/ isUpdated m k' = true.
Proof.
  unfold isUpdated. destruct (decide (k = k')) as [->|Hne].
  - intros _. left. reflexivity.
  - rewrite lookup_insert_ne by exact Hne. intros H. right. exact H.
Qed.

Lemma count_app {X} (f : X -> bool) l1 l2 :
  count f (l1 ++ l2) = (count f l1 + count f l2)%nat.
Proof. unfold count. rewrite List.filter_app, List.length_app. reflexivity. Qed.

(** The six ways one iteration can end. *)
Lemma clb_vgroupStep_exact lbId l st w :
  let run := vgroupStep lbId l st w in
  let l' := fst (result run) in
  let st' := snd (result run) in
  (calls run = [] /\ st' = st
   /\ isUpdated (updatedVGroups st) (VGroupId l') = true)
  \/ (exists old,
        calls run = [UpdateVServerGroup l' old]
        /\ remoteGroups st' = remoteGroups st
        /\ ((errs st' = errs st
             /\ updatedVGroups st' = <[VGroupId l' := true]> (updatedVGroups st))
            \/ (exists e, errs st' = errs st ++ [ErrEnsureVGroupUpdated e])
               /\ updatedVGroups st' = updatedVGroups st))
  \/ (calls run = [CreateVServerGroup l lbId]
      /\ remoteGroups st' = remoteGroups st
      /\ updatedVGroups st' = updatedVGroups st
      /\ exists e, errs st' = errs st ++ [ErrCreateVServerGroup e])
  \/ (calls run
      = [CreateVServerGroup l lbId;
         BatchAddVServerGroupBackendServers l' (Backends l')]
      /\ ((remoteGroups st' = remoteGroups st
           /\ updatedVGroups st' = updatedVGroups st
           /\ exists e,
               errs st' = errs st ++ [ErrBatchAddVServerGroupBackendServers e])
          \/ (remoteGroups st' = remoteGroups st ++ [l']
              /\ updatedVGroups st' = <[VGroupId l' := true]> (updatedVGroups st)
              /\ errs st' = errs st))).
Proof.
  cbv zeta. unfold vgroupStep.
  destruct (matchRemote l (remoteGroups st)) as [rv|];
    [destruct (negb (String.eqb (VGroupId l) ""))|];
    cbv zeta beta iota;
    (destruct (isUpdated _ _) eqn:Hup;
     [left; split; [reflexivity|split; [reflexivity|exact Hup]]|]);
    unfold bind, call, ret, calls, result.
  - destruct (vgUpdateVServerGroup l rv w) as [[e|] w1]; cbn [fst snd app];
      right; left; exists rv; repeat split; eauto.
  - destruct (vgUpdateVServerGroup (setVGroupId l (VGroupId rv)) rv w)
      as [[e|] w1]; cbn [fst snd app];
      right; left; exists rv; repeat split; eauto.
  - destruct (vgCreateVServerGroup l lbId w) as [[[e|] l2] w1];
      cbn [fst snd app].
    + right; right; left. repeat split. eauto.
    + destruct (vgBatchAddVServerGroupBackendServers l2 (Backends l2) w1)
        as [[e|] w2]; cbn [fst snd app];
        right; right; right; (split; [reflexivity|]);
        [left|right]; repeat split; eauto.
Qed.

(** The loop, from any state of its variables whose marks are justified
    by the calls made so far. *)
Lemma clb_vgroupLoop_handles lbId locals :
  forall st w t0,
    (forall k, isUpdated (updatedVGroups st) k = true -> handledId t0 k) ->
    let run := vgroupLoop lbId locals st w in
    let st' := snd (result run) in
    Forall2 (handled (t0 ++ calls run) lbId) locals (fst (result run))
    /\ exists created new,
        remoteGroups st' = remoteGroups st ++ created
        /\ errs st' = errs st ++ new
        /\ sublist created (addedGroups (calls run))
        /\ (new = [] -> created = addedGroups (calls run))
        /\ count isCreateGroupCall (calls run)
           = (List.length created + count isCreateFailure new
              + count isAddFailure new)%nat
        /\ count isAddBackendsCall (calls run)
           = (List.length created + count isAddFailure new)%nat
        /\ (count isUpdateFailure new <= count isUpdateCall (calls run))%nat.
Proof.
  induction locals as [|l locals IH]; intros st w t0 Hmarks; cbv zeta.
  - cbn. split; [constructor|]. exists [], []. rewrite !app_nil_r.
    split; [reflexivity|]. split; [reflexivity|]. split; [constructor|].
    split; [reflexivity|]. unfold count. cbn. repeat split; lia.
  - cbn [vgroupLoop]. rewrite calls_bind, result_bind.
    pose proof (clb_vgroupStep_exact lbId l st w) as Hstep. cbv zeta in Hstep.
    destruct (result (vgroupStep lbId l st w)) as [l' st1] eqn:Hres.
    cbn [fst snd] in Hstep. rewrite calls_bind, result_bind.
    set (t1 := calls (vgroupStep lbId l st w)) in *.
    assert (Hmarks1 : forall k, isUpdated (updatedVGroups st1) k = true ->
                                handledId (t0 ++ t1) k).
    { intros k Hk.
      destruct Hstep as [(_ & -> & _)
                        |[(old & Hc & _ & [[_ Hu]|[_ Hu]])
                         |[(_ & _ & Hu & _)
                          |(Hc & [(_ & Hu & _)|(_ & Hu & _)])]]];
        rewrite ?Hu in Hk;
        try (apply handledId_app; left; apply Hmarks; exact Hk).
      - apply isUpdated_marked in Hk. destruct Hk as [->|Hk].
        + apply handledId_app. right. exists l'. split; [reflexivity|].
          left. exists old. rewrite Hc. left. reflexivity.
        + apply handledId_app. left. apply Hmarks, Hk.
      - apply isUpdated_marked in Hk. destruct Hk as [->|Hk].
        + apply handledId_app. right. exists l'. split; [reflexivity|].
          right. rewrite Hc. right. left. reflexivity.
        + apply handledId_app. left. apply Hmarks, Hk. }
    specialize (IH st1 (final (vgroupStep lbId l st w)) (t0 ++ t1) Hmarks1).
    cbv zeta in IH.
    set (t2 := calls (vgroupLoop lbId locals st1
                        (final (vgroupStep lbId l st w)))) in *.
    destruct (result (vgroupLoop lbId locals st1 _)) as [rest' st2] eqn:Hres2.
    cbn [fst snd] in IH.
    destruct IH as (Hall & created & new & Hrem & Herrs & Hsub & Hfull
                    & Hcc & Hca & Hcu).
    change (calls (ret (l' :: rest', st2) _)) with (@nil VGroupCall).
    change (result (ret (l' :: rest', st2) _)) with (l' :: rest', st2).
    rewrite app_nil_r. cbn [fst snd].
    rewrite <- app_assoc in Hall.
    split.
    + constructor; [|exact Hall].
      rewrite app_assoc. apply handled_app. left.
      destruct Hstep as [(_ & _ & Hup)
                        |[(old & Hc & _)
                         |[(Hc & _)|(Hc & _)]]].
      * right. apply handledId_app. left. apply Hmarks, Hup.
      * right. apply handledId_app. right. exists l'.
        split; [reflexivity|]. left. exists old. rewrite Hc. left. reflexivity.
      * left. apply in_or_app. right. rewrite Hc. left. reflexivity.
      * left. apply in_or_app. right. rewrite Hc. left. reflexivity.
    + unfold addedGroups in *. rewrite !count_app, omap_app.
      destruct Hstep as [(Hc & -> & _)
                        |[(old & Hc & Hr & [[He _]|[[e He] _]])
                         |[(Hc & Hr & _ & [e He])
                          |(Hc & [(Hr & _ & [e He])|(Hr & _ & He)])]]];
        rewrite Hc; cbn [omap list_omap app count List.filter
                          isCreateGroupCall isAddBackendsCall isUpdateCall
                          List.length].
      * exists created, new. repeat split; assumption.
      * exists created, new. rewrite Hrem, Herrs, Hr, He.
        repeat split; try assumption. unfold count in *. cbn. lia.
      * exists created, (ErrEnsureVGroupUpdated e :: new).
        rewrite Hrem, Herrs, Hr, He, <- app_assoc.
        split; [reflexivity|]. split; [reflexivity|].
        split; [exact Hsub|]. split; [discriminate|].
        unfold count in *. cbn. repeat split; lia.
      * exists created, (ErrCreateVServerGroup e :: new).
        rewrite Hrem, Herrs, Hr, He, <- app_assoc.
        split; [reflexivity|]. split; [reflexivity|].
        split; [exact Hsub|]. split; [discriminate|].
        unfold count in *. cbn. repeat split; lia.
      * exists created, (ErrBatchAddVServerGroupBackendServers e :: new).
        rewrite Hrem, Herrs, Hr, He, <- app_assoc.
        split; [reflexivity|]. split; [reflexivity|].
        split; [apply sublist_cons; exact Hsub|]. split; [discriminate|].
        unfold count in *. cbn. repeat split; lia.
      * exists (l' :: created), new.
        rewrite Hrem, Herrs, Hr, He, <- app_assoc.
        split; [reflexivity|]. split; [reflexivity|].
        split; [apply sublist_skip; exact Hsub|].
        split; [intros Hn; rewrite (Hfull Hn); reflexivity|].
        unfold count in *. cbn. repeat split; lia.
Qed.

(** X23: applyVGroups handles every desired server group, whatever
    failed before: for each desired group the trace holds the creation
    of that group, or an update or a backend addition for a group with
    the identity the pass leaves it with. It creates a group only on the
    load balancer at hand and only for a desired group that matches no
    observed one. Every failing call costs one error and nothing else:
    the creations called are as many as the groups appended to the
    observed collection plus the creation and the backend errors, the
    backend additions as many as the appended groups plus the backend
    errors, and the update errors at most as many as the updates called.
    The appended groups are groups whose backends were added, in call
    order, all of them when no error is collected; and there is at most
    one error for each desired group. *)
Theorem applyVGroups_accounts :
  forall lbId localGroups remote w,
    let run := applyVGroups lbId localGroups remote w in
    let locals' := fst (fst (result run)) in
    let remote' := snd (fst (result run)) in
    let errors := snd (result run) in
    Forall2 (handled (calls run) lbId) localGroups locals'
    /\ (forall g id, In (CreateVServerGroup g id) (calls run) ->
          id = lbId /\ In g localGroups /\ matchRemote g remote = None)
    /\ (exists created,
          remote' = remote ++ created
          /\ sublist created (addedGroups (calls run))
          /\ (errors = [] -> created = addedGroups (calls run))
          /\ count isCreateGroupCall (calls run)
             = (List.length created + count isCreateFailure errors
                + count isAddFailure errors)%nat
          /\ count isAddBackendsCall (calls run)
             = (List.length created + count isAddFailure errors)%nat
          /\ (count isUpdateFailure errors
              <= count isUpdateCall (calls run))%nat)
    /\ (List.length errors <= List.length localGroups)%nat.
Proof.
  intros lbId localGroups remote w. cbv zeta. unfold applyVGroups.
  rewrite calls_bind, result_bind.
  pose proof (clb_vgroupLoop_accounts lbId localGroups (mkVG remote ∅ []) w) as H.
  pose proof (clb_vgroupLoop_handles lbId localGroups (mkVG remote ∅ []) w [])
    as H'.
  cbv zeta in H, H'.
  destruct (result (vgroupLoop lbId localGroups (mkVG remote ∅ []) w))
    as [locals' st] eqn:Hres.
  cbn [fst snd remoteGroups errs updatedVGroups app] in H, H'.
  destruct H as (_ & Hcreate & _ & (new & Herrs & Hnew)).
  destruct H' as (Hall & created & new' & Hrem & Herrs' & Hrest).
  { intros k Hk. unfold isUpdated in Hk. rewrite lookup_empty in Hk.
    discriminate Hk. }
  change (calls (ret (locals', remoteGroups st, errs st) _))
    with (@nil VGroupCall).
  change (result (ret (locals', remoteGroups st, errs st) _))
    with (locals', remoteGroups st, errs st).
  rewrite app_nil_r. cbn [fst snd].
  split; [exact Hall|]. split; [exact Hcreate|]. split.
  - exists created. rewrite Herrs'. split; [exact Hrem|exact Hrest].
  - rewrite Herrs. exact Hnew.
Qed.

(** *** applyVGroups: a second pass *)

(** A desired group is covered by the observed ones when it has an
    identity and an observed group has the same. *)
Definition covered (rs : list VServerGroup) (g : VServerGroup) : Prop :=
  VGroupId g <> "" /\ exists rv, In rv rs /\ VGroupId rv = VGroupId g.

Lemma covered_app rs extra g : covered rs g -> covered (rs ++ extra) g.
Proof.
  intros [Hid (rv & Hin & Heq)]. split; [exact Hid|].
  exists rv. split; [apply in_or_app; left; exact Hin|exact Heq].
Qed.

Lemma matchRemote_covered rs g :
  covered rs g -> exists rv, matchRemote g rs = Some rv.
Proof.
  intros [Hid (rv & Hin & Heq)].
  induction rs as [|r rs IH]; [destruct Hin|].
  cbn [matchRemote].
  destruct (String.eqb_spec (VGroupId g) ""); [contradiction|]. cbn [negb andb].
  destruct (String.eqb_spec (VGroupId g) (VGroupId r)); [eauto|].
  destruct Hin as [->|Hin]; [congruence|]. exact (IH Hin).
Qed.

Lemma matchRemote_In l rs rv :
  matchRemote l rs = Some rv ->
  In rv rs
  /\ ((VGroupId l <> "" /\ VGroupId l = VGroupId rv) \/ VGroupId l = "").
Proof.
  induction rs as [|r rs IH]; cbn [matchRemote]; [discriminate|].
  destruct (String.eqb_spec (VGroupId l) "") as [He|Hne]; cbn [negb andb].
  - destruct (String.eqb (VGroupName l) (VGroupName r)).
    + intros [= <-]. split; [left; reflexivity|right; exact He].
    + intros H. destruct (IH H) as [Hin Hk]. split; [right; exact Hin|exact Hk].
  - destruct (String.eqb_spec (VGroupId l) (VGroupId r)) as [Hid|Hid].
    + intros [= <-]. split; [left; reflexivity|left; split; assumption].
    + intros H. destruct (IH H) as [Hin Hk]. split; [right; exact Hin|exact Hk].
Qed.

(** The loop variables are sound: every observed group has an identity,
    and every identity marked as updated is that of an observed group. *)
Definition sound (st : vgState) : Prop :=
  Forall (fun g => VGroupId g <> "") (remoteGroups st)
  /\ forall k, isUpdated (updatedVGroups st) k = true ->
                k <> "" /\ exists rv, In rv (remoteGroups st) /\ VGroupId rv = k.

Hypothesis create_assigns_identity :
  forall g lbId w g' w',
    vgCreateVServerGroup g lbId w = ((None, g'), w') -> VGroupId g' <> "".

Lemma isUpdated_insert m k k' :
  isUpdated (<[k := true]> m) k' = true -> k' = k \/ isUpdated m k' = true.
Proof.
  unfold isUpdated. destruct (decide (k = k')) as [->|Hne].
  - intros _. left. reflexivity.
  - rewrite lookup_insert_ne by exact Hne. intros H. right. exact H.
Qed.

(** One iteration that adds no error keeps the variables sound and
    leaves the desired group covered. *)
Lemma vgroupStep_first lbId l st w :
  sound st ->
  errs (snd (result (vgroupStep lbId l st w))) = errs st ->
  sound (snd (result (vgroupStep lbId l st w)))
  /\ covered (remoteGroups (snd (result (vgroupStep lbId l st w))))
             (fst (result (vgroupStep lbId l st w)))
  /\ exists extra,
      remoteGroups (snd (result (vgroupStep lbId l st w)))
      = remoteGroups st ++ extra.
Proof using create_assigns_identity.
  intros [Hids Hmarks]. unfold vgroupStep.
  assert (Hno : forall (es : list vgroupError) e, es ++ [e] = es -> False).
  { intros es e H. apply (f_equal (@List.length _)) in H.
    rewrite List.length_app in H. cbn in H. lia. }
  destruct (matchRemote l (remoteGroups st)) as [rv|] eqn:Hm.
  - destruct (matchRemote_In _ _ _ Hm) as [Hin Hk].
    assert (Hrv : VGroupId rv <> "").
    { rewrite List.Forall_forall in Hids. exact (Hids rv Hin). }
    assert (Hcov : forall l1, VGroupId l1 = VGroupId rv ->
                              covered (remoteGroups st) l1).
    { intros l1 H1. split; [congruence|]. exists rv. split; [exact Hin|].
      symmetry. exact H1. }
    pose (branch := fun l1 : VServerGroup =>
      (if isUpdated (updatedVGroups st) (VGroupId l1) then ret (l1, st)
       else
         let! err := call (UpdateVServerGroup l1 rv)
                          (vgUpdateVServerGroup l1 rv) in
         match err with
         | Some e =>
             ret (l1, mkVG (remoteGroups st) (updatedVGroups st)
                           (errs st ++ [ErrEnsureVGroupUpdated e]))
         | None =>
             ret (l1, mkVG (remoteGroups st)
                           (<[VGroupId l1 := true]> (updatedVGroups st))
                           (errs st))
         end) w).
    assert (Hstep : forall l1, VGroupId l1 = VGroupId rv ->
      errs (snd (result (branch l1))) = errs st ->
      sound (snd (result (branch l1)))
      /\ covered (remoteGroups (snd (result (branch l1))))
                 (fst (result (branch l1)))
      /\ exists extra,
          remoteGroups (snd (result (branch l1))) = remoteGroups st ++ extra).
    { intros l1 H1. unfold branch.
      destruct (isUpdated (updatedVGroups st) (VGroupId l1)).
      - intros _. cbn. split; [split; assumption|].
        split; [exact (Hcov l1 H1)|]. exists []. rewrite app_nil_r. reflexivity.
      - unfold bind, call, ret, result.
        destruct (vgUpdateVServerGroup l1 rv w) as [[e|] w1]; cbn [fst snd errs].
        + intros H. destruct (Hno _ _ H).
        + intros _. cbn [remoteGroups]. split; [|split].
          * split; [exact Hids|]. cbn [updatedVGroups]. intros k Hk'.
            apply isUpdated_insert in Hk'. destruct Hk' as [->|Hk'].
            -- split; [congruence|]. exists rv. split; [exact Hin|congruence].
            -- exact (Hmarks k Hk').
          * exact (Hcov l1 H1).
          * exists []. rewrite app_nil_r. reflexivity. }
    destruct (String.eqb_spec (VGroupId l) "") as [He|Hne]; cbn [negb];
      cbv zeta beta iota.
    + apply (Hstep (setVGroupId l (VGroupId rv))). reflexivity.
    + apply (Hstep l). destruct Hk as [[_ Hk]|Hk]; [exact Hk|contradiction].
  - cbv zeta beta iota.
    destruct (isUpdated (updatedVGroups st) (VGroupId l)) eqn:Hu.
    + intros _. cbn. split; [split; assumption|].
      split; [|exists []; rewrite app_nil_r; reflexivity].
      destruct (Hmarks _ Hu) as [Hid Hrv]. split; assumption.
    + unfold bind, call, ret, result.
      destruct (vgCreateVServerGroup l lbId w) as [[[e|] l2] w1] eqn:Hc;
        cbn [fst snd errs].
      * intros H. destruct (Hno _ _ H).
      * destruct (vgBatchAddVServerGroupBackendServers l2 (Backends l2) w1)
          as [[e|] w2]; cbn [fst snd errs].
        -- intros H. destruct (Hno _ _ H).
        -- intros _. cbn [remoteGroups].
           pose proof (create_assigns_identity _ _ _ _ _ Hc) as Hid2.
           split; [|split].
           ++ split.
              ** apply List.Forall_app. split; [exact Hids|].
                 constructor; [exact Hid2|constructor].
              ** cbn [updatedVGroups]. intros k Hk'.
                 apply isUpdated_insert in Hk'. destruct Hk' as [->|Hk'].
                 --- split; [exact Hid2|]. exists l2.
                     split; [apply in_or_app; right; left|]; reflexivity.
                 --- destruct (Hmarks k Hk') as [Hk1 (rv & Hin & Heq)].
                     split; [exact Hk1|]. exists rv.
                     split; [apply in_or_app; left; exact Hin|exact Heq].
           ++ split; [exact Hid2|]. exists l2.
              split; [apply in_or_app; right; left|]; reflexivity.
           ++ exists [l2]. reflexivity.
Qed.

Lemma vgroupStep_errs lbId l st w :
  exists new, errs (snd (result (vgroupStep lbId l st w))) = errs st ++ new.
Proof.
  pose proof (clb_vgroupStep_cases lbId l st w) as H. cbv zeta in H.
  destruct H as [[_ ->]|[(old & _ & _ & _ & [->|[e ->]])
                 |[(_ & _ & _ & [e ->])|(_ & _ & [[_ [e ->]]|[_ ->]])]]];
    first [exists []; rewrite app_nil_r; reflexivity|eexists; reflexivity].
Qed.

Lemma vgroupLoop_first lbId locals :
  forall st w,
    sound st ->
    errs (snd (result (vgroupLoop lbId locals st w))) = errs st ->
    sound (snd (result (vgroupLoop lbId locals st w)))
    /\ Forall (covered (remoteGroups (snd (result (vgroupLoop lbId locals st w)))))
              (fst (result (vgroupLoop lbId locals st w))).
Proof using create_assigns_identity.
  induction locals as [|l locals IH]; intros st w Hs He.
  - cbn. split; [exact Hs|constructor].
  - cbn [vgroupLoop] in *. rewrite result_bind in *.
    pose proof (vgroupStep_first lbId l st w Hs) as Hstep.
    destruct (vgroupStep_errs lbId l st w) as [n1 Hn1].
    destruct (result (vgroupStep lbId l st w)) as [l' st1] eqn:Hres.
    cbn [fst snd] in *. rewrite result_bind in *.
    specialize (IH st1 (final (vgroupStep lbId l st w))).
    pose proof (clb_vgroupLoop_accounts lbId locals st1
                  (final (vgroupStep lbId l st w))) as Hacc.
    cbv zeta in Hacc.
    destruct (result (vgroupLoop lbId locals st1 _)) as [rest' st2] eqn:Hres2.
    cbn [fst snd] in *.
    destruct Hacc as (_ & _ & (created & Hrem & _) & (n2 & Hn2 & _)).
    change (result (ret (l' :: rest', st2) _)) with (l' :: rest', st2) in *.
    cbn [fst snd] in *.
    assert (Hnil : n1 = [] /\ n2 = []).
    { rewrite Hn2, Hn1, <- app_assoc in He.
      apply (f_equal (@List.length _)) in He.
      rewrite !List.length_app in He.
      destruct n1, n2; cbn in He; try lia. split; reflexivity. }
    destruct Hnil as [-> ->]. rewrite app_nil_r in Hn1, Hn2.
    destruct (Hstep Hn1) as (Hs1 & Hcov & _).
    destruct (IH Hs1 Hn2) as [Hs2 Hall].
    split; [exact Hs2|]. constructor; [|exact Hall].
    rewrite Hrem. apply covered_app. exact Hcov.
Qed.

Lemma vgroupLoop_second lbId locals :
  forall st w,
    Forall (covered (remoteGroups st)) locals ->
    forallb isUpdateCall (calls (vgroupLoop lbId locals st w)) = true.
Proof.
  induction locals as [|l locals IH]; intros st w Hall; [reflexivity|].
  inversion Hall as [|? ? Hl Hrest]; subst.
  cbn [vgroupLoop]. rewrite calls_bind.
  pose proof (clb_vgroupStep_cases lbId l st w) as Hstep. cbv zeta in Hstep.
  destruct (matchRemote_covered _ _ Hl) as [rv Hrv].
  destruct (result (vgroupStep lbId l st w)) as [l' st1] eqn:Hres.
  cbn [fst snd] in Hstep.
  assert (Hsame : remoteGroups st1 = remoteGroups st
                  /\ forallb isUpdateCall (calls (vgroupStep lbId l st w))
                     = true).
  { destruct Hstep as [[Hc ->]|[(old & _ & Hc & Hr & _)|[(Hm & _)|(Hm & _)]]];
      try congruence; rewrite Hc; split; auto. }
  destruct Hsame as [Hr Hc].
  rewrite forallb_app, Hc. cbn [andb].
  rewrite calls_bind, forallb_app.
  rewrite IH by (rewrite Hr; exact Hrest). cbn [andb].
  destruct (result (vgroupLoop lbId locals st1 _)) as [rest' st2].
  reflexivity.
Qed.

(** X24: a second pass of applyVGroups creates nothing. When every
    observed group has an identity and the cloud gives one to each group
    it creates, the desired and observed groups that a pass without error
    leaves behind make the next pass call UpdateVServerGroup only: no
    group is created again and no backends are added again. *)
Theorem applyVGroups_second_pass :
  forall lbId localGroups remote w locals' remote' w1 t,
    Forall (fun g => VGroupId g <> "") remote ->
    applyVGroups lbId localGroups remote w = ((locals', remote', []), w1, t) ->
    forall lbId2 w2,
      forallb isUpdateCall (calls (applyVGroups lbId2 locals' remote' w2))
      = true.
Proof using create_assigns_identity.
  intros lbId localGroups remote w locals' remote' w1 t Hids Hrun lbId2 w2.
  assert (Hfirst : Forall (covered remote') locals').
  { pose proof (vgroupLoop_first lbId localGroups (mkVG remote ∅ []) w) as H.
    unfold applyVGroups, bind, ret in Hrun. unfold result in H.
    destruct (vgroupLoop lbId localGroups (mkVG remote ∅ []) w)
      as [[[ls st] w'] t'].
    cbn [fst snd errs remoteGroups] in *. injection Hrun as <- <- He <- <-.
    destruct H as [_ H]; [|exact He|exact H].
    split; [exact Hids|]. intros k Hk. unfold isUpdated in Hk.
    cbn [updatedVGroups] in Hk. rewrite lookup_empty in Hk. discriminate Hk. }
  unfold applyVGroups. rewrite calls_bind.
  rewrite forallb_app.
  rewrite (vgroupLoop_second lbId2 locals' (mkVG remote' ∅ []) w2 Hfirst).
  destruct (result (vgroupLoop lbId2 locals' (mkVG remote' ∅ []) w2)).
  reflexivity.
Qed.

End VGroups.

(** A manager whose calls succeed; the cloud assigns identities. *)
Definition quiet (m : LoadBalancer) (w : unit)
  : (option string * LoadBalancer) * unit := ((None, m), w).

Definition quietCreate (m : LoadBalancer) (w : unit)
  : (option string * LoadBalancer) * unit :=
  ((None, setLoadBalancerId m "lb-new"), w).

Definition quietUpdate (l r : LoadBalancer) (w : unit)
  : (attrOutcome * LoadBalancer * LoadBalancer) * unit := ((AttrOk, l, r), w).

Definition listedTags (tags : list Tag) (id : string) (w : unit)
  : (list Tag * option string) * unit := ((tags, None), w).

Definition desiredLB : LoadBalancer :=
  mkLB "default/web" (mkAttribute "" "" false false []).
Definition observedLB : LoadBalancer :=
  mkLB "default/web" (mkAttribute "lb-1" "47.0.0.1" false false []).

Definition leaving : Service := mkService true true [] "" "".

Lemma applyLoadBalancerAttribute_guards_witness :
  NeedDeleteLoadBalancer leaving = true
  /\ LbIsUserManaged (Attribute desiredLB) = false
  /\ (isDeleteCall (Delete observedLB) = true ->
      LbPreserveOnDelete (Attribute desiredLB) = false).
Proof.
  apply (proj1 (applyLoadBalancerAttribute_guards "kubernetes.do.not.delete"
                  "ack.aliyun.com" unit quiet quiet quiet quietCreate quiet
                  quietUpdate (listedTags [])
                  leaving desiredLB observedLB tt)
           (Delete observedLB)).
  - left. reflexivity.
  - reflexivity.
Defined.

Definition phaseOk (s : Reconciliation unit)
  : option string * Reconciliation unit := (None, s).

Lemma Apply_on_deletion_witness :
  result (Apply (Reconciliation unit) phaseOk
            (attributePhase "kubernetes.do.not.delete" "ack.aliyun.com" unit
               quiet quiet quiet quietCreate quiet quietUpdate (listedTags [])
               leaving)
            phaseOk phaseOk phaseOk phaseOk phaseOk (observedId unit)
            true false true (desiredLB, observedLB, tt))
  = (true, [])
  /\ calls (Apply (Reconciliation unit) phaseOk
              (attributePhase "kubernetes.do.not.delete" "ack.aliyun.com" unit
                 quiet quiet quiet quietCreate quiet quietUpdate (listedTags [])
                 leaving)
              phaseOk phaseOk phaseOk phaseOk phaseOk (observedId unit)
              true false true (desiredLB, observedLB, tt))
     = [BuildRemoteLoadBalancer; ApplyLoadBalancerAttribute].
Proof.
  destruct (proj1 (Apply_on_deletion "kubernetes.do.not.delete"
                     "ack.aliyun.com" unit quiet quiet quiet quietCreate quiet
                     quietUpdate (listedTags [])
                     phaseOk phaseOk phaseOk phaseOk phaseOk phaseOk
                     leaving false (desiredLB, observedLB, tt)
                     desiredLB observedLB tt eq_refl eq_refl eq_refl)
              eq_refl eq_refl) as (Hr & Hc & _).
  split; [exact Hr|exact Hc].
Defined.

(** The cloud names a created group after its name. *)
Definition namingCreate (g : VServerGroup) (lbId : string) (w : unit)
  : (option string * VServerGroup) * unit :=
  ((None, setVGroupId g (String.append "rsp-" (VGroupName g))), w).

Definition quietVGroupUpdate (l old : VServerGroup) (w : unit)
  : option string * unit := (None, w).

Definition quietBatchAdd (g : VServerGroup) (bs : list BackendAttribute)
    (w : unit) : option string * unit := (None, w).

Definition wantedGroups : list VServerGroup :=
  [mkVGroup "" "k8s/80/web/default/c1" []; mkVGroup "" "k8s/443/web/default/c1" []].

Definition observedGroups : list VServerGroup :=
  [mkVGroup "rsp-old" "k8s/443/web/default/c1" []].

Lemma applyVGroups_accounts_witness :
  "lb-1" = "lb-1"
  /\ In (mkVGroup "" "k8s/80/web/default/c1" []) wantedGroups
  /\ matchRemote (mkVGroup "" "k8s/80/web/default/c1" []) observedGroups = None.
Proof.
  apply (proj1 (proj2 (applyVGroups_accounts unit quietVGroupUpdate namingCreate
                         quietBatchAdd "lb-1" wantedGroups observedGroups tt))
           (mkVGroup "" "k8s/80/web/default/c1" []) "lb-1").
  left. reflexivity.
Defined.

Lemma applyVGroups_second_pass_witness :
  forallb isUpdateCall
    (calls (applyVGroups unit quietVGroupUpdate namingCreate quietBatchAdd "lb-1"
              [mkVGroup "rsp-k8s/80/web/default/c1" "k8s/80/web/default/c1" [];
               mkVGroup "rsp-old" "k8s/443/web/default/c1" []]
              [mkVGroup "rsp-old" "k8s/443/web/default/c1" [];
               mkVGroup "rsp-k8s/80/web/default/c1" "k8s/80/web/default/c1" []]
              tt))
  = true.
Proof.
  apply (applyVGroups_second_pass unit quietVGroupUpdate namingCreate
           quietBatchAdd
           ltac:(intros g lbId w g' w' [= <- _]; discriminate)
           "lb-1" wantedGroups observedGroups tt
           [mkVGroup "rsp-k8s/80/web/default/c1" "k8s/80/web/default/c1" [];
            mkVGroup "rsp-old" "k8s/443/web/default/c1" []]
           [mkVGroup "rsp-old" "k8s/443/web/default/c1" [];
            mkVGroup "rsp-k8s/80/web/default/c1" "k8s/80/web/default/c1" []]
           tt
           [CreateVServerGroup (mkVGroup "" "k8s/80/web/default/c1" []) "lb-1";
            BatchAddVServerGroupBackendServers
              (mkVGroup "rsp-k8s/80/web/default/c1" "k8s/80/web/default/c1" [])
              [];
            UpdateVServerGroup
              (mkVGroup "rsp-old" "k8s/443/web/default/c1" [])
              (mkVGroup "rsp-old" "k8s/443/web/default/c1" [])]).
  - repeat constructor; discriminate.
  - reflexivity.
Defined.

End clbv1.

(** ** The two appliers together *)

(** *** Examples *)

(** A desired server group without identity and an empty observed
    collection; the cloud assigns the identity ["sgp-new"]. *)
Definition desiredGroup : nlbv2.ServerGroup :=
  nlbv2.mkServerGroup "" "k8s/80/web/default/c1" "Instance" "" false
    (Some (nlbv2.mkNamedKey "k8s" "c1" "default" "web")) [].

Definition exampleStore : nlbv2.store :=
  fun p => match p with
           | O => desiredGroup
           | _ => nlbv2.zeroServerGroup
           end.

Definition exampleAssign : nlbv2.ref -> string := fun _ => "sgp-new".

Definition firstPass : nlbv2.vgState :=
  match nlbv2.planVGroups exampleStore [0%nat] [] "vpc-1" with
  | inl st => st
  | inr _ => nlbv2.mkVG exampleStore [] [] ∅
  end.

Definition afterExecutor : nlbv2.store :=
  nlbv2.backfill exampleAssign (nlbv2.heap firstPass)
                 (nlbv2.updateActions firstPass).

Definition secondPass : nlbv2.vgState :=
  match nlbv2.planVGroups afterExecutor [0%nat]
                          (nlbv2.remoteGroups firstPass) "vpc-1" with
  | inl st => st
  | inr _ => nlbv2.mkVG exampleStore [] [] ∅
  end.

Example firstPass_creates :
  map nlbv2.sgAction (nlbv2.updateActions firstPass)
  = [nlbv2.serverGroupActionCreateAndAddBackendServers]
  /\ nlbv2.remoteGroups firstPass = [0%nat].
Proof. split; reflexivity. Qed.

(** C1 as stated fails: the second pass over the state the first pass
    left behind plans an update action for the group the first pass
    created, so its action set is not empty. *)
Lemma second_pass_plans_update :
  option_map (map nlbv2.sgAction)
    (nlbv2.secondPassActions exampleAssign exampleStore [0%nat] [] "vpc-1")
  = Some [nlbv2.serverGroupActionUpdate]
  /\ nlbv2.secondPassActions exampleAssign exampleStore [0%nat] [] "vpc-1"
     <> Some [].
Proof. split; [reflexivity|discriminate]. Qed.

Lemma second_pass_plans_no_create_witness :
  nlbv2.planVGroups exampleStore [0%nat] [] "vpc-1" = inl firstPass
  /\ nlbv2.planVGroups afterExecutor [0%nat] (nlbv2.remoteGroups firstPass)
                       "vpc-1" = inl secondPass
  /\ Forall (fun b => nlbv2.sgLocal b = 0%nat ->
                      nlbv2.sgAction b = nlbv2.serverGroupActionUpdate)
            (nlbv2.updateActions secondPass).
Proof.
  split; [reflexivity|]. split; [reflexivity|].
  apply List.Forall_forall. intros b Hb Hl.
  apply (proj1 (nlbv2.second_pass_plans_no_create (fun _ => true))
           exampleAssign exampleStore [0%nat] [] "vpc-1" firstPass secondPass
           (nlbv2.mkSGAction nlbv2.serverGroupActionCreateAndAddBackendServers
                             0%nat (nlbv2.Shared 0%nat))).
  - reflexivity.
  - intros q [<-|[]]. discriminate.
  - left. reflexivity.
  - reflexivity.
  - intros q [<-|[]] _. reflexivity.
  - reflexivity.
  - exact Hb.
  - exact Hl.
Defined.

(** Two desired listeners, of which the observed load balancer has the
    first. *)
Definition listener80 : nlbv2.ListenerAttribute :=
  nlbv2.mkListener "" "TCP" 80 0 0 "sgp-1" "k8s/80/web/default/c1" None.
Definition listener443 : nlbv2.ListenerAttribute :=
  nlbv2.mkListener "" "TCP" 443 0 0 "sgp-2" "k8s/443/web/default/c1" None.
Definition observed80 : nlbv2.ListenerAttribute :=
  nlbv2.mkListener "lsn-1" "TCP" 80 0 0 "sgp-1" "k8s/80/web/default/c1" None.

(** C2 as stated fails: the nlbv2 plan lists the update of the first
    desired listener before the creation of the second one. *)
Lemma nlb_plan_update_before_create :
  match nlbv2.planListeners (fun _ => true) false false exampleStore []
          "nlb-1" [listener80; listener443] [observed80] with
  | inl (Some (_, actions)) =>
      map nlbv2.lisAction actions
      = [nlbv2.listenerActionUpdate; nlbv2.listenerActionCreate]
  | _ => False
  end.
Proof. reflexivity. Qed.

(** *** The order of listener actions *)

Section ListenerOrder.

Variable IsManagedByService : nlbv2.NamedKey -> bool.
Variable HTTPS : string.
Variable W : Type.
Variable buildActionsForListeners :
  W -> list clbv1.CreateAction * list clbv1.UpdateAction
       * list clbv1.DeleteAction * option string.
Variable lisDelete : clbv1.DeleteAction -> W -> option string * W.
Variable lisCreate : clbv1.CreateAction -> W -> option string * W.
Variable lisUpdate : clbv1.UpdateAction -> W -> option string * W.

(** C2 (amended): clbv1.applyListeners executes all deletions before all
    creations before all updates and stops at the first failure: its run
    is the sorted plan (the sorted deletions, the sorted creations, the
    updates) performed step by step up to the first step that fails,
    whose error it returns. Among the executed deletions every plain
    listener comes before every HTTPS listener, among the executed
    creations every HTTPS listener comes before every plain one; the
    executed actions are planned ones, and all of them when nothing
    fails. The plan of nlbv2.applyListeners lists all deletions first and
    then, for each desired listener in turn, its updates or its creation,
    without any ordering by protocol. *)
Theorem listener_action_order :
  (forall lbIsUserManaged IsForceOverride w
          createActions updateActions deleteActions,
      lbIsUserManaged && negb IsForceOverride = false ->
      buildActionsForListeners w
      = (createActions, updateActions, deleteActions, None) ->
      let run := clbv1.applyListeners HTTPS W buildActionsForListeners
                   lisDelete lisCreate lisUpdate
                   lbIsUserManaged IsForceOverride w in
      exists ds cs us,
        calls run
        = map clbv1.ListenerDelete ds ++ map clbv1.ListenerCreate cs
            ++ map clbv1.ListenerUpdate us
        /\ clbv1.firstThen
             (fun a => negb (clbv1.isHTTPS HTTPS (clbv1.deleteListener a))) ds
        /\ clbv1.firstThen
             (fun a => clbv1.isHTTPS HTTPS (clbv1.createListener a)) cs
        /\ (exists rd, Permutation (ds ++ rd) deleteActions)
        /\ (exists rc, Permutation (cs ++ rc) createActions)
        /\ (exists ru, updateActions = us ++ ru)
        /\ (result run = None ->
            Permutation ds deleteActions /\ Permutation cs createActions
            /\ us = updateActions)
        /\ run
           = clbv1.executed W
               (clbv1.untilFirstFailure W lisDelete lisCreate lisUpdate
                  (clbv1.sortedPlan HTTPS createActions updateActions
                                    deleteActions) w))
  /\ (forall lbIsUserManaged IsForceOverride h localGroups lbId localLs remote
             matched actions,
        nlbv2.planListeners IsManagedByService lbIsUserManaged IsForceOverride
                            h localGroups lbId localLs remote
        = inl (Some (matched, actions)) ->
        exists deletes,
          actions
          = deletes ++ flat_map (nlbv2.updateOrCreate lbId remote) matched
          /\ forallb nlbv2.isDelete deletes = true
          /\ forallb (fun a => negb (nlbv2.isDelete a))
                     (flat_map (nlbv2.updateOrCreate lbId remote) matched)
             = true).
Proof.
  split.
  - intros lbIsUserManaged IsForceOverride w createActions updateActions
           deleteActions Hrun Hbuild run.
    destruct (clbv1.applyListeners_order HTTPS W buildActionsForListeners
                lisDelete lisCreate lisUpdate lbIsUserManaged IsForceOverride
                w createActions updateActions deleteActions Hrun Hbuild)
      as (ds & cs & us & Hcalls & Hd & Hc & Hpd & Hpc & Hpu & Hall).
    exists ds, cs, us.
    split; [exact Hcalls|]. split; [exact Hd|]. split; [exact Hc|].
    split; [exact Hpd|]. split; [exact Hpc|]. split; [exact Hpu|].
    split; [exact Hall|].
    apply (clbv1.applyListeners_stops HTTPS W buildActionsForListeners
             lisDelete lisCreate lisUpdate lbIsUserManaged IsForceOverride w
             createActions updateActions deleteActions Hrun Hbuild).
  - intros lbIsUserManaged IsForceOverride h localGroups lbId localLs remote
           matched actions Hplan.
    apply (nlbv2.planListeners_order IsManagedByService lbIsUserManaged
             IsForceOverride h localGroups lbId localLs remote matched actions
             Hplan).
Qed.

End ListenerOrder.

(** A plan with plain and HTTPS listeners on both sides. *)
Definition examplePlan
  : list clbv1.CreateAction * list clbv1.UpdateAction
    * list clbv1.DeleteAction * option string :=
  ([clbv1.mkCreate "lb-1" (clbv1.mkListener "http" 80);
    clbv1.mkCreate "lb-1" (clbv1.mkListener "https" 443)],
   [clbv1.mkUpdate "lb-1" (clbv1.mkListener "tcp" 22) (clbv1.mkListener "tcp" 22)],
   [clbv1.mkDelete "lb-1" (clbv1.mkListener "https" 8443);
    clbv1.mkDelete "lb-1" (clbv1.mkListener "http" 8080)],
   None).

Example examplePlan_executed :
  calls (clbv1.applyListeners "https" unit (fun _ => examplePlan)
           (fun _ w => (None, w)) (fun _ w => (None, w)) (fun _ w => (None, w))
           false false tt)
  = [clbv1.ListenerDelete (clbv1.mkDelete "lb-1" (clbv1.mkListener "http" 8080));
     clbv1.ListenerDelete (clbv1.mkDelete "lb-1" (clbv1.mkListener "https" 8443));
     clbv1.ListenerCreate (clbv1.mkCreate "lb-1" (clbv1.mkListener "https" 443));
     clbv1.ListenerCreate (clbv1.mkCreate "lb-1" (clbv1.mkListener "http" 80));
     clbv1.ListenerUpdate
       (clbv1.mkUpdate "lb-1" (clbv1.mkListener "tcp" 22)
                       (clbv1.mkListener "tcp" 22))].
Proof. reflexivity. Qed.

(** The creation of a listener fails for lack of quota. *)
Definition noQuota : clbv1.CreateAction -> unit -> option string * unit :=
  fun _ w => (Some "QuotaExceeded", w).

Lemma listener_action_order_witness :
  (exists ds cs us,
      calls (clbv1.applyListeners "https" unit (fun _ => examplePlan)
               (fun _ w => (None, w)) (fun _ w => (None, w))
               (fun _ w => (None, w)) false false tt)
      = map clbv1.ListenerDelete ds ++ map clbv1.ListenerCreate cs
          ++ map clbv1.ListenerUpdate us
      /\ clbv1.firstThen
           (fun a => negb (clbv1.isHTTPS "https" (clbv1.deleteListener a))) ds
      /\ clbv1.firstThen
           (fun a => clbv1.isHTTPS "https" (clbv1.createListener a)) cs)
  /\ clbv1.applyListeners "https" unit (fun _ => examplePlan)
       (fun _ w => (None, w)) noQuota (fun _ w => (None, w)) false false tt
     = ((Some (clbv1.ErrCreateListener 443 "QuotaExceeded"), tt),
        [clbv1.ListenerDelete
           (clbv1.mkDelete "lb-1" (clbv1.mkListener "http" 8080));
         clbv1.ListenerDelete
           (clbv1.mkDelete "lb-1" (clbv1.mkListener "https" 8443));
         clbv1.ListenerCreate
           (clbv1.mkCreate "lb-1" (clbv1.mkListener "https" 443))]).
Proof.
  split.
  - destruct (proj1 (listener_action_order (fun _ => true) "https" unit
                       (fun _ => examplePlan)
                       (fun _ w => (None, w)) (fun _ w => (None, w))
                       (fun _ w => (None, w)))
                false false tt
                (fst (fst (fst examplePlan))) (snd (fst (fst examplePlan)))
                (snd (fst examplePlan)) eq_refl eq_refl)
      as (ds & cs & us & Hcalls & Hd & Hc & _).
    exists ds, cs, us. split; [exact Hcalls|]. split; [exact Hd|exact Hc].
  - destruct (proj1 (listener_action_order (fun _ => true) "https" unit
                       (fun _ => examplePlan)
                       (fun _ w => (None, w)) noQuota
                       (fun _ w => (None, w)))
                false false tt
                (fst (fst (fst examplePlan))) (snd (fst (fst examplePlan)))
                (snd (fst examplePlan)) eq_refl eq_refl)
      as (ds & cs & us & _ & _ & _ & _ & _ & _ & _ & Hstop).
    exact Hstop.
Defined.

(** *** Ownership safety of the cleanup pass *)

Section CleanupSafety.

Variable IsManagedByService : nlbv2.NamedKey -> bool.
Variable W : Type.
Variable sgCleanupServerGroupTags : nlbv2.ref -> W -> option string * W.
Variable sgBatchRemoveServers :
  nlbv2.ref -> list nlbv2.ServerGroupServer -> W -> option string * W.
Variable sgDeleteServerGroup : string -> W -> option string * W.
Variable isVGroupManagedByMyService : clbv1.VServerGroup -> bool.
Variable vgBatchRemoveVServerGroupBackendServers :
  clbv1.VServerGroup -> list clbv1.BackendAttribute -> W -> option string * W.
Variable vgDeleteVServerGroup : string -> W -> option string * W.

Let nlbCleanup :=
  nlbv2.cleanup IsManagedByService W sgCleanupServerGroupTags
                sgBatchRemoveServers sgDeleteServerGroup.
Let nlbCleanupGroup :=
  nlbv2.cleanupGroup IsManagedByService W sgCleanupServerGroupTags
                     sgBatchRemoveServers sgDeleteServerGroup.
Let clbCleanup :=
  clbv1.cleanup W isVGroupManagedByMyService
                vgBatchRemoveVServerGroupBackendServers vgDeleteVServerGroup.
Let clbCleanupGroup :=
  clbv1.cleanupGroup W isVGroupManagedByMyService
                     vgBatchRemoveVServerGroupBackendServers
                     vgDeleteVServerGroup.

(** C3: in the cleanup pass of both appliers the iteration for an observed
    server group that is user-managed or has no named key owned by this
    cluster's service issues no delete; the servers it removes from such a
    group are exactly the group's non-user-managed ones; and every delete
    the pass issues is for an observed group owned by this cluster's
    service. *)
Theorem cleanup_never_deletes_unowned :
  (forall PreserveOnDelete h localGroups remote w,
      (forall r w', nlbv2.ownedByService IsManagedByService (h r) = false ->
          forallb (fun c => negb (nlbv2.isDeleteServerGroup c))
                  (calls (nlbCleanupGroup PreserveOnDelete h localGroups r w'))
          = true)
      /\ (forall id,
            In (nlbv2.DeleteServerGroup id)
               (calls (nlbCleanup PreserveOnDelete h localGroups remote w)) ->
            exists r, In r remote /\ id = nlbv2.ServerGroupId (h r)
                      /\ nlbv2.ownedByService IsManagedByService (h r) = true)
      /\ (forall g del,
            In (nlbv2.BatchRemoveServers g del)
               (calls (nlbCleanup PreserveOnDelete h localGroups remote w)) ->
            In g remote
            /\ nlbv2.ownedByService IsManagedByService (h g) = false
            /\ del = nlbv2.detachable (h g)
            /\ forallb (fun s => negb (nlbv2.ServerIsUserManaged s)) del
               = true))
  /\ (forall lbId localGroups remote w,
        (forall vg w', isVGroupManagedByMyService vg = false ->
            forallb (fun c => negb (clbv1.isDeleteVServerGroup c))
                    (calls (clbCleanupGroup lbId localGroups vg w')) = true)
        /\ (forall id,
              In (clbv1.DeleteVServerGroup id)
                 (calls (clbCleanup lbId localGroups remote w)) ->
              exists vg, In vg remote /\ id = clbv1.VGroupId vg
                         /\ isVGroupManagedByMyService vg = true)
        /\ (forall vg del,
              In (clbv1.BatchRemoveVServerGroupBackendServers vg del)
                 (calls (clbCleanup lbId localGroups remote w)) ->
              In vg remote /\ isVGroupManagedByMyService vg = false
              /\ del = clbv1.detachable vg
              /\ forallb (fun b => negb (clbv1.IsUserManaged b)) del = true)).
Proof using Type.
  split.
  - intros PreserveOnDelete h localGroups remote w.
    apply nlbv2.cleanup_ownership_safe.
  - intros lbId localGroups remote w.
    apply clbv1.clb_cleanup_ownership_safe.
Qed.

End CleanupSafety.

(** A user-managed observed group with one server of the user and one of
    the controller, absent from the desired set. *)
Definition userGroup : nlbv2.ServerGroup :=
  nlbv2.mkServerGroup "sgp-user" "shared-backends" "Instance" "vpc-1" true
    (Some (nlbv2.mkNamedKey "k8s" "c1" "default" "web"))
    [nlbv2.mkServer "i-user" "10.0.0.7" 80 true;
     nlbv2.mkServer "i-node" "10.0.0.8" 80 false].

Definition cleanupStore : nlbv2.store :=
  fun p => match p with
           | O => userGroup
           | _ => nlbv2.zeroServerGroup
           end.

Example cleanup_detaches_only :
  calls (nlbv2.cleanup (fun _ => true) unit
           (fun _ w => (None, w)) (fun _ _ w => (None, w))
           (fun _ w => (None, w)) false cleanupStore [] [0%nat] tt)
  = [nlbv2.BatchRemoveServers 0%nat [nlbv2.mkServer "i-node" "10.0.0.8" 80 false]].
Proof. reflexivity. Qed.

Lemma cleanup_never_deletes_unowned_witness :
  forallb (fun c => negb (nlbv2.isDeleteServerGroup c))
          (calls (nlbv2.cleanupGroup (fun _ => true) unit
                    (fun _ w => (None, w)) (fun _ _ w => (None, w))
                    (fun _ w => (None, w)) false cleanupStore [] 0%nat tt))
  = true.
Proof.
  apply (proj1 (proj1 (cleanup_never_deletes_unowned (fun _ => true) unit
                         (fun _ w => (None, w)) (fun _ _ w => (None, w))
                         (fun _ w => (None, w)) (fun _ => true)
                         (fun _ _ w => (None, w)) (fun _ w => (None, w)))
                  false cleanupStore [] [0%nat] tt) 0%nat tt).
  reflexivity.
Defined.

(** *** The service-hash gate *)

Section ServiceHashGate.

Variable S : Type.
Variable lbBuildRemoteModel : S -> option string * S.
Variable phaseApplyLoadBalancerAttribute : S -> attrOutcome * S.
Variable sgBuildRemoteModel : S -> option string * S.
Variable phaseApplyVGroups : S -> option string * S.
Variable lisBuildRemoteModel : S -> option string * S.
Variable phaseApplyListeners : S -> option string * S.
Variable phaseCleanup : S -> option string * S.
Variable remoteLoadBalancerId : S -> string.

Let nlbApply :=
  nlbv2.Apply S lbBuildRemoteModel phaseApplyLoadBalancerAttribute
              sgBuildRemoteModel phaseApplyVGroups lisBuildRemoteModel
              phaseApplyListeners phaseCleanup remoteLoadBalancerId.
Let clbApply :=
  clbv1.Apply S lbBuildRemoteModel phaseApplyLoadBalancerAttribute
              sgBuildRemoteModel phaseApplyVGroups lisBuildRemoteModel
              phaseApplyListeners phaseCleanup remoteLoadBalancerId.

(** C10 (amended): when the service hash is unchanged and dry-run mode is
    off, Apply calls neither the attribute reconciliation nor anything of
    the listener phase; it runs the load-balancer build, then the
    server-group build, the server-group reconciliation and the cleanup
    pass, each of them only when the step before it succeeded, and in
    clbv1 only when the observed load balancer has an identity. *)
Theorem service_hash_gate :
  forall NeedDeleteLoadBalancer (s : S),
    calls (nlbApply false false NeedDeleteLoadBalancer s)
    = BuildRemoteLoadBalancer ::
      match lbBuildRemoteModel s with
      | (Some _, _) => []
      | (None, s1) =>
          BuildRemoteServerGroups ::
          match sgBuildRemoteModel s1 with
          | (Some _, _) => []
          | (None, s2) =>
              ApplyVGroups ::
              match phaseApplyVGroups s2 with
              | (Some _, _) => []
              | (None, _) => [Cleanup]
              end
          end
      end
    /\ calls (clbApply false false NeedDeleteLoadBalancer s)
       = BuildRemoteLoadBalancer ::
         match lbBuildRemoteModel s with
         | (Some _, _) => []
         | (None, s1) =>
             if String.eqb (remoteLoadBalancerId s1) "" then []
             else
               BuildRemoteServerGroups ::
               match sgBuildRemoteModel s1 with
               | (Some _, _) => []
               | (None, s2) =>
                   ApplyVGroups ::
                   match phaseApplyVGroups s2 with
                   | (Some _, _) => []
                   | (None, _) => [Cleanup]
                   end
               end
         end
    /\ forallb (fun ph => negb (nlbv2.gated ph))
               (calls (nlbApply false false NeedDeleteLoadBalancer s)) = true
    /\ forallb (fun ph => negb (nlbv2.gated ph))
               (calls (clbApply false false NeedDeleteLoadBalancer s)) = true.
Proof using Type.
  intros NeedDeleteLoadBalancer s.
  split; [apply nlbv2.nlb_Apply_gate_closed|].
  split; [apply clbv1.clb_Apply_gate_closed|].
  split; [apply nlbv2.nlb_Apply_gate_closed_skips|].
  unfold clbApply. rewrite clbv1.clb_Apply_gate_closed.
  destruct (lbBuildRemoteModel s) as [[e|] s1]; [reflexivity|].
  destruct (String.eqb (remoteLoadBalancerId s1) ""); [reflexivity|].
  destruct (sgBuildRemoteModel s1) as [[e|] s2]; [reflexivity|].
  destruct (phaseApplyVGroups s2) as [[e|] s3]; reflexivity.
Qed.

End ServiceHashGate.

(** C10 as stated fails: with the gate closed the cleanup pass is not run
    after a failed server-group reconciliation (nlbv2), and clbv1 Apply
    returns without error, having run neither the server-group
    reconciliation nor the cleanup pass, when the observed load balancer
    has no identity and the service asks for its deletion. *)
Lemma gate_closed_phases_can_be_skipped :
  calls (nlbv2.Apply unit (fun s => (None, s)) (fun s => (AttrOk, s))
           (fun s => (None, s)) (fun s => (Some "create server group", s))
           (fun s => (None, s)) (fun s => (None, s)) (fun s => (None, s))
           (fun _ => "nlb-1") false false false tt)
  = [BuildRemoteLoadBalancer; BuildRemoteServerGroups; ApplyVGroups]
  /\ clbv1.Apply unit (fun s => (None, s)) (fun s => (AttrOk, s))
        (fun s => (None, s)) (fun s => (None, s))
        (fun s => (None, s)) (fun s => (None, s)) (fun s => (None, s))
        (fun _ => "") false false true tt
     = ((true, [], tt), [BuildRemoteLoadBalancer]).
Proof. split; reflexivity. Qed.

(** ** The route lock under interleaving

    [routeLock] is one [sync.Mutex] of package route. The goroutines of
    the process are modelled by the calls they still have to issue; a
    scheduler picks the goroutine that takes the next step. [Lock] can be
    taken only while the mutex is free, [Unlock] frees it, and every other
    call, of the route helpers and of the two appliers alike, leaves the
    mutex alone. *)

Inductive Op :=
| RouteOp (c : route.Call)
| NlbOp (c : nlbv2.Call)
| ClbOp (c : clbv1.Call).

(** The calls that change a route table. *)
Definition isMutation (c : route.Call) : bool :=
  match c with
  | route.CreateRoute _ _ _ | route.DeleteRoute _ _ _
  | route.CreateRoutes _ _ | route.DeleteRoutes _ _ => true
  | _ => false
  end.

Definition isLockOp (c : route.Call) : bool :=
  match c with
  | route.Lock | route.Unlock => true
  | _ => false
  end.

Definition isRouteOp (o : Op) : bool :=
  match o with RouteOp _ => true | _ => false end.

(** [holding]: the goroutine has taken [routeLock] and not yet released
    it. *)
Record goroutine := mkGoroutine { holding : bool; todo : list Op }.

Record system := mkSystem { routeLock : bool; goroutines : list goroutine }.

Definition start (progs : list (list Op)) : system :=
  mkSystem false (map (mkGoroutine false) progs).

(** One step of goroutine [i]; [None] when it cannot move: it has
    finished, it waits for the mutex, or it unlocks a free mutex (a fatal
    error of the Go runtime). *)
Definition step (i : nat) (s : system) : option system :=
  match goroutines s !! i with
  | None => None
  | Some g =>
      match todo g with
      | [] => None
      | RouteOp route.Lock :: rest =>
          if routeLock s then None
          else Some (mkSystem true
                       (<[i := mkGoroutine true rest]> (goroutines s)))
      | RouteOp route.Unlock :: rest =>
          if routeLock s
          then Some (mkSystem false
                       (<[i := mkGoroutine false rest]> (goroutines s)))
          else None
      | _ :: rest =>
          Some (mkSystem (routeLock s)
                  (<[i := mkGoroutine (holding g) rest]> (goroutines s)))
      end
  end.

Fixpoint run (sched : list nat) (s : system) : option system :=
  match sched with
  | [] => Some s
  | i :: rest =>
      match step i s with
      | Some s' => run rest s'
      | None => None
      end
  end.

(** The lock discipline of a call sequence, from a goroutine that holds
    the mutex or not: the mutex is taken only when not held, released only
    when held, and a route table is changed only while it is held. The
    result says whether the mutex is held at the end. *)
Fixpoint discipline (held : bool) (t : list Op) : option bool :=
  match t with
  | [] => Some held
  | RouteOp route.Lock :: rest =>
      if held then None else discipline true rest
  | RouteOp route.Unlock :: rest =>
      if held then discipline false rest else None
  | RouteOp c :: rest =>
      if isMutation c && negb held then None else discipline held rest
  | _ :: rest => discipline held rest
  end.

Section RouteLock.

Variable W : Type.
Variable providerCreateRoute :
  string -> string -> string -> W -> (option route.Route * option string) * W.
Variable providerFindRoute :
  string -> string -> string -> W -> (option route.Route * option string) * W.
Variable providerDeleteRoute :
  string -> string -> string -> W -> option string * W.
Variable providerCreateRoutes :
  string -> list route.Route -> W ->
  (list string * list route.RouteUpdateStatus * option string) * W.
Variable providerDeleteRoutes :
  string -> list route.Route -> W ->
  (list route.RouteUpdateStatus * option string) * W.

(** What a goroutine runs: the four entry points of route mutation, from
    any state of the collaborators, the other calls of the route
    reconciler, which change no table, and the calls of the appliers. *)
Inductive program : list Op -> Prop :=
| prog_done : program []
| prog_createRouteForInstance table providerID cidr w rest :
    program rest ->
    program (map RouteOp
               (calls (route.createRouteForInstance W providerCreateRoute
                         providerFindRoute table providerID cidr w))
             ++ rest)
| prog_deleteRouteForInstance table providerID cidr w rest :
    program rest ->
    program (map RouteOp
               (calls (route.deleteRouteForInstance W providerDeleteRoute
                         table providerID cidr w))
             ++ rest)
| prog_LockedCreateRoutes table routes w rest :
    program rest ->
    program (map RouteOp
               (calls (route.LockedCreateRoutes W providerCreateRoutes
                         table routes w))
             ++ rest)
| prog_LockedDeleteRoutes table routes w rest :
    program rest ->
    program (map RouteOp
               (calls (route.LockedDeleteRoutes W providerDeleteRoutes
                         table routes w))
             ++ rest)
| prog_reconciler c rest :
    isMutation c = false -> isLockOp c = false ->
    program rest -> program (RouteOp c :: rest)
| prog_nlb c rest : program rest -> program (NlbOp c :: rest)
| prog_clb c rest : program rest -> program (ClbOp c :: rest).

(** The backoff of createRouteForInstance touches the mutex in no
    attempt. *)
Lemma condition_no_lock table pid cidr v w :
  forallb (fun c => negb (isLockOp c))
          (calls (route.condition W providerCreateRoute providerFindRoute
                    table pid cidr v w)) = true.
Proof.
  unfold route.condition, bind, call, ret, calls.
  destruct (providerCreateRoute table pid cidr w) as [[r [msg|]] w1]; simpl;
    [|reflexivity].
  destruct (strings.Contains msg _); simpl; [|reflexivity].
  destruct (providerFindRoute table pid cidr w1) as [[[r2|] [fe|]] w2];
    reflexivity.
Qed.

Lemma ExponentialBackoff_no_lock table pid cidr n :
  forall v w,
    forallb (fun c => negb (isLockOp c))
            (calls (route.ExponentialBackoff W n
                      (route.condition W providerCreateRoute providerFindRoute
                         table pid cidr) v w)) = true.
Proof.
  induction n as [|n IH]; intros v w; simpl.
  - reflexivity.
  - rewrite calls_bind, forallb_app, condition_no_lock. simpl.
    destruct (result (route.condition W providerCreateRoute providerFindRoute
                        table pid cidr v w)) as [[ok [e|]] v'].
    + reflexivity.
    + destruct ok; [reflexivity|]. apply IH.
Qed.

(** Calls issued while the mutex is held, none of them a lock operation,
    keep the discipline. *)
Lemma discipline_held body rest :
  forallb (fun c => negb (isLockOp c)) body = true ->
  discipline true (map RouteOp body ++ rest) = discipline true rest.
Proof.
  induction body as [|c body IH]; intros Hb; simpl in *.
  - reflexivity.
  - apply andb_prop in Hb as [Hc Hb].
    rewrite andb_false_r.
    destruct c; try discriminate Hc; apply IH, Hb.
Qed.

(** A call sequence [Lock; body; Unlock] is one critical section. *)
Lemma discipline_section body rest :
  forallb (fun c => negb (isLockOp c)) body = true ->
  discipline false
    (map RouteOp (route.Lock :: body ++ [route.Unlock]) ++ rest)
  = discipline false rest.
Proof.
  intros Hb. simpl. rewrite map_app, <- app_assoc.
  rewrite discipline_held by exact Hb. reflexivity.
Qed.

(** Each entry point takes the mutex first, releases it last, and issues
    its provider calls in between. *)
Lemma createRouteForInstance_section table pid cidr w :
  exists body,
    calls (route.createRouteForInstance W providerCreateRoute
             providerFindRoute table pid cidr w)
    = route.Lock :: body ++ [route.Unlock]
    /\ forallb (fun c => negb (isLockOp c)) body = true.
Proof.
  exists (calls (route.ExponentialBackoff W route.createBackoff_Steps
                   (route.condition W providerCreateRoute providerFindRoute
                      table pid cidr)
                   (route.mkVars None None None) w)).
  split; [|apply ExponentialBackoff_no_lock].
  unfold route.createRouteForInstance, bind, emit, calls.
  destruct (route.ExponentialBackoff W route.createBackoff_Steps _ _ w)
    as [[[e v] w1] t].
  destruct e as [e|]; reflexivity.
Qed.

Lemma deleteRouteForInstance_section table pid cidr w :
  calls (route.deleteRouteForInstance W providerDeleteRoute table pid cidr w)
  = [route.Lock; route.DeleteRoute table pid cidr; route.Unlock].
Proof.
  unfold route.deleteRouteForInstance, bind, emit, call, ret, calls.
  destruct (providerDeleteRoute table pid cidr w). reflexivity.
Qed.

Lemma LockedCreateRoutes_section table routes w :
  calls (route.LockedCreateRoutes W providerCreateRoutes table routes w)
  = [route.Lock; route.CreateRoutes table routes; route.Unlock].
Proof.
  unfold route.LockedCreateRoutes, bind, emit, call, ret, calls.
  destruct (providerCreateRoutes table routes w). reflexivity.
Qed.

Lemma LockedDeleteRoutes_section table routes w :
  calls (route.LockedDeleteRoutes W providerDeleteRoutes table routes w)
  = [route.Lock; route.DeleteRoutes table routes; route.Unlock].
Proof.
  unfold route.LockedDeleteRoutes, bind, emit, call, ret, calls.
  destruct (providerDeleteRoutes table routes w). reflexivity.
Qed.

Lemma program_discipline p : program p -> discipline false p = Some false.
Proof.
  induction 1 as [|table pid cidr w rest _ IH|table pid cidr w rest _ IH
                  |table routes w rest _ IH|table routes w rest _ IH
                  |c rest Hm Hl _ IH|c rest _ IH|c rest _ IH].
  - reflexivity.
  - destruct (createRouteForInstance_section table pid cidr w)
      as (body & -> & Hb).
    rewrite discipline_section by exact Hb. exact IH.
  - rewrite deleteRouteForInstance_section.
    rewrite (discipline_section [route.DeleteRoute table pid cidr])
      by reflexivity.
    exact IH.
  - rewrite LockedCreateRoutes_section.
    rewrite (discipline_section [route.CreateRoutes table routes])
      by reflexivity.
    exact IH.
  - rewrite LockedDeleteRoutes_section.
    rewrite (discipline_section [route.DeleteRoutes table routes])
      by reflexivity.
    exact IH.
  - simpl. rewrite Hm. simpl.
    destruct c; try discriminate Hl; exact IH.
  - exact IH.
  - exact IH.
Qed.

End RouteLock.

(** The invariant of the interleaving: every goroutine keeps the
    discipline from where it stands, a goroutine that holds the mutex has
    it locked, and no two goroutines hold it. *)
Definition lockInv (s : system) : Prop :=
  (forall i g, goroutines s !! i = Some g ->
               discipline (holding g) (todo g) <> None)
  /\ (forall i g, goroutines s !! i = Some g ->
                  holding g = true -> routeLock s = true)
  /\ (forall i j gi gj,
         goroutines s !! i = Some gi -> goroutines s !! j = Some gj ->
         holding gi = true -> holding gj = true -> i = j).

Lemma lockInv_start W pc pf pd pcs pds progs :
  Forall (program W pc pf pd pcs pds) progs -> lockInv (start progs).
Proof.
  intros Hp. unfold lockInv, start. simpl. repeat split.
  - intros i g Hg. rewrite list_lookup_fmap in Hg.
    destruct (progs !! i) as [p|] eqn:Hpi; [|discriminate Hg].
    injection Hg as <-. simpl.
    rewrite Forall_forall in Hp.
    rewrite (program_discipline W pc pf pd pcs pds p); [discriminate|].
    apply Hp. eapply list_elem_of_lookup_2, Hpi.
  - intros i g Hg Hh. rewrite list_lookup_fmap in Hg.
    destruct (progs !! i); [|discriminate Hg].
    injection Hg as <-. discriminate Hh.
  - intros i j gi gj Hgi _ Hh. rewrite list_lookup_fmap in Hgi.
    destruct (progs !! i); [|discriminate Hgi].
    injection Hgi as <-. discriminate Hh.
Qed.

(** A step that leaves the mutex and the flag of its goroutine alone. *)
Lemma lockInv_plain s i g rest :
  lockInv s ->
  goroutines s !! i = Some g ->
  discipline (holding g) rest <> None ->
  lockInv (mkSystem (routeLock s)
             (<[i := mkGoroutine (holding g) rest]> (goroutines s))).
Proof.
  intros (Hd & Hl & Hx) Hg Hrest. unfold lockInv. simpl. repeat split.
  - intros j gj Hj. apply list_lookup_insert_Some in Hj
      as [(-> & <- & _)|(Hne & Hj)]; [exact Hrest|].
    eapply Hd, Hj.
  - intros j gj Hj Hh. apply list_lookup_insert_Some in Hj
      as [(-> & <- & _)|(Hne & Hj)].
    + eapply Hl; [exact Hg|exact Hh].
    + eapply Hl; [exact Hj|exact Hh].
  - intros j k gj gk Hj Hk Hhj Hhk.
    apply list_lookup_insert_Some in Hj as [(<- & <- & _)|(Hnj & Hj)];
      apply list_lookup_insert_Some in Hk as [(<- & <- & _)|(Hnk & Hk)].
    + reflexivity.
    + eapply Hx; [exact Hg|exact Hk|exact Hhj|exact Hhk].
    + eapply Hx; [exact Hj|exact Hg|exact Hhj|exact Hhk].
    + eapply Hx; [exact Hj|exact Hk|exact Hhj|exact Hhk].
Qed.

Lemma lockInv_step s i s' : lockInv s -> step i s = Some s' -> lockInv s'.
Proof.
  intros Hinv Hs. unfold step in Hs.
  destruct (goroutines s !! i) as [g|] eqn:Hg; [|discriminate Hs].
  destruct (todo g) as [|o rest] eqn:Ht; [discriminate Hs|].
  pose proof Hinv as (Hd & Hl & Hx).
  pose proof (Hd i g Hg) as Hdi. rewrite Ht in Hdi.
  destruct o as [c|c|c].
  - destruct c;
      try (injection Hs as <-; apply lockInv_plain; [exact Hinv|exact Hg|];
           simpl in Hdi;
           match type of Hdi with
           | (if ?b then _ else _) <> _ => destruct b; [congruence|exact Hdi]
           | _ => exact Hdi
           end).
    + (* Lock *)
      destruct (routeLock s) eqn:Hlk; [discriminate Hs|]. injection Hs as <-.
      simpl in Hdi. destruct (holding g) eqn:Hh; [congruence|].
      unfold lockInv. simpl. repeat split.
      * intros j gj Hj. apply list_lookup_insert_Some in Hj
          as [(-> & <- & _)|(Hne & Hj)]; [exact Hdi|].
        eapply Hd, Hj.
      * intros j k gj gk Hj Hk Hhj Hhk.
        apply list_lookup_insert_Some in Hj as [(<- & <- & _)|(Hnj & Hj)];
          apply list_lookup_insert_Some in Hk as [(<- & <- & _)|(Hnk & Hk)].
        -- reflexivity.
        -- pose proof (Hl _ _ Hk Hhk). congruence.
        -- pose proof (Hl _ _ Hj Hhj). congruence.
        -- pose proof (Hl _ _ Hj Hhj). congruence.
    + (* Unlock *)
      destruct (routeLock s) eqn:Hlk; [|discriminate Hs]. injection Hs as <-.
      simpl in Hdi. destruct (holding g) eqn:Hh; [|congruence].
      unfold lockInv. simpl. repeat split.
      * intros j gj Hj. apply list_lookup_insert_Some in Hj
          as [(-> & <- & _)|(Hne & Hj)]; [exact Hdi|].
        eapply Hd, Hj.
      * intros j gj Hj Hhj. apply list_lookup_insert_Some in Hj
          as [(-> & <- & _)|(Hne & Hj)]; [discriminate Hhj|].
        exfalso. apply Hne. eapply Hx; [exact Hg|exact Hj|exact Hh|exact Hhj].
      * intros j k gj gk Hj Hk Hhj Hhk.
        apply list_lookup_insert_Some in Hj as [(<- & <- & _)|(Hnj & Hj)];
          apply list_lookup_insert_Some in Hk as [(<- & <- & _)|(Hnk & Hk)].
        -- reflexivity.
        -- discriminate Hhj.
        -- discriminate Hhk.
        -- eapply Hx; [exact Hj|exact Hk|exact Hhj|exact Hhk].
  - injection Hs as <-. apply lockInv_plain; [exact Hinv|exact Hg|exact Hdi].
  - injection Hs as <-. apply lockInv_plain; [exact Hinv|exact Hg|exact Hdi].
Qed.

Lemma lockInv_run sched :
  forall s s', lockInv s -> run sched s = Some s' -> lockInv s'.
Proof.
  induction sched as [|i sched IH]; intros s s' Hinv Hr; simpl in Hr.
  - injection Hr as <-. exact Hinv.
  - destruct (step i s) as [s1|] eqn:Hs; [|discriminate Hr].
    eapply IH; [|exact Hr]. eapply lockInv_step; [exact Hinv|exact Hs].
Qed.

(** C9: in every state that goroutines running the route helpers and the
    appliers can reach, in any interleaving, at most one goroutine is
    between the Lock and the Unlock of a route create or delete operation,
    single or batch; a goroutine about to change a route table holds the
    mutex; and a step of an applier neither waits for the mutex nor
    changes it. *)
Theorem route_mutations_mutually_exclusive :
  forall W pc pf pd pcs pds (progs : list (list Op)) (sched : list nat)
         (s : system),
    Forall (program W pc pf pd pcs pds) progs ->
    run sched (start progs) = Some s ->
    (forall i j gi gj,
        goroutines s !! i = Some gi -> goroutines s !! j = Some gj ->
        holding gi = true -> holding gj = true -> i = j)
    /\ (forall i g c rest,
           goroutines s !! i = Some g -> todo g = RouteOp c :: rest ->
           isMutation c = true ->
           holding g = true /\ routeLock s = true)
    /\ (forall i g o rest,
           goroutines s !! i = Some g -> todo g = o :: rest ->
           isRouteOp o = false ->
           exists s', step i s = Some s' /\ routeLock s' = routeLock s).
Proof.
  intros W pc pf pd pcs pds progs sched s Hp Hr.
  assert (Hinv : lockInv s).
  { eapply lockInv_run; [|exact Hr]. eapply lockInv_start, Hp. }
  destruct Hinv as (Hd & Hl & Hx).
  split; [exact Hx|]. split.
  - intros i g c rest Hg Ht Hm.
    pose proof (Hd i g Hg) as Hdi. rewrite Ht in Hdi.
    assert (holding g = true) as Hh.
    { destruct (holding g); [reflexivity|].
      destruct c; try discriminate Hm; simpl in Hdi; congruence. }
    split; [exact Hh|]. eapply Hl; [exact Hg|exact Hh].
  - intros i g o rest Hg Ht Ho.
    unfold step. rewrite Hg, Ht.
    destruct o as [c|c|c]; [discriminate Ho| |]; eexists; split; reflexivity.
Qed.

(** Three goroutines: a single delete, a batch create and a step of the
    NLB applier. *)
Definition quietDelete : string -> string -> string -> unit -> option string * unit :=
  fun _ _ _ w => (None, w).
Definition quietCreateRoutes
  : string -> list route.Route -> unit ->
    (list string * list route.RouteUpdateStatus * option string) * unit :=
  fun _ _ w => (([], [], None), w).

Definition exampleGoroutines : list (list Op) :=
  [ map RouteOp
      (calls (route.deleteRouteForInstance unit quietDelete
                "vtb-1" "cn-hangzhou.i-a" "10.1.5.0/24" tt)) ++ [];
    map RouteOp
      (calls (route.LockedCreateRoutes unit quietCreateRoutes "vtb-1" [] tt))
      ++ [];
    NlbOp (nlbv2.DeleteServerGroup "sgp-1") :: [] ].

(** The first goroutine has taken the mutex; the second one cannot. *)
Example second_goroutine_waits :
  run [0; 1]%nat (start exampleGoroutines) = None
  /\ run [0; 0; 0; 1]%nat (start exampleGoroutines) <> None.
Proof. split; [reflexivity|discriminate]. Qed.

Definition exampleState : system :=
  mkSystem true
    [ mkGoroutine true
        [RouteOp (route.DeleteRoute "vtb-1" "cn-hangzhou.i-a" "10.1.5.0/24");
         RouteOp route.Unlock];
      mkGoroutine false
        [RouteOp route.Lock; RouteOp (route.CreateRoutes "vtb-1" []);
         RouteOp route.Unlock];
      mkGoroutine false [] ].

Lemma route_mutations_mutually_exclusive_witness :
  (forall i j gi gj,
      goroutines exampleState !! i = Some gi ->
      goroutines exampleState !! j = Some gj ->
      holding gi = true -> holding gj = true -> i = j)
  /\ (forall i g c rest,
         goroutines exampleState !! i = Some g -> todo g = RouteOp c :: rest ->
         isMutation c = true ->
         holding g = true /\ routeLock exampleState = true)
  /\ (forall i g o rest,
         goroutines exampleState !! i = Some g -> todo g = o :: rest ->
         isRouteOp o = false ->
         exists s', step i exampleState = Some s'
                    /\ routeLock s' = routeLock exampleState).
Proof.
  apply (route_mutations_mutually_exclusive unit
           (fun _ _ _ w => ((None, None), w)) (fun _ _ _ w => ((None, None), w))
           quietDelete quietCreateRoutes (fun _ _ w => (([], None), w))
           exampleGoroutines [2; 0]%nat exampleState).
  - repeat constructor.
  - reflexivity.
Defined.

(** ** The reconciler under the route lock *)

Section ReconcilerPrograms.

Variable W : Type.
Variable providerCreateRoute :
  string -> string -> string -> W -> (option route.Route * option string) * W.
Variable providerFindRoute :
  string -> string -> string -> W -> (option route.Route * option string) * W.
Variable providerDeleteRoute :
  string -> string -> string -> W -> option string * W.
Variable providerListRoute :
  string -> W -> (list route.Route * option string) * W.
Variable providerCreateRoutes :
  string -> list route.Route -> W ->
  (list string * list route.RouteUpdateStatus * option string) * W.
Variable providerDeleteRoutes :
  string -> list route.Route -> W ->
  (list route.RouteUpdateStatus * option string) * W.
Variable getIPv4RouteForNode :
  route.Node -> option net.IPNet * string * option string.
Variable HasExcludeLabel : route.Node -> bool.
Variable ReadyConditionUnknown : route.Node -> bool.
Variable addRouteForNode :
  string -> string -> string -> route.Node -> list route.Route -> W ->
  option string * W.
Variable updateNetworkingCondition :
  route.Node -> bool -> W -> option string * W.

Local Abbreviation runs :=
  (program W providerCreateRoute providerFindRoute providerDeleteRoute
     providerCreateRoutes providerDeleteRoutes).

(** A call of the reconciler outside the four entry points. *)
Definition plainCall (c : route.Call) : bool :=
  negb (isMutation c) && negb (isLockOp c).

Lemma program_plain t rest :
  forallb plainCall t = true -> runs rest -> runs (map RouteOp t ++ rest).
Proof.
  induction t as [|c t IH]; intros Ht Hrest; [exact Hrest|].
  cbn [forallb] in Ht. apply andb_prop in Ht as [Hc Ht].
  apply andb_prop in Hc as [Hm Hl]. apply negb_true_iff in Hm, Hl.
  cbn [map app]. apply prog_reconciler; auto.
Qed.

Lemma program_deletions table rts rest (w : W) :
  runs rest ->
  runs (map RouteOp (flat_map (route.deletionOf table) rts) ++ rest).
Proof.
  intros Hrest. induction rts as [|rt rts IH]; [exact Hrest|].
  cbn [flat_map]. rewrite map_app, <- app_assoc.
  unfold route.deletionOf at 1.
  rewrite <- (deleteRouteForInstance_section W providerDeleteRoute table
                (route.ProviderId rt) (route.DestinationCIDR rt)
                w).
  apply prog_deleteRouteForInstance. exact IH.
Qed.

Lemma addBlock_plain s block :
  route.addBlock s block -> forallb plainCall block = true.
Proof.
  unfold route.addBlock. destruct (route.failsOnCreate s).
  - intros ->. reflexivity.
  - intros [-> | ->]; reflexivity.
Qed.

Lemma deleteBlock_plain s block :
  route.deleteBlock s block -> forallb plainCall block = true.
Proof.
  unfold route.deleteBlock. destruct (route.failsOnDelete s); intros ->;
    reflexivity.
Qed.

Lemma blocks_plain {A} (R : A -> list route.Call -> Prop) l blocks :
  (forall a b, R a b -> forallb plainCall b = true) ->
  Forall2 R l blocks -> forallb plainCall (concat blocks) = true.
Proof.
  intros HR. induction 1 as [|a b l blocks Hab _ IH]; [reflexivity|].
  cbn [concat]. rewrite forallb_app, (HR _ _ Hab), IH. reflexivity.
Qed.

Lemma creations_plain t :
  forallb route.isCreation t = true -> forallb plainCall t = true.
Proof.
  induction t as [|c t IH]; [reflexivity|]. cbn [forallb].
  intros H. apply andb_prop in H as [Hc Ht]. rewrite (IH Ht), andb_true_r.
  destruct c; try discriminate Hc; reflexivity.
Qed.

(** X25: the functions of the route reconciler keep the lock discipline:
    every trace of syncTableRoutes, batchAddRoutes and batchDeleteRoutes
    is a program in the sense of the interleaving model, a sequence of
    the locked entry points (deleteRouteForInstance, LockedCreateRoutes,
    LockedDeleteRoutes) and of calls that themselves change no route
    table (the listing, the requests handed to addRouteForNode, the node
    conditions and the requeues). They issue no route mutation and no
    lock operation outside those entry points. *)
Theorem reconciler_keeps_lock_discipline :
  forall ClusterCIDR table nodes routes w,
    runs (map RouteOp
            (calls (route.syncTableRoutes W providerDeleteRoute
                      providerListRoute getIPv4RouteForNode HasExcludeLabel
                      ReadyConditionUnknown addRouteForNode
                      updateNetworkingCondition ClusterCIDR table nodes w)))
    /\ runs (map RouteOp
               (calls (route.batchAddRoutes W providerCreateRoutes
                         updateNetworkingCondition table routes w)))
    /\ runs (map RouteOp
               (calls (route.batchDeleteRoutes W providerDeleteRoutes
                         table routes w))).
Proof.
  intros ClusterCIDR table nodes routes w. split; [|split].
  - destruct (providerListRoute table w) as [[rts [e|]] w1] eqn:Hl.
    + unfold route.syncTableRoutes, bind, call, ret, calls. rewrite Hl.
      cbn [fst snd map app].
      apply prog_reconciler; [reflexivity|reflexivity|apply prog_done].
    + destruct (route.clusterNet ClusterCIDR) as [c|] eqn:Hc.
      * rewrite (route.syncTableRoutes_run _ _ _ _ _ _ _ _ _ _ _ _ _ _ _ Hl Hc).
        rewrite route.deleteConflicts_calls. cbn [map].
        apply prog_reconciler; [reflexivity|reflexivity|].
        rewrite map_app. apply (program_deletions _ _ _ w).
        rewrite <- (app_nil_r (map RouteOp _)).
        apply program_plain; [|apply prog_done].
        apply creations_plain, route.addRoutes_calls.
      * unfold route.syncTableRoutes, bind, call, ret, calls. rewrite Hl, Hc.
        cbn [fst snd map app].
        apply prog_reconciler; [reflexivity|reflexivity|apply prog_done].
  - destruct routes as [|r routes]; [apply prog_done|].
    unfold route.batchAddRoutes. rewrite calls_bind.
    rewrite LockedCreateRoutes_section, map_app.
    rewrite <- (LockedCreateRoutes_section W providerCreateRoutes table
                  (r :: routes) w).
    apply prog_LockedCreateRoutes.
    destruct (result (route.LockedCreateRoutes W providerCreateRoutes table
                        (r :: routes) w)) as [[ids statuses] [e|]];
      [apply prog_done|].
    rewrite calls_bind.
    match goal with
    | |- context [route.forEach W ?f statuses ?w'] =>
        destruct (route.forEach_blocks W f route.addBlock
                    (route.handleAddStatus_block W updateNetworkingCondition
                       table) statuses w') as (blocks & Hb & HF)
    end.
    rewrite Hb.
    match goal with
    | |- context [calls (ret ?x ?w')] =>
        change (calls (ret x w')) with (@nil route.Call)
    end.
    rewrite app_nil_r, <- (app_nil_r (map RouteOp _)).
    apply program_plain; [|apply prog_done].
    exact (blocks_plain _ _ _ addBlock_plain HF).
  - destruct routes as [|r routes]; [apply prog_done|].
    unfold route.batchDeleteRoutes. rewrite calls_bind.
    rewrite LockedDeleteRoutes_section, map_app.
    rewrite <- (LockedDeleteRoutes_section W providerDeleteRoutes table
                  (r :: routes) w).
    apply prog_LockedDeleteRoutes.
    destruct (result (route.LockedDeleteRoutes W providerDeleteRoutes table
                        (r :: routes) w)) as [statuses [e|]];
      [apply prog_done|].
    rewrite calls_bind.
    match goal with
    | |- context [route.forEach W ?f statuses ?w'] =>
        destruct (route.forEach_blocks W f route.deleteBlock
                    (route.handleDeleteStatus_block W) statuses w')
          as (blocks & Hb & HF)
    end.
    rewrite Hb.
    match goal with
    | |- context [calls (ret ?x ?w')] =>
        change (calls (ret x w')) with (@nil route.Call)
    end.
    rewrite app_nil_r, <- (app_nil_r (map RouteOp _)).
    apply program_plain; [|apply prog_done].
    exact (blocks_plain _ _ _ deleteBlock_plain HF).
Qed.

End ReconcilerPrograms.

(** ** The order of the phases of Apply *)

(** The order in which the appliers go through their phases. *)
Definition phaseOrder : list Phase :=
  [BuildRemoteLoadBalancer; ApplyLoadBalancerAttribute;
   BuildRemoteServerGroups; ApplyVGroups;
   BuildRemoteListeners; ApplyListeners; Cleanup].

Section ApplyPhases.

Variable S : Type.
Variable lbBuildRemoteModel : S -> option string * S.
Variable phaseApplyLoadBalancerAttribute : S -> attrOutcome * S.
Variable sgBuildRemoteModel : S -> option string * S.
Variable phaseApplyVGroups : S -> option string * S.
Variable lisBuildRemoteModel : S -> option string * S.
Variable phaseApplyListeners : S -> option string * S.
Variable phaseCleanup : S -> option string * S.
Variable remoteLoadBalancerId : S -> string.

Local Abbreviation nlbApply :=
  (nlbv2.Apply S lbBuildRemoteModel phaseApplyLoadBalancerAttribute
               sgBuildRemoteModel phaseApplyVGroups lisBuildRemoteModel
               phaseApplyListeners phaseCleanup remoteLoadBalancerId).
Local Abbreviation clbApply :=
  (clbv1.Apply S lbBuildRemoteModel phaseApplyLoadBalancerAttribute
               sgBuildRemoteModel phaseApplyVGroups lisBuildRemoteModel
               phaseApplyListeners phaseCleanup remoteLoadBalancerId).

Ltac phase :=
  match goal with
  | |- context [lbBuildRemoteModel ?s] =>
      is_var s; destruct (lbBuildRemoteModel s) as [[?|] ?] eqn:?
  | |- context [phaseApplyLoadBalancerAttribute ?s] =>
      is_var s; destruct (phaseApplyLoadBalancerAttribute s) as [[|?|?] ?] eqn:?
  | |- context [sgBuildRemoteModel ?s] =>
      is_var s; destruct (sgBuildRemoteModel s) as [[?|] ?] eqn:?
  | |- context [phaseApplyVGroups ?s] =>
      is_var s; destruct (phaseApplyVGroups s) as [[?|] ?] eqn:?
  | |- context [lisBuildRemoteModel ?s] =>
      is_var s; destruct (lisBuildRemoteModel s) as [[?|] ?] eqn:?
  | |- context [phaseApplyListeners ?s] =>
      is_var s; destruct (phaseApplyListeners s) as [[?|] ?] eqn:?
  | |- context [phaseCleanup ?s] =>
      is_var s; destruct (phaseCleanup s) as [[?|] ?] eqn:?
  | |- context [String.eqb (remoteLoadBalancerId ?s) ""] =>
      is_var s; destruct (String.eqb (remoteLoadBalancerId s) "") eqn:?
  | |- context [if negb ?b then _ else _] => is_var b; destruct b
  | |- context [if ?b then _ else _] => is_var b; destruct b
  end;
  cbn beta iota zeta delta [fst snd app negb andb orb].

Ltac run_Apply :=
  unfold nlbv2.Apply, nlbv2.applyListenerPhase, clbv1.Apply,
    clbv1.applyListenerPhase, bind, call, ret, get, calls, result;
  cbn beta iota zeta delta [fst snd app negb andb orb];
  repeat phase.

Ltac in_order :=
  unfold phaseOrder;
  repeat first [apply sublist_nil | apply sublist_skip | apply sublist_cons].

(** X26: whatever the phases answer, either Apply calls its phases in the
    one order load balancer, server groups, listeners, cleanup, each
    phase at most once; and it returns a nil model only after the
    attribute reconciliation failed with an error that is no aggregate,
    in which case that error is the result and no later phase has
    run. *)
Theorem Apply_phase_order :
  forall serviceHashChanged DryRun NeedDeleteLoadBalancer (s : S),
    (sublist (calls (nlbApply serviceHashChanged DryRun
                       NeedDeleteLoadBalancer s)) phaseOrder
     /\ sublist (calls (clbApply serviceHashChanged DryRun
                          NeedDeleteLoadBalancer s)) phaseOrder)
    /\ (forall apply,
          apply = nlbApply \/ apply = clbApply ->
          forall errs,
            result (apply serviceHashChanged DryRun NeedDeleteLoadBalancer s)
            = (false, errs) ->
            exists e s1,
              serviceHashChanged || DryRun = true
              /\ lbBuildRemoteModel s = (None, s1)
              /\ fst (phaseApplyLoadBalancerAttribute s1) = AttrOther e
              /\ errs = [ErrAttribute e]
              /\ calls (apply serviceHashChanged DryRun
                          NeedDeleteLoadBalancer s)
                 = [BuildRemoteLoadBalancer; ApplyLoadBalancerAttribute]).
Proof using Type.
  intros hc dr nd s. split; [split|].
  - destruct (hc || dr) eqn:Hg; run_Apply; rewrite ?Hg;
      cbn beta iota zeta delta [fst snd app negb andb orb];
      repeat phase; cbn; in_order.
  - destruct (hc || dr) eqn:Hg; run_Apply; rewrite ?Hg;
      cbn beta iota zeta delta [fst snd app negb andb orb];
      repeat phase; cbn; in_order.
  - intros apply [-> | ->] errs; destruct (hc || dr) eqn:Hg; run_Apply;
      rewrite ?Hg; cbn beta iota zeta delta [fst snd app negb andb orb];
      repeat phase; cbn; intros Hr;
      try discriminate Hr;
      injection Hr as <-;
      match goal with
      | H : phaseApplyLoadBalancerAttribute ?s1 = (AttrOther ?e, _) |- _ =>
          exists e, s1; rewrite H
      end;
      (split; [reflexivity|]); (split; [reflexivity|]);
      (split; [reflexivity|]); split; reflexivity.
Qed.

(** X27: with the gate open (the service hash changed, or dry-run mode),
    an Apply that returns no error has run every phase, in order; the
    only runs that end without error and without the listener phases
    are those of a service that is being deleted whose load balancer has
    no identity: nlbv2 then skips the two listener phases, clbv1 stops
    after the attribute reconciliation. *)
Theorem Apply_success_is_complete :
  forall serviceHashChanged DryRun NeedDeleteLoadBalancer (s : S),
    serviceHashChanged || DryRun = true ->
    (snd (result (nlbApply serviceHashChanged DryRun
                    NeedDeleteLoadBalancer s)) = [] ->
     calls (nlbApply serviceHashChanged DryRun NeedDeleteLoadBalancer s)
     = phaseOrder
     \/ (NeedDeleteLoadBalancer = true
         /\ calls (nlbApply serviceHashChanged DryRun
                     NeedDeleteLoadBalancer s)
            = [BuildRemoteLoadBalancer; ApplyLoadBalancerAttribute;
               BuildRemoteServerGroups; ApplyVGroups; Cleanup]))
    /\ (snd (result (clbApply serviceHashChanged DryRun
                       NeedDeleteLoadBalancer s)) = [] ->
        calls (clbApply serviceHashChanged DryRun NeedDeleteLoadBalancer s)
        = phaseOrder
        \/ (NeedDeleteLoadBalancer = true
            /\ calls (clbApply serviceHashChanged DryRun
                        NeedDeleteLoadBalancer s)
               = [BuildRemoteLoadBalancer; ApplyLoadBalancerAttribute])).
Proof using Type.
  intros hc dr nd s Hg. split.
  - run_Apply; rewrite ?Hg;
      cbn beta iota zeta delta [fst snd app negb andb orb];
      repeat phase; cbn; intros Hr; try discriminate Hr;
      first [left; reflexivity | right; split; reflexivity].
  - run_Apply; rewrite ?Hg;
      cbn beta iota zeta delta [fst snd app negb andb orb];
      repeat phase; cbn; intros Hr; try discriminate Hr;
      first [left; reflexivity | right; split; reflexivity].
Qed.

(** X28: an aggregate error of the attribute reconciliation does not
    stop Apply: nlbv2 always returns it as the first of its errors, with
    the observed model. clbv1 does the same unless the observed load
    balancer has no identity and the service is being deleted: then it
    returns no error at all and the aggregate error is lost. *)
Theorem aggregate_attribute_error :
  forall serviceHashChanged DryRun NeedDeleteLoadBalancer (s s1 s2 : S) e,
    serviceHashChanged || DryRun = true ->
    lbBuildRemoteModel s = (None, s1) ->
    phaseApplyLoadBalancerAttribute s1 = (AttrAggregate e, s2) ->
    (exists rest,
        result (nlbApply serviceHashChanged DryRun NeedDeleteLoadBalancer s)
        = (true, ErrUpdateAttribute e :: rest))
    /\ (if String.eqb (remoteLoadBalancerId s2) "" && NeedDeleteLoadBalancer
        then clbApply serviceHashChanged DryRun NeedDeleteLoadBalancer s
             = (((true, []), s2),
                [BuildRemoteLoadBalancer; ApplyLoadBalancerAttribute])
        else exists rest,
            result (clbApply serviceHashChanged DryRun
                      NeedDeleteLoadBalancer s)
            = (true, ErrUpdateAttribute e :: rest)).
Proof using Type.
  intros hc dr nd s s1 s2 e Hg Hb Ha. split.
  - unfold nlbv2.Apply, nlbv2.applyListenerPhase, bind, call, ret, get,
      calls, result.
    rewrite Hg, Hb. cbn beta iota zeta delta [fst snd app negb andb orb].
    rewrite Ha. cbn beta iota zeta delta [fst snd app negb andb orb].
    repeat phase; cbn; eexists; reflexivity.
  - unfold clbv1.Apply, clbv1.applyListenerPhase, bind, call, ret, get,
      calls, result.
    rewrite Hg, Hb. cbn beta iota zeta delta [fst snd app negb andb orb].
    rewrite Ha. cbn beta iota zeta delta [fst snd app negb andb orb].
    destruct (String.eqb (remoteLoadBalancerId s2) "").
    + destruct nd; cbn; [reflexivity|eexists; reflexivity].
    + cbn beta iota zeta delta [fst snd app negb andb orb].
      repeat phase; cbn; eexists; reflexivity.
Qed.

End ApplyPhases.

(** Phases that succeed, and an attribute reconciliation that fails with
    an aggregate error. *)
Definition phaseOk : unit -> option string * unit := fun s => (None, s).
Definition attributeOk : unit -> attrOutcome * unit := fun s => (AttrOk, s).
Definition attributeAggregate : unit -> attrOutcome * unit :=
  fun s => (AttrAggregate "set name: throttled", s).

Lemma Apply_success_is_complete_witness :
  true || false = true
  /\ calls (nlbv2.Apply unit phaseOk attributeOk phaseOk phaseOk phaseOk
              phaseOk phaseOk (fun _ => "nlb-1") true false false tt)
     = phaseOrder
  /\ calls (clbv1.Apply unit phaseOk attributeOk phaseOk phaseOk phaseOk
              phaseOk phaseOk (fun _ => "") true false true tt)
     = [BuildRemoteLoadBalancer; ApplyLoadBalancerAttribute].
Proof.
  split; [reflexivity|]. split.
  - destruct (Apply_success_is_complete unit phaseOk attributeOk phaseOk
                phaseOk phaseOk phaseOk phaseOk (fun _ => "nlb-1")
                true false false tt eq_refl) as [Hn _].
    destruct (Hn eq_refl) as [H | [H _]]; [exact H|discriminate H].
  - destruct (Apply_success_is_complete unit phaseOk attributeOk phaseOk
                phaseOk phaseOk phaseOk phaseOk (fun _ => "")
                true false true tt eq_refl) as [_ Hc].
    destruct (Hc eq_refl) as [H | [_ H]]; [discriminate H|exact H].
Defined.

Lemma aggregate_attribute_error_witness :
  (true || false = true
   /\ phaseOk tt = (None, tt)
   /\ attributeAggregate tt = (AttrAggregate "set name: throttled", tt))
  /\ (exists rest,
         result (nlbv2.Apply unit phaseOk attributeAggregate phaseOk phaseOk
                   phaseOk phaseOk phaseOk (fun _ => "") true false true tt)
         = (true, ErrUpdateAttribute "set name: throttled" :: rest))
  /\ clbv1.Apply unit phaseOk attributeAggregate phaseOk phaseOk phaseOk
       phaseOk phaseOk (fun _ => "") true false true tt
     = (((true, []), tt),
        [BuildRemoteLoadBalancer; ApplyLoadBalancerAttribute]).
Proof.
  split; [repeat split|].
  exact (aggregate_attribute_error unit phaseOk attributeAggregate phaseOk
           phaseOk phaseOk phaseOk phaseOk (fun _ => "")
           true false true tt tt tt "set name: throttled"
           eq_refl eq_refl eq_refl).
Defined.
